(* ===== verification/_CoqProject ===== *)
-Q . S2P
Prelude.v
GoString.v
Errors.v
Types.v
Float.v
Duration.v
Status.v
Kube.v
KubeLogic.v
ApiServer.v
Syncer.v
SyncerProps.v
Watch.v
Modes.v
MappingController.v
ModesProps.v
Rfc3339.v
Regexp.v
Progress.v
Immutable.v
ImmutableProps.v
Cli.v
CliProps.v
Lock.v
LockProps.v
Helpers.v
HelpersProps.v
RsyncExec.v
RsyncProps.v
Concurrency.v
Metrics.v
ClusterMapping.v
ClusterMappingProps.v
ConnectivityProps.v
Agent.v
Deployer.v
RemoteCluster.v
RemoteClusterProps.v
ClusterConditions.v
RsyncPod.v
Workflow.v
RsyncController.v
RsyncPodProps.v
WorkflowProps.v
TempPod.v
DaemonSet.v
TempPodProps.v
MountPods.v
MountPodsProps.v
Coordinator.v
CoordinatorProps.v
Executor.v
Health.v
HealthProps.v
AgentKeys.v
AgentKeysProps.v
Config.v
Logging.v
ReplicationController.v
Queue.v
Link.v
LinkProps.v
System.v
SystemProps.v
Main.v
DeepCopy.v
DeepCopyProps.v
