(* ===== verification/Prelude.v ===== *)
(** * dr-syncer: a model of the synchronisation core and its theorems

    dr-syncer replicates the resources of Kubernetes namespaces from a source cluster
    to a disaster-recovery cluster.  A NamespaceMapping names the two namespaces and a
    mode (scheduled, continuous, manual); a controller reconciles it by copying
    resources through the API servers of both clusters and by copying the data of
    volumes with rsync: an agent on every node of the clusters serves the files of the
    volumes over SSH, a RemoteCluster deploys the agents, a ClusterMapping connects those
    of two clusters.  This library models that path from the controllers and the command
    line down to the calls of the API servers, and proves what it promises.

    ** How Go code is represented

    A procedure is a program ([prog], this file) over a signature of calls: the calls
    to the API servers, the clock and the replication package for the controllers
    ([KSig], Kube.v), the steps of a PVC sync for the rsync workflow ([RSig],
    Workflow.v).  It returns, panics, or makes a call and goes on with the answer; a Go
    error is a value of its result ([res], Errors.v), a nil interface is [None].
    Three readings of a program are used:
    - [run] against a handler, an environment with a state.  What is assumed of the
      environment is a class of documented laws: [LawfulKube], [LawfulStore]
      (ApiServer.v), [LawfulMappings] (ModesProps.v), [LawfulSemaphore]
      (Concurrency.v), [LawfulRetry] (ClusterMapping.v), [LawfulClock] and
      [LawfulOnError] (ImmutableProps.v, Immutable.v), [QuietStore] (a server nobody else
      writes to, ApiServer.v), [LawfulCodec] (JSON, Helpers.v), [LawfulBackoff]
      (RemoteCluster.v), [LawfulPoller] (RsyncPod.v), [LawfulPodBackoff] and
      [LawfulConflictRetry] (MountPods.v), [LawfulImmediatePoller] and [LawfulWorkers] (the
      goroutines of the coordinator, Coordinator.v), [LawfulLeaderElection] (AgentKeys.v),
      [LawfulLabelFormat] (ReplicationController.v), each with a concrete instance;
    - [runs], all its executions when nothing is known of the environment, with the
      rules [safe] (every call satisfies a predicate) and [monitored] (an automaton
      accepts the calls with their answers);
    - [interleave], any interleaving of the calls of several programs.
    Programs are well-founded trees, so every execution ends; loops are bounded by
    the constants of the code or the length of a slice and need no other fuel, except
    the worker pool of a connection test ([run_pool], ClusterMapping.v): a task takes at
    most three steps, so [pool_fuel] is enough for any schedule ([run_pool_ok]), and the
    polling loops of immutable resources ([poll_until], Immutable.v): a round sleeps a
    second, so [poll_fuel] of the timeout is enough ([HandleImmutableResource_returns]).
    A loop over a ticker under a timeout takes the number of its ticks as the argument
    [ticks]; the theorems hold for every number.
    Durations and instants are nanoseconds; machine integers wrap where the code can
    overflow ([int32], [int64]); float64 is rounding to 53 bits (Float.v).

    ** The files

    - Prelude: programs, executions, monitors, interleavings, integers, automation.
    - GoString, Rfc3339, Float: the parts of Go's standard library the code uses.
    - Errors: error values and pkg/controllers/syncer/errors.
    - Types: api/v1alpha1.
    - Duration: formatDuration, time.ParseDuration, pkg/util/backoff.go.
    - Status: statusEqual and its helpers (pkg/controllers/modes/reconciler.go).
    - Kube, KubeLogic, ApiServer: objects, calls, pkg/controllers/utils; rules and
      tactics for programs over the calls; the laws of an API server and a small
      reference server that satisfies them.
    - Syncer, SyncerProps: pkg/controllers/syncer (sync.go, resource_handlers.go,
      pvc_handler.go, validation).
    - Watch: pkg/controllers/watch/watch.go.
    - Modes, MappingController, ModesProps: pkg/controllers/modes/reconciler.go and
      pkg/controllers/namespacemapping_controller.go.
    - Immutable, ImmutableProps: pkg/controllers/sync (immutable.go, pvc.go).
    - Cli, CliProps: pkg/cli (mode.go, config.go, cli.go) and the flags of
      cmd/cli/main.go.
    - Lock, LockProps: AcquirePVCLock and ReleasePVCLock of
      pkg/controller/replication/rsync_helpers.go, and pvc_lock.go.
    - Helpers, HelpersProps: the rest of rsync_helpers.go and the mapping updates of
      pvc_sync.go, same package: where a claim is used, its agent, its mount path.
    - Regexp, Progress: a matcher for the patterns of the code and the parsers of rsync
      output in sync_status.go.
    - RsyncExec, RsyncProps: perform_rsync.go, the status annotations of sync_status.go
      and the retry loops of pvc_sync.go.
    - Workflow, WorkflowProps: rsync_workflow.go, sync_replication.go, sync_pvc.go and
      sync_pvc_with_mapping.go of the same package.
    - Concurrency, Metrics: global_concurrency.go and pkg/util/workerpool.go; metrics.go of
      the replication package.
    - ClusterMapping, ClusterMappingProps, ConnectivityProps:
      pkg/controllers/cluster_mapping_controller.go and its _retry.go, with a signature
      of calls of its own ([CSig]).
    - Agent, Deployer: the calls of the RemoteCluster controller ([MSig]),
      pkg/agent/ssh/keys.go and pkg/agent/deploy/deploy.go.
    - RemoteCluster, RemoteClusterProps, ClusterConditions:
      pkg/controllers/cluster_controller.go and pkg/controller/remotecluster
      (controller.go, pvc_sync.go).
    - RsyncPod, RsyncController, RsyncPodProps: pkg/agent/rsyncpod/deployment.go, the
      commands in its pods (executeCommandInPod of pvc_sync.go, ssh_connectivity.go), and
      rsync_deployment_controller.go, composed of the programs of Helpers and RsyncPod.
    - TempPod, DaemonSet, TempPodProps: pkg/agent/tempod (pods, claims, CSI paths) and
      pkg/agent/rsyncpod/daemonset.go, the pool of rsync pods with its placeholder pods.
    - MountPods, MountPodsProps: pkg/controller/remotecluster/temp/pod.go and
      pkg/pvcmounter.
    - Coordinator, CoordinatorProps: pkg/agent/sync (pvc.go, coordinator.go) and
      pkg/agent/rsync.
    - Executor: pkg/agent/rsyncpod/command.
    - Health, HealthProps: pkg/agent/health, over calls of its own ([HSig]).
    - AgentKeys, AgentKeysProps: keys.go of the replication package, and
      pkg/agent/ssh/keygen.go, server.go, pkg/agent/leader and pkg/agent/daemon.
    - Config, Logging: pkg/config, pkg/logging and the choices of cmd/agent/main.go.
    - ReplicationController: controller.go, integration.go and the claim selection of
      pvc_sync.go in the replication package, with their constructors.
    - Queue: the SetupWithManager functions of the three controllers, and when
      controller-runtime runs a reconciliation again.
    - Link, LinkProps: the steps of the workflow ([RSig]) replaced by the programs of Lock,
      Helpers, RsyncPod, DaemonSet and RsyncExec that implement them ([interp], [link]).
    - System, SystemProps: the resource syncer with its data syncs replaced by the linked
      workflow ([translate], [system]): one program from SyncNamespaceResources down to the
      calls of the API servers and the concurrency manager.
    - Main: main.go, main of cmd/agent with pkg/agent/daemon, pkg/cli/client.go and
      pkg/version.
    - DeepCopy, DeepCopyProps: the structures of api/v1alpha1 with their DeepCopyInto,
      DeepCopy and DeepCopyObject, on a store with pointers, slices and maps.

    ** What the theorems show

    - Resource sync: a namespace sync writes only where it should, for any answers of
      the servers; SyncResource creates sanitized copies, updates only on a real
      difference with the version it read, and is idempotent; deployments arrive with
      the intended replicas; of existing claims only the requests change.
    - The joined system: a namespace sync, with its data syncs, writes only where it should,
      works on data only in a slot of the concurrency manager and gives every slot back, and
      what it takes for a successful data sync means.
    - The queue: a RemoteCluster is always looked at again; a due mapping is retried without
      its backoff; a ClusterMapping whose first validation fails rests.
    - Processes: the controller starts by a fixed script, in which the initial agent sync
      does nothing; an agent writes its key secret only, and never rotates it.
    - Reconciliation: status updates are optimistic and bounded, the retry schedule is
      exact through its textual storage, a scheduled sync that succeeds is stored as
      completed and requeued for its next time, a manual mapping waits for its trigger.
    - Locks: mutual exclusion under any interleaving, expiry after an hour, release
      restores the claim.
    - Workflow: on every path, including panics, the clusters are touched only under
      the lock, and when the workflow returns the lock is released and the pod that got
      ready is cleaned up; what a nil error means.  [link_refines] says that the executions
      of the linked workflow are exactly those of its steps carried out, and takes these
      facts to the API calls: the lock taken is given back by a complete execution of
      ReleasePVCLock, the writes of a data sync are confined, and nil means that rsync ran
      and files arrived, or why not.
    - Cluster mappings: every status write is a step of the phase machine under the
      mutex; the stored phase refines that machine; a mapping is Connected only when each
      target agent reached a source agent, under any schedule of the tests; backoffs are
      kept; keys cannot escape from shell commands.
    - Remote clusters: what a reconciliation of the PVC sync leaves in the status, and that
      it never dereferences a missing deployment time; when it keeps its hands off the
      clusters; status updates go to versions that were read and keep one condition per
      type; only public keys are stored with the controller; the deployment of the
      agent's DaemonSet converges.
    - Immutable resources: handling one always returns; a partial update keeps identity
      and immutable fields; the two implementations of the claim mappings compared.
    - Command line: staging writes only to the destination namespace; a failback gives
      back the replicas a cutover took; quoted arguments are read back.
    - Rsync: the phases performRsync writes and what its result means; the waits between
      attempts and success after an outage; the lookups of a claim's node agree; the
      cache of mount paths serves only the agent it was filled for.
    - Rsync pods: the rsync controller deletes the deployment it created on every way out and
      touches nothing else of the destination; without the package's context values it
      transfers nothing; which claims share the label the cleanup goes by.
    - Pods for claims: placeholder, temporary and mount pods are the only writes of the code
      that makes them, and are deleted again when it fails, with the one exception stated.
    - Agents: a coordinator that returns nil has transferred every claim, and deletes the
      claims it copied to; the health check computes the node statuses from the pods and
      closes every connection; keys are written in pairs, keys added for temporary pods
      damage no other; when a rotation takes place.
    - Deep copies: a copy has the content of the original and shares no cell with it, for
      the structures whose copying is complete; the others are listed with what they share.
    - Concurrency: the limits on running syncs and tasks hold under any schedule;
      SubmitAndWait finishes.
    - Numbers and text: durations, lock values and backoffs round-trip or stay within
      their bounds in the code's own arithmetic.
    - Where the code does not do what it says, a theorem states what it does: nil
      clients, a lost category, a closed channel, a swallowed panic, an overflow.

    ** What is not modelled

    How log lines are formatted and where the code logs; the text of events; where the
    metrics are recorded (the functions that record them are modelled, the gauges of the
    concurrency manager are not); the content of fields no code inspects ([Payload]); the
    client libraries behind the calls; the functions that name a logger or register the API
    types, and getters of clients; a retry loop of deployment.go that nothing calls; the
    fixtures of the tests (pkg/testutil).
    The goroutine that reports progress during a transfer is a step of its own
    ([progress_tick]).
    The cron library, the queue and the cache of controller-runtime, the weighted semaphore, client-go's RetryOnConflict and OnError, the
    polling and backoff functions of apimachinery's wait package, leader election, SSH
    connections, quantities, the REST mapper, the JSON of objects and annotations, fingerprints and the API servers
    are parameters. *)

From stdpp Require Export base list gmap strings.
From Stdlib Require Export ZArith Lia.

(** ** Go procedures

    A Go procedure that talks to its environment (API servers, the clock, the
    random source) is a program over a signature of calls: it returns, panics, or
    makes a call and continues with the answer.  Go errors are ordinary values of
    its result. *)

Inductive exec (A : Type) : Type :=
| Ret (a : A)
| Panic (why : string).
Arguments Ret {A} a.
Arguments Panic {A} why.

Record Sig : Type := mkSig { Op : Type; Resp : Op → Type }.

Inductive prog (Sg : Sig) (A : Type) : Type :=
| PRet (a : A)
| PPanic (why : string)
| PCall (o : Op Sg) (k : Resp Sg o → prog Sg A).
Arguments PRet {Sg A} a.
Arguments PPanic {Sg A} why.
Arguments PCall {Sg A} o k.

Fixpoint pbind {Sg : Sig} {A B : Type} (f : A → prog Sg B) (p : prog Sg A) : prog Sg B :=
  match p with
  | PRet a => f a
  | PPanic s => PPanic s
  | PCall o k => PCall o (λ r, pbind f (k r))
  end.

#[global] Instance prog_ret (Sg : Sig) : MRet (prog Sg) := λ A a, PRet a.
#[global] Instance prog_bind (Sg : Sig) : MBind (prog Sg) := λ A B f p, pbind f p.

Definition call {Sg : Sig} (o : Op Sg) : prog Sg (Resp Sg o) := PCall o PRet.
Definition panic {Sg : Sig} {A : Type} (why : string) : prog Sg A := PPanic why.

(** The loop [for _, x := range xs] with a body that never leaves it. *)
Fixpoint range_each {Sg : Sig} {A St : Type} (xs : list A) (s : St)
    (body : A → St → prog Sg St) : prog Sg St :=
  match xs with
  | [] => mret s
  | x :: rest => s' ← body x s; range_each rest s' body
  end.

(** *** Running a program against an environment with state [S] *)

Definition handler (Sg : Sig) (S : Type) : Type := ∀ o : Op Sg, S → Resp Sg o * S.

Fixpoint run {Sg : Sig} {S A : Type} (h : handler Sg S) (p : prog Sg A) (s : S) : exec A * S :=
  match p with
  | PRet a => (Ret a, s)
  | PPanic w => (Panic w, s)
  | PCall o k => let '(r, s') := h o s in run h (k r) s'
  end.

(** *** The executions of a program when nothing is known of the environment *)

Inductive event (Sg : Sig) : Type :=
| Ev (o : Op Sg) (r : Resp Sg o).
Arguments Ev {Sg} o r.

(** The calls a run makes, with their answers. *)
Fixpoint run_trace {Sg : Sig} {S A : Type} (h : handler Sg S) (p : prog Sg A) (s : S)
    : list (event Sg) :=
  match p with
  | PRet _ | PPanic _ => []
  | PCall o k => Ev o (h o s).1 :: run_trace h (k (h o s).1) (h o s).2
  end.

Inductive runs {Sg : Sig} {A : Type} : prog Sg A → list (event Sg) → exec A → Prop :=
| runs_ret a : runs (PRet a) [] (Ret a)
| runs_panic w : runs (PPanic w) [] (Panic w)
| runs_call o k r tr out : runs (k r) tr out → runs (PCall o k) (Ev o r :: tr) out.

(** *** Every call of [p] satisfies [P] and what [p] returns satisfies [Q], whatever
    the environment answers. *)
Fixpoint safe {Sg : Sig} {A : Type} (P : Op Sg → Prop) (p : prog Sg A) (Q : A → Prop) : Prop :=
  match p with
  | PRet a => Q a
  | PPanic _ => True
  | PCall o k => P o ∧ ∀ r, safe P (k r) Q
  end.

Definition ev_op {Sg : Sig} (e : event Sg) : Op Sg := match e with Ev o _ => o end.

(** *** Monitors: an automaton that reads the calls of an execution with their answers *)

Fixpoint observe {Sg : Sig} {St : Type} (m : St → event Sg → option St) (st : St) (tr : list (event Sg)) : option St :=
  match tr with
  | [] => Some st
  | e :: tr' => m st e ≫= λ st', observe m st' tr'
  end.

(** From state [st] the monitor accepts every execution of [p], and its result and
    the last state satisfy [Q]. *)
Fixpoint monitored {Sg : Sig} {St A : Type} (m : St → event Sg → option St) (p : prog Sg A) (st : St)
    (Q : exec A → St → Prop) : Prop :=
  match p with
  | PRet a => Q (Ret a) st
  | PPanic w => Q (Panic w) st
  | PCall o k => ∀ r, match m st (Ev o r) with Some st' => monitored m (k r) st' Q | None => False end
  end.

(** *** Concurrent programs: any interleaving of their calls *)

Definition pstep {Sg : Sig} {S A : Type} (h : handler Sg S) (p : prog Sg A) (s : S)
    : option (prog Sg A * S * event Sg) :=
  match p with
  | PCall o k => Some (k (h o s).1, (h o s).2, Ev o (h o s).1)
  | _ => None
  end.

Inductive interleave {Sg : Sig} {S A : Type} (h : handler Sg S)
    : list (prog Sg A) → S → list (event Sg) → list (prog Sg A) → S → Prop :=
| il_refl ps s : interleave h ps s [] ps s
| il_step ps s i p p' s' e tr ps2 s2 :
    ps !! i = Some p → pstep h p s = Some (p', s', e) →
    interleave h (<[i := p']> ps) s' tr ps2 s2 → interleave h ps s (e :: tr) ps2 s2.

(** One interleaving, given by the program to advance at each step. *)
Fixpoint schedule {Sg : Sig} {S A : Type} (h : handler Sg S) (l : list nat) (ps : list (prog Sg A)) (s : S)
    : list (prog Sg A) * S * list (event Sg) :=
  match l with
  | [] => (ps, s, [])
  | i :: l' =>
      match ps !! i ≫= λ p, pstep h p s with
      | Some (p', s', e) =>
          let '(ps2, s2, tr) := schedule h l' (<[i := p']> ps) s' in (ps2, s2, e :: tr)
      | None => schedule h l' ps s
      end
  end.

Declare Scope go_scope.
Delimit Scope go_scope with go.
Open Scope string_scope.
Open Scope Z_scope.

(** Go's [s == t] on strings. *)
Notation "s =s? t" := (String.eqb s t) (at level 70, no associativity) : go_scope.
Open Scope go_scope.

(** ** Machine integers *)

Definition wrap (bits z : Z) : Z := (z + 2 ^ (bits - 1)) mod 2 ^ bits - 2 ^ (bits - 1).
Definition int32 (z : Z) : Z := wrap 32 z.
Definition int64 (z : Z) : Z := wrap 64 z.

Definition in_int32 (z : Z) : Prop := -2147483648 ≤ z ≤ 2147483647.
Definition in_int64 (z : Z) : Prop := -9223372036854775808 ≤ z ≤ 9223372036854775807.

#[global] Instance in_int32_dec z : Decision (in_int32 z).
Proof. unfold in_int32. apply _. Defined.

#[global] Instance in_int64_dec z : Decision (in_int64 z).
Proof. unfold in_int64. apply _. Defined.

(** ** Durations and instants: nanoseconds *)

Definition Nanosecond : Z := 1.
Definition Millisecond : Z := 1000000.
Definition Second : Z := 1000000000.
Definition Minute : Z := 60 * Second.
Definition Hour : Z := 60 * Minute.

(** ** Automation *)

Create HintDb drsync discriminated.
Create Rewrite HintDb drsync.

(** Expose the constructors of a program. *)
Ltac prun := unfold mbind, prog_bind, mret, prog_ret, call, panic in *; cbn [pbind] in *.

(** Case analysis on the scrutinee of some match in the goal or a hypothesis. *)
Ltac step_match :=
  match goal with
  | |- context [match ?x with _ => _ end] =>
      lazymatch x with
      | context [match _ with _ => _ end] => fail
      | _ => destruct x eqn:?
      end
  end.

Ltac step_match_in H :=
  match type of H with
  | context [match ?x with _ => _ end] =>
      lazymatch x with
      | context [match _ with _ => _ end] => fail
      | _ => destruct x eqn:?
      end
  end.

Ltac bool_props :=
  repeat match goal with
  | H : (_ =s? _)%go = true |- _ => apply String.eqb_eq in H
  | H : (_ =s? _)%go = false |- _ => apply String.eqb_neq in H
  | H : (_ && _)%bool = true |- _ => apply andb_true_iff in H; destruct H
  | H : (_ || _)%bool = false |- _ => apply orb_false_iff in H; destruct H
  | H : negb _ = true |- _ => apply negb_true_iff in H
  | H : negb _ = false |- _ => apply negb_false_iff in H
  | H : (_ =? _)%Z = true |- _ => apply Z.eqb_eq in H
  | H : (_ =? _)%Z = false |- _ => apply Z.eqb_neq in H
  | H : (_ <? _)%Z = true |- _ => apply Z.ltb_lt in H
  | H : (_ <? _)%Z = false |- _ => apply Z.ltb_ge in H
  | H : (_ <=? _)%Z = true |- _ => apply Z.leb_le in H
  | H : (_ <=? _)%Z = false |- _ => apply Z.leb_gt in H
  end.

(** ** Lemmas on machine integers *)

Lemma wrap_range bits z : 0 < bits → - 2 ^ (bits - 1) ≤ wrap bits z < 2 ^ (bits - 1).
Proof.
  intros Hb. unfold wrap.
  assert (Hp : 2 ^ bits = 2 * 2 ^ (bits - 1)).
  { replace bits with (1 + (bits - 1)) at 1 by lia. rewrite Z.pow_add_r by lia. lia. }
  pose proof (Z.mod_pos_bound (z + 2 ^ (bits - 1)) (2 ^ bits)).
  pose proof (Z.pow_pos_nonneg 2 (bits - 1)). lia.
Qed.

Lemma wrap_id bits z : 0 < bits → - 2 ^ (bits - 1) ≤ z < 2 ^ (bits - 1) → wrap bits z = z.
Proof.
  intros Hb Hz. unfold wrap.
  assert (Hp : 2 ^ bits = 2 * 2 ^ (bits - 1)).
  { replace bits with (1 + (bits - 1)) at 1 by lia. rewrite Z.pow_add_r by lia. lia. }
  rewrite Z.mod_small by lia. lia.
Qed.

Lemma int32_id z : in_int32 z → int32 z = z.
Proof. intros H. apply wrap_id; [lia|]. unfold in_int32 in H. cbn. lia. Qed.

Lemma int64_id z : in_int64 z → int64 z = z.
Proof. intros H. apply wrap_id; [lia|]. unfold in_int64 in H. cbn. lia. Qed.

Lemma int32_in z : in_int32 (int32 z).
Proof. pose proof (wrap_range 32 z ltac:(lia)) as H. unfold in_int32, int32. cbn in H. lia. Qed.

Lemma int64_in z : in_int64 (int64 z).
Proof. pose proof (wrap_range 64 z ltac:(lia)) as H. unfold in_int64, int64. cbn in H. lia. Qed.

#[export] Hint Resolve int32_in int64_in : drsync.
#[export] Hint Rewrite int32_id int64_id using (unfold in_int32, in_int64 in *; lia) : drsync.

(** ** Lemmas on programs *)

Section Programs.
Context {Sg : Sig}.
Implicit Types A B : Type.

Lemma run_bind {S A B} (h : handler Sg S) (p : prog Sg A) (f : A → prog Sg B) s :
  run h (p ≫= f) s =
  match run h p s with
  | (Ret a, s') => run h (f a) s'
  | (Panic w, s') => (Panic w, s')
  end.
Proof.
  revert s. induction p as [a|w|o k IH]; intros s; [done..|].
  cbn. destruct (h o s) as [r s']. apply IH.
Qed.

Lemma run_ret {S A} (h : handler Sg S) (a : A) s : run h (mret a) s = (Ret a, s).
Proof. done. Qed.

Lemma run_call {S} (h : handler Sg S) (o : Op Sg) s :
  run h (call o) s = (Ret (h o s).1, (h o s).2).
Proof. cbn. by destruct (h o s). Qed.

Lemma runs_ret_inv {A} (a : A) tr out :
  runs (PRet (Sg := Sg) a) tr out → tr = [] ∧ out = Ret a.
Proof. by inversion 1. Qed.

Lemma runs_panic_inv {A} w tr (out : exec A) :
  runs (PPanic (Sg := Sg) w) tr out → tr = [] ∧ out = Panic w.
Proof. by inversion 1. Qed.

Lemma runs_call_inv {A} o (k : Resp Sg o → prog Sg A) tr out :
  runs (PCall o k) tr out → ∃ r tr', tr = Ev o r :: tr' ∧ runs (k r) tr' out.
Proof.
  intros H.
  refine (match H in runs p t w return
            match p with
            | PCall o' k' => ∃ r tr', t = Ev o' r :: tr' ∧ runs (k' r) tr' w
            | _ => True
            end with
          | runs_call o' k' r tr' w' H' => ex_intro _ r (ex_intro _ tr' (conj eq_refl H'))
          | _ => I
          end).
Qed.

Lemma runs_bind_inv {A B} (p : prog Sg A) (f : A → prog Sg B) tr out :
  runs (p ≫= f) tr out →
  (∃ a tr1 tr2, runs p tr1 (Ret a) ∧ runs (f a) tr2 out ∧ tr = (tr1 ++ tr2)%list)
  ∨ (∃ w, runs p tr (Panic w) ∧ out = Panic w).
Proof.
  revert tr. induction p as [a|w|o k IH]; intros tr H.
  - left. exists a, [], tr. split; [constructor|done].
  - right. apply runs_panic_inv in H as [-> ->]. exists w. split; [constructor|done].
  - apply runs_call_inv in H as (r & tr' & -> & H).
    destruct (IH r tr' H) as [(a & t1 & t2 & H1 & H2 & ->)|(w & H1 & ->)].
    + left. exists a, (Ev o r :: t1), t2. split; [by constructor|done].
    + right. exists w. split; [by constructor|done].
Qed.

Lemma runs_bind {A B} (p : prog Sg A) (f : A → prog Sg B) tr1 tr2 a out :
  runs p tr1 (Ret a) → runs (f a) tr2 out → runs (p ≫= f) (tr1 ++ tr2)%list out.
Proof.
  revert tr1. induction p as [b|w|o k IH]; intros tr1 H1 H2.
  - by apply runs_ret_inv in H1 as [-> [= <-]].
  - by apply runs_panic_inv in H1 as [_ ?].
  - apply runs_call_inv in H1 as (r & tr' & -> & H1). cbn. constructor. by apply IH.
Qed.

(** What a run against any environment does is one of the executions. *)
Lemma run_trace_bind {S A B} (h : handler Sg S) (p : prog Sg A) (f : A → prog Sg B) s :
  run_trace h (p ≫= f) s =
  (run_trace h p s ++ match run h p s with (Ret a, s') => run_trace h (f a) s' | (Panic _, _) => [] end)%list.
Proof.
  revert s. induction p as [a|w|o k IH]; intros s; cbn; [done..|].
  destruct (h o s) as [r s'] eqn:E. cbn. f_equal. apply IH.
Qed.

Lemma run_trace_runs {S A} (h : handler Sg S) (p : prog Sg A) s :
  runs p (run_trace h p s) (run h p s).1.
Proof.
  revert s. induction p as [a|w|o k IH]; intros s; [constructor..|].
  cbn. destruct (h o s) as [r s'] eqn:E. cbn. constructor. apply IH.
Qed.

Lemma safe_mono {A} (P P' : Op Sg → Prop) (p : prog Sg A) (Q Q' : A → Prop) :
  safe P p Q → (∀ o, P o → P' o) → (∀ a, Q a → Q' a) → safe P' p Q'.
Proof.
  intros H HP HQ. induction p as [a|w|o k IH]; cbn in *; [by auto|done|].
  destruct H as [Ho Hk]. split; [by auto|]. intros r. by apply IH.
Qed.

Lemma safe_bind {A B} (P : Op Sg → Prop) (p : prog Sg A) (f : A → prog Sg B) (R : A → Prop) Q :
  safe P p R → (∀ a, R a → safe P (f a) Q) → safe P (p ≫= f) Q.
Proof.
  intros H Hf. induction p as [a|w|o k IH]; cbn in *; [by auto|done|].
  destruct H as [Ho Hk]. split; [done|]. intros r. by apply IH.
Qed.

Lemma safe_call (P : Op Sg → Prop) (o : Op Sg) (Q : Resp Sg o → Prop) :
  P o → (∀ r, Q r) → safe P (call o) Q.
Proof. done. Qed.

Lemma safe_range_each {A St} (P : Op Sg → Prop) (I : St → Prop) (xs : list A) s body :
  I s → (∀ x s, x ∈ xs → I s → safe P (body x s) I) →
  safe P (range_each xs s body) I.
Proof.
  revert s. induction xs as [|x xs IH]; intros s Hs Hb; [done|]. cbn [range_each].
  apply (safe_bind _ _ _ I); [apply Hb; [left|done]|].
  intros s' Hs'. apply IH; [done|]. intros y s'' Hy. apply Hb. by right.
Qed.

Lemma safe_sound {A} (P : Op Sg → Prop) (p : prog Sg A) Q tr out :
  safe P p Q → runs p tr out →
  Forall (λ e, P (ev_op e)) tr ∧ (∀ a, out = Ret a → Q a).
Proof.
  intros Hs Hr. induction Hr as [a|w|o k r tr out Hr IH]; cbn in Hs.
  - split; [done|]. by intros ? [= <-].
  - split; done.
  - destruct Hs as [Ho Hs]. destruct (IH (Hs r)). split; [by constructor|done].
Qed.

Section monitors.
Context {St : Type} (m : St → event Sg → option St).

Lemma monitored_sound {A} (p : prog Sg A) st Q tr out :
  monitored m p st Q → runs p tr out → ∃ st', observe m st tr = Some st' ∧ Q out st'.
Proof.
  intros H Hr. revert st H. induction Hr as [a|w|o k r tr out Hr IH]; intros st H; cbn in *; [by eauto..|].
  specialize (H r). destruct (m st (Ev o r)) as [st'|]; [|done]. by apply IH.
Qed.

Lemma monitored_mono {A} (p : prog Sg A) st (Q Q' : exec A → St → Prop) :
  monitored m p st Q → (∀ out st', Q out st' → Q' out st') → monitored m p st Q'.
Proof.
  intros H HQ. revert st H. induction p as [a|w|o k IH]; intros st H; cbn in *; [by auto..|].
  intros r. specialize (H r). destruct (m st (Ev o r)); [|done]. by apply IH.
Qed.

Lemma monitored_bind {A B} (p : prog Sg A) (f : A → prog Sg B) st Q :
  monitored m p st (λ out st', match out with Ret a => monitored m (f a) st' Q | Panic w => Q (Panic w) st' end) →
  monitored m (p ≫= f) st Q.
Proof.
  revert st. induction p as [a|w|o k IH]; intros st H; cbn in *; [done..|].
  intros r. specialize (H r). destruct (m st (Ev o r)); [|done]. by apply IH.
Qed.
End monitors.

(** *** Programs given by their executions, when every call can be answered *)

Section given_by_runs.
Context (answered : ∀ o : Op Sg, ∃ r : Resp Sg o, True).

Lemma some_run {A} (p : prog Sg A) : ∃ tr out, runs p tr out.
Proof.
  induction p as [a|w|o k IH]; [by eexists _, _; constructor..|]. destruct (answered o) as [r _].
  destruct (IH r) as (tr & out & Hr). eexists _, _. by constructor.
Qed.

Lemma monitored_of_runs {St A} (m : St → event Sg → option St) (p : prog Sg A) st Q :
  (∀ tr out, runs p tr out → ∃ st', observe m st tr = Some st' ∧ Q out st') → monitored m p st Q.
Proof.
  revert st. induction p as [a|w|o k IH]; intros st Hr; cbn.
  - destruct (Hr [] (Ret a) (runs_ret a)) as (st' & [= <-] & HQ). exact HQ.
  - destruct (Hr [] (Panic w) (runs_panic w)) as (st' & [= <-] & HQ). exact HQ.
  - intros r. assert (Hk : ∀ tr out, runs (k r) tr out → ∃ st', (m st (Ev o r) ≫= λ s, observe m s tr) = Some st' ∧ Q out st').
    { intros tr out H. exact (Hr (Ev o r :: tr) out (runs_call o k r tr out H)). }
    destruct (m st (Ev o r)) as [s|]; [by apply IH|]. destruct (some_run (k r)) as (tr & out & H).
    by destruct (Hk tr out H) as (? & [=] & _).
Qed.

Lemma safe_of_runs {A} (P : Op Sg → Prop) (p : prog Sg A) :
  (∀ tr out, runs p tr out → Forall (λ e, P (ev_op e)) tr) → safe P p (λ _, True).
Proof.
  induction p as [a|w|o k IH]; intros H; cbn; [done|done|].
  assert (Hall : ∀ r tr out, runs (k r) tr out → P o ∧ Forall (λ e, P (ev_op e)) tr).
  { intros r tr out Hr. pose proof (H (Ev o r :: tr) out (runs_call o k r tr out Hr)) as Hf. by apply Forall_cons in Hf. }
  split.
  - destruct (answered o) as [r _]. destruct (some_run (k r)) as (tr & out & Hr). by destruct (Hall r tr out Hr).
  - intros r. apply IH. intros tr out Hr. by destruct (Hall r tr out Hr).
Qed.
End given_by_runs.

Lemma observe_app {St} (m : St → event Sg → option St) st t1 t2 :
  observe m st (t1 ++ t2)%list = observe m st t1 ≫= λ s, observe m s t2.
Proof. revert st. induction t1 as [|e t1 IH]; intros st; [done|]. cbn. destruct (m st e); [apply IH|done]. Qed.

Lemma schedule_interleave {S A} (h : handler Sg S) l (ps : list (prog Sg A)) s :
  let r := schedule h l ps s in interleave h ps s r.2 r.1.1 r.1.2.
Proof.
  revert ps s. induction l as [|i l IH]; intros ps s; cbn [schedule]; [constructor|].
  destruct (ps !! i) as [p|] eqn:Hi; cbn [mbind option_bind]; [|apply IH].
  destruct (pstep h p s) as [[[p' s'] e]|] eqn:Hs; [|apply IH].
  pose proof (IH (<[i := p']> ps) s') as H.
  destruct (schedule h l (<[i := p']> ps) s') as [[ps2 s2] tr]. cbn in *. by econstructor.
Qed.

(** An invariant of every interleaving whose events satisfy [E]. *)
Lemma interleave_invariant {S A} (h : handler Sg S) (E : event Sg → Prop)
    (I : list (prog Sg A) → S → Prop) ps s tr ps2 s2 :
  (∀ ps s i p p' s' e, I ps s → ps !! i = Some p → pstep h p s = Some (p', s', e) → E e →
     I (<[i := p']> ps) s') →
  interleave h ps s tr ps2 s2 → Forall E tr → I ps s → I ps2 s2.
Proof.
  intros Hstep Hil. induction Hil as [|ps s i p p' s' e tr ps2 s2 Hi Hs _ IH]; [done|].
  intros [He Ht]%Forall_cons HI. apply IH; [done|]. by apply (Hstep ps s i p p' s' e).
Qed.

Lemma safe_run {S A} (h : handler Sg S) (P : Op Sg → Prop) (p : prog Sg A) Q s a s' :
  safe P p Q → run h p s = (Ret a, s') → Q a.
Proof.
  intros Hs Hr. pose proof (run_trace_runs h p s) as Ht. rewrite Hr in Ht. cbn in Ht.
  apply (safe_sound _ _ _ _ _ Hs) in Ht as [_ HQ]. by apply HQ.
Qed.

End Programs.

(** Take a hypothesis [runs p tr out] apart along the constructors of [p]. *)
Ltac runs_inv H :=
  lazymatch type of H with
  | runs (PRet _) _ _ => apply runs_ret_inv in H as [? ?]; subst
  | runs (mret _) _ _ => apply runs_ret_inv in H as [? ?]; subst
  | runs (PPanic _) _ _ => apply runs_panic_inv in H as [? ?]; subst
  | runs (panic _) _ _ => apply runs_panic_inv in H as [? ?]; subst
  | runs (PCall _ _) _ _ => let r := fresh "r" in let tr := fresh "tr" in
      apply runs_call_inv in H as (r & tr & ? & H); subst; cbn beta iota in H
  | runs (call _) _ _ => unfold call in H; runs_inv H
  end.
