(* ===== verification/GoString.v ===== *)
(** * Go's string functions used by dr-syncer

    [strings.ToLower], [strings.Title], [strings.Split], [strings.Join],
    [strings.Contains], [strings.HasPrefix], [strings.TrimSpace],
    [fmt.Sprintf("%d")], [strconv.ParseInt] with base 10, and [fmt.Sscanf("%d")].
    A Go string is a byte string, here [string]; the case mappings and the notion
    of white space are those of ASCII. *)

From S2P Require Import Prelude.
From Stdlib Require Import Ascii.

Definition code (c : ascii) : Z := Z.of_N (N_of_ascii c).
Definition chr (n : Z) : ascii := ascii_of_N (Z.to_N n).

Definition is_digit (c : ascii) : bool := (48 <=? code c) && (code c <=? 57).
Definition is_upper (c : ascii) : bool := (65 <=? code c) && (code c <=? 90).
Definition is_lower (c : ascii) : bool := (97 <=? code c) && (code c <=? 122).
Definition is_space (c : ascii) : bool :=
  ((9 <=? code c) && (code c <=? 13)) || (code c =? 32).

Fixpoint smap (f : ascii → ascii) (s : string) : string :=
  match s with
  | EmptyString => EmptyString
  | String c r => String (f c) (smap f r)
  end.

Definition ToLower (s : string) : string :=
  smap (λ c, if is_upper c then chr (code c + 32) else c) s.

(** [strings.Title]: the first letter of every word in upper case; letters,
    digits and the underscore continue a word. *)
Definition is_separator (c : ascii) : bool :=
  negb (is_digit c || is_upper c || is_lower c || (code c =? 95)).

Fixpoint title_from (prev : ascii) (s : string) : string :=
  match s with
  | EmptyString => EmptyString
  | String c r =>
      String (if is_separator prev && is_lower c then chr (code c - 32) else c) (title_from c r)
  end.

Definition Title (s : string) : string := title_from " "%char s.

(** [strings.Split(s, sep)] for a one-byte separator. *)
Fixpoint Split (s : string) (sep : ascii) : list string :=
  match s with
  | EmptyString => [EmptyString]
  | String c r =>
      if Ascii.eqb c sep then EmptyString :: Split r sep
      else match Split r sep with
           | [] => [String c EmptyString]
           | p :: ps => String c p :: ps
           end
  end.

Fixpoint Join (parts : list string) (sep : string) : string :=
  match parts with
  | [] => EmptyString
  | [p] => p
  | p :: rest => p +:+ sep +:+ Join rest sep
  end.

Definition HasPrefix (s p : string) : bool := String.prefix p s.

Fixpoint Contains (s sub : string) : bool :=
  HasPrefix s sub || match s with EmptyString => false | String _ r => Contains r sub end.

Fixpoint trim_left (s : string) : string :=
  match s with
  | String c r => if is_space c then trim_left r else s
  | EmptyString => EmptyString
  end.

Fixpoint srev (s acc : string) : string :=
  match s with
  | EmptyString => acc
  | String c r => srev r (String c acc)
  end.

Definition TrimSpace (s : string) : string :=
  srev (trim_left (srev (trim_left s) EmptyString)) EmptyString.

(** strings.ReplaceAll of one character. *)
Fixpoint ReplaceAll (s : string) (old : ascii) (new : string) : string :=
  match s with
  | EmptyString => EmptyString
  | String c r => if Ascii.eqb c old then new +:+ ReplaceAll r old new else String c (ReplaceAll r old new)
  end.

(** ** path/filepath on Unix *)

(** The elements of a cleaned path, last first; [rooted] drops a leading "..". *)
Definition clean_element (rooted : bool) (stack : list string) (e : string) : list string :=
  if (e =s? "") || (e =s? ".") then stack
  else if e =s? ".." then
    match stack with
    | top :: rest => if top =s? ".." then e :: stack else rest
    | [] => if rooted then [] else [e]
    end
  else e :: stack.

Definition Clean (path : string) : string :=
  let rooted := HasPrefix path "/" in
  let body := Join (rev (foldl (clean_element rooted) [] (Split path "/"%char))) "/" in
  if rooted then "/" +:+ body else if body =s? "" then "." else body.

(** [filepath.Join] *)
Fixpoint JoinPath (elements : list string) : string :=
  match elements with
  | [] => ""
  | e :: rest => if e =s? "" then JoinPath rest else Clean (Join elements "/")
  end.

(** ** Decimal numbers *)

Definition digit_char (d : Z) : ascii := chr (48 + d).

(** The digits of [n] in front of [acc]; [fuel] bounds their number. *)
Fixpoint udec (fuel : nat) (n : Z) (acc : string) : string :=
  match fuel with
  | O => acc
  | S f =>
      let acc' := String (digit_char (n mod 10)) acc in
      if n <? 10 then acc' else udec f (n / 10) acc'
  end.

Definition utoa (n : Z) : string := udec (S (Z.to_nat (Z.log2 n))) n EmptyString.

(** [fmt.Sprintf("%d", n)] *)
Definition itoa (n : Z) : string :=
  if n <? 0 then String "-"%char (utoa (- n)) else utoa n.

Fixpoint parse_digits (s : string) (acc : Z) : option Z :=
  match s with
  | EmptyString => Some acc
  | String c r => if is_digit c then parse_digits r (10 * acc + (code c - 48)) else None
  end.

Definition parse_unsigned (s : string) : option Z :=
  match s with EmptyString => None | String _ _ => parse_digits s 0 end.

(** [strconv.ParseInt(s, 10, bits)]; [None] is an error (syntax or range). *)
Definition ParseInt (s : string) (bits : Z) : option Z :=
  let value :=
    match s with
    | EmptyString => None
    | String c r =>
        if Ascii.eqb c "-" then Z.opp <$> parse_unsigned r
        else if Ascii.eqb c "+" then parse_unsigned r
        else parse_unsigned s
    end in
  match value with
  | Some v => if (- 2 ^ (bits - 1) <=? v) && (v <? 2 ^ (bits - 1)) then Some v else None
  | None => None
  end.

(** [strconv.Atoi] on a 64-bit platform. *)
Definition Atoi (s : string) : option Z := ParseInt s 64.

Fixpoint take_digits (s : string) : string :=
  match s with
  | String c r => if is_digit c then String c (take_digits r) else EmptyString
  | EmptyString => EmptyString
  end.

(** [fmt.Sscanf(s, "%d", &v)] for an [int64] target: blanks, an optional sign
    and the longest run of digits; what follows is not read, and a newline
    before the number is an error. *)
Fixpoint skip_blanks (s : string) : option string :=
  match s with
  | String c r => if code c =? 10 then None else if is_space c then skip_blanks r else Some s
  | EmptyString => Some EmptyString
  end.

Definition Sscanf_d (s : string) : option Z :=
  match skip_blanks s with
  | None => None
  | Some t =>
      match t with
      | EmptyString => None
      | String c r =>
          if Ascii.eqb c "-" then ParseInt (String "-" (take_digits r)) 64
          else if Ascii.eqb c "+" then ParseInt (take_digits r) 64
          else ParseInt (take_digits t) 64
      end
  end.

(** ** Lemmas *)

Lemma sappend_cons c (a b : string) : String c a +:+ b = String c (a +:+ b).
Proof. done. Qed.

Lemma sappend_nil (b : string) : "" +:+ b = b.
Proof. done. Qed.

Lemma sappend_assoc (a b c : string) : (a +:+ b) +:+ c = a +:+ b +:+ c.
Proof. induction a as [|x a IH]; [done|]. by rewrite !sappend_cons, IH. Qed.

Lemma sappend_nil_r (a : string) : a +:+ "" = a.
Proof. induction a as [|x a IH]; [done|]. by rewrite sappend_cons, IH. Qed.

Lemma code_chr n : 0 ≤ n < 256 → code (chr n) = n.
Proof. intros H. unfold code, chr. rewrite N_ascii_embedding; lia. Qed.

Lemma is_digit_char d : 0 ≤ d < 10 → is_digit (digit_char d) = true ∧ code (digit_char d) = 48 + d.
Proof.
  intros H. unfold is_digit, digit_char. rewrite code_chr by lia. split; [|done].
  apply andb_true_iff; split; apply Z.leb_le; lia.
Qed.

(** Reading the digits back: the accumulator is shifted past them. *)
Lemma parse_digits_udec fuel n acc :
  0 ≤ n < 2 ^ Z.of_nat fuel →
  ∃ k, 0 < k ∧ ∀ a, parse_digits (udec fuel n acc) a = parse_digits acc (k * a + n).
Proof.
  revert n acc. induction fuel as [|f IH]; intros n acc Hn.
  { change (2 ^ Z.of_nat 0) with 1 in Hn. exists 1. split; [lia|]. intros a. simpl.
    f_equal. lia. }
  rewrite Nat2Z.inj_succ, Z.pow_succ_r in Hn by lia. cbn [udec].
  pose proof (Z.mod_pos_bound n 10). pose proof (Z.div_mod n 10).
  destruct (is_digit_char (n mod 10)) as [Hd Hc]; [lia|].
  destruct (n <? 10) eqn:E; bool_props.
  - exists 10. split; [lia|]. intros a. cbn [parse_digits]. rewrite Hd, Hc.
    f_equal. rewrite (Z.mod_small n 10) by lia. lia.
  - destruct (IH (n / 10) (String (digit_char (n mod 10)) acc)) as (k & Hk & Hp).
    { split; [apply Z.div_pos; lia|]. apply Z.div_lt_upper_bound; lia. }
    exists (10 * k). split; [lia|]. intros a. rewrite Hp. cbn [parse_digits].
    rewrite Hd, Hc. f_equal. lia.
Qed.

Lemma utoa_parse n : 0 ≤ n → parse_digits (utoa n) 0 = Some n.
Proof.
  intros Hn. unfold utoa.
  destruct (parse_digits_udec (S (Z.to_nat (Z.log2 n))) n EmptyString) as (k & _ & H).
  { split; [done|]. rewrite Nat2Z.inj_succ, Z2Nat.id by apply Z.log2_nonneg.
    destruct (Z.eq_dec n 0) as [->|]; [done|]. apply Z.log2_spec. lia. }
  rewrite H. cbn. f_equal. lia.
Qed.

(** The text of a number starts with a digit. *)
Lemma udec_head fuel n acc :
  0 ≤ n → ∃ c r, udec (S fuel) n acc = String c r ∧ is_digit c = true.
Proof.
  revert n acc. induction fuel as [|f IH]; intros n acc Hn.
  - pose proof (Z.mod_pos_bound n 10). destruct (is_digit_char (n mod 10)); [lia|].
    simpl. destruct (n <? 10); eauto.
  - pose proof (Z.mod_pos_bound n 10). destruct (is_digit_char (n mod 10)); [lia|].
    remember (S f) as g. cbn [udec]. destruct (n <? 10); [by eauto|]. subst g.
    apply IH, Z.div_pos; lia.
Qed.

Lemma utoa_head n : 0 ≤ n → ∃ c r, utoa n = String c r ∧ is_digit c = true.
Proof. intros Hn. by apply udec_head. Qed.

Lemma digit_not_sign c : is_digit c = true → Ascii.eqb c "-" = false ∧ Ascii.eqb c "+" = false.
Proof.
  intros H. split; apply Ascii.eqb_neq; intros ->; by vm_compute in H.
Qed.

(** Printing then parsing gives the number back, at every width that holds it. *)
Lemma ParseInt_itoa bits n :
  - 2 ^ (bits - 1) ≤ n < 2 ^ (bits - 1) → ParseInt (itoa n) bits = Some n.
Proof.
  intros Hr. unfold ParseInt, itoa.
  assert (Hif : (- 2 ^ (bits - 1) <=? n) && (n <? 2 ^ (bits - 1)) = true).
  { apply andb_true_iff. rewrite Z.leb_le, Z.ltb_lt. done. }
  destruct (Z.ltb_spec n 0) as [E|E].
  - destruct (utoa_head (- n)) as (c & r & Hc & _); [lia|].
    rewrite Ascii.eqb_refl, Hc. cbn [parse_unsigned]. rewrite <- Hc.
    rewrite utoa_parse by lia. cbn. rewrite Z.opp_involutive, Hif. done.
  - destruct (utoa_head n) as (c & r & Hc & Hd); [lia|]. rewrite Hc.
    destruct (digit_not_sign c Hd) as [-> ->]. cbn [parse_unsigned]. rewrite <- Hc.
    rewrite utoa_parse by lia. by rewrite Hif.
Qed.
Lemma udec_digits fuel n acc : 0 ≤ n → take_digits (udec fuel n acc) = udec fuel n (take_digits acc).
Proof.
  revert n acc. induction fuel as [|f IH]; intros n acc Hn; cbn [udec]; [done|].
  assert (Hd : is_digit (digit_char (n mod 10)) = true) by (apply is_digit_char, Z.mod_pos_bound; lia).
  destruct (n <? 10) eqn:E; cbn [take_digits]; [by rewrite Hd|].
  rewrite IH by (apply Z.div_pos; lia). cbn [take_digits]. by rewrite Hd.
Qed.

Lemma digit_not_space c : is_digit c = true → (code c =? 10) = false ∧ is_space c = false.
Proof.
  unfold is_digit, is_space. rewrite andb_true_iff, !Z.leb_le. intros [??].
  split; [apply Z.eqb_neq; lia|]. apply orb_false_iff. split; [|apply Z.eqb_neq; lia].
  apply andb_false_iff. right. apply Z.leb_gt. lia.
Qed.

(** What Sprintf("%d") wrote, Sscanf("%d") reads back. *)
Lemma Sscanf_itoa n : in_int64 n → Sscanf_d (itoa n) = Some n.
Proof.
  intros Hn. assert (Hp : ParseInt (itoa n) 64 = Some n) by (apply ParseInt_itoa; unfold in_int64 in Hn; lia).
  unfold Sscanf_d, itoa in *. destruct (Z.ltb_spec n 0) as [E|E].
  - cbn [skip_blanks]. change (code "-" =? 10) with false. change (is_space "-") with false. cbn iota.
    rewrite Ascii.eqb_refl. unfold utoa in *. rewrite udec_digits by lia. done.
  - destruct (utoa_head n E) as (c & r & Hc & Hd). rewrite Hc. cbn [skip_blanks].
    destruct (digit_not_space c Hd) as [-> ->]. destruct (digit_not_sign c Hd) as [-> ->].
    rewrite <- Hc. unfold utoa in *. by rewrite udec_digits.
Qed.

Lemma length_Split_pos s sep : Split s sep ≠ [].
Proof. induction s as [|c r IH]; cbn; [done|]. repeat case_match; done. Qed.

Lemma Join_Split s sep : Join (Split s sep) (String sep EmptyString) = s.
Proof.
  induction s as [|c r IH]; cbn [Split]; [done|].
  pose proof (length_Split_pos r sep) as Hne.
  destruct (Ascii.eqb c sep) eqn:E.
  - apply Ascii.eqb_eq in E as ->. destruct (Split r sep) eqn:Hr; [done|].
    rewrite <- IH. done.
  - destruct (Split r sep) as [|p ps] eqn:Hr; [done|]. rewrite <- IH. destruct ps; done.
Qed.
