(* ===== verification/Errors.v ===== *)
(** * Errors: Go's error values and pkg/controllers/syncer/errors

    An [error] of the modelled code is one of: an error the API server returned,
    an error built with [fmt.Errorf] (wrapping another one with [%w] or not), and
    the [*SyncError] of the syncer/errors package. *)

From S2P Require Import Prelude.

(** The reason the API server gives, which apierrors.IsNotFound and the like test. *)
Inductive StatusReason : Type :=
| NotFound | AlreadyExists | Conflict | ServerTimeout | Timeout | TooManyRequests
| ServiceUnavailable | InternalError | OtherReason (r : string).

(** ErrorCategory defines the type of error for retry decisions. *)
Inductive ErrorCategory : Type :=
| RetryableError | NonRetryableError | WaitForNextSyncError.

Inductive error : Type :=
| StatusError (reason : StatusReason) (msg : string)
| PlainError (msg : string)
| WrapError (prefix : string) (err : error)
| SyncErr (Err : error) (Category : ErrorCategory) (Resource : string).

#[global] Instance StatusReason_eq_dec : EqDecision StatusReason.
Proof. solve_decision. Defined.

#[global] Instance ErrorCategory_eq_dec : EqDecision ErrorCategory.
Proof. solve_decision. Defined.

#[global] Instance error_eq_dec : EqDecision error.
Proof. solve_decision. Defined.

(** A Go function returning [(T, error)] or [error]. *)
Inductive res (A : Type) : Type :=
| Ok (a : A)
| Err (e : error).
Arguments Ok {A} a.
Arguments Err {A} e.

(** The text of an error, [err.Error()]. *)
Fixpoint Error (e : error) : string :=
  match e with
  | StatusError _ msg => msg
  | PlainError msg => msg
  | WrapError p e' => p +:+ Error e'
  | SyncErr e' _ r => r +:+ ": " +:+ Error e'
  end.

(** apierrors.ReasonForError: [errors.As] follows the [%w] chain; a [*SyncError]
    has no [Unwrap] method, so the chain ends there. *)
Fixpoint ReasonForError (e : error) : option StatusReason :=
  match e with
  | StatusError r _ => Some r
  | WrapError _ e' => ReasonForError e'
  | PlainError _ | SyncErr _ _ _ => None
  end.

Definition has_reason (r : StatusReason) (e : error) : bool :=
  bool_decide (ReasonForError e = Some r).

Definition IsNotFound : error → bool := has_reason NotFound.
Definition IsAlreadyExists : error → bool := has_reason AlreadyExists.
Definition IsConflict : error → bool := has_reason Conflict.

(** ** Go's error handling idioms in programs *)

(** [x, err := c; if err != nil { return ..., w(err) }; k] *)
Definition bindE {Sg : Sig} {A B : Type} (c : prog Sg (res A)) (w : error → error)
    (k : A → prog Sg (res B)) : prog Sg (res B) :=
  r ← c; match r with Ok a => k a | Err e => mret (Err (w e)) end.

Notation "x ←? c 'onerr' w ; k" := (bindE c w (λ x, k))
  (at level 20, c at level 100, w at level 100, k at level 200, only parsing) : go_scope.
Notation "' p ←? c 'onerr' w ; k" := (bindE c w (λ x, match x with p => k end))
  (at level 20, p pattern, c at level 100, w at level 100, k at level 200, only parsing) : go_scope.

(** A loop over a slice that stops at the first error its body returns; [s] is
    what the body assigns to. *)
Fixpoint range_err {Sg : Sig} {A St : Type} (xs : list A) (s : St)
    (body : A → St → prog Sg (res St)) : prog Sg (res St) :=
  match xs with
  | [] => mret (Ok s)
  | x :: rest =>
      r ← body x s;
      match r with Ok s' => range_err rest s' body | Err e => mret (Err e) end
  end.

(** ** pkg/controllers/syncer/errors/errors.go *)

Definition NewRetryableError (err : error) (resource : string) : error :=
  SyncErr err RetryableError resource.

Definition NewNonRetryableError (err : error) (resource : string) : error :=
  SyncErr err NonRetryableError resource.

Definition NewWaitForNextSyncError (err : error) (resource : string) : error :=
  SyncErr err WaitForNextSyncError resource.

Definition IsRetryable (e : error) : bool :=
  match e with
  | SyncErr _ c _ => bool_decide (c = RetryableError)
  | _ =>
      has_reason ServerTimeout e || has_reason Timeout e || has_reason TooManyRequests e
      || has_reason ServiceUnavailable e || has_reason InternalError e
  end.

Definition ShouldWaitForNextSync (e : error) : bool :=
  match e with
  | SyncErr _ c _ => bool_decide (c = WaitForNextSyncError)
  | _ => false
  end.

(** The conversion every syncX handler applies to an error of SyncResource:
    keep the retry decision, name the resource. *)
Definition recategorize (e : error) (prefix resource : string) : error :=
  if IsRetryable e then NewRetryableError (WrapError prefix e) resource
  else NewNonRetryableError (WrapError prefix e) resource.

(** ** Lemmas *)

Lemma runs_bindE_inv {Sg : Sig} {A B} (c : prog Sg (res A)) w (k : A → prog Sg (res B)) tr out :
  runs (bindE c w k) tr out →
  (∃ a tr1 tr2, runs c tr1 (Ret (Ok a)) ∧ runs (k a) tr2 out ∧ tr = (tr1 ++ tr2)%list)
  ∨ (∃ e, runs c tr (Ret (Err e)) ∧ out = Ret (Err (w e)))
  ∨ (∃ s, runs c tr (Panic s) ∧ out = Panic s).
Proof.
  intros [(r & t1 & t2 & H1 & H2 & ->)|(s & H1 & ->)]%runs_bind_inv; [|by eauto].
  destruct r as [a|e].
  - left. by eauto 10.
  - right; left. apply runs_ret_inv in H2 as [-> ->]. rewrite app_nil_r. by eauto.
Qed.

Lemma safe_bindE {Sg : Sig} {A B} (P : Op Sg → Prop) (c : prog Sg (res A)) w
    (k : A → prog Sg (res B)) (R : A → Prop) (Q : res B → Prop) :
  safe P c (λ r, match r with Ok a => R a | Err e => Q (Err (w e)) end) →
  (∀ a, R a → safe P (k a) Q) → safe P (bindE c w k) Q.
Proof.
  intros Hc Hk. eapply safe_bind; [exact Hc|]. intros [a|e] H; [by apply Hk|done].
Qed.

Lemma safe_range_err {Sg : Sig} {A St} (P : Op Sg → Prop) (I : St → Prop) (E : error → Prop)
    (xs : list A) s body :
  I s →
  (∀ x s, x ∈ xs → I s →
     safe P (body x s) (λ r, match r with Ok s' => I s' | Err e => E e end)) →
  safe P (range_err xs s body) (λ r, match r with Ok s' => I s' | Err e => E e end).
Proof.
  revert s. induction xs as [|x xs IH]; intros s Hs Hb; [done|]. cbn [range_err].
  eapply safe_bind; [apply (Hb x s); [left|done]|].
  intros [s'|e] H; [|done]. apply IH; [done|]. intros y s'' Hy. apply Hb. by right.
Qed.

Lemma has_reason_Wrap r p e : has_reason r (WrapError p e) = has_reason r e.
Proof. done. Qed.

(** Once a [*SyncError] is wrapped with [%w], its category is lost. *)
Lemma IsRetryable_wrapped_sync p e c r : IsRetryable (WrapError p (SyncErr e c r)) = false.
Proof. done. Qed.

Lemma IsRetryable_recategorize e p r : IsRetryable (recategorize e p r) = IsRetryable e.
Proof. unfold recategorize. by destruct (IsRetryable e). Qed.

Lemma recategorize_never_waits e p r : ShouldWaitForNextSync (recategorize e p r) = false.
Proof. unfold recategorize. by destruct (IsRetryable e). Qed.

Lemma IsNotFound_Conflict e : IsNotFound e = true → IsConflict e = false.
Proof.
  unfold IsNotFound, IsConflict, has_reason. rewrite bool_decide_eq_true, bool_decide_eq_false.
  intros ->. done.
Qed.

#[export] Hint Rewrite has_reason_Wrap IsRetryable_recategorize : drsync.
