(* ===== verification/Types.v ===== *)
(** * The API types (api/v1alpha1)

    The custom resources the controllers work on, with the fields the modelled
    code reads or writes.  A string-typed phase stays a string because the code
    handles values outside the declared constants; a pointer to a value is an
    [option]; instants are nanoseconds.  [Payload] is content that is carried
    around and never inspected. *)

From S2P Require Import Prelude Errors.

Definition Payload : Type := string.
Definition Time : Type := Z.

(** metav1.Condition *)

Record Condition : Type := mkCondition {
  CType : string;
  CStatus : string;
  CObservedGeneration : Z;
  CLastTransitionTime : Time;
  CReason : string;
  CMessage : string
}.

Definition ConditionTrue : string := "True".
Definition ConditionFalse : string := "False".

Definition SyncPhasePending : string := "Pending".
Definition SyncPhaseRunning : string := "Running".
Definition SyncPhaseCompleted : string := "Completed".
Definition SyncPhaseFailed : string := "Failed".

(** SyncStats: the counts are int32. *)
Record SyncStats : Type := mkSyncStats {
  TotalResources : Z;
  SuccessfulSyncs : Z;
  FailedSyncs : Z;
  LastSyncDuration : string
}.

(** v1alpha1.SyncError, the last error kept in the status. *)
Record StatusSyncError : Type := mkStatusSyncError {
  SEMessage : string;
  SEResource : string;
  SETime : Time
}.

(** RetryStatus: RetriesRemaining is an int32. *)
Record RetryStatus : Type := mkRetryStatus {
  NextRetryTime : option Time;
  RetriesRemaining : Z;
  BackoffDuration : string
}.

(** v1alpha1.DeploymentScale *)
Record DeploymentScale : Type := mkDeploymentScale {
  DSName : string;
  OriginalReplicas : Z;
  LastSyncedAt : option Time
}.

(** v1alpha1.ResourceStatus *)
Record ResourceStatus : Type := mkResourceStatus {
  RSKind : string;
  RSName : string;
  RSNamespace : string;
  RSStatus : string;
  RSLastSyncTime : option Time;
  RSError : string
}.

(** NamespaceMappingStatus *)
Record NamespaceMappingStatus : Type := mkNamespaceMappingStatus {
  Phase : string;
  LastSyncTime : option Time;
  NextSyncTime : option Time;
  LastWatchEvent : option Time;
  SyncProgress : option Payload;
  SyncStats_ : option SyncStats;
  ResourceGroups : list Payload;
  DetailedStatus : list Payload;
  ErrorCategories : list Payload;
  RetryStatus_ : option RetryStatus;
  ResourceStatus_ : list ResourceStatus;
  LastError : option StatusSyncError;
  Conditions : list Condition;
  DeploymentScales : list DeploymentScale
}.

Definition set_Phase (v : string) (s : NamespaceMappingStatus) : NamespaceMappingStatus :=
  mkNamespaceMappingStatus v (s.(LastSyncTime)) (s.(NextSyncTime)) (s.(LastWatchEvent)) (s.(SyncProgress)) (s.(SyncStats_)) (s.(ResourceGroups)) (s.(DetailedStatus)) (s.(ErrorCategories)) (s.(RetryStatus_)) (s.(ResourceStatus_)) (s.(LastError)) (s.(Conditions)) (s.(DeploymentScales)).
Definition set_LastSyncTime (v : option Time) (s : NamespaceMappingStatus) : NamespaceMappingStatus :=
  mkNamespaceMappingStatus (s.(Phase)) v (s.(NextSyncTime)) (s.(LastWatchEvent)) (s.(SyncProgress)) (s.(SyncStats_)) (s.(ResourceGroups)) (s.(DetailedStatus)) (s.(ErrorCategories)) (s.(RetryStatus_)) (s.(ResourceStatus_)) (s.(LastError)) (s.(Conditions)) (s.(DeploymentScales)).
Definition set_NextSyncTime (v : option Time) (s : NamespaceMappingStatus) : NamespaceMappingStatus :=
  mkNamespaceMappingStatus (s.(Phase)) (s.(LastSyncTime)) v (s.(LastWatchEvent)) (s.(SyncProgress)) (s.(SyncStats_)) (s.(ResourceGroups)) (s.(DetailedStatus)) (s.(ErrorCategories)) (s.(RetryStatus_)) (s.(ResourceStatus_)) (s.(LastError)) (s.(Conditions)) (s.(DeploymentScales)).
Definition set_LastWatchEvent (v : option Time) (s : NamespaceMappingStatus) : NamespaceMappingStatus :=
  mkNamespaceMappingStatus (s.(Phase)) (s.(LastSyncTime)) (s.(NextSyncTime)) v (s.(SyncProgress)) (s.(SyncStats_)) (s.(ResourceGroups)) (s.(DetailedStatus)) (s.(ErrorCategories)) (s.(RetryStatus_)) (s.(ResourceStatus_)) (s.(LastError)) (s.(Conditions)) (s.(DeploymentScales)).
Definition set_SyncStats_ (v : option SyncStats) (s : NamespaceMappingStatus) : NamespaceMappingStatus :=
  mkNamespaceMappingStatus (s.(Phase)) (s.(LastSyncTime)) (s.(NextSyncTime)) (s.(LastWatchEvent)) (s.(SyncProgress)) v (s.(ResourceGroups)) (s.(DetailedStatus)) (s.(ErrorCategories)) (s.(RetryStatus_)) (s.(ResourceStatus_)) (s.(LastError)) (s.(Conditions)) (s.(DeploymentScales)).
Definition set_RetryStatus_ (v : option RetryStatus) (s : NamespaceMappingStatus) : NamespaceMappingStatus :=
  mkNamespaceMappingStatus (s.(Phase)) (s.(LastSyncTime)) (s.(NextSyncTime)) (s.(LastWatchEvent)) (s.(SyncProgress)) (s.(SyncStats_)) (s.(ResourceGroups)) (s.(DetailedStatus)) (s.(ErrorCategories)) v (s.(ResourceStatus_)) (s.(LastError)) (s.(Conditions)) (s.(DeploymentScales)).
Definition set_ResourceStatus_ (v : list ResourceStatus) (s : NamespaceMappingStatus) : NamespaceMappingStatus :=
  mkNamespaceMappingStatus (s.(Phase)) (s.(LastSyncTime)) (s.(NextSyncTime)) (s.(LastWatchEvent)) (s.(SyncProgress)) (s.(SyncStats_)) (s.(ResourceGroups)) (s.(DetailedStatus)) (s.(ErrorCategories)) (s.(RetryStatus_)) v (s.(LastError)) (s.(Conditions)) (s.(DeploymentScales)).
Definition set_LastError (v : option StatusSyncError) (s : NamespaceMappingStatus) : NamespaceMappingStatus :=
  mkNamespaceMappingStatus (s.(Phase)) (s.(LastSyncTime)) (s.(NextSyncTime)) (s.(LastWatchEvent)) (s.(SyncProgress)) (s.(SyncStats_)) (s.(ResourceGroups)) (s.(DetailedStatus)) (s.(ErrorCategories)) (s.(RetryStatus_)) (s.(ResourceStatus_)) v (s.(Conditions)) (s.(DeploymentScales)).
Definition set_Conditions (v : list Condition) (s : NamespaceMappingStatus) : NamespaceMappingStatus :=
  mkNamespaceMappingStatus (s.(Phase)) (s.(LastSyncTime)) (s.(NextSyncTime)) (s.(LastWatchEvent)) (s.(SyncProgress)) (s.(SyncStats_)) (s.(ResourceGroups)) (s.(DetailedStatus)) (s.(ErrorCategories)) (s.(RetryStatus_)) (s.(ResourceStatus_)) (s.(LastError)) v (s.(DeploymentScales)).
Definition set_DeploymentScales (v : list DeploymentScale) (s : NamespaceMappingStatus) : NamespaceMappingStatus :=
  mkNamespaceMappingStatus (s.(Phase)) (s.(LastSyncTime)) (s.(NextSyncTime)) (s.(LastWatchEvent)) (s.(SyncProgress)) (s.(SyncStats_)) (s.(ResourceGroups)) (s.(DetailedStatus)) (s.(ErrorCategories)) (s.(RetryStatus_)) (s.(ResourceStatus_)) (s.(LastError)) (s.(Conditions)) v.

Definition ScheduledMode : string := "Scheduled".
Definition ContinuousMode : string := "Continuous".
Definition ManualMode : string := "Manual".

(** StorageClassMapping *)
Record StorageClassMapping : Type := mkStorageClassMapping {
  SCFrom : string;
  SCTo : string
}.

(** AccessModeMapping *)
Record AccessModeMapping : Type := mkAccessModeMapping {
  AMFrom : string;
  AMTo : string
}.

(** PVCDataSyncConfig: the fields the transfer reads. *)
Record PVCDataSyncConfig : Type := mkPVCDataSyncConfig {
  dsRsyncOptions : list string;
  dsBandwidthLimit : option Z;
  dsVerificationMode : string;
  dsSamplePercent : option Z
}.

(** VerificationMode *)
Definition VerificationModeNone : string := "none".
Definition VerificationModeSample : string := "sample".
Definition VerificationModeFull : string := "full".

(** PVCConfig *)
Record PVCConfig : Type := mkPVCConfig {
  StorageClassMappings : list StorageClassMapping;
  AccessModeMappings : list AccessModeMapping;
  PreserveVolumeAttributes : bool;
  SyncPersistentVolumes : bool;
  SyncData : bool;
  DataSyncConfig : option PVCDataSyncConfig
}.

(** ImmutableResourceHandling: a string type with these constants. *)
Definition NoChange : string := "NoChange".
Definition Recreate : string := "Recreate".
Definition RecreateWithPodDrain : string := "RecreateWithPodDrain".
Definition PartialUpdate : string := "PartialUpdate".
Definition ForceUpdate : string := "ForceUpdate".

(** ImmutableResourceConfig *)
Record ImmutableResourceConfig : Type := mkImmutableResourceConfig {
  DefaultHandling : string;
  ResourceOverrides : option (gmap string string);
  DrainTimeout : option Z;
  ForceDeleteTimeout : option Z
}.

(** ClusterMappingReference *)
Record ClusterMappingReference : Type := mkClusterMappingReference {
  CMRName : string;
  CMRNamespace : string
}.

(** RetryConfig: MaxRetries and BackoffMultiplier (a percentage) are int32. *)
Record RetryConfig : Type := mkRetryConfig {
  MaxRetries : option Z;
  InitialBackoff : string;
  MaxBackoff : string;
  BackoffMultiplier : option Z
}.

(** NamespaceMappingSpec; [BackgroundSyncInterval] is [Continuous.BackgroundSyncInterval],
    [None] when [Continuous] is nil. *)
Record NamespaceMappingSpec : Type := mkNamespaceMappingSpec {
  Paused : option bool;
  ReplicationMode : string;
  BackgroundSyncInterval : option string;
  RetryConfig_ : option RetryConfig;
  SourceCluster : string;
  DestinationCluster : string;
  SourceNamespace : string;
  DestinationNamespace : string;
  Schedule : string;
  ResourceTypes : list string;
  ScaleToZero : option bool;
  NamespaceScopedResources : list string;
  PVCConfig_ : option PVCConfig;
  ImmutableResourceConfig_ : option ImmutableResourceConfig;
  SyncCRDs : option bool;
  ClusterMappingRef : option ClusterMappingReference
}.

Definition set_SourceCluster (v : string) (s : NamespaceMappingSpec) : NamespaceMappingSpec :=
  mkNamespaceMappingSpec (s.(Paused)) (s.(ReplicationMode)) (s.(BackgroundSyncInterval)) (s.(RetryConfig_)) v (s.(DestinationCluster)) (s.(SourceNamespace)) (s.(DestinationNamespace)) (s.(Schedule)) (s.(ResourceTypes)) (s.(ScaleToZero)) (s.(NamespaceScopedResources)) (s.(PVCConfig_)) (s.(ImmutableResourceConfig_)) (s.(SyncCRDs)) (s.(ClusterMappingRef)).
Definition set_DestinationCluster (v : string) (s : NamespaceMappingSpec) : NamespaceMappingSpec :=
  mkNamespaceMappingSpec (s.(Paused)) (s.(ReplicationMode)) (s.(BackgroundSyncInterval)) (s.(RetryConfig_)) (s.(SourceCluster)) v (s.(SourceNamespace)) (s.(DestinationNamespace)) (s.(Schedule)) (s.(ResourceTypes)) (s.(ScaleToZero)) (s.(NamespaceScopedResources)) (s.(PVCConfig_)) (s.(ImmutableResourceConfig_)) (s.(SyncCRDs)) (s.(ClusterMappingRef)).

(** NamespaceMapping *)
Record NamespaceMapping : Type := mkNamespaceMapping {
  Name : string;
  Namespace : string;
  Annotations : gmap string string;
  Finalizers : list string;
  DeletionTimestamp : option Time;
  ResourceVersion : string;
  Spec : NamespaceMappingSpec;
  Status : NamespaceMappingStatus
}.

Definition set_Finalizers (v : list string) (s : NamespaceMapping) : NamespaceMapping :=
  mkNamespaceMapping (s.(Name)) (s.(Namespace)) (s.(Annotations)) v (s.(DeletionTimestamp)) (s.(ResourceVersion)) (s.(Spec)) (s.(Status)).
Definition set_Spec (v : NamespaceMappingSpec) (s : NamespaceMapping) : NamespaceMapping :=
  mkNamespaceMapping (s.(Name)) (s.(Namespace)) (s.(Annotations)) (s.(Finalizers)) (s.(DeletionTimestamp)) (s.(ResourceVersion)) v (s.(Status)).
Definition set_Status (v : NamespaceMappingStatus) (s : NamespaceMapping) : NamespaceMapping :=
  mkNamespaceMapping (s.(Name)) (s.(Namespace)) (s.(Annotations)) (s.(Finalizers)) (s.(DeletionTimestamp)) (s.(ResourceVersion)) (s.(Spec)) v.

(** ** clustermapping_types.go *)

Definition ClusterMappingPhasePending : string := "Pending".
Definition ClusterMappingPhaseConnecting : string := "Connecting".
Definition ClusterMappingPhaseConnected : string := "Connected".
Definition ClusterMappingPhaseFailed : string := "Failed".

(** ClusterMappingSSHKeySecretRef *)
Record ClusterMappingSSHKeySecretRef : Type := mkClusterMappingSSHKeySecretRef {
  SKName : string;
  SKNamespace : string;
  PublicKeyKey : string;
  PrivateKeyKey : string
}.

(** ClusterMappingSpec *)
Record ClusterMappingSpec : Type := mkClusterMappingSpec {
  CMPaused : option bool;
  CMSourceCluster : string;
  TargetCluster : string;
  SSHKeySecretRef : option ClusterMappingSSHKeySecretRef;
  VerifyConnectivity : option bool;
  ConnectivityTimeoutSeconds : option Z
}.

(** AgentConnectionDetail *)
Record AgentConnectionDetail : Type := mkAgentConnectionDetail {
  ACSourceNode : string;
  ACTargetNode : string;
  Connected : bool;
  ACError : string
}.

(** ConnectionStatus: the counts are int32. *)
Record ConnectionStatus : Type := mkConnectionStatus {
  TotalSourceAgents : Z;
  TotalTargetAgents : Z;
  ConnectedAgents : Z;
  ConnectionDetails : list AgentConnectionDetail
}.

(** ClusterMappingStatus: ConsecutiveFailures is an int. *)
Record ClusterMappingStatus : Type := mkClusterMappingStatus {
  CMPhase : string;
  CMMessage : string;
  LastVerified : option Time;
  ConnectionStatus_ : option ConnectionStatus;
  CMConditions : list Condition;
  LastAttemptTime : option Time;
  ConsecutiveFailures : Z
}.

Definition set_CMPhase (v : string) (s : ClusterMappingStatus) : ClusterMappingStatus :=
  mkClusterMappingStatus v (s.(CMMessage)) (s.(LastVerified)) (s.(ConnectionStatus_)) (s.(CMConditions)) (s.(LastAttemptTime)) (s.(ConsecutiveFailures)).
Definition set_CMMessage (v : string) (s : ClusterMappingStatus) : ClusterMappingStatus :=
  mkClusterMappingStatus (s.(CMPhase)) v (s.(LastVerified)) (s.(ConnectionStatus_)) (s.(CMConditions)) (s.(LastAttemptTime)) (s.(ConsecutiveFailures)).
Definition set_LastVerified (v : option Time) (s : ClusterMappingStatus) : ClusterMappingStatus :=
  mkClusterMappingStatus (s.(CMPhase)) (s.(CMMessage)) v (s.(ConnectionStatus_)) (s.(CMConditions)) (s.(LastAttemptTime)) (s.(ConsecutiveFailures)).
Definition set_ConnectionStatus_ (v : option ConnectionStatus) (s : ClusterMappingStatus) : ClusterMappingStatus :=
  mkClusterMappingStatus (s.(CMPhase)) (s.(CMMessage)) (s.(LastVerified)) v (s.(CMConditions)) (s.(LastAttemptTime)) (s.(ConsecutiveFailures)).
Definition set_LastAttemptTime (v : option Time) (s : ClusterMappingStatus) : ClusterMappingStatus :=
  mkClusterMappingStatus (s.(CMPhase)) (s.(CMMessage)) (s.(LastVerified)) (s.(ConnectionStatus_)) (s.(CMConditions)) v (s.(ConsecutiveFailures)).
Definition set_ConsecutiveFailures (v : Z) (s : ClusterMappingStatus) : ClusterMappingStatus :=
  mkClusterMappingStatus (s.(CMPhase)) (s.(CMMessage)) (s.(LastVerified)) (s.(ConnectionStatus_)) (s.(CMConditions)) (s.(LastAttemptTime)) v.

(** ClusterMapping *)
Record ClusterMapping : Type := mkClusterMapping {
  CMName : string;
  CMNamespace : string;
  CMResourceVersion : string;
  CMSpec : ClusterMappingSpec;
  CMStatus : ClusterMappingStatus
}.

Definition set_CMStatus (v : ClusterMappingStatus) (s : ClusterMapping) : ClusterMapping :=
  mkClusterMapping (s.(CMName)) (s.(CMNamespace)) (s.(CMResourceVersion)) (s.(CMSpec)) v.

(** ** cluster_types.go *)

(** KubeconfigSecretRef *)
Record KubeconfigSecretRef : Type := mkKubeconfigSecretRef {
  KCName : string;
  KCNamespace : string;
  KCKey : string
}.

Record PVCSyncImage : Type := mkPVCSyncImage { imRepository : string; imTag : string; imPullPolicy : string }.

(** SSHKeySecretRef *)
Record AgentKeySecretRef : Type := mkAgentKeySecretRef { skName : string; skNamespace : string }.

Record PVCSyncSSH : Type := mkPVCSyncSSH { sshPort : Z; sshKeySecretRef : option AgentKeySecretRef }.

(** EnvVar of the API: a value, or a field of the pod. *)
Record ExtraEnvVar : Type := mkExtraEnvVar { xeName : string; xeValue : string; xeFieldPath : option string }.

(** PVCSyncDeployment; [None] stands for a nil map or slice. *)
Record PVCSyncDeployment : Type := mkPVCSyncDeployment {
  pdHostNetwork : option bool;
  pdNodeSelector : option (gmap string string);
  pdTolerations : option (list (gmap string string));
  pdLimits : option (gmap string string);
  pdRequests : option (gmap string string);
  pdHasResources : bool;
  pdAnnotations : option (gmap string string);
  pdLabels : option (gmap string string);
  pdPriorityClassName : string;
  pdPrivileged : option bool;
  pdExtraEnv : list ExtraEnvVar
}.

(** HealthCheckConfig *)
Record HealthCheckConfig : Type := mkHealthCheckConfig {
  hcInterval : string;
  hcSSHTimeout : string;
  hcRetryAttempts : Z;
  hcRetryInterval : string
}.

(** PVCSyncRetryConfig *)
Record PVCSyncRetryConfig : Type := mkPVCSyncRetryConfig {
  prMaxRetries : Z;
  prInitialDelay : string;
  prMaxDelay : string
}.

(** PVCSyncSpec: the fields the code reads. *)
Record PVCSyncSpec : Type := mkPVCSyncSpec {
  psEnabled : bool;
  psImage : option PVCSyncImage;
  psSSH : option PVCSyncSSH;
  psGlobalConcurrencyLimit : option Z;
  psDeployment : option PVCSyncDeployment;
  psDefaultVerificationMode : string;
  psDefaultSamplePercent : option Z;
  psHealthCheck : option HealthCheckConfig
}.

Record SSHConnectionStatus : Type := mkSSHConnectionStatus {
  csLastCheckTime : option Time;
  csConnected : bool;
  csError : string
}.

Record PodStatus : Type := mkPodStatus {
  psPhase : string;
  psReady : bool;
  psRestartCount : Z;
  psLastTransitionTime : option Time
}.

Record PVCSyncNodeStatus : Type := mkPVCSyncNodeStatus {
  nsReady : bool;
  nsLastHeartbeat : option Time;
  nsSSHStatus : option SSHConnectionStatus;
  nsPodStatus : option PodStatus;
  nsMessage : string
}.

(** A nil map of node statuses is [None]. *)
Record PVCSyncAgentStatus : Type := mkPVCSyncAgentStatus {
  asReadyNodes : Z;
  asTotalNodes : Z;
  asNodeStatuses : option (gmap string PVCSyncNodeStatus)
}.

Record PVCSyncStatus : Type := mkPVCSyncStatus {
  pstPhase : string;
  pstAgentStatus : option PVCSyncAgentStatus;
  pstLastSuccessfulSync : option Time;
  pstLastDeploymentTime : option Time;
  pstFailedSyncs : Z;
  pstMessage : string
}.

Record RemoteClusterStatus : Type := mkRemoteClusterStatus {
  rsHealth : string;
  rsLastSyncTime : option Time;
  rsConditions : list Condition;
  rsPVCSync : option PVCSyncStatus
}.

(** RemoteCluster: the fields the controllers read or write. *)
Record RemoteCluster : Type := mkRemoteCluster {
  RCName : string;
  RCNamespace : string;
  RCResourceVersion : string;
  RCKubeconfig : KubeconfigSecretRef;
  RCDefaultSchedule : string;
  PVCSync : option PVCSyncSpec;
  RCStatus : RemoteClusterStatus
}.
