(* ===== verification/Float.v ===== *)
(** * float64 arithmetic, as the durations of the program use it

    A finite float64 is an integer times a power of two.  The code only multiplies
    and adds positive values far from the ends of the exponent range, so an
    operation is the exact one followed by rounding to 53 significant bits, ties to
    even: [r64] on the integer significand at a fixed scale. *)

From S2P Require Import Prelude.

(** Round [n ≥ 0] to a multiple of [2^e], ties to even. *)
Definition round_at (e n : Z) : Z :=
  let q := n / 2 ^ e in
  let r := n mod 2 ^ e in
  let up := (2 ^ e <? 2 * r) || ((2 * r =? 2 ^ e) && Z.odd q) in
  (if up then q + 1 else q) * 2 ^ e.

Definition r64_pos (n : Z) : Z :=
  let e := Z.log2 n - 52 in
  if e <=? 0 then n else round_at e n.

Definition r64 (n : Z) : Z :=
  if n <? 0 then - r64_pos (- n) else r64_pos n.

(** The float64 nearest to [p / q], at scale [2^131]: a quotient with more than 55
    bits and a sticky bit. *)
Definition fdiv131 (p q : Z) : Z :=
  let d := p * 2 ^ 130 / q in
  let sticky := if p * 2 ^ 130 mod q =? 0 then 0 else 1 in
  r64 (2 * d + sticky).

(** The conversion [int64(f)] of a float with integer part [z]: out of range it
    yields the most negative value, as amd64's CVTTSD2SQ does. *)
Definition f64_to_int64 (z : Z) : Z :=
  if bool_decide (in_int64 z) then z else -9223372036854775808.

(** ** Rounding is monotone and exact on 53 bits *)

Lemma round_at_le e x y : 0 < e → 0 ≤ x → x ≤ y → round_at e x ≤ round_at e y.
Proof.
  intros He Hx Hxy. unfold round_at.
  assert (Hp : 0 < 2 ^ e) by (apply Z.pow_pos_nonneg; lia).
  set (P := 2 ^ e) in *. clearbody P.
  pose proof (Z.div_mod x P ltac:(lia)) as Dx. pose proof (Z.div_mod y P ltac:(lia)) as Dy.
  pose proof (Z.mod_pos_bound x P Hp). pose proof (Z.mod_pos_bound y P Hp).
  pose proof (Z.div_le_mono x y P Hp Hxy) as Hq.
  apply Z.mul_le_mono_nonneg_r; [lia|].
  destruct (Z.eq_dec (x / P) (y / P)) as [E|N].
  - rewrite E in *.
    destruct (Z.ltb_spec P (2 * (x mod P))), (Z.ltb_spec P (2 * (y mod P))),
      (Z.eqb_spec (2 * (x mod P)) P), (Z.eqb_spec (2 * (y mod P)) P),
      (Z.odd (y / P)); cbn; lia.
  - destruct (_ || _), (_ || _); lia.
Qed.

Lemma round_at_lower e x : 0 < e → 0 ≤ x → 2 ^ Z.log2 x ≤ x → e ≤ Z.log2 x →
  2 ^ Z.log2 x ≤ round_at e x.
Proof.
  intros He Hx Hl Hle. unfold round_at.
  assert (Hp : 0 < 2 ^ e) by (apply Z.pow_pos_nonneg; lia).
  assert (Hq : 2 ^ (Z.log2 x - e) ≤ x / 2 ^ e).
  { apply Z.div_le_lower_bound; [lia|]. rewrite <- Z.pow_add_r by lia.
    replace (e + (Z.log2 x - e)) with (Z.log2 x) by lia. done. }
  replace (Z.log2 x) with (Z.log2 x - e + e) at 1 by lia. rewrite Z.pow_add_r by lia.
  apply Z.mul_le_mono_nonneg_r; [lia|]. destruct (_ || _); lia.
Qed.

Lemma round_at_upper e x : 0 < e → 0 ≤ x → e ≤ Z.log2 x →
  round_at e x ≤ 2 ^ (Z.log2 x + 1).
Proof.
  intros He Hx Hle. unfold round_at.
  assert (Hp : 0 < 2 ^ e) by (apply Z.pow_pos_nonneg; lia).
  assert (Hq : x / 2 ^ e < 2 ^ (Z.log2 x + 1 - e)).
  { apply Z.div_lt_upper_bound; [lia|]. rewrite <- Z.pow_add_r by lia.
    replace (e + (Z.log2 x + 1 - e)) with (Z.succ (Z.log2 x)) by lia.
    destruct (Z.eq_dec x 0) as [->|]; [lia|]. apply Z.log2_spec. lia. }
  replace (Z.log2 x + 1) with (Z.log2 x + 1 - e + e) by lia. rewrite Z.pow_add_r by lia.
  apply Z.mul_le_mono_nonneg_r; [lia|]. destruct (_ || _); lia.
Qed.

Lemma r64_pos_lower x : 0 < x → 2 ^ Z.log2 x ≤ r64_pos x.
Proof.
  intros Hx. pose proof (Z.log2_spec x Hx) as [Hs _]. unfold r64_pos.
  destruct (Z.leb_spec (Z.log2 x - 52) 0); [done|]. apply round_at_lower; lia.
Qed.

Lemma r64_pos_upper x : 0 < x → r64_pos x ≤ 2 ^ (Z.log2 x + 1).
Proof.
  intros Hx. pose proof (Z.log2_spec x Hx) as [_ Hs]. unfold r64_pos.
  destruct (Z.leb_spec (Z.log2 x - 52) 0).
  - replace (Z.log2 x + 1) with (Z.succ (Z.log2 x)) by lia. lia.
  - apply round_at_upper; lia.
Qed.

Lemma r64_pos_0 : r64_pos 0 = 0.
Proof. done. Qed.

Lemma r64_pos_le x y : 0 ≤ x → x ≤ y → r64_pos x ≤ r64_pos y.
Proof.
  intros Hx Hxy. destruct (Z.eq_dec x 0) as [->|Hx0].
  { rewrite r64_pos_0. destruct (Z.eq_dec y 0) as [->|]; [by rewrite r64_pos_0|].
    pose proof (r64_pos_lower y ltac:(lia)).
    pose proof (Z.pow_nonneg 2 (Z.log2 y) ltac:(lia)). lia. }
  pose proof (Z.log2_le_mono x y Hxy) as Hl.
  destruct (Z.eq_dec (Z.log2 x) (Z.log2 y)) as [E|N].
  - unfold r64_pos. rewrite E. destruct (Z.leb_spec (Z.log2 y - 52) 0); [done|].
    apply round_at_le; lia.
  - transitivity (2 ^ (Z.log2 x + 1)); [apply r64_pos_upper; lia|].
    transitivity (2 ^ Z.log2 y); [|apply r64_pos_lower; lia].
    apply Z.pow_le_mono_r; lia.
Qed.

Lemma r64_le x y : 0 ≤ x → x ≤ y → r64 x ≤ r64 y.
Proof.
  intros Hx Hxy. unfold r64.
  destruct (Z.ltb_spec x 0), (Z.ltb_spec y 0); try lia. by apply r64_pos_le.
Qed.

Lemma r64_nonneg x : 0 ≤ x → 0 ≤ r64 x.
Proof. intros Hx. change 0 with (r64 0) at 1. by apply r64_le. Qed.

(** An integer of at most 53 bits is a float64. *)
Lemma r64_small n : - 2 ^ 53 < n < 2 ^ 53 → r64 n = n.
Proof.
  intros H. unfold r64, r64_pos.
  destruct (Z.ltb_spec n 0).
  - assert (Z.log2 (- n) < 53) by (apply Z.log2_lt_pow2; lia).
    destruct (Z.leb_spec (Z.log2 (- n) - 52) 0); lia.
  - destruct (Z.eq_dec n 0) as [->|]; [done|].
    assert (Z.log2 n < 53) by (apply Z.log2_lt_pow2; lia).
    destruct (Z.leb_spec (Z.log2 n - 52) 0); lia.
Qed.

(** Values at least as large as a 53-bit integer stay so. *)
Lemma r64_ge_small n m : 0 ≤ m → m < 2 ^ 53 → m ≤ n → m ≤ r64 n.
Proof.
  intros Hm Hs Hmn. rewrite <- (r64_small m) by lia. apply r64_le; lia.
Qed.

Lemma f64_to_int64_id z : in_int64 z → f64_to_int64 z = z.
Proof. intros H. unfold f64_to_int64. by rewrite bool_decide_eq_true_2. Qed.

#[export] Hint Resolve r64_nonneg r64_le : drsync.
