(* ===== verification/Duration.v ===== *)
(** * Durations: time.ParseDuration, formatDuration and the backoff computations

    [formatDuration] and the doubling of [handleRetry] are from
    pkg/controllers/modes/reconciler.go, [CalculateBackoff] from
    pkg/util/backoff.go; [ParseDuration] is the standard library's. *)

From S2P Require Import Prelude GoString Float.
From Stdlib Require Import Ascii.

(** ** time.ParseDuration *)

Definition pow63 : Z := 9223372036854775808.

(** leadingInt consumes the leading [0-9]*; [None] is its overflow error. *)
Fixpoint leadingInt (s : string) (x : Z) : option (Z * string) :=
  match s with
  | String c rest =>
      if is_digit c then
        if pow63 / 10 <? x then None
        else let x' := x * 10 + (code c - 48) in
             if pow63 <? x' then None else leadingInt rest x'
      else Some (x, s)
  | EmptyString => Some (x, s)
  end.

(** leadingFraction: the digits after the point that fit, the power of ten they
    are over (a float64), and the rest of the string. *)
Fixpoint leadingFraction (s : string) (x scale : Z) (overflow : bool) : Z * Z * string :=
  match s with
  | String c rest =>
      if is_digit c then
        if overflow then leadingFraction rest x scale true
        else if (pow63 - 1) / 10 <? x then leadingFraction rest x scale true
        else let y := x * 10 + (code c - 48) in
             if pow63 <? y then leadingFraction rest x scale true
             else leadingFraction rest y (r64 (scale * 10)) false
      else (x, scale, s)
  | EmptyString => (x, scale, s)
  end.

(** The unit: everything up to a point or a digit. *)
Fixpoint span_unit (s : string) : string * string :=
  match s with
  | String c rest =>
      if Ascii.eqb c "."%char || is_digit c then (EmptyString, s)
      else let '(u, r) := span_unit rest in (String c u, r)
  | EmptyString => (EmptyString, s)
  end.

Definition unitMap (u : string) : option Z :=
  if u =s? "ns" then Some Nanosecond
  else if u =s? "us" then Some 1000
  else if u =s? String (chr 194) (String (chr 181) "s") then Some 1000
  else if u =s? String (chr 206) (String (chr 188) "s") then Some 1000
  else if u =s? "ms" then Some Millisecond
  else if u =s? "s" then Some Second
  else if u =s? "m" then Some Minute
  else if u =s? "h" then Some Hour
  else None.

(** One [(number unit)] group; the remaining string is shorter. *)
Definition parse_group (s : string) : option (Z * string) :=
  match s with
  | EmptyString => None
  | String c _ =>
      if negb (Ascii.eqb c "."%char || is_digit c) then None else
      match leadingInt s 0 with
      | None => None
      | Some (v, s1) =>
          let pre := negb (String.length s =? String.length s1)%nat in
          let '(f, scale, s2, post) :=
            match s1 with
            | String "." s1' =>
                let '(f, scale, s2) := leadingFraction s1' 0 1 false in
                (f, scale, s2, negb (String.length s1' =? String.length s2)%nat)
            | _ => (0, 1, s1, false)
            end in
          if negb pre && negb post then None else
          let '(u, s3) := span_unit s2 in
          if u =s? "" then None else
          match unitMap u with
          | None => None
          | Some unit =>
              if pow63 / unit <? v then None else
              let v := v * unit in
              if 0 <? f then
                let v := v + r64 (r64 f * fdiv131 unit scale) / 2 ^ 131 in
                if pow63 <? v then None else Some (v, s3)
              else Some (v, s3)
          end
      end
  end.

Fixpoint parse_groups (fuel : nat) (s : string) (d : Z) : option Z :=
  match s with
  | EmptyString => Some d
  | _ =>
      match fuel with
      | O => None
      | S fuel' =>
          match parse_group s with
          | None => None
          | Some (v, s') =>
              let d' := (d + v) mod 2 ^ 64 in
              if pow63 <? d' then None else parse_groups fuel' s' d'
          end
      end
  end.

Definition ParseDuration (s : string) : option Z :=
  let '(neg, body) :=
    match s with
    | String "-" r => (true, r)
    | String "+" r => (false, r)
    | _ => (false, s)
    end in
  if body =s? "0" then Some 0
  else if body =s? "" then None
  else
    match parse_groups (String.length body) body 0 with
    | None => None
    | Some d =>
        if neg then Some (int64 (- int64 d))
        else if pow63 - 1 <? d then None else Some d
    end.

(** ** formatDuration (pkg/controllers/modes/reconciler.go); Go's [/] and [%]
    truncate towards zero *)
Definition formatDuration (d : Z) : string :=
  let h := Z.quot d Hour in
  let d := Z.rem d Hour in
  let m := Z.quot d Minute in
  let d := Z.rem d Minute in
  let s := Z.quot d Second in
  let parts := if 0 <? h then [itoa h +:+ "h"] else [] in
  let parts := if 0 <? m then (parts ++ [itoa m +:+ "m"])%list else parts in
  let parts := if (0 <? s) || (length parts =? 0)%nat
               then (parts ++ [itoa s +:+ "s"])%list else parts in
  Join parts "".

(** ** CalculateBackoff (pkg/util/backoff.go)

    [rnd] is the numerator of [rand.Float64()], which is [rnd / 2^53]. *)

(** 0.4 is [c04 / 2^54] and 0.8 is [c04 / 2^53] in float64. *)
Definition c04 : Z := 7205759403792794.

(** [0.8 + 0.4*rand.Float64()], at scale [2^107]. *)
Definition jitterFactor (rnd : Z) : Z := r64 (c04 * 2 ^ 54 + r64 (c04 * rnd)).

(** [1 << uint(consecutiveFailures-1)]: a shift by the width or more gives 0. *)
Definition backoffSeconds (consecutiveFailures : Z) : Z :=
  if 64 <=? consecutiveFailures - 1 then 0
  else int64 (Z.shiftl 1 (consecutiveFailures - 1)).

Definition CalculateBackoff (consecutiveFailures rnd : Z) : Z :=
  if consecutiveFailures <=? 0 then 0
  else
    let baseDelay := 1 * Second in
    let maxDelay := 5 * Minute in
    let backoff := int64 (backoffSeconds consecutiveFailures * baseDelay) in
    let jitteredBackoff :=
      f64_to_int64 (Z.quot (r64 (r64 backoff * jitterFactor rnd)) (2 ^ 107)) in
    if maxDelay <? jitteredBackoff then maxDelay else jitteredBackoff.

(** ** Parsing a sequence of whole [(number unit)] groups *)

Definition group_text (g : Z * ascii) : string := utoa g.1 +:+ String g.2 "".
Fixpoint groups_text (gs : list (Z * ascii)) : string :=
  match gs with [] => "" | g :: rest => group_text g +:+ groups_text rest end.

(** The one-letter units. *)
Definition unit_of (u : ascii) : Z :=
  if Ascii.eqb u "h" then Hour else if Ascii.eqb u "m" then Minute else Second.

Definition groups_value (gs : list (Z * ascii)) : Z :=
  foldr (λ g acc, g.1 * unit_of g.2 + acc) 0 gs.

Definition wf_group (g : Z * ascii) : Prop :=
  0 ≤ g.1 ∧ (g.2 = "h"%char ∨ g.2 = "m"%char ∨ g.2 = "s"%char).

Lemma string_app_assoc (a b c : string) : (a +:+ b) +:+ c = a +:+ b +:+ c.
Proof.
  induction a as [|x a IH]; [done|].
  change (String x ((a +:+ b) +:+ c) = String x (a +:+ b +:+ c)). by rewrite IH.
Qed.

Lemma append_String c (a b : string) : String c a +:+ b = String c (a +:+ b).
Proof. done. Qed.

Lemma slength_app (a b : string) :
  String.length (a +:+ b) = (String.length a + String.length b)%nat.
Proof. induction a as [|x a IH]; [done|]. rewrite append_String. cbn. by rewrite IH. Qed.

Lemma append_nil_r (a : string) : a +:+ "" = a.
Proof. induction a as [|x a IH]; [done|]. rewrite append_String. by rewrite IH. Qed.

Lemma append_empty (a : string) : "" +:+ a = a.
Proof. done. Qed.

Lemma parse_digits_ge ds x n : 0 ≤ x → parse_digits ds x = Some n → x ≤ n.
Proof.
  revert x. induction ds as [|c r IH]; intros x Hx; cbn; [intros [= ->]; lia|].
  destruct (is_digit c) eqn:Hd; [|done]. intros H.
  unfold is_digit in Hd. bool_props. apply IH in H; lia.
Qed.

Lemma leadingInt_digits ds x n c r :
  0 ≤ x → parse_digits ds x = Some n → n ≤ pow63 → is_digit c = false →
  leadingInt (ds +:+ String c r) x = Some (n, String c r).
Proof.
  revert x. induction ds as [|d ds IH]; intros x Hx; rewrite ?append_String; cbn.
  { intros [= ->] _ Hc. change ("" +:+ String c r) with (String c r). cbn. by rewrite Hc. }
  destruct (is_digit d) eqn:Hd; [|done]. intros H Hn Hc.
  assert (Hv : 0 ≤ code d - 48). { unfold is_digit in Hd. bool_props. lia. }
  pose proof (parse_digits_ge ds (10 * x + (code d - 48)) n ltac:(lia) H) as Hge.
  destruct (Z.ltb_spec (pow63 / 10) x) as [Hlt|_].
  { assert (pow63 < 10 * x); [|lia].
    pose proof (Z.mul_succ_div_gt pow63 10 ltac:(lia)). lia. }
  replace (x * 10 + (code d - 48)) with (10 * x + (code d - 48)) by lia.
  destruct (Z.ltb_spec pow63 (10 * x + (code d - 48))); [lia|].
  apply IH; [lia|done..].
Qed.

Lemma groups_text_head gs : Forall wf_group gs →
  groups_text gs = "" ∨ ∃ c r, groups_text gs = String c r ∧ is_digit c = true.
Proof.
  destruct 1 as [|g gs [Hg _] _]; [by left|right].
  destruct (utoa_head g.1 Hg) as (c & r & E & Hd).
  exists c, (r +:+ String g.2 "" +:+ groups_text gs). split; [|done].
  cbn. unfold group_text. by rewrite E, string_app_assoc.
Qed.

Lemma span_unit_stop s :
  s = "" ∨ (∃ c r, s = String c r ∧ is_digit c = true) → span_unit s = ("", s).
Proof. intros [->|(c & r & -> & Hd)]; cbn; [done|]. by rewrite Hd, orb_true_r. Qed.

(** The first group of a text of whole groups is parsed exactly. *)
Lemma parse_group_text g gs :
  wf_group g → Forall wf_group gs → g.1 * unit_of g.2 ≤ pow63 →
  parse_group (groups_text (g :: gs)) = Some (g.1 * unit_of g.2, groups_text gs).
Proof.
  intros [Hg Hu] Hgs Hb. destruct g as [n u]; cbn [fst snd] in *.
  destruct (utoa_head n Hg) as (c & r & E & Hd).
  assert (Hk : 1 ≤ unit_of u) by (unfold unit_of, Hour, Minute, Second; repeat case_match; lia).
  assert (Hn : n ≤ pow63) by nia.
  assert (Hnd : is_digit u = false) by (by destruct Hu as [->|[->| ->]]).
  cbn [groups_text]. unfold group_text; cbn [fst snd]. rewrite string_app_assoc.
  change (String u "" +:+ groups_text gs) with (String u (groups_text gs)).
  pose proof (leadingInt_digits (utoa n) 0 n u (groups_text gs) ltac:(lia)
    (utoa_parse n Hg) Hn Hnd) as HL.
  unfold parse_group. rewrite E in HL |- *.
  change (String c r +:+ String u (groups_text gs))
    with (String c (r +:+ String u (groups_text gs))) in *.
  cbv iota. rewrite Hd, orb_true_r. cbn [negb]. rewrite HL. cbn [String.length].
  assert (Hlen : (S (String.length (r +:+ String u (groups_text gs))) =? S (String.length (groups_text gs)))%nat = false).
  { apply Nat.eqb_neq. rewrite slength_app. cbn. lia. }
  rewrite Hlen. cbn [negb andb].
  pose proof (span_unit_stop _ (groups_text_head gs Hgs)) as Hs.
  assert (Hsu : span_unit (String u (groups_text gs)) = (String u "", groups_text gs)).
  { cbn. rewrite Hs. by destruct Hu as [->|[->| ->]]. }
  assert (Hm : unitMap (String u "") = Some (unit_of u)) by (by destruct Hu as [->|[->| ->]]).
  assert (Hdot : ∀ (T : Type) (x y : T), match u with "."%char => x | _ => y end = y)
    by (by destruct Hu as [->|[->| ->]]).
  rewrite Hdot, Hsu. cbn [String.eqb]. rewrite Hm.
  destruct (Z.ltb_spec (pow63 / unit_of u) n) as [Hlt|_]; [|done].
  exfalso. pose proof (Z.div_le_lower_bound pow63 (unit_of u) n ltac:(lia) ltac:(lia)). lia.
Qed.

Lemma groups_value_nonneg gs : Forall wf_group gs → 0 ≤ groups_value gs.
Proof.
  unfold groups_value. induction 1 as [|g gs [Hg _] _ IH]; cbn; [lia|].
  assert (0 ≤ unit_of g.2) by (unfold unit_of; repeat case_match; done). nia.
Qed.

Lemma parse_groups_text gs fuel d :
  Forall wf_group gs → (length gs ≤ fuel)%nat → 0 ≤ d → d + groups_value gs < pow63 →
  parse_groups fuel (groups_text gs) d = Some (d + groups_value gs).
Proof.
  intros Hgs. revert fuel d. induction Hgs as [|g gs Hg Hgs IH]; intros fuel d Hf Hd Hb.
  { destruct fuel; cbn; f_equal; lia. }
  destruct fuel as [|fuel]; [cbn in Hf; lia|].
  pose proof (groups_value_nonneg gs Hgs) as Hv. destruct Hg as [Hg Hu].
  assert (Hu' : 0 ≤ unit_of g.2) by (unfold unit_of; repeat case_match; done).
  cbn [groups_value foldr] in Hb. fold (groups_value gs) in Hb.
  assert (Hp : 0 ≤ g.1 * unit_of g.2) by nia.
  pose proof (parse_group_text g gs (conj Hg Hu) Hgs ltac:(lia)) as HP.
  destruct (groups_text_head (g :: gs)) as [E|(c & r & E & _)]; [by constructor|..].
  { rewrite E in HP. done. }
  cbn [parse_groups]. rewrite E in HP |- *. rewrite HP.
  rewrite Z.mod_small by (unfold pow63 in *; lia).
  destruct (Z.ltb_spec pow63 (d + g.1 * unit_of g.2)); [lia|].
  rewrite IH; [|cbn in Hf; lia..]. cbn [groups_value foldr]. f_equal.
  fold (groups_value gs). lia.
Qed.

Lemma ParseDuration_groups gs :
  Forall wf_group gs → gs ≠ [] → groups_value gs < pow63 →
  ParseDuration (groups_text gs) = Some (groups_value gs).
Proof.
  intros Hgs Hne Hb.
  assert (Hlen : (length gs ≤ String.length (groups_text gs))%nat).
  { clear. induction gs as [|g gs IH]; cbn; [lia|]. unfold group_text.
    rewrite !slength_app. cbn. lia. }
  pose proof (parse_groups_text gs _ 0 Hgs Hlen ltac:(lia) ltac:(lia)) as HP.
  assert (Hnz : groups_text gs ≠ "0").
  { destruct Hgs as [|g gs [Hg Hu] Hgs]; [done|]. cbn. unfold group_text.
    destruct (utoa_head g.1 Hg) as (c & r & -> & _). by destruct r. }
  destruct (groups_text_head gs Hgs) as [E|(c & r & E & Hd)].
  { destruct gs as [|g gs]; [done|]. apply (f_equal String.length) in E. cbn in E, Hlen. lia. }
  unfold ParseDuration. rewrite E in *. destruct (digit_not_sign c Hd) as [Hm Hp].
  assert (Hb2 : ∀ (T : Type) (x y z : T), match c with "-"%char => x | "+"%char => y | _ => z end = z).
  { intros T x y z. apply Ascii.eqb_neq in Hm, Hp. clear -Hm Hp.
    destruct c as [[] [] [] [] [] [] [] []]; done. }
  rewrite Hb2. clear Hb2.
  apply String.eqb_neq in Hnz. rewrite Hnz. cbn [String.eqb]. rewrite HP.
  destruct (Z.ltb_spec (pow63 - 1) (0 + groups_value gs)); [lia|]. done.
Qed.

(** formatDuration prints whole groups. *)
Lemma formatDuration_groups d :
  0 ≤ d → ∃ gs, gs ≠ [] ∧ Forall wf_group gs ∧ formatDuration d = groups_text gs ∧
  groups_value gs = d - d mod Second.
Proof.
  intros Hd. unfold formatDuration.
  rewrite (Z.quot_div_nonneg d), (Z.rem_mod_nonneg d) by (unfold Hour, Minute, Second; lia).
  pose proof (Z.mod_pos_bound d Hour ltac:(unfold Hour, Minute, Second; lia)) as H1.
  rewrite (Z.quot_div_nonneg (d mod Hour)), (Z.rem_mod_nonneg (d mod Hour))
    by (unfold Hour, Minute, Second in *; lia).
  set (h := d / Hour). set (m := d mod Hour / Minute). set (r := d mod Hour mod Minute).
  pose proof (Z.mod_pos_bound (d mod Hour) Minute ltac:(unfold Minute, Second; lia)) as H2.
  rewrite (Z.quot_div_nonneg r) by (unfold r, Minute, Second in *; lia). set (s := r / Second).
  assert (Hv : h * Hour + (m * Minute + s * Second) = d - d mod Second ∧ 0 ≤ h ∧ 0 ≤ m ∧ 0 ≤ s).
  { unfold h, m, s, r, Hour, Minute, Second in *. clear -Hd.
    Z.to_euclidean_division_equations. lia. }
  clearbody h m s. destruct Hv as (Hv & Hh & Hm & Hs).
  assert (Hi : ∀ n, 0 ≤ n → itoa n = utoa n).
  { intros n Hn. unfold itoa. by destruct (Z.ltb_spec n 0); [lia|]. }
  rewrite !Hi by lia.
  destruct (Z.ltb_spec 0 h), (Z.ltb_spec 0 m), (Z.ltb_spec 0 s); cbn [length Nat.eqb app orb].
  all: [> exists [(h, "h"%char); (m, "m"%char); (s, "s"%char)]
        | exists [(h, "h"%char); (m, "m"%char)]
        | exists [(h, "h"%char); (s, "s"%char)]
        | exists [(h, "h"%char)]
        | exists [(m, "m"%char); (s, "s"%char)]
        | exists [(m, "m"%char)]
        | exists [(s, "s"%char)]
        | exists [(s, "s"%char)] ].
  all: split_and!; [done|unfold wf_group; rewrite ?Forall_cons, ?Forall_nil; cbn; split_and?; auto; lia| |].
  all: first [ cbn [groups_text]; rewrite append_nil_r; reflexivity | unfold groups_value, unit_of; cbn [foldr fst snd Ascii.eqb];
    cbn; unfold Hour, Minute, Second in *; lia ].
Qed.

Lemma formatDuration_parses d :
  0 ≤ d < pow63 → ParseDuration (formatDuration d) = Some (d - d mod Second).
Proof.
  intros [Hd Hb]. destruct (formatDuration_groups d Hd) as (gs & Hne & Hgs & -> & Hv).
  rewrite <- Hv. apply ParseDuration_groups; [done..|]. rewrite Hv.
  pose proof (Z.mod_pos_bound d Second ltac:(unfold Second; lia)). lia.
Qed.

(** A duration that is stored in the status as text by formatDuration is read
    back by time.ParseDuration as the same number of whole seconds; the text is
    never rejected. *)
Theorem formatDuration_roundtrip d :
  0 ≤ d < pow63 → ParseDuration (formatDuration d) = Some (d - d mod Second).
Proof. apply formatDuration_parses. Qed.

Lemma formatDuration_roundtrip_witness :
  ParseDuration (formatDuration 3723500000000) = Some 3723000000000.
Proof. apply (formatDuration_roundtrip 3723500000000). unfold pow63. lia. Defined.

(** ** CalculateBackoff *)

Lemma jitterFactor_le r r' : 0 ≤ r ≤ r' → 0 ≤ jitterFactor r ≤ jitterFactor r'.
Proof.
  intros Hr. unfold jitterFactor. assert (0 ≤ c04) by done. generalize dependent c04.
  intros c Hc.
  assert (0 ≤ r64 (c * r) ≤ r64 (c * r')) by (split; [apply r64_nonneg|apply r64_le]; nia).
  split; [apply r64_nonneg|apply r64_le]; lia.
Qed.

(** The jittered delay before the conversion to an integer. *)
Definition jittered (b r : Z) : Z := Z.quot (r64 (r64 b * jitterFactor r)) (2 ^ 107).

Lemma jittered_le b r r' : 0 ≤ b → 0 ≤ r ≤ r' → 0 ≤ jittered b r ≤ jittered b r'.
Proof.
  intros Hb Hr. pose proof (jitterFactor_le r r' Hr) as Hj.
  pose proof (r64_nonneg b Hb) as Hrb. unfold jittered.
  assert (H1 : 0 ≤ r64 (r64 b * jitterFactor r) ≤ r64 (r64 b * jitterFactor r')).
  { split; [apply r64_nonneg; nia|apply r64_le; [nia|]]. apply Z.mul_le_mono_nonneg_l; lia. }
  split; [apply Z.quot_pos; [lia|done]|apply Z.quot_le_mono; [done|lia]].
Qed.

(** The two ends of the jitter for every failure count whose delay fits in 64 bits
    after the jitter. *)
Definition backoff_ends_ok (n : Z) : bool :=
  let b := backoffSeconds n * Second in
  (b =? 2 ^ (n - 1) * Second) && (0 <=? b) && (b <? pow63) &&
  (Z.min (8 * b / 10) (5 * Minute) <=? Z.min (jittered b 0) (5 * Minute)) &&
  (Z.min (jittered b (2 ^ 53 - 1)) (5 * Minute) <=? Z.min (12 * b / 10) (5 * Minute)) &&
  (jittered b (2 ^ 53 - 1) <? pow63).

Lemma backoff_ends n : 1 ≤ n ≤ 33 → backoff_ends_ok n = true.
Proof.
  intros Hn.
  assert (Hall : forallb backoff_ends_ok (Z.of_nat <$> seq 1 33) = true) by (vm_compute; done).
  rewrite forallb_forall in Hall. apply Hall. apply list_elem_of_In.
  replace n with (Z.of_nat (Z.to_nat n)) by lia. apply list_elem_of_fmap_2.
  apply elem_of_seq. lia.
Qed.

(** C35: for 1 to 33 consecutive failures the backoff is 2^(n-1) seconds with 20%
    jitter either way, capped at five minutes, for every value of the random
    source, computed in the code's own int64 and float64 arithmetic. *)
Theorem CalculateBackoff_bounds n rnd :
  1 ≤ n ≤ 33 → 0 ≤ rnd < 2 ^ 53 →
  Z.min (800000000 * 2 ^ (n - 1)) (5 * Minute) ≤ CalculateBackoff n rnd
    ≤ Z.min (1200000000 * 2 ^ (n - 1)) (5 * Minute).
Proof.
  intros Hn Hr. pose proof (backoff_ends n Hn) as He. unfold backoff_ends_ok in He. bool_props.
  unfold CalculateBackoff. rewrite (proj2 (Z.leb_gt n 0)) by lia. cbv zeta.
  rewrite Z.mul_1_l. set (b := backoffSeconds n * Second) in *.
  rewrite int64_id by (unfold in_int64, pow63 in *; lia).
  pose proof (jittered_le b 0 rnd ltac:(lia) ltac:(lia)) as [J0 J1].
  pose proof (jittered_le b rnd (2 ^ 53 - 1) ltac:(lia) ltac:(lia)) as [_ J2].
  fold (jittered b rnd). rewrite f64_to_int64_id by (unfold in_int64, pow63 in *; lia).
  set (p := 2 ^ (n - 1)) in *. clearbody p. unfold Second in *.
  replace (8 * b / 10) with (800000000 * p) in * by (apply Z.div_unique_exact; lia).
  replace (12 * b / 10) with (1200000000 * p) in * by (apply Z.div_unique_exact; lia).
  destruct (Z.ltb_spec (5 * Minute) (jittered b rnd)); lia.
Qed.

Lemma CalculateBackoff_bounds_witness :
  Z.min (800000000 * 2 ^ (3 - 1)) (5 * Minute) ≤ CalculateBackoff 3 12345
    ≤ Z.min (1200000000 * 2 ^ (3 - 1)) (5 * Minute).
Proof. apply (CalculateBackoff_bounds 3 12345); lia. Defined.

(** From 56 consecutive failures on the shift and the multiplication leave no
    bits of the delay, and the backoff is zero: the cap of five minutes is lost. *)
Theorem CalculateBackoff_overflows n rnd : 56 ≤ n → CalculateBackoff n rnd = 0.
Proof.
  intros Hn. unfold CalculateBackoff. rewrite (proj2 (Z.leb_gt n 0)) by lia.
  assert (Hb : int64 (backoffSeconds n * (1 * Second)) = 0).
  { unfold backoffSeconds. destruct (Z.leb_spec 64 (n - 1)); [done|].
    assert (Hall : forallb (λ k, int64 (int64 (Z.shiftl 1 (k - 1)) * (1 * Second)) =? 0)
      (Z.of_nat <$> seq 56 9) = true) by (vm_compute; done).
    rewrite forallb_forall in Hall. apply Z.eqb_eq, Hall, list_elem_of_In.
    replace n with (Z.of_nat (Z.to_nat n)) by lia. apply list_elem_of_fmap_2, elem_of_seq. lia. }
  rewrite Hb. done.
Qed.

Lemma CalculateBackoff_overflows_witness : CalculateBackoff 60 7 = 0.
Proof. apply CalculateBackoff_overflows. lia. Defined.
