(* ===== verification/Status.v ===== *)
(** * Status comparison (statusEqual and its helpers in
    pkg/controllers/modes/reconciler.go)

    [updateStatus] skips the write when [statusEqual] holds of the old and the new
    status, so what this comparison ignores is never written on its own. *)

From S2P Require Import Prelude Errors Types.

Definition timeEqual (a b : option Time) : bool :=
  match a, b with
  | None, None => true
  | Some t, Some u => t =? u
  | _, _ => false
  end.

Definition syncStatsEqual (a b : option SyncStats) : bool :=
  match a, b with
  | None, None => true
  | Some a, Some b =>
      (a.(TotalResources) =? b.(TotalResources)) &&
      (a.(SuccessfulSyncs) =? b.(SuccessfulSyncs)) &&
      (a.(FailedSyncs) =? b.(FailedSyncs)) &&
      (a.(LastSyncDuration) =s? b.(LastSyncDuration))
  | _, _ => false
  end.

Definition syncErrorEqual (a b : option StatusSyncError) : bool :=
  match a, b with
  | None, None => true
  | Some a, Some b =>
      (a.(SEMessage) =s? b.(SEMessage)) &&
      (a.(SEResource) =s? b.(SEResource)) &&
      (a.(SETime) =? b.(SETime))
  | _, _ => false
  end.

Definition retryStatusEqual (a b : option RetryStatus) : bool :=
  match a, b with
  | None, None => true
  | Some a, Some b =>
      (a.(RetriesRemaining) =? b.(RetriesRemaining)) &&
      (a.(BackoffDuration) =s? b.(BackoffDuration)) &&
      timeEqual a.(NextRetryTime) b.(NextRetryTime)
  | _, _ => false
  end.

(** [aMap := make(map[string]T); for _, x := range a { aMap[key(x)] = x }] *)
Definition index_by {A : Type} (key : A → string) (a : list A) : gmap string A :=
  foldl (λ m x, <[key x := x]> m) ∅ a.

(** The shape of the three slice comparisons: equal lengths, and every element of
    [b] finds an element of [a] under its key with the same compared fields. *)
Definition slicesEqual {A : Type} (key : A → string) (same : A → A → bool) (a b : list A) : bool :=
  if negb (length a =? length b)%nat then false
  else
    let aMap := index_by key a in
    forallb (λ x, match aMap !! key x with None => false | Some y => same y x end) b.

Definition conditionsEqual : list Condition → list Condition → bool :=
  slicesEqual CType (λ a b,
    (a.(CStatus) =s? b.(CStatus)) && (a.(CReason) =s? b.(CReason)) &&
    (a.(CMessage) =s? b.(CMessage)) && (a.(CLastTransitionTime) =? b.(CLastTransitionTime))).

Definition deploymentScalesEqual : list DeploymentScale → list DeploymentScale → bool :=
  slicesEqual DSName (λ a b,
    (a.(OriginalReplicas) =? b.(OriginalReplicas)) && timeEqual a.(LastSyncedAt) b.(LastSyncedAt)).

Definition resourceStatusKey (s : ResourceStatus) : string :=
  s.(RSKind) +:+ "/" +:+ s.(RSNamespace) +:+ "/" +:+ s.(RSName).

Definition resourceStatusEqual : list ResourceStatus → list ResourceStatus → bool :=
  slicesEqual resourceStatusKey (λ a b,
    (a.(RSStatus) =s? b.(RSStatus)) && timeEqual a.(RSLastSyncTime) b.(RSLastSyncTime)).

Definition statusEqual (a b : NamespaceMappingStatus) : bool :=
  if negb (a.(Phase) =s? b.(Phase)) then false
  else if negb (timeEqual a.(LastSyncTime) b.(LastSyncTime)) then false
  else if negb (timeEqual a.(NextSyncTime) b.(NextSyncTime)) then false
  else if negb (timeEqual a.(LastWatchEvent) b.(LastWatchEvent)) then false
  else if negb (syncStatsEqual a.(SyncStats_) b.(SyncStats_)) then false
  else if negb (syncErrorEqual a.(LastError) b.(LastError)) then false
  else if negb (retryStatusEqual a.(RetryStatus_) b.(RetryStatus_)) then false
  else if negb (conditionsEqual a.(Conditions) b.(Conditions)) then false
  else if negb (deploymentScalesEqual a.(DeploymentScales) b.(DeploymentScales)) then false
  else if negb (resourceStatusEqual a.(ResourceStatus_) b.(ResourceStatus_)) then false
  else true.

(** ** What the comparison sees *)

Definition cond_view (c : Condition) : string * string * string * string * Time :=
  (c.(CType), c.(CStatus), c.(CReason), c.(CMessage), c.(CLastTransitionTime)).
Definition scale_view (d : DeploymentScale) : string * Z * option Time :=
  (d.(DSName), d.(OriginalReplicas), d.(LastSyncedAt)).
Definition resource_view (r : ResourceStatus) : string * string * option Time :=
  (resourceStatusKey r, r.(RSStatus), r.(RSLastSyncTime)).

(** No two entries of a slice share a key. *)
Definition wf_status (s : NamespaceMappingStatus) : Prop :=
  NoDup (CType <$> s.(Conditions)) ∧ NoDup (DSName <$> s.(DeploymentScales)) ∧
  NoDup (resourceStatusKey <$> s.(ResourceStatus_)).

#[global] Instance wf_status_dec s : Decision (wf_status s).
Proof. unfold wf_status. apply _. Defined.

(** The specification: the compared fields agree, the slices up to order. *)
Record same_status (a b : NamespaceMappingStatus) : Prop := mk_same_status {
  same_phase : a.(Phase) = b.(Phase);
  same_last : a.(LastSyncTime) = b.(LastSyncTime);
  same_next : a.(NextSyncTime) = b.(NextSyncTime);
  same_watch : a.(LastWatchEvent) = b.(LastWatchEvent);
  same_stats : a.(SyncStats_) = b.(SyncStats_);
  same_error : a.(LastError) = b.(LastError);
  same_retry : a.(RetryStatus_) = b.(RetryStatus_);
  same_conditions : (cond_view <$> a.(Conditions)) ≡ₚ (cond_view <$> b.(Conditions));
  same_scales : (scale_view <$> a.(DeploymentScales)) ≡ₚ (scale_view <$> b.(DeploymentScales));
  same_resources : (resource_view <$> a.(ResourceStatus_)) ≡ₚ (resource_view <$> b.(ResourceStatus_))
}.

#[global] Instance same_status_equiv : Equivalence same_status.
Proof.
  split.
  - intros a. by constructor.
  - intros a b []. constructor; by symmetry.
  - intros a b c [] []. constructor; by etransitivity.
Qed.

(** ** The comparison of slices is equality up to order *)

Section Slices.
Context {A V : Type} (key : A → string) (same : A → A → bool) (view : A → V).
Context (view_key : ∀ x y, view x = view y → key x = key y).
Context (same_view : ∀ x y, key x = key y → same x y = true ↔ view x = view y).

Lemma index_by_snoc (a : list A) x :
  index_by key (a ++ [x])%list = <[key x := x]> (index_by key a).
Proof. unfold index_by. by rewrite foldl_app. Qed.

Lemma index_by_lookup (a : list A) k x :
  NoDup (key <$> a) → index_by key a !! k = Some x ↔ x ∈ a ∧ key x = k.
Proof.
  induction a as [|y a IH] using rev_ind; intros Hnd.
  { cbn. rewrite lookup_empty. split; [done|]. by intros [?%elem_of_nil _]. }
  rewrite index_by_snoc. rewrite fmap_app in Hnd. apply NoDup_app in Hnd as (Ha & Hn & _).
  rewrite elem_of_app, list_elem_of_singleton. destruct (decide (key y = k)) as [<-|Hk].
  - rewrite lookup_insert_eq. split; [intros [= ->]; by auto|].
    intros [[Hx| ->] Hkx]; [|done]. exfalso. apply (Hn (key x)).
    + by apply list_elem_of_fmap_2.
    + rewrite Hkx. cbn. by apply list_elem_of_singleton.
  - rewrite lookup_insert_ne, (IH Ha) by done.
    split; [by intros [? ?]; auto|]. intros [[?| ->] ?]; by auto.
Qed.

Lemma slicesEqual_iff (a b : list A) :
  NoDup (key <$> a) → NoDup (key <$> b) →
  slicesEqual key same a b = true ↔ (view <$> a) ≡ₚ (view <$> b).
Proof.
  intros Ha Hb.
  assert (Hv : ∀ l, NoDup (key <$> l) → NoDup (view <$> l)).
  { clear -view_key. intros l. induction l as [|x l IH]; cbn; [by constructor|].
    rewrite !NoDup_cons. intros [Hx Hl]. split; [|by apply IH].
    intros (y & Hxy & Hy)%list_elem_of_fmap. apply Hx. rewrite (view_key _ _ Hxy).
    by apply list_elem_of_fmap_2. }
  unfold slicesEqual. destruct (Nat.eqb_spec (length a) (length b)) as [Hlen|Hlen]; cbn.
  2:{ split; [done|]. intros Hp%Permutation_length. rewrite !length_fmap in Hp. done. }
  rewrite forallb_forall. split.
  - intros H. symmetry. apply submseteq_length_Permutation; [|by rewrite !length_fmap, Hlen].
    apply NoDup_submseteq; [by apply Hv|].
    intros v (x & -> & Hx)%list_elem_of_fmap. specialize (H x).
    rewrite <- list_elem_of_In in H. specialize (H Hx).
    destruct (index_by key a !! key x) as [y|] eqn:E; [|done].
    apply index_by_lookup in E as [Hy Hk]; [|done]. apply same_view in H; [|done].
    rewrite <- H. by apply list_elem_of_fmap_2.
  - intros Hp x Hx%list_elem_of_In.
    assert (Hvx : view x ∈ view <$> a) by (rewrite Hp; by apply list_elem_of_fmap_2).
    apply list_elem_of_fmap in Hvx as (y & Hxy & Hy).
    rewrite (proj2 (index_by_lookup a (key x) y Ha)); [by apply same_view; auto|].
    split; [done|]. by apply view_key.
Qed.

End Slices.

(** The fields of two records agree one by one iff the records do. *)
Ltac fields :=
  split; intros; destruct_and?; simplify_eq; split_and?; try done; congruence.

Lemma timeEqual_iff a b : timeEqual a b = true ↔ a = b.
Proof.
  destruct a, b; cbn; try (split; congruence). rewrite Z.eqb_eq. split; congruence.
Qed.

Lemma syncStatsEqual_iff a b : syncStatsEqual a b = true ↔ a = b.
Proof.
  destruct a as [[]|], b as [[]|]; cbn; try (split; congruence).
  rewrite !andb_true_iff, !Z.eqb_eq, String.eqb_eq. fields.
Qed.

Lemma syncErrorEqual_iff a b : syncErrorEqual a b = true ↔ a = b.
Proof.
  destruct a as [[]|], b as [[]|]; cbn; try (split; congruence).
  rewrite !andb_true_iff, !Z.eqb_eq, !String.eqb_eq. fields.
Qed.

Lemma retryStatusEqual_iff a b : retryStatusEqual a b = true ↔ a = b.
Proof.
  destruct a as [[]|], b as [[]|]; cbn; try (split; congruence).
  rewrite !andb_true_iff, !Z.eqb_eq, timeEqual_iff, !String.eqb_eq. fields.
Qed.

Lemma conditionsEqual_iff a b : NoDup (CType <$> a) → NoDup (CType <$> b) →
  conditionsEqual a b = true ↔ (cond_view <$> a) ≡ₚ (cond_view <$> b).
Proof.
  apply slicesEqual_iff; unfold cond_view.
  - intros [] []; cbn; congruence.
  - intros [] []; cbn. intros ->.
    rewrite !andb_true_iff, !Z.eqb_eq, !String.eqb_eq. fields.
Qed.

Lemma deploymentScalesEqual_iff a b : NoDup (DSName <$> a) → NoDup (DSName <$> b) →
  deploymentScalesEqual a b = true ↔ (scale_view <$> a) ≡ₚ (scale_view <$> b).
Proof.
  apply slicesEqual_iff; unfold scale_view.
  - intros [] []; cbn; congruence.
  - intros [] []; cbn. intros ->. rewrite !andb_true_iff, !Z.eqb_eq, timeEqual_iff. fields.
Qed.

Lemma resourceStatusEqual_iff a b :
  NoDup (resourceStatusKey <$> a) → NoDup (resourceStatusKey <$> b) →
  resourceStatusEqual a b = true ↔ (resource_view <$> a) ≡ₚ (resource_view <$> b).
Proof.
  apply slicesEqual_iff; unfold resource_view.
  - congruence.
  - intros x y Hk. rewrite !andb_true_iff, timeEqual_iff, !String.eqb_eq, Hk. fields.
Qed.

Lemma negb_if (c b : bool) : (if negb c then false else b) = c && b.
Proof. by destruct c. Qed.

Lemma statusEqual_andb a b :
  statusEqual a b = true ↔
  a.(Phase) = b.(Phase) ∧ a.(LastSyncTime) = b.(LastSyncTime) ∧
  a.(NextSyncTime) = b.(NextSyncTime) ∧ a.(LastWatchEvent) = b.(LastWatchEvent) ∧
  a.(SyncStats_) = b.(SyncStats_) ∧ a.(LastError) = b.(LastError) ∧
  a.(RetryStatus_) = b.(RetryStatus_) ∧
  conditionsEqual a.(Conditions) b.(Conditions) = true ∧
  deploymentScalesEqual a.(DeploymentScales) b.(DeploymentScales) = true ∧
  resourceStatusEqual a.(ResourceStatus_) b.(ResourceStatus_) = true.
Proof.
  unfold statusEqual. rewrite !negb_if, !andb_true_iff, String.eqb_eq, !timeEqual_iff,
    syncStatsEqual_iff, syncErrorEqual_iff, retryStatusEqual_iff. tauto.
Qed.

(** On statuses whose slices have no duplicate keys statusEqual decides exactly
    the equivalence it is meant to: equal compared fields, slices equal up to order. *)
Theorem statusEqual_decides a b :
  wf_status a → wf_status b → statusEqual a b = true ↔ same_status a b.
Proof.
  intros (Ha1 & Ha2 & Ha3) (Hb1 & Hb2 & Hb3).
  rewrite statusEqual_andb, conditionsEqual_iff, deploymentScalesEqual_iff,
    resourceStatusEqual_iff by done.
  split; [by intros (? & ? & ? & ? & ? & ? & ? & ? & ? & ?)|by intros []].
Qed.

Definition empty_status : NamespaceMappingStatus :=
  mkNamespaceMappingStatus "" None None None None None [] [] [] None [] None [] [].

Lemma statusEqual_decides_witness :
  let a := set_DeploymentScales [mkDeploymentScale "a" 1 None; mkDeploymentScale "b" 2 None] empty_status in
  let b := set_DeploymentScales [mkDeploymentScale "b" 2 None; mkDeploymentScale "a" 1 None] empty_status in
  statusEqual a b = true ↔ same_status a b.
Proof. cbv zeta. apply statusEqual_decides; apply (bool_decide_unpack _); vm_compute; done. Defined.

(** With a duplicated key the comparison is neither symmetric nor reflexive: whether
    an update is skipped as unchanged then depends on the order of the arguments. *)
Theorem statusEqual_asymmetric :
  ∃ a b c, statusEqual a b = true ∧ statusEqual b a = false ∧ statusEqual c c = false.
Proof.
  exists (set_DeploymentScales [mkDeploymentScale "b" 2 None; mkDeploymentScale "a" 1 None] empty_status).
  exists (set_DeploymentScales [mkDeploymentScale "a" 1 None; mkDeploymentScale "a" 1 None] empty_status).
  exists (set_DeploymentScales [mkDeploymentScale "a" 1 None; mkDeploymentScale "a" 2 None] empty_status).
  vm_compute. done.
Qed.
