(* ===== verification/Kube.v ===== *)
(** * Kubernetes objects and the calls the controllers make

    The objects of k8s.io/api with the fields the code names, the helpers of
    pkg/controllers/utils/utils.go on them, and the signature of the calls to the
    API servers, the clock and the replication package. *)

From S2P Require Import Prelude GoString Errors Types.

(** schema.GroupVersionKind *)
Record GVK : Type := mkGVK {
  kGroup : string;
  kVersion : string;
  kKind : string
}.

#[global] Instance GVK_eq_dec : EqDecision GVK.
Proof. solve_decision. Defined.

(** schema.GroupVersionResource *)
Record GVR : Type := mkGVR {
  rGroup : string;
  rVersion : string;
  rResource : string
}.

#[global] Instance GVR_eq_dec : EqDecision GVR.
Proof. solve_decision. Defined.

(** metav1.ObjectMeta.  A map is [None] when it is nil. *)
Record ObjectMeta : Type := mkObjectMeta {
  mName : string;
  mNamespace : string;
  mUID : string;
  mResourceVersion : string;
  mSelfLink : string;
  mCreationTimestamp : option Time;
  mManagedFields : list Payload;
  mOwnerReferences : list Payload;
  mGeneration : Z;
  mFinalizers : list string;
  mLabels : option (gmap string string);
  mAnnotations : option (gmap string string)
}.

Definition set_mNamespace (v : string) (s : ObjectMeta) : ObjectMeta :=
  mkObjectMeta (s.(mName)) v (s.(mUID)) (s.(mResourceVersion)) (s.(mSelfLink)) (s.(mCreationTimestamp)) (s.(mManagedFields)) (s.(mOwnerReferences)) (s.(mGeneration)) (s.(mFinalizers)) (s.(mLabels)) (s.(mAnnotations)).
Definition set_mUID (v : string) (s : ObjectMeta) : ObjectMeta :=
  mkObjectMeta (s.(mName)) (s.(mNamespace)) v (s.(mResourceVersion)) (s.(mSelfLink)) (s.(mCreationTimestamp)) (s.(mManagedFields)) (s.(mOwnerReferences)) (s.(mGeneration)) (s.(mFinalizers)) (s.(mLabels)) (s.(mAnnotations)).
Definition set_mResourceVersion (v : string) (s : ObjectMeta) : ObjectMeta :=
  mkObjectMeta (s.(mName)) (s.(mNamespace)) (s.(mUID)) v (s.(mSelfLink)) (s.(mCreationTimestamp)) (s.(mManagedFields)) (s.(mOwnerReferences)) (s.(mGeneration)) (s.(mFinalizers)) (s.(mLabels)) (s.(mAnnotations)).
Definition set_mLabels (v : option (gmap string string)) (s : ObjectMeta) : ObjectMeta :=
  mkObjectMeta (s.(mName)) (s.(mNamespace)) (s.(mUID)) (s.(mResourceVersion)) (s.(mSelfLink)) (s.(mCreationTimestamp)) (s.(mManagedFields)) (s.(mOwnerReferences)) (s.(mGeneration)) (s.(mFinalizers)) v (s.(mAnnotations)).
Definition set_mAnnotations (v : option (gmap string string)) (s : ObjectMeta) : ObjectMeta :=
  mkObjectMeta (s.(mName)) (s.(mNamespace)) (s.(mUID)) (s.(mResourceVersion)) (s.(mSelfLink)) (s.(mCreationTimestamp)) (s.(mManagedFields)) (s.(mOwnerReferences)) (s.(mGeneration)) (s.(mFinalizers)) (s.(mLabels)) v.
#[global] Instance ObjectMeta_eq_dec : EqDecision ObjectMeta.
Proof. solve_decision. Defined.

(** corev1.ConfigMap *)
Record ConfigMapFields : Type := mkConfigMapFields {
  cmData : Payload;
  cmBinaryData : Payload;
  cmImmutable : option bool
}.

Definition set_cmData (v : Payload) (s : ConfigMapFields) : ConfigMapFields :=
  mkConfigMapFields v (s.(cmBinaryData)) (s.(cmImmutable)).
Definition set_cmBinaryData (v : Payload) (s : ConfigMapFields) : ConfigMapFields :=
  mkConfigMapFields (s.(cmData)) v (s.(cmImmutable)).
#[global] Instance ConfigMapFields_eq_dec : EqDecision ConfigMapFields.
Proof. solve_decision. Defined.

(** corev1.Secret *)
Record SecretFields : Type := mkSecretFields {
  secType : string;
  secData : Payload;
  secStringData : Payload;
  secImmutable : option bool
}.

Definition set_secData (v : Payload) (s : SecretFields) : SecretFields :=
  mkSecretFields (s.(secType)) v (s.(secStringData)) (s.(secImmutable)).
Definition set_secStringData (v : Payload) (s : SecretFields) : SecretFields :=
  mkSecretFields (s.(secType)) (s.(secData)) v (s.(secImmutable)).
#[global] Instance SecretFields_eq_dec : EqDecision SecretFields.
Proof. solve_decision. Defined.

(** corev1.ServiceSpec; [svcRest] is the fields no code names.  An absent field is empty. *)
Record ServiceSpec : Type := mkServiceSpec {
  svcType : string;
  svcClusterIP : string;
  svcClusterIPs : list string;
  svcPorts : Payload;
  svcSelector : option (gmap string string);
  svcExternalIPs : Payload;
  svcLoadBalancerIP : Payload;
  svcLoadBalancerSourceRanges : Payload;
  svcExternalName : Payload;
  svcExternalTrafficPolicy : Payload;
  svcSessionAffinity : Payload;
  svcSessionAffinityConfig : Payload;
  svcHealthCheckNodePort : Payload;
  svcIPFamilyPolicy : Payload;
  svcIPFamilies : Payload;
  svcAllocateLoadBalancerNodePorts : Payload;
  svcRest : Payload
}.

Definition set_svcType (v : string) (s : ServiceSpec) : ServiceSpec :=
  mkServiceSpec v (s.(svcClusterIP)) (s.(svcClusterIPs)) (s.(svcPorts)) (s.(svcSelector)) (s.(svcExternalIPs)) (s.(svcLoadBalancerIP)) (s.(svcLoadBalancerSourceRanges)) (s.(svcExternalName)) (s.(svcExternalTrafficPolicy)) (s.(svcSessionAffinity)) (s.(svcSessionAffinityConfig)) (s.(svcHealthCheckNodePort)) (s.(svcIPFamilyPolicy)) (s.(svcIPFamilies)) (s.(svcAllocateLoadBalancerNodePorts)) (s.(svcRest)).
Definition set_svcClusterIP (v : string) (s : ServiceSpec) : ServiceSpec :=
  mkServiceSpec (s.(svcType)) v (s.(svcClusterIPs)) (s.(svcPorts)) (s.(svcSelector)) (s.(svcExternalIPs)) (s.(svcLoadBalancerIP)) (s.(svcLoadBalancerSourceRanges)) (s.(svcExternalName)) (s.(svcExternalTrafficPolicy)) (s.(svcSessionAffinity)) (s.(svcSessionAffinityConfig)) (s.(svcHealthCheckNodePort)) (s.(svcIPFamilyPolicy)) (s.(svcIPFamilies)) (s.(svcAllocateLoadBalancerNodePorts)) (s.(svcRest)).
Definition set_svcClusterIPs (v : list string) (s : ServiceSpec) : ServiceSpec :=
  mkServiceSpec (s.(svcType)) (s.(svcClusterIP)) v (s.(svcPorts)) (s.(svcSelector)) (s.(svcExternalIPs)) (s.(svcLoadBalancerIP)) (s.(svcLoadBalancerSourceRanges)) (s.(svcExternalName)) (s.(svcExternalTrafficPolicy)) (s.(svcSessionAffinity)) (s.(svcSessionAffinityConfig)) (s.(svcHealthCheckNodePort)) (s.(svcIPFamilyPolicy)) (s.(svcIPFamilies)) (s.(svcAllocateLoadBalancerNodePorts)) (s.(svcRest)).
Definition set_svcPorts (v : Payload) (s : ServiceSpec) : ServiceSpec :=
  mkServiceSpec (s.(svcType)) (s.(svcClusterIP)) (s.(svcClusterIPs)) v (s.(svcSelector)) (s.(svcExternalIPs)) (s.(svcLoadBalancerIP)) (s.(svcLoadBalancerSourceRanges)) (s.(svcExternalName)) (s.(svcExternalTrafficPolicy)) (s.(svcSessionAffinity)) (s.(svcSessionAffinityConfig)) (s.(svcHealthCheckNodePort)) (s.(svcIPFamilyPolicy)) (s.(svcIPFamilies)) (s.(svcAllocateLoadBalancerNodePorts)) (s.(svcRest)).
Definition set_svcSelector (v : option (gmap string string)) (s : ServiceSpec) : ServiceSpec :=
  mkServiceSpec (s.(svcType)) (s.(svcClusterIP)) (s.(svcClusterIPs)) (s.(svcPorts)) v (s.(svcExternalIPs)) (s.(svcLoadBalancerIP)) (s.(svcLoadBalancerSourceRanges)) (s.(svcExternalName)) (s.(svcExternalTrafficPolicy)) (s.(svcSessionAffinity)) (s.(svcSessionAffinityConfig)) (s.(svcHealthCheckNodePort)) (s.(svcIPFamilyPolicy)) (s.(svcIPFamilies)) (s.(svcAllocateLoadBalancerNodePorts)) (s.(svcRest)).
Definition set_svcExternalIPs (v : Payload) (s : ServiceSpec) : ServiceSpec :=
  mkServiceSpec (s.(svcType)) (s.(svcClusterIP)) (s.(svcClusterIPs)) (s.(svcPorts)) (s.(svcSelector)) v (s.(svcLoadBalancerIP)) (s.(svcLoadBalancerSourceRanges)) (s.(svcExternalName)) (s.(svcExternalTrafficPolicy)) (s.(svcSessionAffinity)) (s.(svcSessionAffinityConfig)) (s.(svcHealthCheckNodePort)) (s.(svcIPFamilyPolicy)) (s.(svcIPFamilies)) (s.(svcAllocateLoadBalancerNodePorts)) (s.(svcRest)).
Definition set_svcLoadBalancerIP (v : Payload) (s : ServiceSpec) : ServiceSpec :=
  mkServiceSpec (s.(svcType)) (s.(svcClusterIP)) (s.(svcClusterIPs)) (s.(svcPorts)) (s.(svcSelector)) (s.(svcExternalIPs)) v (s.(svcLoadBalancerSourceRanges)) (s.(svcExternalName)) (s.(svcExternalTrafficPolicy)) (s.(svcSessionAffinity)) (s.(svcSessionAffinityConfig)) (s.(svcHealthCheckNodePort)) (s.(svcIPFamilyPolicy)) (s.(svcIPFamilies)) (s.(svcAllocateLoadBalancerNodePorts)) (s.(svcRest)).
Definition set_svcLoadBalancerSourceRanges (v : Payload) (s : ServiceSpec) : ServiceSpec :=
  mkServiceSpec (s.(svcType)) (s.(svcClusterIP)) (s.(svcClusterIPs)) (s.(svcPorts)) (s.(svcSelector)) (s.(svcExternalIPs)) (s.(svcLoadBalancerIP)) v (s.(svcExternalName)) (s.(svcExternalTrafficPolicy)) (s.(svcSessionAffinity)) (s.(svcSessionAffinityConfig)) (s.(svcHealthCheckNodePort)) (s.(svcIPFamilyPolicy)) (s.(svcIPFamilies)) (s.(svcAllocateLoadBalancerNodePorts)) (s.(svcRest)).
Definition set_svcExternalName (v : Payload) (s : ServiceSpec) : ServiceSpec :=
  mkServiceSpec (s.(svcType)) (s.(svcClusterIP)) (s.(svcClusterIPs)) (s.(svcPorts)) (s.(svcSelector)) (s.(svcExternalIPs)) (s.(svcLoadBalancerIP)) (s.(svcLoadBalancerSourceRanges)) v (s.(svcExternalTrafficPolicy)) (s.(svcSessionAffinity)) (s.(svcSessionAffinityConfig)) (s.(svcHealthCheckNodePort)) (s.(svcIPFamilyPolicy)) (s.(svcIPFamilies)) (s.(svcAllocateLoadBalancerNodePorts)) (s.(svcRest)).
Definition set_svcExternalTrafficPolicy (v : Payload) (s : ServiceSpec) : ServiceSpec :=
  mkServiceSpec (s.(svcType)) (s.(svcClusterIP)) (s.(svcClusterIPs)) (s.(svcPorts)) (s.(svcSelector)) (s.(svcExternalIPs)) (s.(svcLoadBalancerIP)) (s.(svcLoadBalancerSourceRanges)) (s.(svcExternalName)) v (s.(svcSessionAffinity)) (s.(svcSessionAffinityConfig)) (s.(svcHealthCheckNodePort)) (s.(svcIPFamilyPolicy)) (s.(svcIPFamilies)) (s.(svcAllocateLoadBalancerNodePorts)) (s.(svcRest)).
Definition set_svcSessionAffinity (v : Payload) (s : ServiceSpec) : ServiceSpec :=
  mkServiceSpec (s.(svcType)) (s.(svcClusterIP)) (s.(svcClusterIPs)) (s.(svcPorts)) (s.(svcSelector)) (s.(svcExternalIPs)) (s.(svcLoadBalancerIP)) (s.(svcLoadBalancerSourceRanges)) (s.(svcExternalName)) (s.(svcExternalTrafficPolicy)) v (s.(svcSessionAffinityConfig)) (s.(svcHealthCheckNodePort)) (s.(svcIPFamilyPolicy)) (s.(svcIPFamilies)) (s.(svcAllocateLoadBalancerNodePorts)) (s.(svcRest)).
Definition set_svcSessionAffinityConfig (v : Payload) (s : ServiceSpec) : ServiceSpec :=
  mkServiceSpec (s.(svcType)) (s.(svcClusterIP)) (s.(svcClusterIPs)) (s.(svcPorts)) (s.(svcSelector)) (s.(svcExternalIPs)) (s.(svcLoadBalancerIP)) (s.(svcLoadBalancerSourceRanges)) (s.(svcExternalName)) (s.(svcExternalTrafficPolicy)) (s.(svcSessionAffinity)) v (s.(svcHealthCheckNodePort)) (s.(svcIPFamilyPolicy)) (s.(svcIPFamilies)) (s.(svcAllocateLoadBalancerNodePorts)) (s.(svcRest)).
Definition set_svcHealthCheckNodePort (v : Payload) (s : ServiceSpec) : ServiceSpec :=
  mkServiceSpec (s.(svcType)) (s.(svcClusterIP)) (s.(svcClusterIPs)) (s.(svcPorts)) (s.(svcSelector)) (s.(svcExternalIPs)) (s.(svcLoadBalancerIP)) (s.(svcLoadBalancerSourceRanges)) (s.(svcExternalName)) (s.(svcExternalTrafficPolicy)) (s.(svcSessionAffinity)) (s.(svcSessionAffinityConfig)) v (s.(svcIPFamilyPolicy)) (s.(svcIPFamilies)) (s.(svcAllocateLoadBalancerNodePorts)) (s.(svcRest)).
Definition set_svcIPFamilyPolicy (v : Payload) (s : ServiceSpec) : ServiceSpec :=
  mkServiceSpec (s.(svcType)) (s.(svcClusterIP)) (s.(svcClusterIPs)) (s.(svcPorts)) (s.(svcSelector)) (s.(svcExternalIPs)) (s.(svcLoadBalancerIP)) (s.(svcLoadBalancerSourceRanges)) (s.(svcExternalName)) (s.(svcExternalTrafficPolicy)) (s.(svcSessionAffinity)) (s.(svcSessionAffinityConfig)) (s.(svcHealthCheckNodePort)) v (s.(svcIPFamilies)) (s.(svcAllocateLoadBalancerNodePorts)) (s.(svcRest)).
Definition set_svcIPFamilies (v : Payload) (s : ServiceSpec) : ServiceSpec :=
  mkServiceSpec (s.(svcType)) (s.(svcClusterIP)) (s.(svcClusterIPs)) (s.(svcPorts)) (s.(svcSelector)) (s.(svcExternalIPs)) (s.(svcLoadBalancerIP)) (s.(svcLoadBalancerSourceRanges)) (s.(svcExternalName)) (s.(svcExternalTrafficPolicy)) (s.(svcSessionAffinity)) (s.(svcSessionAffinityConfig)) (s.(svcHealthCheckNodePort)) (s.(svcIPFamilyPolicy)) v (s.(svcAllocateLoadBalancerNodePorts)) (s.(svcRest)).
Definition set_svcAllocateLoadBalancerNodePorts (v : Payload) (s : ServiceSpec) : ServiceSpec :=
  mkServiceSpec (s.(svcType)) (s.(svcClusterIP)) (s.(svcClusterIPs)) (s.(svcPorts)) (s.(svcSelector)) (s.(svcExternalIPs)) (s.(svcLoadBalancerIP)) (s.(svcLoadBalancerSourceRanges)) (s.(svcExternalName)) (s.(svcExternalTrafficPolicy)) (s.(svcSessionAffinity)) (s.(svcSessionAffinityConfig)) (s.(svcHealthCheckNodePort)) (s.(svcIPFamilyPolicy)) (s.(svcIPFamilies)) v (s.(svcRest)).
Definition set_svcRest (v : Payload) (s : ServiceSpec) : ServiceSpec :=
  mkServiceSpec (s.(svcType)) (s.(svcClusterIP)) (s.(svcClusterIPs)) (s.(svcPorts)) (s.(svcSelector)) (s.(svcExternalIPs)) (s.(svcLoadBalancerIP)) (s.(svcLoadBalancerSourceRanges)) (s.(svcExternalName)) (s.(svcExternalTrafficPolicy)) (s.(svcSessionAffinity)) (s.(svcSessionAffinityConfig)) (s.(svcHealthCheckNodePort)) (s.(svcIPFamilyPolicy)) (s.(svcIPFamilies)) (s.(svcAllocateLoadBalancerNodePorts)) v.
#[global] Instance ServiceSpec_eq_dec : EqDecision ServiceSpec.
Proof. solve_decision. Defined.

(** appsv1.DeploymentSpec; [dSelector] is [Selector.MatchLabels] with the rest of the selector. *)
Record DeploymentSpec : Type := mkDeploymentSpec {
  dReplicas : option Z;
  dSelector : option (option (gmap string string) * Payload);
  dTemplate : Payload;
  dStrategy : Payload;
  dMinReadySeconds : Z;
  dRevisionHistoryLimit : option Z;
  dPaused : bool;
  dProgressDeadlineSeconds : option Z
}.

Definition set_dReplicas (v : option Z) (s : DeploymentSpec) : DeploymentSpec :=
  mkDeploymentSpec v (s.(dSelector)) (s.(dTemplate)) (s.(dStrategy)) (s.(dMinReadySeconds)) (s.(dRevisionHistoryLimit)) (s.(dPaused)) (s.(dProgressDeadlineSeconds)).
Definition set_dSelector (v : option (option (gmap string string) * Payload)) (s : DeploymentSpec) : DeploymentSpec :=
  mkDeploymentSpec (s.(dReplicas)) v (s.(dTemplate)) (s.(dStrategy)) (s.(dMinReadySeconds)) (s.(dRevisionHistoryLimit)) (s.(dPaused)) (s.(dProgressDeadlineSeconds)).
Definition set_dTemplate (v : Payload) (s : DeploymentSpec) : DeploymentSpec :=
  mkDeploymentSpec (s.(dReplicas)) (s.(dSelector)) v (s.(dStrategy)) (s.(dMinReadySeconds)) (s.(dRevisionHistoryLimit)) (s.(dPaused)) (s.(dProgressDeadlineSeconds)).
Definition set_dStrategy (v : Payload) (s : DeploymentSpec) : DeploymentSpec :=
  mkDeploymentSpec (s.(dReplicas)) (s.(dSelector)) (s.(dTemplate)) v (s.(dMinReadySeconds)) (s.(dRevisionHistoryLimit)) (s.(dPaused)) (s.(dProgressDeadlineSeconds)).
Definition set_dMinReadySeconds (v : Z) (s : DeploymentSpec) : DeploymentSpec :=
  mkDeploymentSpec (s.(dReplicas)) (s.(dSelector)) (s.(dTemplate)) (s.(dStrategy)) v (s.(dRevisionHistoryLimit)) (s.(dPaused)) (s.(dProgressDeadlineSeconds)).
Definition set_dRevisionHistoryLimit (v : option Z) (s : DeploymentSpec) : DeploymentSpec :=
  mkDeploymentSpec (s.(dReplicas)) (s.(dSelector)) (s.(dTemplate)) (s.(dStrategy)) (s.(dMinReadySeconds)) v (s.(dPaused)) (s.(dProgressDeadlineSeconds)).
Definition set_dPaused (v : bool) (s : DeploymentSpec) : DeploymentSpec :=
  mkDeploymentSpec (s.(dReplicas)) (s.(dSelector)) (s.(dTemplate)) (s.(dStrategy)) (s.(dMinReadySeconds)) (s.(dRevisionHistoryLimit)) v (s.(dProgressDeadlineSeconds)).
Definition set_dProgressDeadlineSeconds (v : option Z) (s : DeploymentSpec) : DeploymentSpec :=
  mkDeploymentSpec (s.(dReplicas)) (s.(dSelector)) (s.(dTemplate)) (s.(dStrategy)) (s.(dMinReadySeconds)) (s.(dRevisionHistoryLimit)) (s.(dPaused)) v.
#[global] Instance DeploymentSpec_eq_dec : EqDecision DeploymentSpec.
Proof. solve_decision. Defined.

(** appsv1.StatefulSetSpec; a volume claim template is its content and its status. *)
Record StatefulSetSpec : Type := mkStatefulSetSpec {
  ssReplicas : option Z;
  ssVolumeClaimTemplates : option (list (Payload * Payload));
  ssRest : Payload
}.

Definition set_ssReplicas (v : option Z) (s : StatefulSetSpec) : StatefulSetSpec :=
  mkStatefulSetSpec v (s.(ssVolumeClaimTemplates)) (s.(ssRest)).
Definition set_ssVolumeClaimTemplates (v : option (list (Payload * Payload))) (s : StatefulSetSpec) : StatefulSetSpec :=
  mkStatefulSetSpec (s.(ssReplicas)) v (s.(ssRest)).
Definition set_ssRest (v : Payload) (s : StatefulSetSpec) : StatefulSetSpec :=
  mkStatefulSetSpec (s.(ssReplicas)) (s.(ssVolumeClaimTemplates)) v.
#[global] Instance StatefulSetSpec_eq_dec : EqDecision StatefulSetSpec.
Proof. solve_decision. Defined.

(** networkingv1.IngressSpec *)
Record IngressSpec : Type := mkIngressSpec {
  ingClassName : option string;
  ingDefaultBackend : Payload;
  ingTLS : Payload;
  ingRules : Payload
}.

Definition set_ingClassName (v : option string) (s : IngressSpec) : IngressSpec :=
  mkIngressSpec v (s.(ingDefaultBackend)) (s.(ingTLS)) (s.(ingRules)).
Definition set_ingDefaultBackend (v : Payload) (s : IngressSpec) : IngressSpec :=
  mkIngressSpec (s.(ingClassName)) v (s.(ingTLS)) (s.(ingRules)).
Definition set_ingTLS (v : Payload) (s : IngressSpec) : IngressSpec :=
  mkIngressSpec (s.(ingClassName)) (s.(ingDefaultBackend)) v (s.(ingRules)).
Definition set_ingRules (v : Payload) (s : IngressSpec) : IngressSpec :=
  mkIngressSpec (s.(ingClassName)) (s.(ingDefaultBackend)) (s.(ingTLS)) v.
#[global] Instance IngressSpec_eq_dec : EqDecision IngressSpec.
Proof. solve_decision. Defined.

(** corev1.PersistentVolumeClaimSpec; a quantity is a number of bytes. *)
Record PVCSpec : Type := mkPVCSpec {
  pvcAccessModes : list string;
  pvcSelector : option Payload;
  pvcRequests : option (gmap string Z);
  pvcLimits : Payload;
  pvcVolumeName : string;
  pvcStorageClassName : option string;
  pvcVolumeMode : option string;
  pvcDataSource : option Payload;
  pvcDataSourceRef : option Payload
}.

Definition set_pvcAccessModes (v : list string) (s : PVCSpec) : PVCSpec :=
  mkPVCSpec v (s.(pvcSelector)) (s.(pvcRequests)) (s.(pvcLimits)) (s.(pvcVolumeName)) (s.(pvcStorageClassName)) (s.(pvcVolumeMode)) (s.(pvcDataSource)) (s.(pvcDataSourceRef)).
Definition set_pvcSelector (v : option Payload) (s : PVCSpec) : PVCSpec :=
  mkPVCSpec (s.(pvcAccessModes)) v (s.(pvcRequests)) (s.(pvcLimits)) (s.(pvcVolumeName)) (s.(pvcStorageClassName)) (s.(pvcVolumeMode)) (s.(pvcDataSource)) (s.(pvcDataSourceRef)).
Definition set_pvcRequests (v : option (gmap string Z)) (s : PVCSpec) : PVCSpec :=
  mkPVCSpec (s.(pvcAccessModes)) (s.(pvcSelector)) v (s.(pvcLimits)) (s.(pvcVolumeName)) (s.(pvcStorageClassName)) (s.(pvcVolumeMode)) (s.(pvcDataSource)) (s.(pvcDataSourceRef)).
Definition set_pvcLimits (v : Payload) (s : PVCSpec) : PVCSpec :=
  mkPVCSpec (s.(pvcAccessModes)) (s.(pvcSelector)) (s.(pvcRequests)) v (s.(pvcVolumeName)) (s.(pvcStorageClassName)) (s.(pvcVolumeMode)) (s.(pvcDataSource)) (s.(pvcDataSourceRef)).
Definition set_pvcVolumeName (v : string) (s : PVCSpec) : PVCSpec :=
  mkPVCSpec (s.(pvcAccessModes)) (s.(pvcSelector)) (s.(pvcRequests)) (s.(pvcLimits)) v (s.(pvcStorageClassName)) (s.(pvcVolumeMode)) (s.(pvcDataSource)) (s.(pvcDataSourceRef)).
Definition set_pvcStorageClassName (v : option string) (s : PVCSpec) : PVCSpec :=
  mkPVCSpec (s.(pvcAccessModes)) (s.(pvcSelector)) (s.(pvcRequests)) (s.(pvcLimits)) (s.(pvcVolumeName)) v (s.(pvcVolumeMode)) (s.(pvcDataSource)) (s.(pvcDataSourceRef)).
Definition set_pvcVolumeMode (v : option string) (s : PVCSpec) : PVCSpec :=
  mkPVCSpec (s.(pvcAccessModes)) (s.(pvcSelector)) (s.(pvcRequests)) (s.(pvcLimits)) (s.(pvcVolumeName)) (s.(pvcStorageClassName)) v (s.(pvcDataSource)) (s.(pvcDataSourceRef)).
Definition set_pvcDataSource (v : option Payload) (s : PVCSpec) : PVCSpec :=
  mkPVCSpec (s.(pvcAccessModes)) (s.(pvcSelector)) (s.(pvcRequests)) (s.(pvcLimits)) (s.(pvcVolumeName)) (s.(pvcStorageClassName)) (s.(pvcVolumeMode)) v (s.(pvcDataSourceRef)).
Definition set_pvcDataSourceRef (v : option Payload) (s : PVCSpec) : PVCSpec :=
  mkPVCSpec (s.(pvcAccessModes)) (s.(pvcSelector)) (s.(pvcRequests)) (s.(pvcLimits)) (s.(pvcVolumeName)) (s.(pvcStorageClassName)) (s.(pvcVolumeMode)) (s.(pvcDataSource)) v.
#[global] Instance PVCSpec_eq_dec : EqDecision PVCSpec.
Proof. solve_decision. Defined.

(** The parts of corev1.Pod the code reads: the claim each volume names, the node and the
    phase; [podStatus] is the rest of the status. *)
Record PodFields : Type := mkPodFields {
  podClaims : list (option string);
  podNodeName : string;
  podPhase : string;
  podStatus : Payload;
  podRest : Payload
}.

Definition set_podPhase (v : string) (s : PodFields) : PodFields :=
  mkPodFields (s.(podClaims)) (s.(podNodeName)) v (s.(podStatus)) (s.(podRest)).
Definition set_podStatus (v : Payload) (s : PodFields) : PodFields :=
  mkPodFields (s.(podClaims)) (s.(podNodeName)) (s.(podPhase)) v (s.(podRest)).
#[global] Instance PodFields_eq_dec : EqDecision PodFields.
Proof. solve_decision. Defined.

(** The parts of corev1.Event the code sets: the object it is about (apiVersion, kind,
    name, namespace, UID), and the rest. *)
Record EventFields : Type := mkEventFields {
  evAPIVersion : string;
  evKind : string;
  evName : string;
  evNamespace : string;
  evUID : string;
  evReason : string;
  evMessage : string;
  evType : string;
  evComponent : string;
  evFirstTimestamp : Time;
  evLastTimestamp : Time;
  evCount : Z
}.

#[global] Instance EventFields_eq_dec : EqDecision EventFields.
Proof. solve_decision. Defined.

(** The content of an object.  [UnstructuredBody] is a type the code only handles
    through unstructured.Unstructured or copies whole. *)
Inductive Body : Type :=
| ConfigMapBody (f : ConfigMapFields)
| SecretBody (f : SecretFields)
| ServiceBody (s : ServiceSpec) (status : Payload)
| DeploymentBody (s : DeploymentSpec) (status : Payload)
| StatefulSetBody (s : StatefulSetSpec) (status : Payload)
| IngressBody (s : IngressSpec) (status : Payload)
| PVCBody (s : PVCSpec) (status : Payload)
| PVBody (spec : Payload) (phase : string) (status : Payload)
| NodeBody (addresses : list (string * string)) (rest status : Payload)
| VolumeAttachmentBody (node : string) (pv : option string) (rest status : Payload)
| PodBody (f : PodFields)
| EventBody (f : EventFields)
| NamespaceBody
| UnstructuredBody (content status : Payload).

#[global] Instance Body_eq_dec : EqDecision Body.
Proof. solve_decision. Defined.

(** A runtime.Object.  The typed clients return objects whose [GVK] is empty. *)
Record Object : Type := mkObject { oGVK : GVK; oMeta : ObjectMeta; oBody : Body }.

#[global] Instance Object_eq_dec : EqDecision Object.
Proof. solve_decision. Defined.

Definition on_meta (f : ObjectMeta → ObjectMeta) (o : Object) : Object :=
  mkObject o.(oGVK) (f o.(oMeta)) o.(oBody).
Definition set_oGVK (g : GVK) (o : Object) : Object := mkObject g o.(oMeta) o.(oBody).
Definition set_oBody (b : Body) (o : Object) : Object := mkObject o.(oGVK) o.(oMeta) b.

Definition GetName (o : Object) : string := o.(oMeta).(mName).
Definition GetNamespace (o : Object) : string := o.(oMeta).(mNamespace).

(** Reading a possibly nil map. *)
Definition get_key (m : option (gmap string string)) (k : string) : option string :=
  m ≫= λ m, m !! k.

(** [if m == nil { m = make(...) }] *)
Definition or_make (m : option (gmap string string)) : gmap string string := default ∅ m.

(** ** pkg/controllers/utils/utils.go *)

Definition IgnoreLabel : string := "dr-syncer.io/ignore".
Definition ScaleOverrideLabel : string := "dr-syncer.io/scale-override".

Definition ParseInt32 (s : string) : option Z := ParseInt s 32.

Definition ShouldIgnoreResource (o : Object) : bool :=
  match get_key o.(oMeta).(mLabels) IgnoreLabel with
  | Some v => v =s? "true"
  | None => false
  end.

Definition last_applied : string := "kubectl.kubernetes.io/last-applied-configuration".

Definition sanitize (m : ObjectMeta) : ObjectMeta :=
  mkObjectMeta m.(mName) m.(mNamespace) "" "" "" None [] [] 0 [] m.(mLabels)
    (delete last_applied <$> m.(mAnnotations)).

Definition SanitizeMetadata (o : Object) : Object := on_meta sanitize o.

(** ** The calls *)

(** Which API server a client talks to: the source cluster, the destination
    cluster, or the one the controller itself runs against. *)
Inductive Cluster : Type := Src | Dst | Ctl.

#[global] Instance Cluster_eq_dec : EqDecision Cluster.
Proof. solve_decision. Defined.

Record APIGroup : Type := mkAPIGroup { gName : string; gVersions : list string }.
Record APIResource : Type := mkAPIResource { arName : string; arNamespaced : bool }.

(** An entry of ServerPreferredResources. *)
Record PreferredResource : Type := mkPreferredResource {
  prName : string; prSingularName : string; prNamespaced : bool
}.

(** The error of [exec.Cmd.CombinedOutput]: an exit status ([*exec.ExitError]) or the
    command could not be started. *)
Inductive CommandError : Type :=
| ExitError (code : Z) (msg : string)
| StartError (msg : string).

(** Running a command in a pod: the executor cannot be made, or the command ran, with its
    standard output, standard error and an error (the exit status, or of the stream). *)
Inductive ExecAnswer : Type :=
| NoExecutor (e : error)
| Executed (stdout stderr : string) (err : option error).

(** What syncPersistentVolumeClaims* hands to the replication package. *)
Record PVCSyncOptions : Type := mkPVCSyncOptions {
  optSourcePVC : Object; optDestinationPVC : Object;
  optSourceNamespace : string; optDestinationNamespace : string;
  optSourceNode : string; optDestinationNode : string
}.

(** [KWait d] waits for a timer, or until the context is done (false); [KRandom] is
    rand.Float64 in units of 2^-53; [KShuffle] is rand.Shuffle; [KRecordEvent] an event
    recorder; [KGetMappingAt] reads a NamespaceMapping through the client of a cluster;
    [KListText] lists with a label selector in text form, [KListOn] with a field selector;
    [KStat] and [KReadDir] look at the file system of the process (an entry is a name and
    whether it is a directory). *)
Inductive KOp : Type :=
| KNow
| KSleep (d : Z)
| KGet (c : Cluster) (r : GVR) (ns name : string)
| KList (c : Cluster) (r : GVR) (ns : string) (selector : option (gmap string string))
| KCreate (c : Cluster) (r : GVR) (ns : string) (o : Object)
| KUpdate (c : Cluster) (r : GVR) (ns : string) (o : Object)
| KDelete (c : Cluster) (r : GVR) (ns name : string)
| KDeleteForeground (c : Cluster) (r : GVR) (ns name : string)
| KEvict (c : Cluster) (ns pod : string)
| KServerGroups (c : Cluster)
| KServerResources (c : Cluster) (groupVersion : string)
| KServerPreferredResources (c : Cluster)
| KCommand (command : string) (args : list string)
| KExec (c : Cluster) (ns pod : string) (command : list string)
| KWait (d : Z)
| KRandom
| KShuffle (l : list string)
| KListRemoteClusters (c : Cluster)
| KGetMappingAt (c : Cluster) (ns name : string)
| KUpdateMappingAt (c : Cluster) (m : NamespaceMapping)
| KRecordEvent (pvc : Object) (type reason : string)
| KConvertList (l : list Object)
| KGetMapping (ns name : string)
| KUpdateMappingStatus (m : NamespaceMapping)
| KUpdateMapping (m : NamespaceMapping)
| KGetClusterMapping (ns name : string)
| KCacheSync (stopped : bool) (r : GVR)
| KStartTicker (interval : Z)
| KNewPVCSyncer
| KFindPVCNode (c : Cluster) (ns name : string)
| KHasVolumeAttachments (ns name : string)
| KAcquireSlot (ns name : string)
| KReleaseSlot (ns name : string)
| KSyncPVC (opts : PVCSyncOptions)
| KListText (c : Cluster) (r : GVR) (ns : string) (labelSelector : string)
| KListOn (c : Cluster) (r : GVR) (ns : string) (selector : option (gmap string string)) (fields : list (string * string))
| KStat (path : string)
| KReadDir (path : string).

Definition KResp (o : KOp) : Type :=
  match o with
  | KNow => Time
  | KSleep _ => unit
  | KGet _ _ _ _ => res Object
  | KList _ _ _ _ => res (list Object)
  | KCreate _ _ _ _ => res Object
  | KUpdate _ _ _ _ => res Object
  | KDelete _ _ _ _ => res unit
  | KDeleteForeground _ _ _ _ => res unit
  | KEvict _ _ _ => res unit
  | KServerGroups _ => res (list APIGroup)
  | KServerResources _ _ => res (list APIResource)
  | KServerPreferredResources _ => res (list (string * list PreferredResource))
  | KCommand _ _ => string * option CommandError
  | KExec _ _ _ _ => ExecAnswer
  | KWait _ => bool
  | KRandom => Z
  | KShuffle _ => list string
  | KListRemoteClusters _ => res (list RemoteCluster)
  | KGetMappingAt _ _ _ => res NamespaceMapping
  | KUpdateMappingAt _ _ => res NamespaceMapping
  | KRecordEvent _ _ _ => unit
  | KConvertList _ => res (list Object)
  | KGetMapping _ _ => res NamespaceMapping
  | KUpdateMappingStatus _ => res NamespaceMapping
  | KUpdateMapping _ => res NamespaceMapping
  | KGetClusterMapping _ _ => res ClusterMapping
  | KCacheSync _ _ => bool
  | KStartTicker _ => unit
  | KNewPVCSyncer => res unit
  | KFindPVCNode _ _ _ => res string
  | KHasVolumeAttachments _ _ => res bool
  | KAcquireSlot _ _ => res unit
  | KReleaseSlot _ _ => unit
  | KSyncPVC _ => res unit
  | KListText _ _ _ _ => res (list Object)
  | KListOn _ _ _ _ _ => res (list Object)
  | KStat _ => res unit
  | KReadDir _ => res (list (string * bool))
  end.

Definition KSig : Sig := mkSig KOp KResp.
Abbreviation KP := (prog KSig).

Definition kcall (o : KOp) : KP (KResp o) := call (Sg := KSig) o.

(** Resources of the built-in API groups. *)
Definition configmaps : GVR := mkGVR "" "v1" "configmaps".
Definition secrets : GVR := mkGVR "" "v1" "secrets".
Definition services : GVR := mkGVR "" "v1" "services".
Definition namespaces : GVR := mkGVR "" "v1" "namespaces".
Definition persistentvolumeclaims : GVR := mkGVR "" "v1" "persistentvolumeclaims".
Definition persistentvolumes : GVR := mkGVR "" "v1" "persistentvolumes".
Definition pods : GVR := mkGVR "" "v1" "pods".
Definition events : GVR := mkGVR "" "v1" "events".
Definition deployments : GVR := mkGVR "apps" "v1" "deployments".
Definition statefulsets : GVR := mkGVR "apps" "v1" "statefulsets".
Definition ingresses : GVR := mkGVR "networking.k8s.io" "v1" "ingresses".
Definition nodes : GVR := mkGVR "" "v1" "nodes".
Definition volumeattachments : GVR := mkGVR "storage.k8s.io" "v1" "volumeattachments".
Definition storageclasses : GVR := mkGVR "storage.k8s.io" "v1" "storageclasses".
Definition daemonsets : GVR := mkGVR "apps" "v1" "daemonsets".
Definition crds : GVR := mkGVR "apiextensions.k8s.io" "v1" "customresourcedefinitions".

(** ** Lemmas *)

Lemma sanitize_idemp m : sanitize (sanitize m) = sanitize m.
Proof.
  unfold sanitize; cbn. f_equal. destruct (mAnnotations m); cbn; [|done].
  f_equal. apply delete_delete_eq.
Qed.

Lemma sanitize_clears m :
  mUID (sanitize m) = "" ∧ mResourceVersion (sanitize m) = "" ∧
  mOwnerReferences (sanitize m) = [] ∧ mFinalizers (sanitize m) = [] ∧
  mName (sanitize m) = mName m ∧ mNamespace (sanitize m) = mNamespace m ∧
  mLabels (sanitize m) = mLabels m.
Proof. done. Qed.

#[export] Hint Rewrite sanitize_idemp : drsync.
