(* ===== verification/KubeLogic.v ===== *)
(** * Reasoning about programs over the Kubernetes calls

    Helpers every component uses (nil clients, wrapped errors), and the lemmas and
    tactics that run such programs, take their executions apart and prove [safe]. *)

From S2P Require Import Prelude Errors Types Kube.

Definition wrapf (prefix : string) : error → error := WrapError prefix.
(** [fmt.Errorf] with the error as %v: the error is not wrapped. *)
Definition plainf (prefix : string) (e : error) : error := PlainError (prefix +:+ Error e).
Definition errorf {A : Type} (msg : string) : KP (res A) := mret (Err (PlainError msg)).

(** A method call through a nil interface panics. *)
Definition deref {A : Type} (c : option Cluster) (k : Cluster → KP A) : KP A :=
  match c with
  | Some c => k c
  | None => panic "invalid memory address or nil pointer dereference"
  end.

(** An answer to every call: requests are refused, waits are cut short. *)
Definition refused (o : KOp) : KResp o :=
  match o as o return KResp o with
  | KNow => 0
  | KSleep _ | KStartTicker _ | KReleaseSlot _ _ | KRecordEvent _ _ _ => tt
  | KCommand _ _ => ("", None)
  | KExec _ _ _ _ => NoExecutor (PlainError "refused")
  | KWait _ | KCacheSync _ _ => false
  | KRandom => 0
  | KShuffle l => l
  | KGet _ _ _ _ | KList _ _ _ _ | KCreate _ _ _ _ | KUpdate _ _ _ _ | KDelete _ _ _ _ | KDeleteForeground _ _ _ _
  | KEvict _ _ _ | KServerGroups _ | KServerResources _ _ | KServerPreferredResources _ | KListRemoteClusters _
  | KGetMappingAt _ _ _ | KUpdateMappingAt _ _ | KConvertList _ | KGetMapping _ _ | KUpdateMappingStatus _
  | KUpdateMapping _ | KGetClusterMapping _ _ | KNewPVCSyncer | KFindPVCNode _ _ _ | KHasVolumeAttachments _ _
  | KAcquireSlot _ _ | KSyncPVC _ | KListText _ _ _ _ | KListOn _ _ _ _ _ | KStat _ | KReadDir _ => Err (PlainError "refused")
  end.

Lemma KResp_inhabited (o : Op KSig) : ∃ r : Resp KSig o, True.
Proof. by exists (refused o). Qed.

(** ** Automation for [safe] goals *)

Lemma safe_call_bind {A} (P : Op KSig → Prop) (o : KOp) (f : KResp o → KP A) Q :
  P o → (∀ r, safe P (f r) Q) → safe P (kcall o ≫= f) Q.
Proof. done. Qed.

Lemma safe_ret {A} (P : Op KSig → Prop) (a : A) (Q : A → Prop) : Q a → safe P (mret a) Q.
Proof. done. Qed.

Lemma safe_deref {A} (P : Op KSig → Prop) c (k : Cluster → KP A) Q :
  (∀ c', c = Some c' → safe P (k c') Q) → safe P (deref c k) Q.
Proof. destruct c; cbn; auto. Qed.

(** Only the calls matter: any result will do. *)
Definition anyr {A : Type} (_ : A) : Prop := True.

Lemma safe_bindE_any {A B} (P : Op KSig → Prop) (c : KP (res A)) w (k : A → KP (res B)) :
  safe P c anyr → (∀ a, safe P (k a) anyr) →
  safe P (bindE c w k) anyr.
Proof.
  intros Hc Hk. apply (safe_bindE _ _ _ _ anyr); [|by auto].
  apply (safe_mono P P _ anyr); [done..|]. by intros [].
Qed.

Lemma safe_range_err_any {A St} (P : Op KSig → Prop) (xs : list A) (s : St) body :
  (∀ x s, x ∈ xs → safe P (body x s) anyr) →
  safe P (range_err xs s body) anyr.
Proof.
  intros Hb. apply (safe_mono P P _ (λ r, match r with Ok _ => True | Err _ => True end)); [|done..].
  apply safe_range_err; [done|]. intros x s' Hx _.
  apply (safe_mono P P _ anyr); [by apply Hb|done|]. by intros [].
Qed.

Lemma safe_range_each_any {A St} (P : Op KSig → Prop) (xs : list A) (s : St) body :
  (∀ x s, x ∈ xs → safe P (body x s) anyr) →
  safe P (range_each xs s body) anyr.
Proof. intros Hb. apply safe_range_each; [done|]. intros; by apply Hb. Qed.

Lemma safe_bind_any {A B} (P : Op KSig → Prop) (c : KP A) (k : A → KP B) :
  safe P c anyr → (∀ a, safe P (k a) anyr) →
  safe P (c ≫= k) anyr.
Proof. intros Hc Hk. apply (safe_bind _ _ _ anyr); auto. Qed.

Ltac safe_step :=
  lazymatch goal with
  | |- safe _ (match ?x with _ => _ end) _ => destruct x eqn:?
  | |- safe _ (if ?x then _ else _) _ => destruct x eqn:?
  | |- safe _ (mret _) _ => apply safe_ret
  | |- safe _ (PRet _) _ => cbn
  | |- safe _ (errorf _) _ => apply safe_ret
  | |- safe _ (panic _) _ => exact I
  | |- safe _ (deref _ _) _ => apply safe_deref; intros
  | |- safe _ (kcall ?o) _ => apply safe_call; [|done]
  | |- safe _ (kcall _ ≫= _) _ => apply safe_call_bind; [|intros ?]
  | |- safe _ (_ ≫= _) anyr => apply safe_bind_any; [|intros ?]
  | |- safe _ (bindE _ _ _) anyr => apply safe_bindE_any; [|intros ?]
  | |- safe _ (range_err _ _ _) anyr => apply safe_range_err_any; intros
  | |- safe _ (range_each _ _ _) anyr => apply safe_range_each_any; intros
  | |- safe _ (let _ := _ in _) _ => cbv zeta
  | |- anyr _ => exact I
  end.

(** ** Taking executions apart *)

Ltac runs_case H :=
  lazymatch type of H with
  | runs (match ?x with _ => _ end) _ _ => destruct x eqn:?
  | runs (if ?x then _ else _) _ _ => destruct x eqn:?
  | runs (mret _) _ _ => apply runs_ret_inv in H as [? ?]; subst
  | runs (PRet _) _ _ => apply runs_ret_inv in H as [? ?]; subst
  | runs (errorf _) _ _ => apply runs_ret_inv in H as [? ?]; subst
  | runs (panic _) _ _ => apply runs_panic_inv in H as [? ?]; subst
  | runs (kcall ?o ≫= _) _ _ =>
      let a := fresh "a" in let t := fresh "t" in
      apply (runs_call_inv (Sg := KSig) o) in H as (a & t & ? & H); subst; cbn beta in H
  | runs (bindE (kcall ?o) _ _) _ _ =>
      let a := fresh "a" in let t := fresh "t" in
      apply (runs_call_inv (Sg := KSig) o) in H as (a & t & ? & H); subst; cbn beta in H
  | runs (kcall ?o) _ _ =>
      let a := fresh "a" in let t := fresh "t" in
      apply (runs_call_inv (Sg := KSig) o) in H as (a & t & ? & H); subst
  | runs (deref ?c _) _ _ => destruct c eqn:?; cbn [deref] in H
  | runs (let _ := _ in _) _ _ => cbv zeta in H
  | runs (pbind _ (PRet _)) _ _ => cbn [pbind] in H
  end.

(** ** Running one call *)

Lemma run_kcall {S A} (h : handler KSig S) (o : KOp) (f : KResp o → KP A) s :
  run h (kcall o ≫= f) s = run h (f (h o s).1) (h o s).2.
Proof. cbn. by destruct (h o s). Qed.

Ltac run_kstep :=
  match goal with
  | |- run ?h (@mbind _ _ _ _ ?f (kcall ?o)) ?s = _ => transitivity (run h (f (h o s).1) (h o s).2);
      [exact (run_kcall h o f s)|cbn beta]
  end.

Ltac run_kstep_in H :=
  match type of H with
  | run ?h (@mbind _ _ _ _ ?f (kcall ?o)) ?s = _ =>
      apply (eq_trans (eq_sym (run_kcall h o f s))) in H; cbn beta in H
  end.

