(* ===== verification/ApiServer.v ===== *)
(** * What the controllers rely on from an API server

    [LawfulKube] states the documented behaviour of the Kubernetes API that the
    theorems about stored objects use.  [api] is a small reference server that
    satisfies it, on which programs can be run. *)

From S2P Require Import Prelude GoString Errors Types Kube KubeLogic.

(** The annotations of an object belong to its clients: the server keeps the entries it
    is sent (an empty map may come back as none).  Nothing is said of the spec, which
    defaulting, allocation and admission may change, nor of the status, which an update
    of the object does not touch. *)
Definition keeps_annotations (o o' : Object) : Prop :=
  ∀ k, get_key o'.(oMeta).(mAnnotations) k = get_key o.(oMeta).(mAnnotations) k.

(** The laws, for an environment [h] with state [S]. *)
Class LawfulKube {S : Type} (h : handler KSig S) : Prop := {
  (** Reading does not change anything. *)
  get_pure : ∀ c r ns name s, (h (KGet c r ns name) s).2 = s;
  (** What an update answers is what a read answers then, with the annotations sent. *)
  update_stored : ∀ c r ns o s o' s', h (KUpdate c r ns o) s = (Ok o', s') →
    h (KGet c r ns (GetName o)) s' = (Ok o', s') ∧ keeps_annotations o o'
}.

(** Optimistic concurrency, for the states [wf] reachable from a freshly started
    server; [rv] orders the resource versions.  A failed update may still have taken
    effect (its answer was lost). *)
Class LawfulStore {S : Type} (h : handler KSig S) (wf : S → Prop) (rv : string → Z) : Prop := {
  wf_step : ∀ o s, wf s → wf (h o s).2;
  get_name : ∀ c r ns name s o, (h (KGet c r ns name) s).1 = Ok o → GetName o = name;
  get_versioned : ∀ c r ns name s o, wf s → (h (KGet c r ns name) s).1 = Ok o →
    o.(oMeta).(mResourceVersion) ≠ "";
  now_quiet : ∀ c r ns name s, (h (KGet c r ns name) (h KNow s).2).1 = (h (KGet c r ns name) s).1;
  update_effect : ∀ c r ns o s, wf s →
    let s' := (h (KUpdate c r ns o) s).2 in
    ((∃ e, (h (KUpdate c r ns o) s).1 = Err e) ∧
       (h (KGet c r ns (GetName o)) s').1 = (h (KGet c r ns (GetName o)) s).1)
    ∨ (∃ old o', (h (KGet c r ns (GetName o)) s).1 = Ok old ∧
         (o.(oMeta).(mResourceVersion) = "" ∨
          o.(oMeta).(mResourceVersion) = old.(oMeta).(mResourceVersion)) ∧
         (h (KGet c r ns (GetName o)) s').1 = Ok o' ∧ keeps_annotations o o' ∧
         rv old.(oMeta).(mResourceVersion) < rv o'.(oMeta).(mResourceVersion))
}.

Section run_calls.
Context {S : Type} (h : handler KSig S) {A : Type}.

Lemma run_get `{!LawfulKube h} c r ns name w (k : Object → KP (res A)) s :
  run h (bindE (kcall (KGet c r ns name)) w k) s =
  match (h (KGet c r ns name) s).1 with Ok o => run h (k o) s | Err e => (Ret (Err (w e)), s) end.
Proof.
  pose proof (get_pure c r ns name s) as Hp. cbn. destruct (h (KGet c r ns name) s) as [[o|e] s'] eqn:E;
    cbn in *; by subst.
Qed.

Lemma run_get_ok `{!LawfulKube h} c r ns name w (k : Object → KP (res A)) s o :
  (h (KGet c r ns name) s).1 = Ok o → run h (bindE (kcall (KGet c r ns name)) w k) s = run h (k o) s.
Proof. rewrite run_get. by intros ->. Qed.

Lemma run_update c r ns o w (k : Object → KP (res A)) s :
  run h (bindE (kcall (KUpdate c r ns o)) w k) s =
  match (h (KUpdate c r ns o) s).1 with
  | Ok o' => run h (k o') (h (KUpdate c r ns o) s).2
  | Err e => (Ret (Err (w e)), (h (KUpdate c r ns o) s).2)
  end.
Proof. cbn. by destruct (h (KUpdate c r ns o) s) as [[o'|e] s']. Qed.

Lemma run_now (k : Time → KP A) s : run h (kcall KNow ≫= k) s = run h (k (h KNow s).1) (h KNow s).2.
Proof. cbn. by destruct (h KNow s). Qed.
End run_calls.

(** An object that an update stores. *)
Lemma update_stored_get {S} (h : handler KSig S) `{!LawfulKube h} c r ns name o s o' :
  GetName o = name → (h (KUpdate c r ns o) s).1 = Ok o' →
  (h (KGet c r ns name) (h (KUpdate c r ns o) s).2).1 = Ok o' ∧ keeps_annotations o o'.
Proof.
  intros <- E. destruct (update_stored c r ns o s o' (h (KUpdate c r ns o) s).2) as [Hg Hs].
  { by destruct (h (KUpdate c r ns o) s); cbn in *; subst. }
  by rewrite Hg.
Qed.

(** ** A reference server *)

Record entry : Type := mkEntry { eCluster : Cluster; eGVR : GVR; eNs : string; eObj : Object }.

Record world : Type := mkWorld {
  objects : list entry;
  mappings : list NamespaceMapping;
  clusterMappings : list ClusterMapping;
  version : Z;
  clock : Time
}.

Definition set_objects (l : list entry) (w : world) : world :=
  mkWorld l w.(mappings) w.(clusterMappings) (w.(version) + 1) w.(clock).
Definition set_mappings (l : list NamespaceMapping) (w : world) : world :=
  mkWorld w.(objects) l w.(clusterMappings) (w.(version) + 1) w.(clock).

Definition at_key (c : Cluster) (r : GVR) (ns name : string) (e : entry) : bool :=
  bool_decide (e.(eCluster) = c) && bool_decide (e.(eGVR) = r) &&
  (e.(eNs) =s? ns) && (GetName e.(eObj) =s? name).

Fixpoint find_object (c : Cluster) (r : GVR) (ns name : string) (l : list entry) : option Object :=
  match l with
  | [] => None
  | e :: rest => if at_key c r ns name e then Some e.(eObj) else find_object c r ns name rest
  end.

Fixpoint put_object (c : Cluster) (r : GVR) (ns : string) (o : Object) (l : list entry) : list entry :=
  match l with
  | [] => [mkEntry c r ns o]
  | e :: rest =>
      if at_key c r ns (GetName o) e then mkEntry c r ns o :: rest
      else e :: put_object c r ns o rest
  end.

Definition not_found : error := StatusError NotFound "not found".

(** The metadata the server owns. *)
Definition stamp (version : Z) (uid : string) (o : Object) : Object :=
  on_meta (λ m, set_mResourceVersion (itoa version) (set_mUID uid m)) o.

Definition find_mapping (ns name : string) (l : list NamespaceMapping) : option NamespaceMapping :=
  List.find (λ m, (m.(Namespace) =s? ns) && (m.(Name) =s? name)) l.

Definition put_mapping (m : NamespaceMapping) (l : list NamespaceMapping) : list NamespaceMapping :=
  m :: filter (λ x, (x.(Namespace) =s? m.(Namespace)) && (x.(Name) =s? m.(Name)) = false) l.

Definition stamp_mapping (version : Z) (m : NamespaceMapping) : NamespaceMapping :=
  mkNamespaceMapping m.(Name) m.(Namespace) m.(Annotations) m.(Finalizers) m.(DeletionTimestamp)
    (itoa version) m.(Spec) m.(Status).

Definition api : handler KSig world := λ o w,
  match o as o return KResp o * world with
  | KNow => (w.(clock), w)
  | KSleep d => (tt, mkWorld w.(objects) w.(mappings) w.(clusterMappings) w.(version) (w.(clock) + Z.max 0 d))
  | KGet c r ns name =>
      (match find_object c r ns name w.(objects) with Some x => Ok x | None => Err not_found end, w)
  | KList c r ns _ =>
      (Ok (eObj <$> filter (λ e, bool_decide (e.(eCluster) = c) && bool_decide (e.(eGVR) = r) &&
                                 ((ns =s? "") || (e.(eNs) =s? ns)) = true) w.(objects)), w)
  | KCreate c r ns x =>
      match find_object c r ns (GetName x) w.(objects) with
      | Some _ => (Err (StatusError AlreadyExists "already exists"), w)
      | None =>
          let x' := stamp w.(version) ("uid-" +:+ itoa w.(version)) x in
          (Ok x', set_objects (put_object c r ns x' w.(objects)) w)
      end
  | KUpdate c r ns x =>
      match find_object c r ns (GetName x) w.(objects) with
      | None => (Err not_found, w)
      | Some old =>
          if (x.(oMeta).(mResourceVersion) =s? "") ||
             (x.(oMeta).(mResourceVersion) =s? old.(oMeta).(mResourceVersion)) then
            let x' := stamp w.(version) old.(oMeta).(mUID) x in
            (Ok x', set_objects (put_object c r ns x' w.(objects)) w)
          else (Err (StatusError Conflict "the object has been modified"), w)
      end
  | KDelete c r ns name =>
      match find_object c r ns name w.(objects) with
      | None => (Err not_found, w)
      | Some _ => (Ok tt, set_objects (filter (λ e, at_key c r ns name e = false) w.(objects)) w)
      end
  | KDeleteForeground c r ns name =>
      match find_object c r ns name w.(objects) with
      | None => (Err not_found, w)
      | Some _ => (Ok tt, set_objects (filter (λ e, at_key c r ns name e = false) w.(objects)) w)
      end
  | KEvict c ns pod =>
      (Ok tt, set_objects (filter (λ e, at_key c pods ns pod e = false) w.(objects)) w)
  | KServerGroups _ => (Ok [mkAPIGroup "apps" ["apps/v1"]; mkAPIGroup "networking.k8s.io" ["networking.k8s.io/v1"]], w)
  | KServerResources _ _ => (Ok [], w)
  | KServerPreferredResources _ =>
      (Ok [("apps/v1", [mkPreferredResource "deployments" "" true; mkPreferredResource "statefulsets" "" true])], w)
  | KCommand _ _ => (("", None), w)
  | KExec _ _ _ _ => (Executed "SUCCESS" "" None, w)
  | KWait d => (true, mkWorld w.(objects) w.(mappings) w.(clusterMappings) w.(version) (w.(clock) + Z.max 0 d))
  | KRandom => (0, w)
  | KShuffle l => (l, w)
  | KListRemoteClusters _ => (Ok [], w)
  | KGetMappingAt _ ns name =>
      (match find_mapping ns name w.(mappings) with Some m => Ok m | None => Err not_found end, w)
  | KUpdateMappingAt _ m =>
      match find_mapping m.(Namespace) m.(Name) w.(mappings) with
      | None => (Err not_found, w)
      | Some old =>
          if m.(ResourceVersion) =s? old.(ResourceVersion) then
            let m' := stamp_mapping w.(version) (set_Status old.(Status) m) in
            (Ok m', set_mappings (put_mapping m' w.(mappings)) w)
          else (Err (StatusError Conflict "the object has been modified"), w)
      end
  | KRecordEvent _ _ _ => (tt, w)
  | KConvertList l => (Ok l, w)
  | KGetMapping ns name =>
      (match find_mapping ns name w.(mappings) with Some m => Ok m | None => Err not_found end, w)
  | KUpdateMappingStatus m =>
      match find_mapping m.(Namespace) m.(Name) w.(mappings) with
      | None => (Err not_found, w)
      | Some old =>
          if m.(ResourceVersion) =s? old.(ResourceVersion) then
            let m' := stamp_mapping w.(version) (set_Status m.(Status) old) in
            (Ok m', set_mappings (put_mapping m' w.(mappings)) w)
          else (Err (StatusError Conflict "the object has been modified"), w)
      end
  | KUpdateMapping m =>
      match find_mapping m.(Namespace) m.(Name) w.(mappings) with
      | None => (Err not_found, w)
      | Some old =>
          if m.(ResourceVersion) =s? old.(ResourceVersion) then
            let m' := stamp_mapping w.(version) (set_Status old.(Status) m) in
            (Ok m', set_mappings (put_mapping m' w.(mappings)) w)
          else (Err (StatusError Conflict "the object has been modified"), w)
      end
  | KGetClusterMapping ns name =>
      (match List.find (λ m, (m.(CMNamespace) =s? ns) && (m.(CMName) =s? name)) w.(clusterMappings) with
       | Some m => Ok m
       | None => Err not_found
       end, w)
  | KCacheSync stopped _ => (negb stopped, w)
  | KStartTicker _ => (tt, w)
  | KNewPVCSyncer => (Ok tt, w)
  | KFindPVCNode _ _ _ => (Ok "node-1", w)
  | KHasVolumeAttachments _ _ => (Ok true, w)
  | KAcquireSlot _ _ => (Ok tt, w)
  | KReleaseSlot _ _ => (tt, w)
  | KSyncPVC _ => (Ok tt, w)
  | KListText _ _ _ _ => (Err (StatusError (OtherReason "BadRequest") "unable to parse the label selector"), w)
  | KListOn _ _ _ _ _ => (Ok [], w)
  | KStat _ => (Err (PlainError "no such file or directory"), w)
  | KReadDir _ => (Err (PlainError "no such file or directory"), w)
  end.

(** ** The reference server is lawful *)

Lemma at_key_self c r ns o : at_key c r ns (GetName o) (mkEntry c r ns o) = true.
Proof. unfold at_key; cbn. rewrite !bool_decide_eq_true_2, !String.eqb_refl by done. done. Qed.

Lemma find_put c r ns o l : find_object c r ns (GetName o) (put_object c r ns o l) = Some o.
Proof.
  induction l as [|e l IH]; cbn [put_object].
  - cbn [find_object]. by rewrite at_key_self.
  - destruct (at_key c r ns (GetName o) e) eqn:E; cbn [find_object].
    + by rewrite at_key_self.
    + by rewrite E.
Qed.

Lemma sanitize_stamp v u o : SanitizeMetadata (stamp v u o) = SanitizeMetadata o.
Proof. done. Qed.

Lemma stamp_version v u o : (stamp v u o).(oMeta).(mResourceVersion) = itoa v.
Proof. done. Qed.

Lemma find_put_stamp v u c r ns o l :
  find_object c r ns (GetName o) (put_object c r ns (stamp v u o) l) = Some (stamp v u o).
Proof. apply (find_put c r ns (stamp v u o)). Qed.

#[global] Instance api_lawful : LawfulKube api.
Proof.
  split.
  - done.
  - intros c r ns o s o' s'. cbn. destruct (find_object _ _ _ _ _) as [old|]; [|done].
    destruct (_ || _); [|done]. intros [= <- <-]. cbn. by rewrite find_put_stamp.
Qed.

(** *** Optimistic concurrency on the reference server *)

(** Every stored object carries a version the counter has passed. *)
Definition versioned (n : Z) (e : entry) : Prop :=
  ∃ v, e.(eObj).(oMeta).(mResourceVersion) = itoa v ∧ 0 ≤ v < n.
Definition api_wf (w : world) : Prop := 0 ≤ w.(version) ∧ Forall (versioned w.(version)) w.(objects).

Definition api_rv (v : string) : Z := default 0 (parse_digits v 0).

Lemma itoa_rv n : 0 ≤ n → api_rv (itoa n) = n ∧ itoa n ≠ "".
Proof.
  intros Hn. unfold api_rv, itoa. rewrite (proj2 (Z.ltb_ge n 0)) by lia.
  rewrite utoa_parse by lia. destruct (utoa_head n Hn) as (c & r & -> & _). done.
Qed.

Lemma versioned_mono n n' l : n ≤ n' → Forall (versioned n) l → Forall (versioned n') l.
Proof. intros Hn H. eapply Forall_impl; [exact H|]. intros e (v & E & ?). exists v. split; [done|lia]. Qed.

Lemma put_object_Forall (P : entry → Prop) c r ns o l :
  P (mkEntry c r ns o) → Forall P l → Forall P (put_object c r ns o l).
Proof.
  intros Ho. induction 1 as [|e l He Hl IH]; cbn; [by constructor|].
  destruct (at_key _ _ _ _ e); by constructor.
Qed.

Lemma filter_Forall (P : entry → Prop) (f : entry → bool) l :
  Forall P l → Forall P (filter (λ e, f e = false) l).
Proof.
  rewrite !Forall_forall. intros H x Hx. apply H. by apply list_elem_of_filter in Hx as [_ ?].
Qed.

Lemma find_object_spec c r ns name l o :
  find_object c r ns name l = Some o → GetName o = name ∧ ∃ e, e ∈ l ∧ e.(eObj) = o.
Proof.
  induction l as [|e l IH]; cbn; [done|]. destruct (at_key c r ns name e) eqn:E.
  - intros [= <-]. unfold at_key in E. rewrite !andb_true_iff, !String.eqb_eq in E.
    split; [by apply E|]. exists e. split; [left|done].
  - intros H. destruct (IH H) as (? & e' & ? & ?). split; [done|]. exists e'. split; [by right|done].
Qed.

Lemma set_objects_wf w c r ns uid o :
  api_wf w → api_wf (set_objects (put_object c r ns (stamp w.(version) uid o) w.(objects)) w).
Proof.
  intros [Hv Ho]. split; cbn; [lia|]. apply put_object_Forall.
  - exists w.(version). split; [done|lia].
  - apply (versioned_mono w.(version)); [lia|done].
Qed.

Lemma api_wf_step o w : api_wf w → api_wf (api o w).2.
Proof.
  intros Hw. pose proof Hw as [Hv Ho].
  assert (Hf : ∀ f, api_wf (set_objects (filter (λ e, f e = false) w.(objects)) w)).
  { intros f. split; cbn; [lia|]. apply filter_Forall, (versioned_mono w.(version)); [lia|done]. }
  assert (Hm : ∀ l, api_wf (set_mappings l w)).
  { intros l. split; cbn; [lia|]. apply (versioned_mono w.(version)); [lia|done]. }
  destruct o; cbn; repeat case_match; cbn; auto using set_objects_wf.
Qed.

#[global] Instance api_store : LawfulStore api api_wf api_rv.
Proof.
  split.
  - exact api_wf_step.
  - intros c r ns name w o. cbn. destruct (find_object c r ns name w.(objects)) eqn:E; [|done].
    intros [= <-]. by apply find_object_spec in E as [? _].
  - intros c r ns name w o [_ Hw]. cbn. destruct (find_object c r ns name w.(objects)) eqn:E; [|done].
    intros [= <-]. apply find_object_spec in E as (_ & e & He & <-).
    rewrite Forall_forall in Hw. destruct (Hw e He) as (v & -> & ?). apply itoa_rv. lia.
  - done.
  - intros c r ns o w [Hv Hw]. cbn. destruct (find_object c r ns (GetName o) w.(objects)) as [old|] eqn:E.
    + destruct (_ || _) eqn:Ho; cbn; [|left; rewrite E; by eauto].
      right. exists old. rewrite find_put_stamp. eexists. split; [done|]. split.
      { apply orb_true_iff in Ho as [Ho|Ho]; apply String.eqb_eq in Ho; auto. }
      split; [done|]. split; [done|]. rewrite stamp_version. apply find_object_spec in E as (_ & e & He & <-).
      rewrite Forall_forall in Hw. destruct (Hw e He) as (v & -> & ?).
      rewrite (proj1 (itoa_rv v ltac:(lia))), (proj1 (itoa_rv w.(version) ltac:(lia))). lia.
    + left. split; [by eauto|]. cbn. by rewrite E.
Qed.

(** ** A server nobody else writes to

    Lists agree with reads, an update with the stored version succeeds, and a call changes
    only the objects it names; [wf] is what the server keeps invariant. *)

(** The call may change the object [name] of [r] in [ns] of [c].  Commands and copies of
    data may change anything. *)
Definition may_write (c : Cluster) (r : GVR) (ns name : string) (o : KOp) : bool :=
  match o with
  | KCreate c' r' ns' x | KUpdate c' r' ns' x => bool_decide ((c', r', ns', GetName x) = (c, r, ns, name))
  | KDelete c' r' ns' name' | KDeleteForeground c' r' ns' name' => bool_decide ((c', r', ns', name') = (c, r, ns, name))
  | KEvict c' ns' pod => bool_decide ((c', pods, ns', pod) = (c, r, ns, name))
  | KCommand _ _ | KExec _ _ _ _ | KSyncPVC _ => true
  | _ => false
  end.

Class QuietStore {S : Type} (h : handler KSig S) (wf : S → Prop) : Prop := {
  quiet_wf : ∀ o s, wf s → wf (h o s).2;
  quiet_list : ∀ c r ns s, wf s → ns ≠ "" → ∃ items, h (KList c r ns None) s = (Ok items, s) ∧
    NoDup (GetName <$> items) ∧ ∀ o, o ∈ items ↔ (h (KGet c r ns (GetName o)) s).1 = Ok o;
  quiet_update : ∀ c r ns x s old, wf s → (h (KGet c r ns (GetName x)) s).1 = Ok old →
    x.(oMeta).(mResourceVersion) = old.(oMeta).(mResourceVersion) →
    ∃ x', (h (KUpdate c r ns x) s).1 = Ok x' ∧
      (h (KGet c r ns (GetName x)) (h (KUpdate c r ns x) s).2).1 = Ok x' ∧
      SanitizeMetadata x' = SanitizeMetadata x;
  quiet_frame : ∀ o c r ns name s, wf s → may_write c r ns name o = false →
    (h (KGet c r ns name) (h o s).2).1 = (h (KGet c r ns name) s).1
}.

(** A program whose calls do not touch an object leaves it alone. *)
Lemma run_frame {S} (h : handler KSig S) wf `{!QuietStore h wf} {A} (p : KP A) c r ns name s :
  wf s → safe (λ o : Op KSig, may_write c r ns name o = false) p anyr →
  wf (run h p s).2 ∧ (h (KGet c r ns name) (run h p s).2).1 = (h (KGet c r ns name) s).1.
Proof.
  revert s. induction p as [a|w|o k IH]; intros s Hw Hp; cbn; [done..|]. destruct Hp as [Ho Hk].
  pose proof (quiet_wf o s Hw) as Hw'. pose proof (quiet_frame o c r ns name s Hw Ho) as Hf.
  destruct (h o s) as [x s'] eqn:E. cbn [snd] in *.
  destruct (IH x s' Hw' (Hk x)) as [H1 H2]. split; [done|]. exact (eq_trans H2 Hf).
Qed.

(** *** The reference server is quiet *)

Definition ekey (e : entry) : Cluster * GVR * string * string := (e.(eCluster), e.(eGVR), e.(eNs), GetName e.(eObj)).

Definition api_distinct (w : world) : Prop := NoDup (ekey <$> w.(objects)).

Lemma at_key_spec c r ns name e : at_key c r ns name e = true ↔ ekey e = (c, r, ns, name).
Proof.
  unfold at_key, ekey. rewrite !andb_true_iff, !bool_decide_eq_true, !String.eqb_eq.
  split; [by intros [[[-> ->] ->] ->]|by intros [= -> -> -> ->]].
Qed.

Lemma find_object_elem c r ns name l o :
  NoDup (ekey <$> l) → find_object c r ns name l = Some o ↔ GetName o = name ∧ mkEntry c r ns o ∈ l.
Proof.
  induction l as [|e l IH]; cbn; [intros _; split; [done|by intros [_ []%elem_of_nil]]|].
  intros [He Hl]%NoDup_cons. specialize (IH Hl). destruct (at_key c r ns name e) eqn:E.
  - apply at_key_spec in E as Ek. destruct e as [c' r' ns' x]. cbn in Ek. injection Ek as -> -> -> <-. cbn. split.
    + intros [= ->]. split; [done|left].
    + intros [Hn [[= ->]|Ho]%elem_of_cons]; [done|]. destruct He. apply list_elem_of_fmap.
      exists (mkEntry c r ns o). unfold ekey; cbn. by rewrite Hn.
  - rewrite IH. split; intros [Hn Ho]; (split; [done|]); [by right|].
    apply elem_of_cons in Ho as [<-|Ho]; [|done].
    enough (at_key c r ns name (mkEntry c r ns o) = true) by congruence.
    apply at_key_spec. unfold ekey; cbn. by rewrite Hn.
Qed.

Lemma find_put_ne c r ns o l c' r' ns' name :
  (c, r, ns, GetName o) ≠ (c', r', ns', name) →
  find_object c' r' ns' name (put_object c r ns o l) = find_object c' r' ns' name l.
Proof.
  intros Hne. assert (Hk : at_key c' r' ns' name (mkEntry c r ns o) = false).
  { apply not_true_iff_false. by rewrite at_key_spec. }
  induction l as [|e l IH]; cbn; [by rewrite Hk|]. destruct (at_key c r ns (GetName o) e) eqn:E; cbn.
  - rewrite Hk. apply at_key_spec in E. destruct (at_key c' r' ns' name e) eqn:E'; [|done].
    apply at_key_spec in E'. congruence.
  - by rewrite IH.
Qed.

Lemma find_filter_ne c r ns name l c' r' ns' name' :
  (c, r, ns, name) ≠ (c', r', ns', name') →
  find_object c' r' ns' name' (filter (λ e, at_key c r ns name e = false) l) = find_object c' r' ns' name' l.
Proof.
  intros Hne. induction l as [|e l IH]; [done|]. rewrite filter_cons. cbn [find_object].
  destruct (decide (at_key c r ns name e = false)) as [E|E]; cbn [find_object]; [by rewrite IH|].
  apply not_false_iff_true, at_key_spec in E. rewrite IH.
  destruct (at_key c' r' ns' name' e) eqn:E'; [|done]. apply at_key_spec in E'. congruence.
Qed.

Lemma put_object_keys c r ns o l :
  ekey <$> put_object c r ns o l = ekey <$> l ∨
  (ekey <$> put_object c r ns o l = ((ekey <$> l) ++ [(c, r, ns, GetName o)])%list ∧ (c, r, ns, GetName o) ∉ ekey <$> l).
Proof.
  induction l as [|e l IH]; cbn; [right; split; [done|apply not_elem_of_nil]|].
  destruct (at_key c r ns (GetName o) e) eqn:E; cbn.
  - left. apply at_key_spec in E. by rewrite E.
  - destruct IH as [->|[-> Hn]]; [by left|right]. split; [done|]. apply not_elem_of_cons. split; [|done].
    intros Ek. symmetry in Ek. apply at_key_spec in Ek. congruence.
Qed.

Lemma put_object_NoDup c r ns o l : NoDup (ekey <$> l) → NoDup (ekey <$> put_object c r ns o l).
Proof.
  intros Hl. destruct (put_object_keys c r ns o l) as [->|[-> Hn]]; [done|].
  apply NoDup_app. split_and!; [done| |apply NoDup_singleton]. intros k Hk ->%list_elem_of_singleton. done.
Qed.

Lemma filter_NoDup (f : entry → bool) l : NoDup (ekey <$> l) → NoDup (ekey <$> filter (λ e, f e = false) l).
Proof.
  induction l as [|e l IH]; [done|]. rewrite fmap_cons. intros [He Hl]%NoDup_cons. rewrite filter_cons.
  case_decide; [|by apply IH]. cbn. apply NoDup_cons. split; [|by apply IH].
  intros (x & Ex & Hx)%list_elem_of_fmap. apply He, list_elem_of_fmap. exists x. split; [done|].
  by apply list_elem_of_filter in Hx as [_ ?].
Qed.

Lemma api_distinct_step o w : api_distinct w → api_distinct (api o w).2.
Proof.
  unfold api_distinct. intros Hw.
  destruct o; cbn; repeat case_match; cbn; auto using put_object_NoDup, filter_NoDup.
Qed.

Lemma list_NoDup (f : entry → bool) c r ns l :
  NoDup (ekey <$> l) → (∀ e, f e = true → e.(eCluster) = c ∧ e.(eGVR) = r ∧ e.(eNs) = ns) →
  NoDup (GetName <$> (eObj <$> filter (λ e, f e = true) l)).
Proof.
  intros Hl Hf. induction l as [|e l IH]; [apply NoDup_nil_2|]. cbn in Hl. apply NoDup_cons in Hl as [He Hl].
  rewrite filter_cons. case_decide as Ee; [|by apply IH]. cbn. apply NoDup_cons. split; [|by apply IH].
  rewrite <- list_fmap_compose. intros (x & Ex & Hx)%list_elem_of_fmap. apply list_elem_of_filter in Hx as [Efx Hx].
  apply He, list_elem_of_fmap. exists x. split; [|done]. unfold ekey. cbn in Ex. rewrite Ex.
  destruct (Hf e Ee) as (-> & -> & ->), (Hf x Efx) as (-> & -> & ->). done.
Qed.

#[global] Instance api_quiet : QuietStore api api_distinct.
Proof.
  split.
  - exact api_distinct_step.
  - intros c r ns w Hw Hns. eexists. split; [done|].
    assert (Hns' : (ns =s? "") = false) by by apply String.eqb_neq. rewrite Hns'. cbn [orb]. split.
    + apply (list_NoDup _ c r ns); [done|]. intros e. rewrite !andb_true_iff, !bool_decide_eq_true, String.eqb_eq.
      by intros [[-> ->] ->].
    + intros o. cbn. rewrite list_elem_of_fmap. split.
      * intros (e & -> & [He Hl]%list_elem_of_filter). rewrite !andb_true_iff, !bool_decide_eq_true, String.eqb_eq in He.
        destruct He as [[<- <-] <-].
        rewrite (proj2 (find_object_elem _ _ _ _ _ (eObj e) Hw)); [done|]. split; [done|]. by destruct e.
      * destruct (find_object c r ns (GetName o) w.(objects)) eqn:E; [|done]. intros [= ->].
        apply find_object_elem in E as [_ E]; [|done]. exists (mkEntry c r ns o). split; [done|].
        apply list_elem_of_filter. cbn. by rewrite !bool_decide_eq_true_2, String.eqb_refl.
  - intros c r ns x w old _ Hg Hv. cbn in *. destruct (find_object c r ns (GetName x) w.(objects)) as [o|]; [|done].
    injection Hg as ->. rewrite Hv, String.eqb_refl, orb_true_r. cbn. rewrite find_put_stamp. by eauto.
  - intros o c r ns name w _ Hm.
    destruct o; cbn in Hm |- *; try done; try apply bool_decide_eq_false in Hm; repeat case_match; cbn in *; try done.
    all: rewrite ?(find_put_ne _ _ _ (stamp _ _ _)), ?find_filter_ne in * by done; congruence.
Qed.
