(* ===== verification/Syncer.v ===== *)
(** * The resource syncer (pkg/controllers/syncer: sync.go, resource_handlers.go,
    pvc_handler.go, validation/storage.go)

    Copying the resources of a namespace from the source cluster to the
    destination cluster.  A procedure is a program over the calls of [Kube]; a Go
    function returning [error] returns [res unit]. *)

From S2P Require Import Prelude GoString Errors Types Kube KubeLogic.
From Stdlib Require Import Ascii.

(** The clients a ResourceSyncer holds; [None] is a nil interface. *)
Record ResourceSyncer : Type := mkResourceSyncer {
  sourceDynamic : option Cluster;
  destDynamic : option Cluster;
  sourceClient : option Cluster;
  destClient : option Cluster;
  configsSet : bool
}.

Definition new_namespace (name : string) (labels annotations : option (gmap string string)) : Object :=
  mkObject (mkGVK "" "" "")
    (mkObjectMeta name "" "" "" "" None [] [] 0 [] labels annotations) NamespaceBody.

Definition managed_by : string := "dr-syncer.io/managed-by".
Definition source_namespace : string := "dr-syncer.io/source-namespace".

(** ** sync.go: EnsureNamespaceExists *)

Fixpoint ensure_loop (n : nat) (client : Cluster) (dstNamespace srcNamespace : string)
    (lastErr : option error) : KP (res unit) :=
  match n with
  | O => mret (match lastErr with Some e => Err e | None => Ok tt end)
  | S n' =>
      r ← kcall (KGet client namespaces "" dstNamespace);
      match r with
      | Ok _ => mret (Ok tt)
      | Err err =>
          if negb (IsNotFound err) then
            ensure_loop n' client dstNamespace srcNamespace
              (Some (wrapf "failed to get namespace: " err))
          else
            let ns := new_namespace dstNamespace
              (Some (<[source_namespace := srcNamespace]> (<[managed_by := "dr-syncer"]> ∅))) None in
            r ← kcall (KCreate client namespaces "" ns);
            match r with
            | Ok _ => mret (Ok tt)
            | Err err =>
                if negb (IsAlreadyExists err) then
                  ensure_loop n' client dstNamespace srcNamespace
                    (Some (wrapf ("failed to create namespace " +:+ dstNamespace +:+ ": ") err))
                else mret (Ok tt)
            end
      end
  end.

Definition EnsureNamespaceExists (client : option Cluster) (dstNamespace srcNamespace : string)
    : KP (res unit) :=
  deref client (λ c, ensure_loop 3 c dstNamespace srcNamespace None).

(** ** sync.go: verifyClusterAccess *)

(** The calls of one case of the switch: the API group that must be there and the
    resource listed to check permissions. *)
Definition access_check (resourceType : string) : option (option string * GVR) :=
  let rt := ToLower resourceType in
  if (rt =s? "configmaps") || (rt =s? "configmap") then Some (None, configmaps)
  else if (rt =s? "secrets") || (rt =s? "secret") then Some (None, secrets)
  else if (rt =s? "deployments") || (rt =s? "deployment") then Some (Some "apps", deployments)
  else if (rt =s? "services") || (rt =s? "service") then Some (None, services)
  else if (rt =s? "ingresses") || (rt =s? "ingress") then Some (Some "networking.k8s.io", ingresses)
  else if (rt =s? "persistentvolumeclaims") || (rt =s? "persistentvolumeclaim") || (rt =s? "pvc")
    then Some (None, persistentvolumeclaims)
  else if (rt =s? "customresourcedefinitions") || (rt =s? "customresourcedefinition")
          || (rt =s? "crd") || (rt =s? "crds") then Some (Some "apiextensions.k8s.io", crds)
  else None.

Definition check_access (c : Cluster) (available : list string) (resourceType : string)
    : KP (res unit) :=
  match access_check resourceType with
  | None => mret (Ok tt)
  | Some (group, gvr) =>
      let missing := match group with Some g => negb (bool_decide (g ∈ available)) | None => false end in
      if missing then errorf (default "" group +:+ " API group not available in cluster")
      else
        r ← kcall (KList c gvr "" None);
        match r with
        | Ok _ => mret (Ok tt)
        | Err err =>
            if IsNotFound err
            then errorf ("resource type " +:+ resourceType +:+ " not found in cluster")
            else mret (Err (wrapf ("failed to verify " +:+ resourceType +:+ " access: ") err))
        end
  end.

Definition verifyClusterAccess (client dynamicClient : option Cluster) (resourceTypes : list string)
    : KP (res unit) :=
  match client, dynamicClient with
  | None, _ => errorf "kubernetes client is nil"
  | Some _, None => errorf "dynamic client is nil"
  | Some c, Some _ =>
      groups ←? kcall (KServerGroups c) onerr wrapf "failed to get API groups: ";
      let available := gName <$> groups in
      range_err resourceTypes tt (λ rt _, check_access c available rt)
  end.

(** ** validation/storage.go *)

Definition ValidateStorageClass (client : option Cluster) (storageClassName : option string)
    : KP (res unit) :=
  match storageClassName with
  | None => mret (Ok tt)
  | Some sc =>
      if sc =s? "" then mret (Ok tt)
      else deref client (λ c,
        r ← kcall (KGet c storageclasses "" sc);
        match r with
        | Ok _ => mret (Ok tt)
        | Err err =>
            mret (Err (NewWaitForNextSyncError (wrapf "storage class validation failed: " err)
              ("StorageClass/" +:+ sc)))
        end)
  end.

(** ** sync.go: SyncResource *)

Definition gvk_empty (g : GVK) : bool :=
  (g.(kGroup) =s? "") && (g.(kVersion) =s? "") && (g.(kKind) =s? "").

(** A typed [*corev1.PersistentVolumeClaim]: the typed clients leave the GVK empty. *)
Definition typed_pvc (o : Object) : option PVCSpec :=
  match o.(oBody) with
  | PVCBody s _ => if gvk_empty o.(oGVK) then Some s else None
  | _ => None
  end.

(** The GVK of the object, or of its Go type when that is empty. *)
Definition object_gvk (o : Object) : option GVK :=
  if gvk_empty o.(oGVK) then
    match o.(oBody) with
    | ConfigMapBody _ => Some (mkGVK "" "v1" "ConfigMap")
    | SecretBody _ => Some (mkGVK "" "v1" "Secret")
    | ServiceBody _ _ => Some (mkGVK "" "v1" "Service")
    | DeploymentBody _ _ => Some (mkGVK "apps" "v1" "Deployment")
    | IngressBody _ _ => Some (mkGVK "networking.k8s.io" "v1" "Ingress")
    | PVCBody _ _ => Some (mkGVK "" "v1" "PersistentVolumeClaim")
    | _ => None
    end
  else Some o.(oGVK).

Definition is_deployment (o : Object) : bool :=
  match o.(oBody) with DeploymentBody _ _ => true | _ => false end.

(** The GroupVersionResource for a kind: a table, else the lower-case kind with an s. *)
Definition gvr_of (g : GVK) : GVR :=
  if g.(kKind) =s? "ConfigMap" then configmaps
  else if g.(kKind) =s? "Secret" then secrets
  else if g.(kKind) =s? "Deployment" then deployments
  else if g.(kKind) =s? "Service" then services
  else if g.(kKind) =s? "Ingress" then ingresses
  else if g.(kKind) =s? "CustomResourceDefinition" then crds
  else if g.(kKind) =s? "PersistentVolumeClaim" then persistentvolumeclaims
  else mkGVR g.(kGroup) g.(kVersion) (ToLower g.(kKind) +:+ "s").

Definition binding_annotations : list string :=
  ["pv.kubernetes.io/bind-completed"; "pv.kubernetes.io/bound-by-controller";
   "volume.kubernetes.io/selected-node"].

(** [if a == nil { a = make }; delete(a, ...)] for the binding annotations *)
Definition drop_binding (a : option (gmap string string)) : option (gmap string string) :=
  Some (foldl (λ m k, delete k m) (or_make a) binding_annotations).

(** Copy the requests and limits ([Spec.Resources]) of [s] into [into]. *)
Definition with_resources (s into : PVCSpec) : PVCSpec :=
  set_pvcLimits s.(pvcLimits) (set_pvcRequests s.(pvcRequests) into).

(** The PVC branch of SyncResource. *)
Definition SyncResource_pvc (r : ResourceSyncer) (pvc : Object) (spec : PVCSpec) : KP (res unit) :=
  let rname := "PersistentVolumeClaim/" +:+ GetName pvc in
  let ns := GetNamespace pvc in
  _ ←? ValidateStorageClass r.(destClient) spec.(pvcStorageClassName)
    onerr (λ err, NewNonRetryableError err rname);
  deref r.(destClient) (λ c,
    g ← kcall (KGet c persistentvolumeclaims ns (GetName pvc));
    match g with
    | Ok existingPVC =>
        let updatePVC :=
          match existingPVC.(oBody) with
          | PVCBody s st => set_oBody (PVCBody (with_resources spec s) st) existingPVC
          | _ => existingPVC
          end in
        u ← kcall (KUpdate c persistentvolumeclaims ns updatePVC);
        match u with
        | Ok _ => mret (Ok tt)
        | Err err =>
            mret (Err (NewRetryableError
              (wrapf ("failed to update PVC " +:+ GetName pvc +:+ ": ") err) rname))
        end
    | Err err =>
        if negb (IsNotFound err) then
          mret (Err (NewRetryableError
            (wrapf ("failed to get PVC " +:+ GetName pvc +:+ ": ") err) rname))
        else
          let m := set_mResourceVersion ""
            (set_mAnnotations (drop_binding pvc.(oMeta).(mAnnotations)) pvc.(oMeta)) in
          let status := match pvc.(oBody) with PVCBody _ st => st | _ => "" end in
          let new := mkObject pvc.(oGVK) m (PVCBody (set_pvcVolumeName "" spec) status) in
          u ← kcall (KCreate c persistentvolumeclaims ns new);
          match u with
          | Ok _ => mret (Ok tt)
          | Err err =>
              mret (Err (NewRetryableError
                (wrapf ("failed to create PVC " +:+ GetName pvc +:+ ": ") err) rname))
          end
    end).

(** The update of an unstructured PersistentVolumeClaim: only resources.requests. *)
Definition update_requests (c : Cluster) (gvr : GVR) (u existing : Object) (requests : gmap string Z)
    : KP (res unit) :=
  let rname := "PersistentVolumeClaim/" +:+ GetName u in
  match existing.(oBody) with
  | PVCBody s st =>
      let updateObj := set_oBody (PVCBody (set_pvcRequests (Some requests) s) st) existing in
      w ← kcall (KUpdate c gvr (GetNamespace u) updateObj);
      match w with
      | Ok _ => mret (Ok tt)
      | Err err =>
          mret (Err (NewRetryableError
            (wrapf ("failed to update PVC " +:+ GetName u +:+ ": ") err) rname))
      end
  | _ =>
      mret (Err (NewRetryableError
        (PlainError ("failed to set resources.requests for PVC " +:+ GetName u)) rname))
  end.

(** The final Update of SyncResource. *)
Definition update_whole (c : Cluster) (gvr : GVR) (kind : string) (u : Object) : KP (res unit) :=
  let rname := kind +:+ "/" +:+ GetName u in
  w ← kcall (KUpdate c gvr (GetNamespace u) u);
  match w with
  | Ok _ => mret (Ok tt)
  | Err err =>
      if IsNotFound err then
        mret (Err (NewNonRetryableError
          (PlainError ("resource type " +:+ kind +:+ " not found in destination cluster")) rname))
      else mret (Err (NewRetryableError (wrapf "failed to update resource: " err) rname))
  end.

Definition SyncResource (r : ResourceSyncer) (obj : Object) : KP (res unit) :=
  match typed_pvc obj with
  | Some spec => SyncResource_pvc r obj spec
  | None =>
      match object_gvk obj with
      | None => mret (Err (NewNonRetryableError (PlainError "unknown object type") "TypeConversion"))
      | Some gvk =>
          let ugvk := if is_deployment obj && negb (gvk.(kGroup) =s? "apps")
                      then mkGVK "apps" "v1" "Deployment" else gvk in
          let u := set_oGVK ugvk obj in
          let gvr := gvr_of gvk in
          let rname := gvk.(kKind) +:+ "/" +:+ GetName u in
          deref r.(destDynamic) (λ c,
            g ← kcall (KGet c gvr (GetNamespace u) (GetName u));
            match g with
            | Err err =>
                if negb (IsNotFound err) then
                  mret (Err (NewRetryableError (wrapf "failed to get current resource: " err) rname))
                else
                  w ← kcall (KCreate c gvr (GetNamespace u) (SanitizeMetadata u));
                  match w with
                  | Ok _ => mret (Ok tt)
                  | Err err =>
                      if IsNotFound err then
                        mret (Err (NewNonRetryableError
                          (PlainError ("resource type " +:+ gvk.(kKind) +:+ " not found in destination cluster"))
                          rname))
                      else mret (Err (NewRetryableError (wrapf "failed to create resource: " err) rname))
                  end
            | Ok existing =>
                if negb (bool_decide (SanitizeMetadata existing = SanitizeMetadata u)) then
                  let u := on_meta (λ m, set_mResourceVersion existing.(oMeta).(mResourceVersion)
                                           (set_mUID existing.(oMeta).(mUID) m)) u in
                  match gvk.(kKind) =s? "PersistentVolumeClaim", u.(oBody) with
                  | true, PVCBody s _ =>
                      match s.(pvcRequests) with
                      | Some requests => update_requests c gvr u existing requests
                      | None => update_whole c gvr gvk.(kKind) u
                      end
                  | _, _ => update_whole c gvr gvk.(kKind) u
                  end
                else mret (Ok tt)
            end)
      end
  end.

(** ** resource_handlers.go: the handlers of the simple kinds *)

(** The error of SyncResource as a handler reports it. *)
Definition sync_failure (kind name : string) (err : error) : error :=
  recategorize err ("failed to sync " +:+ kind +:+ " " +:+ name +:+ ": ") (kind +:+ "/" +:+ name).

(** The shape of syncConfigMaps, syncSecrets, syncServices and syncIngresses: list
    the source namespace, skip what is to be skipped, move the rest to the
    destination namespace, sync each. *)
Definition list_and_sync (r : ResourceSyncer) (client : option Cluster) (gvr : GVR)
    (plural kind : string) (skip : Object → bool) (prepare : Object → Object)
    (srcNamespace dstNamespace : string) : KP (res unit) :=
  deref client (λ c,
    items ←? kcall (KList c gvr srcNamespace None)
      onerr (λ err, NewRetryableError (wrapf ("failed to list " +:+ plural +:+ ": ") err) plural);
    range_err items tt (λ o _,
      if skip o then mret (Ok tt)
      else
        let o := prepare (on_meta (set_mNamespace dstNamespace) o) in
        s ← SyncResource r o;
        match s with
        | Ok _ => mret (Ok tt)
        | Err err => mret (Err (sync_failure kind (GetName o) err))
        end)).

Definition syncConfigMaps (r : ResourceSyncer) (client : option Cluster) (src dst : string) : KP (res unit) :=
  list_and_sync r client configmaps "ConfigMaps" "ConfigMap"
    (λ o, (GetName o =s? "kube-root-ca.crt") || ShouldIgnoreResource o) id src dst.

Definition syncSecrets (r : ResourceSyncer) (client : option Cluster) (src dst : string) : KP (res unit) :=
  list_and_sync r client secrets "Secrets" "Secret" ShouldIgnoreResource id src dst.

(** [svc.Spec.ClusterIP = ""; svc.Spec.ClusterIPs = nil] *)
Definition clear_cluster_ip (o : Object) : Object :=
  match o.(oBody) with
  | ServiceBody s st => set_oBody (ServiceBody (set_svcClusterIPs [] (set_svcClusterIP "" s)) st) o
  | _ => o
  end.

Definition syncServices (r : ResourceSyncer) (client : option Cluster) (src dst : string) : KP (res unit) :=
  list_and_sync r client services "Services" "Service" ShouldIgnoreResource clear_cluster_ip src dst.

Definition syncIngresses (r : ResourceSyncer) (client : option Cluster) (src dst : string) : KP (res unit) :=
  list_and_sync r client ingresses "Ingresses" "Ingress" ShouldIgnoreResource id src dst.

(** ** resource_handlers.go: syncDeployments *)

(** syncer.DeploymentScale *)
Record SyncerScale : Type := mkSyncerScale { scName : string; scReplicas : Z; scSyncTime : Time }.

Definition original_replicas_key : string := "dr-syncer.io/original-replicas".

Definition deployment_spec (o : Object) : option (DeploymentSpec * Payload) :=
  match o.(oBody) with DeploymentBody s st => Some (s, st) | _ => None end.

(** The replicas to run in the destination: the override label when it parses, the
    source's own when it does not, zero when scaling to zero. *)
Definition dest_replicas (o : Object) (s : DeploymentSpec) (scaleToZero : bool) : option Z :=
  match get_key o.(oMeta).(mLabels) ScaleOverrideLabel with
  | Some override =>
      match ParseInt32 override with Some n => Some n | None => s.(dReplicas) end
  | None => if scaleToZero then Some 0 else s.(dReplicas)
  end.

(** The deployment as it is sent to the destination. *)
Definition prepare_deployment (src dst : string) (scaleToZero : bool) (o : Object)
    (s : DeploymentSpec) (st : Payload) : Object :=
  let originalReplicas := default 0 s.(dReplicas) in
  let annotations :=
    <[source_namespace := src]>
      (<[original_replicas_key := itoa originalReplicas]> (or_make o.(oMeta).(mAnnotations))) in
  mkObject o.(oGVK) (set_mNamespace dst (set_mAnnotations (Some annotations) o.(oMeta)))
    (DeploymentBody (set_dReplicas (dest_replicas o s scaleToZero) s) st).

Definition sync_one_deployment (r : ResourceSyncer) (src dst : string) (scaleToZero : bool)
    (o : Object) (scales : list SyncerScale) : KP (res (list SyncerScale)) :=
  if ShouldIgnoreResource o then mret (Ok scales)
  else
    match deployment_spec o with
    | None => mret (Ok scales)
    | Some (s, st) =>
        now ← kcall KNow;
        let scales := (scales ++ [mkSyncerScale (GetName o) (default 0 s.(dReplicas)) now])%list in
        let d := prepare_deployment src dst scaleToZero o s st in
        match dest_replicas o s scaleToZero with
        | None => panic "invalid memory address or nil pointer dereference"
        | Some _ =>
            w ← SyncResource r d;
            match w with
            | Ok _ => mret (Ok scales)
            | Err err => mret (Err (sync_failure "Deployment" (GetName o) err))
            end
        end
    end.

Definition syncDeployments (r : ResourceSyncer) (client : option Cluster) (src dst : string)
    (scaleToZero : bool) : KP (res (list SyncerScale)) :=
  deref client (λ c,
    items ←? kcall (KList c deployments src None)
      onerr (λ err, NewRetryableError (wrapf "failed to list Deployments: " err) "Deployments");
    range_err items [] (sync_one_deployment r src dst scaleToZero)).

(** ** pvc_handler.go: syncPersistentVolumeClaimsWithMounting *)

(** The first mapping whose From is the class of the claim. *)
Fixpoint map_storage_class (mappings : list StorageClassMapping) (sc : option string) : option string :=
  match mappings with
  | [] => sc
  | m :: rest =>
      match sc with
      | Some c => if c =s? m.(SCFrom) then Some m.(SCTo) else map_storage_class rest sc
      | None => None
      end
  end.

Definition storage_class_label : string := "dr-syncer.io/storage-class".

Definition apply_storage_class (cfg : option PVCConfig) (o : Object) (s : PVCSpec) : PVCSpec :=
  match cfg with
  | Some cfg =>
      if (length cfg.(StorageClassMappings) =? 0)%nat then s
      else
        match get_key o.(oMeta).(mLabels) storage_class_label with
        | Some override => set_pvcStorageClassName (Some override) s
        | None =>
            set_pvcStorageClassName
              (map_storage_class cfg.(StorageClassMappings) s.(pvcStorageClassName)) s
        end
  | None => s
  end.

(** Each mapping is applied in turn to every mode of the claim. *)
Definition map_access_modes (mappings : list AccessModeMapping) (modes : list string) : list string :=
  foldl (λ ms m, (λ mode, if mode =s? m.(AMFrom) then m.(AMTo) else mode) <$> ms) modes mappings.

Definition apply_access_modes (cfg : option PVCConfig) (s : PVCSpec) : PVCSpec :=
  match cfg with
  | Some cfg => set_pvcAccessModes (map_access_modes cfg.(AccessModeMappings) s.(pvcAccessModes)) s
  | None => s
  end.

Definition sync_pv (cfg : option PVCConfig) : bool :=
  match cfg with Some cfg => cfg.(SyncPersistentVolumes) | None => false end.

(** The spec of a claim that is created in the destination. *)
Definition new_pvc_spec (cfg : option PVCConfig) (s : PVCSpec) : PVCSpec :=
  let s := if negb (sync_pv cfg) then set_pvcVolumeName "" s else s in
  let preserve := match cfg with Some cfg => cfg.(PreserveVolumeAttributes) | None => false end in
  if negb preserve && negb (sync_pv cfg) then
    set_pvcDataSourceRef None (set_pvcDataSource None (set_pvcSelector None (set_pvcVolumeMode None s)))
  else s.

Definition sync_one_pvc (target : option Cluster) (dst : string) (cfg : option PVCConfig)
    (pvc : Object) (synced : list Object) : KP (res (list Object)) :=
  match ShouldIgnoreResource pvc, pvc.(oBody) with
  | false, PVCBody spec st =>
      let spec := apply_access_modes cfg (apply_storage_class cfg pvc spec) in
      let destPVC := on_meta (set_mNamespace dst) (set_oBody (PVCBody spec st) pvc) in
      let rname := "PersistentVolumeClaim/" +:+ GetName destPVC in
      deref target (λ target,
      g ← kcall (KGet target persistentvolumeclaims dst (GetName destPVC));
      match g with
      | Err _ =>
          let m := set_mResourceVersion ""
            (set_mAnnotations (drop_binding destPVC.(oMeta).(mAnnotations)) destPVC.(oMeta)) in
          let new := mkObject destPVC.(oGVK) m (PVCBody (new_pvc_spec cfg spec) st) in
          createdPVC ←? kcall (KCreate target persistentvolumeclaims dst new)
            onerr (λ err, NewRetryableError
              (wrapf ("failed to create PVC " +:+ GetName destPVC +:+ ": ") err) rname);
          mret (Ok (synced ++ [createdPVC])%list)
      | Ok existingPVC =>
          let updatePVC :=
            match existingPVC.(oBody) with
            | PVCBody s est => set_oBody (PVCBody (with_resources spec s) est) existingPVC
            | _ => existingPVC
            end in
          updatedPVC ←? kcall (KUpdate target persistentvolumeclaims dst updatePVC)
            onerr (λ err, NewRetryableError
              (wrapf ("failed to update PVC " +:+ GetName destPVC +:+ ": ") err) rname);
          mret (Ok (synced ++ [updatedPVC])%list)
      end)
  | _, _ => mret (Ok synced)
  end.

(** The data of one claim; every failure is logged and the next claim is tried.
    [gcm] says whether the global concurrency manager has been created. *)
Definition sync_pvc_data (gcm : bool) (source : Cluster) (src dst : string) (destPVC : Object) : KP unit :=
  s ← kcall (KGet source persistentvolumeclaims src (GetName destPVC));
  match s with
  | Err _ => mret tt
  | Ok sourcePVC =>
      sn ← kcall (KFindPVCNode Src src (GetName sourcePVC));
      match sn with
      | Err _ => mret tt
      | Ok sourceNode =>
          dn ← kcall (KFindPVCNode Dst dst (GetName destPVC));
          let destNode := match dn with Ok n => n | Err _ => "" end in
          let opts := mkPVCSyncOptions sourcePVC destPVC src dst sourceNode destNode in
          if gcm then
            a ← kcall (KAcquireSlot src (GetName sourcePVC));
            match a with
            | Err _ => mret tt
            | Ok _ => _ ← kcall (KSyncPVC opts); kcall (KReleaseSlot src (GetName sourcePVC))
            end
          else _ ← kcall (KSyncPVC opts); mret tt
      end
  end.

(** getPVCSyncer: it logs the hosts of the REST configs, which panics when they
    are nil. *)
Definition getPVCSyncer (r : ResourceSyncer) : KP (res unit) :=
  _ ←? kcall KNewPVCSyncer onerr id;
  if r.(configsSet) then mret (Ok tt)
  else panic "invalid memory address or nil pointer dereference".

Definition syncPersistentVolumeClaimsWithMounting (gcm : bool) (r : ResourceSyncer)
    (source target : option Cluster) (src dst : string) (cfg : option PVCConfig) : KP (res unit) :=
  deref source (λ cs,
    pvcs ←? kcall (KList cs persistentvolumeclaims src None)
      onerr (λ err, NewRetryableError (wrapf "failed to list PVCs: " err) "PersistentVolumeClaims");
      syncedPVCs ←? range_err pvcs [] (sync_one_pvc target dst cfg) onerr id;
      let sync_data := match cfg with Some c => c.(SyncData) | None => false end in
      if sync_data && negb (length syncedPVCs =? 0)%nat then
        _ ←? getPVCSyncer r
          onerr (λ err, NewRetryableError (wrapf "failed to create PVC syncer: " err) "PVCDataSync");
        _ ← range_each syncedPVCs tt (λ p _, sync_pvc_data gcm cs src dst p);
        mret (Ok tt)
      else mret (Ok tt)).

(** ** resource_handlers.go: syncPersistentVolumeClaims *)

(** The older handler, which nothing calls any more.  It validates the storage class before the
    claim is created or updated. *)
Definition sync_valid_pvc (target : option Cluster) (dst : string) (cfg : option PVCConfig)
    (pvc : Object) (synced : list Object) : KP (res (list Object)) :=
  match ShouldIgnoreResource pvc, pvc.(oBody) with
  | false, PVCBody spec _ =>
      _ ←? ValidateStorageClass target (apply_access_modes cfg (apply_storage_class cfg pvc spec)).(pvcStorageClassName)
        onerr (λ err, NewNonRetryableError (wrapf ("failed to sync PVC " +:+ GetName pvc +:+ ": ") err)
                        ("PersistentVolumeClaim/" +:+ GetName pvc));
      sync_one_pvc target dst cfg pvc synced
  | _, _ => mret (Ok synced)
  end.

(** Both lookups of a node go to the source cluster: the context names none. *)
Definition sync_attached_data (source : Cluster) (src dst : string) (pvc : Object) : KP unit :=
  s ← kcall (KGet source persistentvolumeclaims src (GetName pvc));
  match s with
  | Err _ => mret tt
  | Ok sourcePVC =>
      sn ← kcall (KFindPVCNode Src src (GetName sourcePVC));
      match sn with
      | Err _ => mret tt
      | Ok sourceNode =>
          dn ← kcall (KFindPVCNode Src dst (GetName pvc));
          match dn with
          | Err _ => mret tt
          | Ok destNode =>
              a ← kcall (KHasVolumeAttachments src (GetName sourcePVC));
              match a with
              | Ok true => _ ← kcall (KSyncPVC (mkPVCSyncOptions sourcePVC pvc src dst sourceNode destNode)); mret tt
              | _ => mret tt
              end
          end
      end
  end.

(** [pvcConfig.SyncData = true], in the object handed in. *)
Definition force_data (c : PVCConfig) : PVCConfig :=
  mkPVCConfig c.(StorageClassMappings) c.(AccessModeMappings) c.(PreserveVolumeAttributes) c.(SyncPersistentVolumes) true
    c.(DataSyncConfig).

(** The configuration as the call leaves it: data sync is switched on for good once a claim was
    synced. *)
Definition syncPersistentVolumeClaims (r : ResourceSyncer) (source : option Cluster) (src dst : string) (cfg : option PVCConfig)
    : KP (res unit * option PVCConfig) :=
  deref source (λ cs,
    l ← kcall (KList cs persistentvolumeclaims src None);
    match l with
    | Err err => mret (Err (NewRetryableError (wrapf "failed to list PVCs: " err) "PersistentVolumeClaims"), cfg)
    | Ok pvcs =>
        s ← range_err pvcs [] (sync_valid_pvc r.(destClient) dst cfg);
        match s with
        | Err e => mret (Err e, cfg)
        | Ok syncedPVCs =>
            match cfg, syncedPVCs with
            | Some c, _ :: _ =>
                p ← getPVCSyncer r;
                match p with
                | Err err =>
                    mret (Err (NewRetryableError (wrapf "failed to create PVC syncer: " err) "PVCDataSync"), Some (force_data c))
                | Ok _ =>
                    _ ← range_each syncedPVCs tt (λ pvc _, sync_attached_data cs src dst pvc);
                    mret (Ok tt, Some (force_data c))
                end
            | _, _ => mret (Ok tt, cfg)
            end
        end
    end).

(** ** sync.go: SyncNamespaceResources *)

Definition syncCustomResourceDefinitions (r : ResourceSyncer) (sourceDynamic : option Cluster)
    : KP (res unit) :=
  deref sourceDynamic (λ c,
    items ←? kcall (KList c crds "" None) onerr wrapf "failed to list CRDs: ";
    range_err items tt (λ crd _,
      if ShouldIgnoreResource crd then mret (Ok tt)
      else
        s ← SyncResource r crd;
        match s with
        | Ok _ => mret (Ok tt)
        | Err err => mret (Err (wrapf ("failed to sync CRD " +:+ GetName crd +:+ ": ") err))
        end)).

Definition builtInResources : list string :=
  ["configmaps"; "configmap"; "secrets"; "secret"; "deployments"; "deployment";
   "services"; "service"; "ingresses"; "ingress"; "pods"; "pod"; "events"; "event";
   "endpoints"; "endpoint"; "persistentvolumeclaims"; "persistentvolumeclaim"; "pvc";
   "persistentvolumes"; "persistentvolume"; "pv"; "customresourcedefinitions";
   "customresourcedefinition"; "crd"; "crds"].

Definition isBuiltInResource (name : string) : bool :=
  bool_decide (ToLower name ∈ builtInResources).

(** One object of a namespace-scoped resource; failures are logged. *)
Definition sync_scoped_item (r : ResourceSyncer) (gvr : GVR) (dst : string) (item : Object) : KP unit :=
  if ShouldIgnoreResource item then mret tt
  else
    let item := SanitizeMetadata (on_meta (set_mNamespace dst) item) in
    deref r.(destDynamic) (λ c,
      g ← kcall (KGet c gvr dst (GetName item));
      match g with
      | Err err =>
          if IsNotFound err then _ ← kcall (KCreate c gvr dst item); mret tt else mret tt
      | Ok existing =>
          if negb (bool_decide (item = existing)) then
            let item := on_meta (λ m, set_mResourceVersion existing.(oMeta).(mResourceVersion)
                                        (set_mUID existing.(oMeta).(mUID) m)) item in
            _ ← kcall (KUpdate c gvr dst item); mret tt
          else mret tt
      end).

Definition syncNamespaceScopedResource (r : ResourceSyncer) (sourceClient : option Cluster)
    (src dst resource group : string) : KP (res unit) :=
  let rname := "Resource/" +:+ resource +:+ "." +:+ group in
  deref sourceClient (λ cs,
    resources ←? kcall (KServerResources cs (group +:+ "/v1"))
      onerr (λ err, NewRetryableError
        (PlainError ("failed to get resources for group " +:+ group +:+ ": " +:+ Error err)) rname);
    if negb (existsb (λ ar, (ar.(arName) =s? resource) && ar.(arNamespaced)) resources) then
      mret (Err (NewNonRetryableError
        (PlainError ("resource " +:+ resource +:+ " not found in group " +:+ group +:+ " or not namespaced"))
        rname))
    else
      let gvr := mkGVR group "v1" resource in
      deref r.(sourceDynamic) (λ c,
        sourceList ←? kcall (KList c gvr src None)
          onerr (λ err, NewRetryableError
            (PlainError ("failed to list " +:+ resource +:+ " in source namespace: " +:+ Error err)) rname);
        items ←? kcall (KConvertList sourceList)
          onerr (λ err, NewNonRetryableError
            (PlainError ("failed to convert source list: " +:+ Error err)) rname);
        _ ← range_each items tt (λ item _, sync_scoped_item r gvr dst item);
        mret (Ok tt))).

(** The loop that makes sure the destination namespace exists; [lastErr] survives a
    later success, as in the code. *)
Fixpoint dest_namespace_loop (n : nat) (c : Cluster) (src dst : string)
    (labels annotations : option (gmap string string)) (lastErr : option error) : KP (option error) :=
  match n with
  | O => mret lastErr
  | S n' =>
      g ← kcall (KGet c namespaces "" dst);
      match g with
      | Ok _ => mret lastErr
      | Err err =>
          if negb (IsNotFound err) then
            dest_namespace_loop n' c src dst labels annotations
              (Some (wrapf "failed to get destination namespace: " err))
          else
            let labels' := <[managed_by := "dr-syncer"]> (<[source_namespace := src]> (or_make labels)) in
            w ← kcall (KCreate c namespaces "" (new_namespace dst (Some labels') annotations));
            match w with
            | Ok _ => mret lastErr
            | Err err =>
                if negb (IsAlreadyExists err) then
                  dest_namespace_loop n' c src dst (Some labels') annotations
                    (Some (wrapf "failed to create destination namespace: " err))
                else mret lastErr
            end
      end
  end.

(** The source namespace is created when it is missing. *)
Definition source_namespace_object (client : Cluster) (src : string) : KP (res Object) :=
  g ← kcall (KGet client namespaces "" src);
  match g with
  | Ok ns => mret (Ok ns)
  | Err err =>
      if IsNotFound err then
        ns ←? kcall (KCreate client namespaces ""
                       (new_namespace src (Some (<[managed_by := "dr-syncer"]> ∅)) None))
          onerr wrapf "failed to create source namespace: ";
        mret (Ok ns)
      else mret (Err (wrapf "failed to get source namespace: " err))
  end.

(** The switch on one resource type. *)
Definition sync_resource_type (gcm : bool) (r : ResourceSyncer) (src dst : string) (scaleToZero : bool)
    (cfg : option PVCConfig) (resourceType : string) (scales : list SyncerScale)
    : KP (res (list SyncerScale)) :=
  let rt := ToLower resourceType in
  if (rt =s? "configmaps") || (rt =s? "configmap") then
    _ ←? syncConfigMaps r r.(sourceClient) src dst onerr wrapf "failed to sync ConfigMaps: ";
    mret (Ok scales)
  else if (rt =s? "secrets") || (rt =s? "secret") then
    _ ←? syncSecrets r r.(sourceClient) src dst onerr wrapf "failed to sync Secrets: ";
    mret (Ok scales)
  else if (rt =s? "deployments") || (rt =s? "deployment") then
    new ←? syncDeployments r r.(sourceClient) src dst scaleToZero
      onerr wrapf "failed to sync Deployments: ";
    mret (Ok (scales ++ new)%list)
  else if (rt =s? "services") || (rt =s? "service") then
    _ ←? syncServices r r.(sourceClient) src dst onerr wrapf "failed to sync Services: ";
    mret (Ok scales)
  else if (rt =s? "ingresses") || (rt =s? "ingress") then
    _ ←? syncIngresses r r.(sourceClient) src dst onerr wrapf "failed to sync Ingresses: ";
    mret (Ok scales)
  else if (rt =s? "persistentvolumeclaims") || (rt =s? "persistentvolumeclaim") || (rt =s? "pvc") then
    _ ←? syncPersistentVolumeClaimsWithMounting gcm r r.(sourceClient) r.(destClient) src dst cfg
      onerr wrapf "failed to sync PVCs: ";
    mret (Ok scales)
  else mret (Ok scales).

(** The namespace-scoped resources: all of them, or those named resource.group. *)
Definition sync_scoped (r : ResourceSyncer) (src dst : string) (scoped : list string) : KP unit :=
  if bool_decide (scoped = ["*"]) then
    deref r.(sourceClient) (λ cs,
      g ← kcall (KServerGroups cs);
      match g with
      | Err _ => mret tt
      | Ok groups =>
          range_each groups tt (λ group _,
            range_each group.(gVersions) tt (λ groupVersion _,
              rs ← kcall (KServerResources cs groupVersion);
              match rs with
              | Err _ => mret tt
              | Ok resources =>
                  range_each resources tt (λ ar _,
                    if ar.(arNamespaced) && negb (isBuiltInResource ar.(arName)) then
                      _ ← syncNamespaceScopedResource r r.(sourceClient) src dst ar.(arName) group.(gName);
                      mret tt
                    else mret tt)
              end))
      end)
  else
    range_each scoped tt (λ resourceRef _,
      match Split resourceRef "."%char with
      | resource :: (p :: ps) =>
          _ ← syncNamespaceScopedResource r r.(sourceClient) src dst resource (Join (p :: ps) ".");
          mret tt
      | _ => mret tt
      end).

Definition defaultTypes : list string :=
  ["configmaps"; "secrets"; "deployments"; "services"; "ingresses"; "persistentvolumeclaims"].

Definition SyncNamespaceResources (gcm : bool) (r : ResourceSyncer) (src dst : string)
    (resourceTypes : list string) (scaleToZero : bool) (scoped : list string)
    (cfg : option PVCConfig) (syncCRDs : option bool) : KP (res (list SyncerScale)) :=
  _ ←? (if default false syncCRDs then syncCustomResourceDefinitions r r.(sourceDynamic)
        else mret (Ok tt)) onerr wrapf "failed to sync CRDs: ";
  let resourceTypes := if (length resourceTypes =? 0)%nat then defaultTypes else resourceTypes in
  _ ←? verifyClusterAccess r.(sourceClient) r.(sourceDynamic) resourceTypes
    onerr wrapf "source cluster verification failed: ";
  _ ←? verifyClusterAccess r.(destClient) r.(destDynamic) resourceTypes
    onerr wrapf "destination cluster verification failed: ";
  _ ←? EnsureNamespaceExists r.(destClient) dst src
    onerr wrapf "failed to ensure destination namespace exists: ";
  deref r.(sourceClient) (λ cs,
    sourceNS ←? source_namespace_object cs src onerr id;
    deref r.(destClient) (λ cd,
      lastErr ← dest_namespace_loop 3 cd src dst sourceNS.(oMeta).(mLabels)
                  sourceNS.(oMeta).(mAnnotations) None;
      match lastErr with
      | Some e => mret (Err e)
      | None =>
          deploymentScales ←? range_err resourceTypes []
            (sync_resource_type gcm r src dst scaleToZero cfg) onerr id;
          _ ← sync_scoped r src dst scoped;
          mret (Ok deploymentScales)
      end)).
