(* ===== verification/SyncerProps.v ===== *)
(** * Properties of the resource syncer

    Which objects a sync writes and with what content, for every answer of the API
    servers; that a second sync of an unchanged object writes nothing; and what the
    replicas and errors of a sync are. *)

From S2P Require Import Prelude GoString Errors Types Kube KubeLogic ApiServer Syncer.

(** ** Where a sync writes *)

(** The clients of a syncer talk to the clusters their names say. *)
Record wired (r : ResourceSyncer) : Prop := mk_wired {
  wired_sd : r.(sourceDynamic) = Some Src ∨ r.(sourceDynamic) = None;
  wired_dd : r.(destDynamic) = Some Dst ∨ r.(destDynamic) = None;
  wired_sc : r.(sourceClient) = Some Src ∨ r.(sourceClient) = None;
  wired_dc : r.(destClient) = Some Dst ∨ r.(destClient) = None
}.

(** The calls a sync from namespace [src] to namespace [dst] may make: it reads; it
    creates the two namespaces; it creates and updates objects of [dst] in the
    destination cluster.  It deletes nothing and never updates the source. *)
Definition confined (src dst : string) : Op KSig → Prop := λ o : KOp,
  match o with
  | KCreate Src r _ obj => r = namespaces ∧ GetName obj = src
  | KCreate Dst r ns obj => ns = dst ∨ (r = namespaces ∧ GetName obj = dst)
  | KUpdate Dst _ ns _ => ns = dst
  | KCreate Ctl _ _ _ | KUpdate _ _ _ _ | KDelete _ _ _ _ | KDeleteForeground _ _ _ _ | KEvict _ _ _ => False
  | KUpdateMappingStatus _ | KUpdateMapping _ | KUpdateMappingAt _ _ | KCommand _ _ | KExec _ _ _ _ => False
  | KSyncPVC opts => opts.(optSourceNamespace) = src ∧ opts.(optDestinationNamespace) = dst
  | _ => True
  end.

Section Confined.
Context (r : ResourceSyncer) (src dst : string) (Hw : wired r).

Lemma dest_client c : destClient r = Some c → c = Dst.
Proof. destruct Hw as [_ _ _ [E|E]]; rewrite E; congruence. Qed.
Lemma dest_dynamic c : destDynamic r = Some c → c = Dst.
Proof. destruct Hw as [_ [E|E] _ _]; rewrite E; congruence. Qed.
Lemma source_client c : sourceClient r = Some c → c = Src.
Proof. destruct Hw as [_ _ [E|E] _]; rewrite E; congruence. Qed.
Lemma source_dynamic c : sourceDynamic r = Some c → c = Src.
Proof. destruct Hw as [[E|E] _ _ _]; rewrite E; congruence. Qed.

Local Ltac which :=
  repeat match goal with
  | H : destClient r = Some ?c |- _ => apply dest_client in H; subst c
  | H : destDynamic r = Some ?c |- _ => apply dest_dynamic in H; subst c
  | H : sourceClient r = Some ?c |- _ => apply source_client in H; subst c
  | H : sourceDynamic r = Some ?c |- _ => apply source_dynamic in H; subst c
  end.

Local Ltac go := repeat (first [safe_step | progress which]); which; cbn; auto.

Lemma ensure_loop_confined n e :
  safe (confined src dst) (ensure_loop n Dst dst src e) anyr.
Proof.
  revert e. induction n as [|n IH]; intros e; cbn [ensure_loop]; go.
Qed.

Lemma dest_namespace_loop_confined n ls ans e :
  safe (confined src dst) (dest_namespace_loop n Dst src dst ls ans e) anyr.
Proof.
  revert ls e. induction n as [|n IH]; intros ls e; cbn [dest_namespace_loop]; go.
Qed.

Lemma verify_confined c d ts :
  safe (confined src dst) (verifyClusterAccess c d ts) anyr.
Proof. unfold verifyClusterAccess, check_access. go. Qed.

Lemma validate_confined c sc :
  safe (confined src dst) (ValidateStorageClass c sc) anyr.
Proof. unfold ValidateStorageClass. go. Qed.

Lemma SyncResource_confined o : GetNamespace o = dst →
  safe (confined src dst) (SyncResource r o) anyr.
Proof.
  intros Hns. unfold SyncResource, SyncResource_pvc, update_requests, update_whole.
  repeat first [apply validate_confined | safe_step]; which; cbn; auto.
Qed.

Lemma list_and_sync_confined gvr plural kind skip prepare :
  (∀ o, GetNamespace (prepare o) = GetNamespace o) →
  safe (confined src dst)
    (list_and_sync r (sourceClient r) gvr plural kind skip prepare src dst) anyr.
Proof.
  intros Hp. unfold list_and_sync.
  repeat first [apply SyncResource_confined; rewrite Hp; done | safe_step]; which; cbn; auto.
Qed.

Lemma syncDeployments_confined stz :
  safe (confined src dst) (syncDeployments r (sourceClient r) src dst stz) anyr.
Proof.
  unfold syncDeployments, sync_one_deployment.
  repeat first [apply SyncResource_confined; done | safe_step]; which; cbn; auto.
Qed.

Lemma syncPVC_confined gcm cfg :
  safe (confined src dst)
    (syncPersistentVolumeClaimsWithMounting gcm r (sourceClient r) (destClient r) src dst cfg) anyr.
Proof.
  unfold syncPersistentVolumeClaimsWithMounting, sync_one_pvc, sync_pvc_data, getPVCSyncer. go.
Qed.

Lemma sync_resource_type_confined gcm stz cfg rt scales :
  safe (confined src dst) (sync_resource_type gcm r src dst stz cfg rt scales) anyr.
Proof.
  unfold sync_resource_type, syncConfigMaps, syncSecrets, syncServices, syncIngresses.
  repeat first [ apply syncDeployments_confined | apply syncPVC_confined
               | apply list_and_sync_confined; intros [? ? []]; done | safe_step ].
Qed.

Lemma sync_scoped_confined scoped :
  safe (confined src dst) (sync_scoped r src dst scoped) anyr.
Proof.
  unfold sync_scoped, syncNamespaceScopedResource, sync_scoped_item. go.
Qed.

Lemma SyncNamespaceResources_confined gcm types stz scoped cfg syncCRDs :
  default false syncCRDs = false →
  safe (confined src dst)
    (SyncNamespaceResources gcm r src dst types stz scoped cfg syncCRDs) anyr.
Proof.
  intros Hc. unfold SyncNamespaceResources, EnsureNamespaceExists, source_namespace_object. rewrite Hc.
  repeat first [ apply verify_confined | apply sync_resource_type_confined
               | apply sync_scoped_confined | progress which | apply ensure_loop_confined
               | apply dest_namespace_loop_confined | safe_step ];
    which; cbn; auto.
Qed.

End Confined.

(** Whatever the API servers answer, a namespace sync without CRD sync writes
    only to the destination namespace of the destination cluster, apart from
    creating the two namespaces; it never deletes and never updates the source. *)
Theorem SyncNamespaceResources_writes_confined gcm r src dst types stz scoped cfg syncCRDs tr out :
  wired r → default false syncCRDs = false →
  runs (SyncNamespaceResources gcm r src dst types stz scoped cfg syncCRDs) tr out →
  Forall (λ e, confined src dst (ev_op e)) tr.
Proof.
  intros Hw Hc Hr.
  by apply (safe_sound _ _ _ _ _ (SyncNamespaceResources_confined r src dst Hw gcm types stz scoped cfg syncCRDs Hc)) in Hr as [? _].
Qed.

(** A small world: a namespace with a config map, a labelled-away one and a
    deployment in the source, nothing in the destination. *)
Definition ex_meta (name ns : string) (labels : option (gmap string string)) : ObjectMeta :=
  mkObjectMeta name ns "u1" "7" "" None [] ["owner"] 1 ["fin"] labels None.

Definition ex_gvk : GVK := mkGVK "" "" "".

Definition ex_cm : Object :=
  mkObject ex_gvk (ex_meta "cm" "prod" None) (ConfigMapBody (mkConfigMapFields "k=v" "" None)).
Definition ex_ignored : Object :=
  mkObject ex_gvk (ex_meta "skip" "prod" (Some {[IgnoreLabel := "true"]}))
    (ConfigMapBody (mkConfigMapFields "x" "" None)).
Definition ex_deploy_spec : DeploymentSpec :=
  mkDeploymentSpec (Some 3) None "template" "" 0 None false None.
Definition ex_deploy : Object :=
  mkObject ex_gvk (ex_meta "web" "prod" None) (DeploymentBody ex_deploy_spec "").

Definition ex_world : world :=
  mkWorld [mkEntry Src namespaces "" (new_namespace "prod" None None);
           mkEntry Src configmaps "prod" ex_cm; mkEntry Src configmaps "prod" ex_ignored;
           mkEntry Src deployments "prod" ex_deploy] [] [] 1 1000.

Definition ex_syncer : ResourceSyncer :=
  mkResourceSyncer (Some Src) (Some Dst) (Some Src) (Some Dst) true.

Lemma ex_wired : wired ex_syncer.
Proof. split; by left. Qed.

Lemma SyncNamespaceResources_writes_confined_witness :
  let p := SyncNamespaceResources false ex_syncer "prod" "dr" ["configmaps"; "deployments"] true [] None None in
  (run api p ex_world).1 = Ret (Ok [mkSyncerScale "web" 3 1000]) ∧
  Forall (λ e, confined "prod" "dr" (ev_op e)) (run_trace api p ex_world).
Proof.
  split; [vm_compute; reflexivity|].
  eapply (SyncNamespaceResources_writes_confined false ex_syncer "prod" "dr" _ true [] None None);
    [apply ex_wired|reflexivity|apply run_trace_runs].
Defined.

(** ** SyncResource: what it sends *)

(** The object SyncResource asks the destination for, as it compares it. *)
Definition wanted (obj : Object) (gvk : GVK) : Object :=
  set_oGVK (if is_deployment obj && negb (kGroup gvk =s? "apps") then mkGVK "apps" "v1" "Deployment" else gvk) obj.

(** The update of [existing]: the wanted object with the version and UID that were read. *)
Definition on_version (existing u : Object) : Object :=
  on_meta (λ m, set_mResourceVersion existing.(oMeta).(mResourceVersion) (set_mUID existing.(oMeta).(mUID) m)) u.

(** Neither a typed claim nor an unstructured one. *)
Definition not_claim (obj : Object) : Prop :=
  typed_pvc obj = None ∧ kKind (oGVK obj) ≠ "PersistentVolumeClaim".

Definition is_ok {A} (r : res A) : Prop := ∃ a, r = Ok a.

Lemma is_ok_ok {A} (a : A) : is_ok (Ok a) ↔ Ok tt = Ok tt :> res unit.
Proof. split; [done|]. by exists a. Qed.
Lemma is_ok_err {A} (e e' : error) : is_ok (Err e : res A) ↔ Err e' = Ok tt :> res unit.
Proof. split; [by intros [? [=]]|done]. Qed.

(** The executions of SyncResource of an object other than a claim, by the answer of its
    read: nothing more, a creation or an update. *)
Inductive sync_shape (c : Cluster) (gvr : GVR) (obj u : Object) : list (event KSig) → exec (res unit) → Prop :=
| shape_same x :
    SanitizeMetadata x = SanitizeMetadata u →
    sync_shape c gvr obj u [Ev (Sg := KSig) (KGet c gvr (GetNamespace obj) (GetName obj)) (Ok x)] (Ret (Ok tt))
| shape_unreadable err e :
    IsNotFound err = false →
    sync_shape c gvr obj u [Ev (Sg := KSig) (KGet c gvr (GetNamespace obj) (GetName obj)) (Err err)] (Ret (Err e))
| shape_created err (a : res Object) r :
    IsNotFound err = true → (is_ok a ↔ r = Ok tt) →
    sync_shape c gvr obj u
      [Ev (Sg := KSig) (KGet c gvr (GetNamespace obj) (GetName obj)) (Err err);
       Ev (Sg := KSig) (KCreate c gvr (GetNamespace obj) (SanitizeMetadata u)) a] (Ret r)
| shape_updated x (a : res Object) r :
    SanitizeMetadata x ≠ SanitizeMetadata u → (is_ok a ↔ r = Ok tt) →
    sync_shape c gvr obj u
      [Ev (Sg := KSig) (KGet c gvr (GetNamespace obj) (GetName obj)) (Ok x);
       Ev (Sg := KSig) (KUpdate c gvr (GetNamespace obj) (on_version x u)) a] (Ret r).

Lemma SyncResource_shape r obj tr out :
  not_claim obj → runs (SyncResource r obj) tr out →
  (tr = [] ∧ out ≠ Ret (Ok tt)) ∨
  ∃ c gvk, destDynamic r = Some c ∧ object_gvk obj = Some gvk ∧ sync_shape c (gvr_of gvk) obj (wanted obj gvk) tr out.
Proof.
  intros [Hp Hk] Hr. unfold SyncResource in Hr. rewrite Hp in Hr.
  destruct (object_gvk obj) as [gvk|] eqn:Hg; [|by left; runs_case Hr].
  destruct (destDynamic r) as [c|]; [|left; cbn in Hr; by apply runs_panic_inv in Hr as [-> ->]]. right. exists c, gvk. split; [done|split; [done|]].
  assert (Hkind : (kKind gvk =s? "PersistentVolumeClaim") = false).
  { apply String.eqb_neq. unfold object_gvk, typed_pvc in *.
    destruct (gvk_empty (oGVK obj)); [|congruence].
    by destruct (oBody obj); simplify_eq. }
  rewrite Hkind in Hr. cbn [deref] in Hr. fold (wanted obj gvk) in Hr. unfold update_whole in Hr.
  change (GetNamespace (wanted obj gvk)) with (GetNamespace obj) in Hr. change (GetName (wanted obj gvk)) with (GetName obj) in Hr.
  runs_case Hr. destruct a as [x|err].
  - case_bool_decide as Hd; cbn [negb] in Hr; [runs_case Hr; by constructor|].
    runs_case Hr. destruct a as [y|err]; [runs_case Hr; exact (shape_updated _ _ obj _ x _ _ Hd (is_ok_ok y))|].
    destruct (IsNotFound err); runs_case Hr; exact (shape_updated _ _ obj _ x _ _ Hd (is_ok_err _ _)).
  - destruct (IsNotFound err) eqn:E; cbn [negb] in Hr; [|runs_case Hr; by constructor].
    runs_case Hr. destruct a as [y|err']; [runs_case Hr; exact (shape_created _ _ obj _ err _ _ E (is_ok_ok y))|].
    destruct (IsNotFound err'); runs_case Hr; exact (shape_created _ _ obj _ err _ _ E (is_ok_err _ _)).
Qed.

(** What a call of an execution may write, after the calls [before]: the object without
    the metadata of the source cluster, once a read has answered that it does not exist;
    or the object with the version and UID of one that was read and differs from it. *)
Definition good_write (obj : Object) (before : list (event KSig)) (e : event KSig) : Prop :=
  match (ev_op e : KOp) with
  | KCreate c gvr ns o =>
      ns = GetNamespace obj ∧ o.(oMeta) = sanitize obj.(oMeta) ∧ o.(oBody) = obj.(oBody) ∧
      ∃ err, IsNotFound err = true ∧ before = [Ev (Sg := KSig) (KGet c gvr ns (GetName obj)) (Err err)]
  | KUpdate c gvr ns u =>
      ns = GetNamespace obj ∧ u.(oBody) = obj.(oBody) ∧
      ∃ x, before = [Ev (Sg := KSig) (KGet c gvr ns (GetName obj)) (Ok x)] ∧
        SanitizeMetadata x ≠ SanitizeMetadata u ∧
        u.(oMeta) = set_mResourceVersion x.(oMeta).(mResourceVersion) (set_mUID x.(oMeta).(mUID) obj.(oMeta))
  | KGet _ _ _ _ => before = []
  | _ => False
  end.



(** What an execution leaves in the cluster as far as it knows: what it wrote last, or
    else what it read. *)
Definition left_step (acc : option Object) (e : event KSig) : option Object :=
  match e with
  | Ev o r =>
      match o as o return KResp o → option Object with
      | KGet _ _ _ _ => λ r, match r with Ok x => Some x | Err _ => acc end
      | KCreate _ _ _ x | KUpdate _ _ _ x => λ r, match r with Ok _ => Some x | Err _ => acc end
      | _ => λ _, acc
      end r
  end.
Definition left_by (tr : list (event KSig)) : option Object := fold_left left_step tr None.

(** The object a read of an event answers. *)
Definition read_of (e : event KSig) : option Object :=
  match e with
  | Ev o r =>
      match o as o return KResp o → option Object with
      | KGet _ _ _ _ => λ r, match r with Ok x => Some x | Err _ => None end
      | _ => λ _, None
      end r
  end.

Definition is_write (e : event KSig) : bool :=
  match (ev_op e : KOp) with KGet _ _ _ _ => false | _ => true end.

(** C8: SyncResource of an object other than a claim is idempotent, whatever the API
    server makes of what it is sent.  A successful sync leaves an object; a second sync of
    the same source object whose read finds it writes nothing exactly when what it reads
    has the content of what was left, up to the metadata that is sanitized away, and
    succeeds then.  A server that defaults or allocates a field the source does not carry
    therefore gets an update at every sync. *)
Theorem SyncResource_idempotent r obj tr :
  not_claim obj → runs (SyncResource r obj) tr (Ret (Ok tt)) →
  ∃ left, left_by tr = Some left ∧
    ∀ tr' out c gvr ns name x, runs (SyncResource r obj) tr' out →
      Ev (Sg := KSig) (KGet c gvr ns name) (Ok x) ∈ tr' →
      (existsb is_write tr' = false ↔ SanitizeMetadata x = SanitizeMetadata left) ∧
      (SanitizeMetadata x = SanitizeMetadata left → out = Ret (Ok tt)).
Proof.
  intros Hn Hr. apply SyncResource_shape in Hr as [[_ E]|(c & gvk & Hc & Hg & Hs)]; [done| |done].
  assert (Hleft : ∃ left, left_by tr = Some left ∧ SanitizeMetadata left = SanitizeMetadata (wanted obj gvk)).
  { inversion Hs as [x Hx E|err er Hx E|err a er Hx Ha E|x a er Hx Ha E]; clear Hs; subst.
    - by exists x.
    - destruct (proj2 Ha eq_refl) as [y ->]. eexists. split; [done|].
      unfold SanitizeMetadata, on_meta; cbn. f_equal. apply sanitize_idemp.
    - destruct (proj2 Ha eq_refl) as [y ->]. by eexists. }
  destruct Hleft as (left & Hl & HL). exists left. split; [done|].
  intros tr' out c' gvr ns name x Hr' Hin. rewrite HL.
  apply SyncResource_shape in Hr' as [[-> _]|(c2 & gvk2 & Hc2 & Hg2 & Hs2)]; [by apply elem_of_nil in Hin| |done].
  assert (c2 = c ∧ gvk2 = gvk) as [-> ->] by (split; congruence). clear HL.
  inversion Hs2 as [y Hx E|err er Hx E|err a er Hx Ha E|y a er Hx Ha E]; clear Hs2; subst;
    apply (list_elem_of_fmap_2 read_of) in Hin; cbn in Hin; rewrite ?elem_of_cons, ?elem_of_nil in Hin.
  - by destruct Hin as [[= ->]|[]].
  - by destruct Hin as [|[]].
  - by destruct Hin as [|[|[]]].
  - by destruct Hin as [[= ->]|[|[]]].
Qed.

(** The first sync creates the config map, the second one only reads it. *)
Lemma SyncResource_idempotent_witness :
  let p := SyncResource ex_syncer ex_cm in
  let s' := (run api p ex_world).2 in
  existsb is_write (run_trace api p ex_world) = true ∧ existsb is_write (run_trace api p s') = false.
Proof.
  intros p s'. split; [vm_compute; reflexivity|].
  destruct (SyncResource_idempotent ex_syncer ex_cm (run_trace api (SyncResource ex_syncer ex_cm) ex_world))
    as (left & Hl & H); [done|exact (run_trace_runs api (SyncResource ex_syncer ex_cm) ex_world)|].
  vm_compute in Hl. injection Hl as <-.
  assert (Hread : ∃ x, run_trace api p s' = [Ev (Sg := KSig) (KGet Dst configmaps "prod" "cm") (Ok x)] ∧
    x.(oMeta).(mResourceVersion) = "1" ∧ SanitizeMetadata x = SanitizeMetadata (wanted ex_cm (mkGVK "" "v1" "ConfigMap"))).
  { eexists. split; [vm_compute; reflexivity|split; vm_compute; reflexivity]. }
  destruct Hread as (x & E & _ & Hx).
  refine (proj2 (proj1 (H _ _ Dst configmaps "prod" "cm" x (run_trace_runs api p s') _)) _); [rewrite E; left|].
  rewrite Hx. vm_compute. reflexivity.
Defined.

(** ** syncDeployments *)

(** [x] is what SyncResource makes of [obj]: same name and content; annotations at
    most without the last-applied configuration. *)
Definition sent (obj x : Object) : Prop :=
  x.(oBody) = obj.(oBody) ∧ GetName x = GetName obj ∧
  (x.(oMeta).(mAnnotations) = obj.(oMeta).(mAnnotations) ∨
   x.(oMeta).(mAnnotations) = delete last_applied <$> obj.(oMeta).(mAnnotations)).

Definition writes_only (Q : Object → Prop) : Op KSig → Prop := λ o : KOp,
  match o with
  | KCreate _ _ _ x | KUpdate _ _ _ x => Q x
  | KDelete _ _ _ _ | KDeleteForeground _ _ _ _ | KEvict _ _ _ => False
  | _ => True
  end.

Lemma SyncResource_sends r obj :
  is_deployment obj = true → gvk_empty (oGVK obj) = true →
  safe (writes_only (sent obj)) (SyncResource r obj) anyr.
Proof.
  intros Hd Hg. unfold SyncResource, typed_pvc, object_gvk, update_whole.
  unfold is_deployment in Hd. destruct (oBody obj) eqn:Hb; try done. rewrite Hg.
  cbn [kKind String.eqb].
  repeat safe_step; cbn; try done; unfold sent; cbn; rewrite ?Hb; auto.
Qed.

(** What is written for a source deployment: its content with the destination's
    replicas, and the original count recorded as an annotation that reads back. *)
Definition scaled_copy (src : string) (scaleToZero : bool) (items : list Object) (x : Object) : Prop :=
  ∃ item s st, item ∈ items ∧ ShouldIgnoreResource item = false ∧
    deployment_spec item = Some (s, st) ∧ GetName x = GetName item ∧
    x.(oBody) = DeploymentBody (set_dReplicas (dest_replicas item s scaleToZero) s) st ∧
    get_key x.(oMeta).(mAnnotations) original_replicas_key = Some (itoa (default 0 s.(dReplicas))) ∧
    get_key x.(oMeta).(mAnnotations) source_namespace = Some src.

Lemma sent_scaled_copy src dst stz items item s st x :
  item ∈ items → ShouldIgnoreResource item = false → deployment_spec item = Some (s, st) →
  sent (prepare_deployment src dst stz item s st) x → scaled_copy src stz items x.
Proof.
  intros Hi Hn Hs (Hb & Hnm & Ha). exists item, s, st. split_and!; [done..| |].
  all: destruct Ha as [-> | ->]; cbn; unfold get_key; cbn.
  all: rewrite ?lookup_delete_ne by done; simplify_map_eq; done.
Qed.

Lemma syncDeployments_items_safe r src dst stz items acc all :
  Forall (λ o, gvk_empty (oGVK o) = true) items → (∀ o, o ∈ items → o ∈ all) →
  safe (writes_only (scaled_copy src stz all))
    (range_err items acc (sync_one_deployment r src dst stz)) anyr.
Proof.
  intros Hg Hall. apply safe_range_err_any. intros item sc Hi. unfold sync_one_deployment.
  destruct (ShouldIgnoreResource item) eqn:Hn; [by apply safe_ret|].
  destruct (deployment_spec item) as [[s st]|] eqn:Hs; [|by apply safe_ret].
  apply safe_call_bind; [done|]. intros now. cbv zeta. safe_step; [|done].
  apply safe_bind_any; [|intros []; by apply safe_ret].
  apply (safe_mono (writes_only (sent (prepare_deployment src dst stz item s st))) _ _ anyr); [|..|done].
  - apply SyncResource_sends; [done|]. cbn. rewrite Forall_forall in Hg. by apply Hg.
  - intros []; cbn; try done; intros; eapply sent_scaled_copy; eauto.
Qed.

(** The deployments a sync was given by the source cluster. *)
Definition listed (c : Cluster) (src : string) (tr : list (event KSig)) (items : list Object) : Prop :=
  Ev (Sg := KSig) (KList c deployments src None) (Ok items) ∈ tr.

(** The typed client leaves the GVK of list items empty. *)
Definition typed_answer (e : event KSig) : Prop :=
  match e with
  | Ev o r =>
      match (o : KOp) as o return KResp o → Prop with
      | KList _ _ _ _ => λ r,
          match r with Ok items => Forall (λ x, gvk_empty (oGVK x) = true) items | Err _ => True end
      | _ => λ _, True
      end r
  end.

(** Every deployment a sync writes to the destination is a listed, not ignored
    source deployment whose replica count is the override label's, else zero when
    scaling to zero, else the source's; and it carries the original replica count
    in an annotation. *)
Theorem syncDeployments_scaled r c src dst stz tr out x :
  Forall typed_answer tr →
  runs (syncDeployments r (Some c) src dst stz) tr out →
  (∃ e ns gvr, e ∈ tr ∧ (ev_op e = KCreate Dst gvr ns x ∨ ev_op e = KUpdate Dst gvr ns x)) →
  ∃ items, listed c src tr items ∧ scaled_copy src stz items x.
Proof.
  intros Hg Hr (e & ns & gvr & He & Hop). unfold syncDeployments in Hr. cbn [deref] in Hr.
  runs_case Hr. destruct a as [items|err].
  - exists items. assert (Hl : listed c src (Ev (Sg := KSig) (KList c deployments src None) (Ok items) :: t) items)
      by (by left).
    split; [done|]. apply Forall_cons in Hg as [Hg _]. cbn in Hg.
    apply (safe_sound _ _ _ _ _ (syncDeployments_items_safe r src dst stz items [] items Hg (λ _, id)))
      in Hr as [Hf _].
    apply elem_of_cons in He as [->|He]; [by destruct Hop|].
    rewrite Forall_forall in Hf. specialize (Hf e He). destruct Hop as [E|E]; by rewrite E in Hf.
  - apply runs_ret_inv in Hr as [-> _]. apply list_elem_of_singleton in He as ->. by destruct Hop.
Qed.

Lemma syncDeployments_scaled_witness :
  let tr := run_trace api (syncDeployments ex_syncer (Some Src) "prod" "dr" true) ex_world in
  ∃ items x, listed Src "prod" tr items ∧ scaled_copy "prod" true items x ∧
    x.(oBody) = DeploymentBody (set_dReplicas (Some 0) ex_deploy_spec) "".
Proof.
  set (p := syncDeployments ex_syncer (Some Src) "prod" "dr" true).
  set (u := set_oGVK (mkGVK "apps" "v1" "Deployment")
              (prepare_deployment "prod" "dr" true ex_deploy ex_deploy_spec "")).
  destruct (syncDeployments_scaled ex_syncer Src "prod" "dr" true (run_trace api p ex_world)
    (run api p ex_world).1 (SanitizeMetadata u)) as (items & Hl & Hs).
  - vm_compute. repeat constructor.
  - apply run_trace_runs.
  - exists (List.nth 3 (run_trace api p ex_world) (Ev (Sg := KSig) KNow 0)), "dr", deployments.
    split; [|left; vm_compute; reflexivity].
    apply list_elem_of_In, nth_In. vm_compute. lia.
  - exists items, (SanitizeMetadata u). split_and!; [done..|reflexivity].
Defined.

(** The original replica counts, in the order of the list. *)
Definition original_scales (items : list Object) : list (string * Z) :=
  omap (λ o, if ShouldIgnoreResource o then None
             else match deployment_spec o with
                  | Some (s, _) => Some (GetName o, default 0 s.(dReplicas))
                  | None => None
                  end) items.

Definition scale_pair (s : SyncerScale) : string * Z := (s.(scName), s.(scReplicas)).

Lemma range_err_scales r src dst stz items acc tr scales :
  runs (range_err items acc (sync_one_deployment r src dst stz)) tr (Ret (Ok scales)) →
  scale_pair <$> scales = ((scale_pair <$> acc) ++ original_scales items)%list.
Proof.
  revert acc tr. induction items as [|o items IH]; intros acc tr Hr; cbn [range_err] in Hr.
  { apply runs_ret_inv in Hr as [_ [= ->]]. unfold original_scales; cbn. by rewrite app_nil_r. }
  apply runs_bind_inv in Hr as [(a & t1 & t2 & H1 & H2 & ->)|(w & _ & [=])].
  destruct a as [acc'|e]; [|by apply runs_ret_inv in H2 as [_ [=]]].
  rewrite (IH _ _ H2). unfold original_scales. cbn [omap list_omap].
  unfold sync_one_deployment in H1.
  destruct (ShouldIgnoreResource o); [by apply runs_ret_inv in H1 as [_ [= ->]]|].
  destruct (deployment_spec o) as [[s st]|]; [|by apply runs_ret_inv in H1 as [_ [= ->]]].
  runs_case H1. cbv zeta in H1. destruct (dest_replicas o s stz); [|by apply runs_panic_inv in H1 as [_ [=]]].
  apply runs_bind_inv in H1 as [(b & u1 & u2 & _ & H3 & _)|(w & _ & [=])].
  destruct b as [u|e]; apply runs_ret_inv in H3 as [_ H3]; [|done]. injection H3 as ->.
  rewrite fmap_app, <- app_assoc. done.
Qed.

(** A successful deployment sync reports, in list order, exactly the deployments
    that are not ignored, each with the replica count of the source. *)
Theorem syncDeployments_scales r c src dst stz tr scales :
  runs (syncDeployments r (Some c) src dst stz) tr (Ret (Ok scales)) →
  ∃ items, listed c src tr items ∧ scale_pair <$> scales = original_scales items.
Proof.
  intros Hr. unfold syncDeployments in Hr. cbn [deref] in Hr. runs_case Hr.
  destruct a as [items|err]; [|by apply runs_ret_inv in Hr as [_ [=]]].
  exists items. split; [by left|]. by apply range_err_scales in Hr.
Qed.

Lemma syncDeployments_scales_witness :
  let tr := run_trace api (syncDeployments ex_syncer (Some Src) "prod" "dr" true) ex_world in
  ∃ items, listed Src "prod" tr items ∧ original_scales items = [("web", 3)].
Proof.
  destruct (syncDeployments_scales ex_syncer Src "prod" "dr" true
    (run_trace api (syncDeployments ex_syncer (Some Src) "prod" "dr" true) ex_world)
    [mkSyncerScale "web" 3 1000]) as (items & Hl & Hs).
  - exact (run_trace_runs api (syncDeployments ex_syncer (Some Src) "prod" "dr" true) ex_world).
  - exists items. split; [exact Hl|]. symmetry. exact Hs.
Defined.

(** ** Claims *)

Definition ex_pvc_spec (vol : string) (size : Z) : PVCSpec :=
  mkPVCSpec ["ReadWriteOnce"] None (Some {["storage" := size]}) "" vol (Some "gp2") None None None.
Definition ex_pvc (ns vol : string) (size : Z) : Object :=
  mkObject ex_gvk (ex_meta "data" ns None) (PVCBody (ex_pvc_spec vol size) "Bound").

(** Applying the access mode mappings one after the other, as the handler does,
    equals mapping each mode by the first mapping that matches it (the meaning of
    the configuration), provided no mapping produces a mode that a later one maps
    again. *)
Definition unchained (ms : list AccessModeMapping) : Prop :=
  ∀ i j a b, (i < j)%nat → ms !! i = Some a → ms !! j = Some b → AMTo a ≠ AMFrom b.

Definition first_match (ms : list AccessModeMapping) (mode : string) : string :=
  match List.find (λ m, AMFrom m =s? mode) ms with Some m => AMTo m | None => mode end.

Theorem map_access_modes_first_match ms modes :
  unchained ms → map_access_modes ms modes = first_match ms <$> modes.
Proof.
  revert modes. induction ms as [|m ms IH]; intros modes Hc.
  { unfold map_access_modes, first_match; cbn. by rewrite list_fmap_id. }
  assert (Hc' : unchained ms).
  { intros i j a b Hij. apply (Hc (S i) (S j)). lia. }
  assert (Hm : ∀ b, b ∈ ms → AMTo m ≠ AMFrom b).
  { intros b [j Hj]%list_elem_of_lookup. by apply (Hc 0%nat (S j)); [lia|..]. }
  change (map_access_modes (m :: ms) modes)
    with (map_access_modes ms ((λ mode, if mode =s? AMFrom m then AMTo m else mode) <$> modes)).
  rewrite (IH _ Hc'), <- list_fmap_compose. apply list_fmap_ext. intros i mode _. unfold first_match; cbn.
  rewrite (String.eqb_sym (AMFrom m) mode). destruct (mode =s? AMFrom m); [|done].
  destruct (List.find _ ms) as [b|] eqn:E; [|done].
  apply find_some in E as [Hin Hb]. bool_props. apply list_elem_of_In in Hin.
  by destruct (Hm b Hin).
Qed.

Lemma map_access_modes_first_match_witness :
  map_access_modes [mkAccessModeMapping "RWO" "RWX"; mkAccessModeMapping "ROX" "RWO"] ["RWO"; "ROX"]
  = ["RWX"; "RWO"].
Proof.
  rewrite map_access_modes_first_match; [reflexivity|].
  intros [|[|i]] [|[|j]] a b Hij; cbn; intros; simplify_eq; try lia; done.
Defined.

(** ** The claims of a namespace *)

(** A claim the source cluster lists and the configuration does not ignore. *)
Definition claim_spec (o : Object) : option PVCSpec :=
  match ShouldIgnoreResource o, o.(oBody) with false, PVCBody spec _ => Some spec | _, _ => None end.

(** With mappings, the class that the label of the claim names, or else the target of
    the first mapping of its class. *)
Definition mapped_storage_class (cfg : option PVCConfig) (label class : option string) : option string :=
  match from_option StorageClassMappings [] cfg, label with
  | [], _ => class
  | _, Some l => Some l
  | mappings, None => (λ c, from_option SCTo c (List.find (λ m, c =s? SCFrom m) mappings)) <$> class
  end.

Definition keeps_attributes (cfg : option PVCConfig) : bool :=
  from_option PreserveVolumeAttributes false cfg || sync_pv cfg.

(** A missing claim is created with the identity and labels it has, in the destination
    namespace, without version and binding annotations; its class and modes are mapped,
    and its volume and volume attributes kept as configured. *)
Definition new_claim (cfg : option PVCConfig) (dst : string) (pvc : Object) (spec : PVCSpec) (new : Object) : Prop :=
  GetName new = GetName pvc ∧ new.(oMeta).(mNamespace) = dst ∧ new.(oMeta).(mResourceVersion) = "" ∧
  new.(oMeta).(mLabels) = pvc.(oMeta).(mLabels) ∧
  (∀ k, get_key new.(oMeta).(mAnnotations) k =
     if bool_decide (k ∈ binding_annotations) then None else get_key pvc.(oMeta).(mAnnotations) k) ∧
  ∃ s st, new.(oBody) = PVCBody s st ∧ s.(pvcRequests) = spec.(pvcRequests) ∧ s.(pvcLimits) = spec.(pvcLimits) ∧
    s.(pvcVolumeName) = (if sync_pv cfg then spec.(pvcVolumeName) else "") ∧
    s.(pvcStorageClassName) = mapped_storage_class cfg (get_key pvc.(oMeta).(mLabels) storage_class_label) spec.(pvcStorageClassName) ∧
    (unchained (from_option AccessModeMappings [] cfg) →
       s.(pvcAccessModes) = first_match (from_option AccessModeMappings [] cfg) <$> spec.(pvcAccessModes)) ∧
    if keeps_attributes cfg
    then (s.(pvcVolumeMode), s.(pvcSelector), s.(pvcDataSource), s.(pvcDataSourceRef)) =
         (spec.(pvcVolumeMode), spec.(pvcSelector), spec.(pvcDataSource), spec.(pvcDataSourceRef))
    else (s.(pvcVolumeMode), s.(pvcSelector), s.(pvcDataSource), s.(pvcDataSourceRef)) = (None, None, None, None).

(** An existing claim is sent back with the requests and limits of the source. *)
Definition resized_claim (spec : PVCSpec) (existing u : Object) : Prop :=
  u.(oGVK) = existing.(oGVK) ∧ u.(oMeta) = existing.(oMeta) ∧
  match existing.(oBody) with
  | PVCBody s st => u.(oBody) = PVCBody (with_resources spec s) st
  | b => u.(oBody) = b
  end.

(** [t] reads the claim in the destination and writes it accordingly; [result] is what
    the server answered. *)
Definition copied (c : Cluster) (dst : string) (cfg : option PVCConfig) (pvc : Object)
    (t : list (event KSig)) (result : Object) : Prop :=
  ∃ spec g, claim_spec pvc = Some spec ∧
    match g with
    | Ok existing => ∃ u, resized_claim spec existing u ∧
        t = [Ev (Sg := KSig) (KGet c persistentvolumeclaims dst (GetName pvc)) g;
             Ev (Sg := KSig) (KUpdate c persistentvolumeclaims dst u) (Ok result)]
    | Err _ => ∃ new, new_claim cfg dst pvc spec new ∧
        t = [Ev (Sg := KSig) (KGet c persistentvolumeclaims dst (GetName pvc)) g;
             Ev (Sg := KSig) (KCreate c persistentvolumeclaims dst new) (Ok result)]
    end.

Lemma drop_binding_lookup a k :
  get_key (drop_binding a) k = if bool_decide (k ∈ binding_annotations) then None else get_key a k.
Proof.
  unfold get_key, drop_binding, binding_annotations. cbn [foldl mbind option_bind].
  assert (Ho : or_make a !! k = a ≫= (.!! k)) by (by destruct a).
  destruct (bool_decide_reflect (k ∈ ["pv.kubernetes.io/bind-completed"; "pv.kubernetes.io/bound-by-controller"; "volume.kubernetes.io/selected-node"])) as [Hk|Hk].
  - clear Ho. rewrite !elem_of_cons in Hk. destruct Hk as [->|[->|[->|[]%elem_of_nil]]].
    all: rewrite ?lookup_delete_eq, ?lookup_delete_ne, ?lookup_delete_eq by done; try done.
  - apply not_elem_of_cons in Hk as [H1 [H2 [H3 _]%not_elem_of_cons]%not_elem_of_cons].
    by rewrite !lookup_delete_ne, Ho by congruence.
Qed.

Lemma map_storage_class_find ms sc :
  map_storage_class ms sc = (λ c, from_option SCTo c (List.find (λ m, c =s? SCFrom m) ms)) <$> sc.
Proof. destruct sc as [c|]; [|by destruct ms]. induction ms as [|m ms IH]; cbn; [done|]. by destruct (c =s? SCFrom m). Qed.

Lemma applied_resources cfg pvc spec :
  pvcRequests (apply_access_modes cfg (apply_storage_class cfg pvc spec)) = pvcRequests spec ∧
  pvcLimits (apply_access_modes cfg (apply_storage_class cfg pvc spec)) = pvcLimits spec.
Proof. unfold apply_access_modes, apply_storage_class. by repeat case_match. Qed.

Lemma new_claim_ok cfg dst pvc spec st :
  let s := apply_access_modes cfg (apply_storage_class cfg pvc spec) in
  let d := on_meta (set_mNamespace dst) (set_oBody (PVCBody s st) pvc) in
  new_claim cfg dst pvc spec
    (mkObject d.(oGVK) (set_mResourceVersion "" (set_mAnnotations (drop_binding d.(oMeta).(mAnnotations)) d.(oMeta)))
       (PVCBody (new_pvc_spec cfg s) st)).
Proof.
  cbv zeta. unfold new_claim. split_and!; [done..|apply drop_binding_lookup|].
  eexists _, st. split; [done|].
  assert (Hc : pvcStorageClassName (apply_storage_class cfg pvc spec) =
    mapped_storage_class cfg (get_key (mLabels (oMeta pvc)) storage_class_label) (pvcStorageClassName spec)).
  { unfold apply_storage_class, mapped_storage_class. destruct cfg as [cfg|]; [cbn [from_option]|done].
    destruct (StorageClassMappings cfg) as [|m ms] eqn:E; [done|]. cbn [length Nat.eqb].
    destruct (get_key _ _); cbn; [done|]. apply (map_storage_class_find (m :: ms)). }
  rewrite <- Hc. set (s1 := apply_storage_class cfg pvc spec).
  assert (Hs1 : s1 = set_pvcStorageClassName (pvcStorageClassName s1) spec).
  { unfold s1, apply_storage_class. destruct spec, cfg as [cfg|]; [|done]. by repeat case_match. }
  clearbody s1. rewrite Hs1. clear Hc Hs1. unfold keeps_attributes, new_pvc_spec.
  destruct cfg as [[scm amm pa spv sd dc]|]; cbn;
    [destruct pa, spv; cbn; split_and!; try done; apply map_access_modes_first_match|].
  split_and!; try done. intros _. by rewrite list_fmap_id.
Qed.

(** The claims are copied in the order of the list. *)
Lemma claims_copied c dst cfg pvcs acc tr synced :
  runs (range_err pvcs acc (sync_one_pvc (Some c) dst cfg)) tr (Ret (Ok synced)) →
  ∃ ts results, tr = concat ts ∧ synced = (acc ++ results)%list ∧
    Forall3 (copied c dst cfg) (List.filter (λ o, bool_decide (is_Some (claim_spec o))) pvcs) ts results.
Proof.
  revert acc tr. induction pvcs as [|pvc pvcs IH]; intros acc tr Hr; cbn [range_err] in Hr.
  { apply runs_ret_inv in Hr as [-> [= ->]]. exists [], []. rewrite app_nil_r. split_and!; [done..|constructor]. }
  apply runs_bind_inv in Hr as [(a & t1 & t2 & H1 & H2 & ->)|(w & _ & [=])].
  destruct a as [acc'|e]; [|by apply runs_ret_inv in H2 as [_ [=]]].
  apply IH in H2 as (ts & results & -> & -> & Hall). cbn [List.filter].
  unfold sync_one_pvc in H1. destruct (claim_spec pvc) as [spec|] eqn:Ec; cbn.
  - unfold claim_spec in Ec. destruct (ShouldIgnoreResource pvc) eqn:Ei; [done|].
    destruct (oBody pvc) eqn:Eb; try done. injection Ec as ->. cbn [deref] in H1.
    runs_case H1. destruct a as [existing|err]; runs_case H1; destruct a as [result|e];
      apply runs_ret_inv in H1 as [-> Hx]; simplify_eq.
    all: eexists (_ :: ts), (result :: results); rewrite <- app_assoc; split_and!; [done..|].
    all: constructor; [|done]; exists spec.
    + exists (Ok existing). split; [unfold claim_spec; by rewrite Ei, Eb|]. eexists. split; [|done]. unfold resized_claim. cbn. destruct (oBody existing) eqn:Ex; cbn; rewrite ?Ex; try done.
      split_and!; [done..|]. unfold with_resources. by destruct (applied_resources cfg pvc spec) as [-> ->].
    + exists (Err err). split; [unfold claim_spec; by rewrite Ei, Eb|]. eexists. split; [|done]. apply new_claim_ok.
  - exists ts, results. assert (t1 = [] ∧ acc' = acc) as [-> ->]; [|done].
    unfold claim_spec in Ec. destruct (ShouldIgnoreResource pvc), (oBody pvc); try done; by runs_case H1; simplify_eq.
Qed.

(** After the copies: a read of a source claim, the search for its nodes, and slots and
    data syncs of claims that were copied. *)
Definition data_call (synced : list Object) : Op KSig → Prop := λ o : KOp,
  match o with
  | KSyncPVC opts => opts.(optDestinationPVC) ∈ synced
  | KNewPVCSyncer | KGet _ _ _ _ | KFindPVCNode _ _ _ | KAcquireSlot _ _ | KReleaseSlot _ _ => True
  | _ => False
  end.

Lemma sync_pvc_data_calls gcm cs src dst p synced :
  p ∈ synced → safe (data_call synced) (sync_pvc_data gcm cs src dst p) anyr.
Proof. intros Hp. unfold sync_pvc_data. repeat first [done | safe_step]. Qed.

Lemma data_calls gcm cs src dst ps synced :
  ps ⊆ synced → safe (data_call synced) (range_each ps tt (λ p _, sync_pvc_data gcm cs src dst p)) anyr.
Proof.
  intros Hs. induction ps as [|p ps IH]; cbn [range_each]; [done|].
  apply safe_bind_any; [apply sync_pvc_data_calls, Hs; by left|]. intros []. apply IH. intros x Hx. apply Hs. by right.
Qed.


(** One claim exists in the destination with a smaller request, and one is missing. *)
Definition ex_claims_world : world :=
  mkWorld [mkEntry Src persistentvolumeclaims "prod" (ex_pvc "prod" "pv-a" 10);
           mkEntry Src persistentvolumeclaims "prod"
             (mkObject ex_gvk (mkObjectMeta "logs" "prod" "u1" "7" "" None [] [] 1 [] None (Some {["pv.kubernetes.io/bind-completed" := "yes"]}))
                (PVCBody (ex_pvc_spec "pv-c" 7) "Bound"));
           mkEntry Dst persistentvolumeclaims "dr" (ex_pvc "dr" "pv-b" 5)] [] [] 1 0.


(** ** Error paths *)

(** A transient error of the first read of the destination namespace makes the
    sync fail even when the retry finds the namespace, because the remembered error
    is not cleared; EnsureNamespaceExists, given the same answers, succeeds. *)
Theorem dest_namespace_retry_fails c src dst ls ans err ns :
  IsNotFound err = false →
  let tr := [Ev (Sg := KSig) (KGet c namespaces "" dst) (Err err);
             Ev (Sg := KSig) (KGet c namespaces "" dst) (Ok ns)] in
  runs (dest_namespace_loop 3 c src dst ls ans None) tr
    (Ret (Some (wrapf "failed to get destination namespace: " err))) ∧
  runs (EnsureNamespaceExists (Some c) dst src) tr (Ret (Ok tt)).
Proof.
  intros He tr. split.
  - constructor. rewrite He. cbn. constructor. constructor.
  - unfold EnsureNamespaceExists. cbn [deref ensure_loop]. constructor. rewrite He. cbn.
    constructor. constructor.
Qed.

Lemma dest_namespace_retry_fails_witness :
  let tr := [Ev (Sg := KSig) (KGet Dst namespaces "" "dr") (Err (StatusError Timeout "timeout"));
             Ev (Sg := KSig) (KGet Dst namespaces "" "dr") (Ok ex_cm)] in
  ∃ e, runs (dest_namespace_loop 3 Dst "prod" "dr" None None None) tr (Ret (Some e)).
Proof.
  eexists.
  exact (proj1 (dest_namespace_retry_fails Dst "prod" "dr" None None (StatusError Timeout "timeout") ex_cm eq_refl)).
Defined.

(** Without clients no sync happens: nothing is called and the error says so;
    and when CRD sync is enabled the nil client is dereferenced before that check. *)
Theorem SyncNamespaceResources_nil_clients gcm r src dst types stz scoped cfg syncCRDs :
  sourceClient r = None → sourceDynamic r = None →
  SyncNamespaceResources gcm r src dst types stz scoped cfg syncCRDs =
  if default false syncCRDs then panic "invalid memory address or nil pointer dereference"
  else mret (Err (wrapf "source cluster verification failed: " (PlainError "kubernetes client is nil"))).
Proof.
  intros Hs Hd. unfold SyncNamespaceResources. destruct syncCRDs as [[]|]; cbn [default id].
  - unfold syncCustomResourceDefinitions. by rewrite Hd.
  - cbn. by rewrite Hs.
  - cbn. by rewrite Hs.
Qed.

Lemma SyncNamespaceResources_nil_clients_witness :
  SyncNamespaceResources false (mkResourceSyncer None None None None false) "prod" "dr" [] true [] None None
  = mret (Err (wrapf "source cluster verification failed: " (PlainError "kubernetes client is nil"))).
Proof. apply (SyncNamespaceResources_nil_clients false (mkResourceSyncer None None None None false)); done. Defined.

(** The errors of the namespace sync that reach the mode reconciler carry no retry
    category: whatever category a handler chose, the wrapped error is not retryable
    and does not wait for the next sync. *)
Theorem handler_category_lost kind name err prefix :
  IsRetryable (wrapf prefix (sync_failure kind name err)) = false ∧
  ShouldWaitForNextSync (wrapf prefix (sync_failure kind name err)) = false ∧
  (IsRetryable (sync_failure kind name err) = IsRetryable err).
Proof.
  unfold sync_failure, wrapf. split_and!; [|done|apply IsRetryable_recategorize].
  unfold recategorize. by destruct (IsRetryable err).
Qed.
