(* ===== verification/Watch.v ===== *)
(** * The watch manager (pkg/controllers/watch/watch.go)

    The state of a WatchManager is its two clients, its informers, whether it is
    watching, and its two stop channels, which are open or closed.  Closing a closed
    channel panics.  The mutex makes each operation atomic. *)

From S2P Require Import Prelude Errors Types Kube.

(** The clients are dynamic.Interface values: [None] is the nil interface. *)
Record WatchManager : Type := mkWatchManager {
  wmSourceClient : option Cluster;
  wmDestClient : option Cluster;
  informers : list GVR;
  watching : bool;
  stopClosed : bool;
  backgroundStopClosed : bool;
  tickers : nat
}.

Definition NewWatchManager (sourceClient destClient : option Cluster) : WatchManager :=
  mkWatchManager sourceClient destClient [] false false false 0.

(** [w.informers[gvr] = informer] for each resource. *)
Definition add_informers (l rs : list GVR) : list GVR :=
  foldl (λ l r, if bool_decide (r ∈ l) then l else (l ++ [r])%list) l rs.

Fixpoint wait_caches (w : WatchManager) (rs : list GVR) : KP (res unit * WatchManager) :=
  match rs with
  | [] => mret (Ok tt, mkWatchManager w.(wmSourceClient) w.(wmDestClient) w.(informers) true w.(stopClosed) w.(backgroundStopClosed) w.(tickers))
  | gvr :: rest =>
      synced ← kcall (KCacheSync w.(stopClosed) gvr);
      if (synced : bool) then wait_caches w rest
      else if w.(stopClosed) then panic "close of closed channel"
      else
        mret (Err (PlainError ("failed to sync cache for " +:+ gvr.(rResource))),
              mkWatchManager w.(wmSourceClient) w.(wmDestClient) w.(informers) w.(watching) true w.(backgroundStopClosed) w.(tickers))
  end.

(** factory.Start runs one goroutine for each resource, whose first step is to list
    it with the source client; a nil client is dereferenced there, which ends the
    process.  Under a closed stop channel the goroutine returns before that. *)
Definition StartWatching (w : WatchManager) (resources : list GVR) : KP (res unit * WatchManager) :=
  if w.(watching) then mret (Ok tt, w)
  else
    let infs := add_informers w.(informers) resources in
    if bool_decide (w.(wmSourceClient) = None) && bool_decide (resources ≠ []) && negb w.(stopClosed)
    then panic "invalid memory address or nil pointer dereference"
    else
    wait_caches (mkWatchManager w.(wmSourceClient) w.(wmDestClient) infs w.(watching) w.(stopClosed) w.(backgroundStopClosed) w.(tickers)) infs.

Definition StopWatching (w : WatchManager) : KP WatchManager :=
  if negb w.(watching) then mret w
  else if w.(stopClosed) then panic "close of closed channel"
  else mret (mkWatchManager w.(wmSourceClient) w.(wmDestClient) [] false true w.(backgroundStopClosed) w.(tickers)).

Definition IsWatching (w : WatchManager) : bool := w.(watching).

(** The goroutine creates its ticker, which panics for a non-positive interval. *)
Definition StartBackgroundSync (w : WatchManager) (interval : Z) : KP WatchManager :=
  if interval <=? 0 then panic "non-positive interval for NewTicker"
  else
    _ ← kcall (KStartTicker interval);
    mret (mkWatchManager w.(wmSourceClient) w.(wmDestClient) w.(informers) w.(watching) w.(stopClosed) w.(backgroundStopClosed) (S w.(tickers))).

Definition StopBackgroundSync (w : WatchManager) : KP WatchManager :=
  if w.(backgroundStopClosed) then panic "close of closed channel"
  else mret (mkWatchManager w.(wmSourceClient) w.(wmDestClient) w.(informers) w.(watching) w.(stopClosed) true 0).

(** The guard of the update handler: only a changed resource version is an event. *)
Definition UpdateFunc_fires (old new : Object) : bool :=
  negb (old.(oMeta).(mResourceVersion) =s? new.(oMeta).(mResourceVersion)).

(** ** The life of a watch manager *)

(** Informers whose stop channel is closed never report their caches as synced. *)
Definition stopped_never_syncs (e : event KSig) : Prop :=
  match e with
  | Ev o r =>
      match (o : KOp) as o return KResp o → Prop with
      | KCacheSync true _ => λ r, r = false
      | _ => λ _, True
      end r
  end.

Inductive wop : Type :=
| WStart (resources : list GVR)
| WStop
| WBackground (interval : Z)
| WStopBackground.

(** One operation, for any answers of the informers. *)
Inductive wstep : WatchManager → wop → WatchManager → Prop :=
| ws_start w rs tr r w' :
    Forall stopped_never_syncs tr →
    runs (StartWatching w rs) tr (Ret (r, w')) → wstep w (WStart rs) w'
| ws_stop w tr w' : runs (StopWatching w) tr (Ret w') → wstep w WStop w'
| ws_bg w i tr w' : runs (StartBackgroundSync w i) tr (Ret w') → wstep w (WBackground i) w'
| ws_stopbg w tr w' : runs (StopBackgroundSync w) tr (Ret w') → wstep w WStopBackground w'.

Inductive reachable : WatchManager → Prop :=
| reach_new sourceClient destClient : reachable (NewWatchManager sourceClient destClient)
| reach_step w o w' : reachable w → wstep w o w' → reachable w'.

Lemma wait_caches_runs w rs tr r w' :
  Forall stopped_never_syncs tr → runs (wait_caches w rs) tr (Ret (r, w')) →
  (w' = mkWatchManager w.(wmSourceClient) w.(wmDestClient) w.(informers) true w.(stopClosed) w.(backgroundStopClosed) w.(tickers)
   ∧ (w.(stopClosed) = true → rs = []) ∧ r = Ok tt) ∨
  (w.(stopClosed) = false ∧ (∃ e, r = Err e) ∧
   w' = mkWatchManager w.(wmSourceClient) w.(wmDestClient) w.(informers) w.(watching) true w.(backgroundStopClosed) w.(tickers)).
Proof.
  revert tr. induction rs as [|g rs IH]; intros tr Hs Hr; cbn [wait_caches] in Hr.
  { apply runs_ret_inv in Hr as [_ [= -> ->]]. by left. }
  apply (runs_call_inv (Sg := KSig)) in Hr as (a & t & -> & Hr). cbn beta in Hr.
  apply Forall_cons in Hs as [Ha Hs]. destruct a.
  - apply IH in Hr; [|done]. cbn in Ha. destruct (stopClosed w) eqn:E; [done|].
    destruct Hr as [(-> & _ & ->)|Hr]; [left|by right]. done.
  - destruct (stopClosed w) eqn:E; [by apply runs_panic_inv in Hr as [_ [=]]|].
    apply runs_ret_inv in Hr as [_ [= -> ->]]. right. by eauto.
Qed.

(** Once the stop channel of a watch manager is closed, by StopWatching or by a
    failed start, it can never watch a resource again: every later StartWatching
    of at least one resource panics by closing the channel a second time. *)
Theorem StartWatching_after_stop w rs tr out :
  stopClosed w = true → watching w = false → add_informers (informers w) rs ≠ [] →
  Forall stopped_never_syncs tr → runs (StartWatching w rs) tr out →
  out = Panic "close of closed channel".
Proof.
  intros Hc Hn Hne Hs Hr. unfold StartWatching in Hr. rewrite Hn, Hc, andb_false_r in Hr. cbv zeta in Hr.
  destruct (add_informers (informers w) rs) as [|g l]; [done|]. cbn [wait_caches stopClosed] in Hr.
  apply (runs_call_inv (Sg := KSig)) in Hr as (a & t & -> & Hr). cbn beta in Hr.
  apply Forall_cons in Hs as [Ha _]. cbn in Ha. subst a. cbn in Hr. by apply runs_panic_inv in Hr as [_ ->].
Qed.

Lemma StartWatching_after_stop_witness :
  let w := mkWatchManager (Some Src) (Some Dst) [] false true false 0 in
  ∃ tr out, runs (StartWatching w [pods]) tr out ∧ out = Panic "close of closed channel".
Proof.
  set (w := mkWatchManager (Some Src) (Some Dst) [] false true false 0).
  exists [Ev (Sg := KSig) (KCacheSync true pods) false], (Panic "close of closed channel").
  assert (Hr : runs (StartWatching w [pods]) [Ev (Sg := KSig) (KCacheSync true pods) false]
    (Panic "close of closed channel")) by (do 2 constructor).
  split; [exact Hr|].
  apply (StartWatching_after_stop w [pods] _ _ eq_refl eq_refl) in Hr; [exact Hr|done|].
  repeat constructor.
Defined.

(** The invariant: a manager that watches something has an open stop channel. *)
Definition watch_inv (w : WatchManager) : Prop :=
  watching w = true → informers w ≠ [] → stopClosed w = false.

Lemma wstep_inv w o w' : watch_inv w → wstep w o w' → watch_inv w'.
Proof.
  intros Hi Hs. destruct Hs as [w rs tr r w' Hl Hr|w tr w' Hr|w i tr w' Hr|w tr w' Hr].
  - unfold StartWatching in Hr. destruct (watching w) eqn:Hw.
    { by apply runs_ret_inv in Hr as [_ [= -> ->]]. }
    cbv zeta in Hr. destruct (_ && _) in Hr; [by apply runs_panic_inv in Hr as [_ [=]]|].
    apply wait_caches_runs in Hr as [(-> & Hc & _)|(_ & _ & ->)]; [|by intros ?|done].
    cbn in Hc |- *. intros _ Hne. destruct (stopClosed w); [by destruct (Hne (Hc eq_refl))|done].
  - unfold StopWatching in Hr. destruct (watching w) eqn:Hw; cbn [negb] in Hr.
    + destruct (stopClosed w); [by apply runs_panic_inv in Hr as [_ [=]]|].
      apply runs_ret_inv in Hr as [_ [= ->]]. by intros ?.
    + by apply runs_ret_inv in Hr as [_ [= ->]].
  - unfold StartBackgroundSync in Hr. destruct (i <=? 0); [by apply runs_panic_inv in Hr as [_ [=]]|].
    apply (runs_call_inv (Sg := KSig)) in Hr as (a & t & _ & Hr).
    apply runs_ret_inv in Hr as [_ [= ->]]. exact Hi.
  - unfold StopBackgroundSync in Hr. destruct (backgroundStopClosed w).
    + by apply runs_panic_inv in Hr as [_ [=]].
    + apply runs_ret_inv in Hr as [_ [= ->]]. exact Hi.
Qed.

Lemma reachable_inv w : reachable w → watch_inv w.
Proof. induction 1; [by intros ?|]. eauto using wstep_inv. Qed.

(** In every reachable state of a watch manager that has informers, stopping it
    returns normally and leaves it not watching. *)
Theorem StopWatching_safe w tr out :
  reachable w → informers w ≠ [] → runs (StopWatching w) tr out →
  ∃ w', out = Ret w' ∧ watching w' = false.
Proof.
  intros Hre Hne Hr. apply reachable_inv in Hre. unfold StopWatching in Hr.
  destruct (watching w) eqn:Hw; cbn [negb] in Hr.
  - rewrite (Hre Hw Hne) in Hr. apply runs_ret_inv in Hr as [_ ->]. by eauto.
  - apply runs_ret_inv in Hr as [_ ->]. by eauto.
Qed.

Lemma StopWatching_safe_witness :
  let w := mkWatchManager (Some Src) (Some Dst) [pods] true false false 0 in
  ∃ w', Ret (mkWatchManager (Some Src) (Some Dst) [] false true false 0) = Ret w' ∧ watching w' = false.
Proof.
  apply (StopWatching_safe (mkWatchManager (Some Src) (Some Dst) [pods] true false false 0) []); [|done|constructor].
  apply (reach_step (NewWatchManager (Some Src) (Some Dst)) (WStart [pods])); [constructor|].
  apply (ws_start _ _ [Ev (Sg := KSig) (KCacheSync false pods) true] (Ok tt)); [repeat constructor|].
  constructor. constructor.
Defined.
