(* ===== verification/Modes.v ===== *)
(** * The mode reconciler (pkg/controllers/modes/reconciler.go)

    Scheduled, continuous and manual replication of one NamespaceMapping: status
    updates with optimistic concurrency, retries with backoff, the call of the
    resource syncer, and the cleanup of the destination.  A method that assigns to
    the mapping it is given returns the mapping with its result. *)

From S2P Require Import Prelude GoString Errors Types Float Duration Status Kube KubeLogic Syncer Watch.

(** ctrl.Result: RequeueAfter *)
Definition Result : Type := Z.

(** The clients of a ModeReconciler; the controller-runtime client is always there. *)
Record ModeReconciler : Type := mkModeReconciler {
  mrSyncer : ResourceSyncer;
  watchManager : WatchManager;
  sourceClusterName : string;
  destClusterName : string
}.

Definition NewModeReconciler (s : ResourceSyncer) (sourceClusterName destClusterName : string)
    : ModeReconciler :=
  mkModeReconciler s (NewWatchManager s.(sourceDynamic) s.(destDynamic))
    (if sourceClusterName =s? "" then "source" else sourceClusterName)
    (if destClusterName =s? "" then "destination" else destClusterName).

(** ** updateStatus *)

(** [time.Duration(float64(retryDelay) * 1.2)]; 1.2 is [5404319552844595 / 2^52]. *)
Definition next_delay (d : Z) : Z :=
  f64_to_int64 (Z.quot (r64 (r64 d * 5404319552844595)) (2 ^ 52)).

Definition maxStatusRetries : nat := 5.

Fixpoint update_loop (n : nat) (retryDelay : Z) (mapping : NamespaceMapping)
    (updateFn : NamespaceMappingStatus → KP NamespaceMappingStatus) : KP (res unit * NamespaceMapping) :=
  match n with
  | O => mret (Err (PlainError "failed to update status after 5 attempts"), mapping)
  | S n' =>
      g ← kcall (KGetMapping mapping.(Namespace) mapping.(Name));
      match g with
      | Err err => mret (Err (wrapf "failed to get latest version: " err), mapping)
      | Ok latest =>
          newStatus ← updateFn latest.(Status);
          if statusEqual latest.(Status) newStatus then mret (Ok tt, set_Status newStatus mapping)
          else
            u ← kcall (KUpdateMappingStatus (set_Status newStatus latest));
            match u with
            | Ok stored => mret (Ok tt, set_Status stored.(Status) mapping)
            | Err err =>
                if negb (IsConflict err) then
                  mret (Err (wrapf "failed to update status: " err), mapping)
                else
                  g2 ← kcall (KGetMapping mapping.(Namespace) mapping.(Name));
                  match g2 with
                  | Err err =>
                      mret (Err (wrapf "failed to get latest version after conflict: " err), mapping)
                  | Ok conflicted =>
                      if statusEqual conflicted.(Status) newStatus then
                        mret (Ok tt, set_Status conflicted.(Status) mapping)
                      else
                        _ ← kcall (KSleep retryDelay);
                        update_loop n' (next_delay retryDelay) mapping updateFn
                  end
            end
      end
  end.

Definition updateStatus (mapping : NamespaceMapping)
    (updateFn : NamespaceMappingStatus → KP NamespaceMappingStatus) : KP (res unit * NamespaceMapping) :=
  update_loop maxStatusRetries (250 * Millisecond) mapping updateFn.

(** ** Status changes *)

(** Remove the old Synced condition and append the new one. *)
Definition replace_synced (c : Condition) (conds : list Condition) : list Condition :=
  (filter (λ x, (x.(CType) =s? "Synced") = false) conds ++ [c])%list.

(** The update to Running; [watch] also records the watch event. *)
Definition mark_running (watch : bool) (st : NamespaceMappingStatus) : KP NamespaceMappingStatus :=
  now ← kcall KNow;
  let st := set_LastSyncTime (Some now) (set_Phase SyncPhaseRunning st) in
  mret (if watch then set_LastWatchEvent (Some now) st else st).

Definition synced_condition (spec : NamespaceMappingSpec) (now : Time) : Condition :=
  mkCondition "Synced" ConditionTrue 0 now "SyncCompleted"
    ("Resources successfully synced from cluster " +:+ spec.(SourceCluster) +:+
     " to cluster " +:+ spec.(DestinationCluster)).

(** The update to Completed, common to the three modes. *)
Definition mark_completed (watch : bool) (spec : NamespaceMappingSpec) (scales : list DeploymentScale)
    (syncDuration : Z) (st : NamespaceMappingStatus) : KP NamespaceMappingStatus :=
  now ← kcall KNow;
  let n := int32 (Z.of_nat (length scales)) in
  let st := set_LastSyncTime (Some now) (set_Phase SyncPhaseCompleted st) in
  let st := if watch then set_LastWatchEvent (Some now) st else st in
  let st := set_DeploymentScales scales st in
  let st := set_SyncStats_ (Some (mkSyncStats n n 0 (formatDuration syncDuration))) st in
  mret (set_Conditions (replace_synced (synced_condition spec now) st.(Conditions)) st).

(** ** handleRetry and resetRetryStatus *)

(** The retry state after one more failure: one retry fewer, the backoff doubled up
    to five minutes. *)
Definition current_backoff (text : string) : Z :=
  if text =s? "" then 5 * Second
  else match ParseDuration text with Some d => d | None => 5 * Second end.

Definition next_backoff (current : Z) : Z :=
  f64_to_int64 (Z.min (5 * Minute) (r64 current * 2)).

Definition next_retry (rs : option RetryStatus) : RetryStatus * Z :=
  let rs := default (mkRetryStatus None 10 "5s") rs in
  let remaining := if 0 <? rs.(RetriesRemaining) then rs.(RetriesRemaining) - 1 else rs.(RetriesRemaining) in
  let backoff := next_backoff (current_backoff rs.(BackoffDuration)) in
  (mkRetryStatus rs.(NextRetryTime) remaining (formatDuration backoff), backoff).

Definition failed_condition (now : Time) (err : error) (rs : RetryStatus) : Condition :=
  mkCondition "Synced" ConditionFalse 0 now "SyncFailed"
    ("Sync failed: " +:+ Error err +:+ ". Retry scheduled in " +:+ rs.(BackoffDuration) +:+
     " (" +:+ itoa rs.(RetriesRemaining) +:+ " retries remaining)").

Definition error_details (err : error) (now : Time) : StatusSyncError :=
  match err with
  | SyncErr _ _ resource => mkStatusSyncError (Error err) resource now
  | _ => mkStatusSyncError (Error err) "" now
  end.

Record RetryDecision : Type := mkRetryDecision { shouldRetry : bool; backoff : Z }.

Definition handleRetry (mapping : NamespaceMapping) (err : error)
    : KP (RetryDecision * res unit * NamespaceMapping) :=
  let '(rs, backoff) := next_retry mapping.(Status).(RetryStatus_) in
  now ← kcall KNow;
  let rs := mkRetryStatus (Some (now + backoff)) rs.(RetriesRemaining) rs.(BackoffDuration) in
  let details := error_details err now in
  r ← updateStatus mapping (λ st,
    let st := set_LastError (Some details) (set_RetryStatus_ (Some rs) (set_Phase SyncPhaseFailed st)) in
    mret (set_Conditions (replace_synced (failed_condition now err rs) st.(Conditions)) st));
  mret (mkRetryDecision (0 <? rs.(RetriesRemaining)) backoff, r.1, r.2).

Definition resetRetryStatus (mapping : NamespaceMapping) : KP (res unit * NamespaceMapping) :=
  match mapping.(Status).(RetryStatus_) with
  | None => mret (Ok tt, mapping)
  | Some _ => updateStatus mapping (λ st, mret (set_LastError None (set_RetryStatus_ None st)))
  end.

(** ** syncResources *)

Definition normalize_types (resourceTypes : list string) : list string :=
  let normalized := ToLower <$> resourceTypes in
  if (length normalized =? 0)%nat || bool_decide (normalized = ["*"]) then defaultTypes else normalized.

Definition kind_of_type (resourceType : string) : string :=
  let rt := ToLower resourceType in
  if (rt =s? "configmaps") || (rt =s? "configmap") then "ConfigMap"
  else if (rt =s? "secrets") || (rt =s? "secret") then "Secret"
  else if (rt =s? "deployments") || (rt =s? "deployment") then "Deployment"
  else if (rt =s? "services") || (rt =s? "service") then "Service"
  else if (rt =s? "ingresses") || (rt =s? "ingress") then "Ingress"
  else if (rt =s? "persistentvolumeclaims") || (rt =s? "persistentvolumeclaim") || (rt =s? "pvc")
    then "PersistentVolumeClaim"
  else Title resourceType.

Definition dest_namespace (spec : NamespaceMappingSpec) : string :=
  if spec.(DestinationNamespace) =s? "" then spec.(SourceNamespace) else spec.(DestinationNamespace).

Definition convert_scale (s : SyncerScale) : DeploymentScale :=
  mkDeploymentScale s.(scName) s.(scReplicas) (Some s.(scSyncTime)).

Definition syncResources (gcm : bool) (r : ModeReconciler) (mapping : NamespaceMapping)
    : KP (res (list DeploymentScale) * NamespaceMapping) :=
  let spec := mapping.(Spec) in
  let dstNamespace := dest_namespace spec in
  let normalizedTypes := normalize_types spec.(ResourceTypes) in
  s ← SyncNamespaceResources gcm r.(mrSyncer) spec.(SourceNamespace) dstNamespace normalizedTypes
        (default true spec.(ScaleToZero)) spec.(NamespaceScopedResources) spec.(PVCConfig_) spec.(SyncCRDs);
  match s with
  | Err err => mret (Err (wrapf "failed to sync namespace resources: " err), mapping)
  | Ok syncerScales =>
      now ← kcall KNow;
      let statuses :=
        map (λ rt, mkResourceStatus (kind_of_type rt) "*" dstNamespace "Synced" (Some now) "") normalizedTypes in
      mret (Ok (map convert_scale syncerScales),
            set_Status (set_ResourceStatus_ statuses mapping.(Status)) mapping)
  end.

(** What the modes do around a sync: the error path through handleRetry. *)
Definition sync_failed (onRetry : Z → error → Result * res unit) (mapping : NamespaceMapping) (err : error)
    : KP (Result * res unit * NamespaceMapping) :=
  h ← handleRetry mapping err;
  let '(d, retryErr, mapping) := h in
  match retryErr with
  | Err e => mret (0, Err e, mapping)
  | Ok _ =>
      if d.(shouldRetry) then mret (onRetry d.(backoff) err, mapping)
      else mret (0, Err err, mapping)
  end.

Section Modes.

(** robfig/cron: [ParseStandard], giving the next activation after an instant. *)
Context (ParseStandard : string → option (Time → Time)).
Context (gcm : bool).

(** ** ReconcileScheduled *)

Definition DefaultSchedule : string := "*/5 * * * *".

Definition schedule_next (spec : NamespaceMappingSpec) (st : NamespaceMappingStatus)
    : KP NamespaceMappingStatus :=
  let schedule := if spec.(Schedule) =s? "" then DefaultSchedule else spec.(Schedule) in
  match ParseStandard schedule with
  | None => now ← kcall KNow; mret (set_NextSyncTime (Some (now + 5 * Minute)) st)
  | Some next => now ← kcall KNow; mret (set_NextSyncTime (Some (next now)) st)
  end.

(** The sync proper, once it is due. *)
Definition scheduled_sync (r : ModeReconciler) (mapping : NamespaceMapping)
    : KP (Result * res unit * NamespaceMapping) :=
  u ← updateStatus mapping (mark_running false);
  match u with
  | (Err e, mapping) => mret (0, Err e, mapping)
  | (Ok _, mapping) =>
      startTime ← kcall KNow;
      s ← syncResources gcm r mapping;
      endTime ← kcall KNow;
      match s with
      | (Err err, mapping) => sync_failed (λ backoff err, (backoff, Err err)) mapping err
      | (Ok deploymentScales, mapping) =>
          rr ← resetRetryStatus mapping;
          let mapping := rr.2 in
          f ← updateStatus mapping (λ st,
                st ← mark_completed false mapping.(Spec) deploymentScales (endTime - startTime) st;
                schedule_next mapping.(Spec) st);
          match f with
          | (Err e, mapping) => mret (0, Err e, mapping)
          | (Ok _, mapping) =>
              match mapping.(Status).(NextSyncTime) with
              | None => mret (5 * Minute, Ok tt, mapping)
              | Some next => now ← kcall KNow; mret (next - now, Ok tt, mapping)
              end
          end
      end
  end.

Definition ReconcileScheduled (r : ModeReconciler) (mapping : NamespaceMapping)
    : KP (Result * res unit * NamespaceMapping) :=
  match mapping.(Status).(NextSyncTime) with
  | Some next =>
      if mapping.(Status).(Phase) =s? SyncPhaseCompleted then
        now ← kcall KNow;
        if 0 <? next - now then mret (next - now, Ok tt, mapping)
        else scheduled_sync r mapping
      else scheduled_sync r mapping
  | None => scheduled_sync r mapping
  end.

(** ** ReconcileManual *)

Definition sync_now_annotation : string := "dr-syncer.io/sync-now".
Definition trigger_sync_annotation : string := "dr-syncer.io/trigger-sync".

Definition perform_sync (r : ModeReconciler) (mapping : NamespaceMapping)
    : KP (Result * res unit * NamespaceMapping) :=
  u ← updateStatus mapping (mark_running false);
  match u with
  | (Err e, mapping) => mret (0, Err e, mapping)
  | (Ok _, mapping) =>
      startTime ← kcall KNow;
      s ← syncResources gcm r mapping;
      endTime ← kcall KNow;
      match s with
      | (Err err, mapping) => sync_failed (λ backoff _, (backoff, Ok tt)) mapping err
      | (Ok deploymentScales, mapping) =>
          rr ← resetRetryStatus mapping;
          let mapping := rr.2 in
          f ← updateStatus mapping
                (mark_completed false mapping.(Spec) deploymentScales (endTime - startTime));
          match f with
          | (Err e, mapping) => mret (0, Err e, mapping)
          | (Ok _, mapping) => mret (0, Ok tt, mapping)
          end
      end
  end.

Definition to_pending (mapping : NamespaceMapping)
    (f : NamespaceMappingStatus → NamespaceMappingStatus) : KP (Result * res unit * NamespaceMapping) :=
  u ← updateStatus mapping (λ st, mret (f st));
  mret (0, u.1, u.2).

(** The reset of a finished manual sync. *)
Definition reset_manual (st : NamespaceMappingStatus) : NamespaceMappingStatus :=
  set_NextSyncTime None (set_DeploymentScales [] (set_LastSyncTime None (set_SyncStats_ None
    (set_Conditions [] (set_LastError None (set_RetryStatus_ None (set_Phase SyncPhasePending st))))))).

Definition ReconcileManual (r : ModeReconciler) (mapping : NamespaceMapping)
    : KP (Result * res unit * NamespaceMapping) :=
  let syncNow := bool_decide (is_Some (mapping.(Annotations) !! sync_now_annotation)) ||
                 bool_decide (is_Some (mapping.(Annotations) !! trigger_sync_annotation)) in
  let phase := mapping.(Status).(Phase) in
  if syncNow then
    u ← updateStatus mapping (mark_running false);
    match u with
    | (Err e, mapping) => mret (0, Err e, mapping)
    | (Ok _, mapping) => perform_sync r mapping
    end
  else if phase =s? "" then to_pending mapping (set_Phase SyncPhasePending)
  else if phase =s? SyncPhasePending then mret (0, Ok tt, mapping)
  else if (phase =s? SyncPhaseCompleted) || (phase =s? SyncPhaseFailed) then
    to_pending mapping reset_manual
  else if phase =s? SyncPhaseRunning then perform_sync r mapping
  else to_pending mapping (set_Phase SyncPhasePending).

(** ** ReconcileContinuous *)

(** The handler registered for watch events. *)
Definition watch_event (r : ModeReconciler) (mapping : NamespaceMapping)
    : KP (res unit * NamespaceMapping) :=
  startTime ← kcall KNow;
  u ← updateStatus mapping (mark_running true);
  match u with
  | (Err e, mapping) => mret (Err e, mapping)
  | (Ok _, mapping) =>
      s ← syncResources gcm r mapping;
      endTime ← kcall KNow;
      match s with
      | (Err err, mapping) =>
          h ← handleRetry mapping err;
          let '(d, retryErr, mapping) := h in
          match retryErr with
          | Err e => mret (Err e, mapping)
          | Ok _ =>
              if d.(shouldRetry) then _ ← kcall (KSleep d.(backoff)); mret (Ok tt, mapping)
              else mret (Err err, mapping)
          end
      | (Ok deploymentScales, mapping) =>
          rr ← resetRetryStatus mapping;
          let mapping := rr.2 in
          updateStatus mapping
            (mark_completed true mapping.(Spec) deploymentScales (endTime - startTime))
      end
  end.

Definition gvr_of_type (rt : string) : list GVR :=
  let rt := ToLower rt in
  if (rt =s? "configmaps") || (rt =s? "configmap") then [configmaps]
  else if (rt =s? "secrets") || (rt =s? "secret") then [secrets]
  else if (rt =s? "deployments") || (rt =s? "deployment") then [deployments]
  else if (rt =s? "services") || (rt =s? "service") then [services]
  else if (rt =s? "ingresses") || (rt =s? "ingress") then [ingresses]
  else if (rt =s? "persistentvolumeclaims") || (rt =s? "persistentvolumeclaim") || (rt =s? "pvc")
    then [persistentvolumeclaims]
  else if rt =s? "*" then [configmaps; secrets; deployments; services; ingresses; persistentvolumeclaims]
  else [].

Definition getResourceGVRs (resourceTypes : list string) : list GVR :=
  mjoin (gvr_of_type <$> resourceTypes).

Definition set_watch (w : WatchManager) (r : ModeReconciler) : ModeReconciler :=
  mkModeReconciler r.(mrSyncer) w r.(sourceClusterName) r.(destClusterName).

Definition ReconcileContinuous (r : ModeReconciler) (mapping : NamespaceMapping)
    : KP (Result * res unit * ModeReconciler) :=
  if IsWatching r.(watchManager) then mret (Hour, Ok tt, r)
  else
    s ← StartWatching r.(watchManager) (getResourceGVRs mapping.(Spec).(ResourceTypes));
    match s with
    | (Err err, w) => mret (0, Err err, set_watch w r)
    | (Ok _, w) =>
        match mapping.(Spec).(BackgroundSyncInterval) with
        | None => mret (Hour, Ok tt, set_watch w r)
        | Some text =>
            if text =s? "" then mret (Hour, Ok tt, set_watch w r)
            else
              match ParseDuration text with
              | None => mret (0, Err (PlainError ("time: invalid duration " +:+ text)), set_watch w r)
              | Some interval =>
                  w ← StartBackgroundSync w interval;
                  mret (Hour, Ok tt, set_watch w r)
              end
        end
    end.

(** ** CleanupResources *)

(** The destination is emptied of the mapped kinds, the last kind first. *)
Definition CleanupResources (r : ModeReconciler) (mapping : NamespaceMapping) : KP (res unit) :=
  match r.(mrSyncer).(destDynamic) with
  | None => mret (Ok tt)
  | Some c =>
      let dstNamespace := dest_namespace mapping.(Spec) in
      let resources := getResourceGVRs (normalize_types mapping.(Spec).(ResourceTypes)) in
      range_err (reverse resources) tt (λ gvr _,
        l ← kcall (KList c gvr dstNamespace None);
        match l with
        | Err err =>
            if negb (IsNotFound err) then
              mret (Err (wrapf ("failed to list resources of type " +:+ gvr.(rResource) +:+ ": ") err))
            else mret (Ok tt)
        | Ok items =>
            range_err items tt (λ item _,
              d ← kcall (KDelete c gvr dstNamespace (GetName item));
              match d with
              | Err err =>
                  if negb (IsNotFound err) then
                    mret (Err (wrapf ("failed to delete " +:+ gvr.(rResource) +:+ "/" +:+ GetName item +:+ ": ") err))
                  else mret (Ok tt)
              | Ok _ => mret (Ok tt)
              end)
        end)
  end.

End Modes.
