(* ===== verification/MappingController.v ===== *)
(** * The NamespaceMapping controller (pkg/controllers/namespacemapping_controller.go)

    Reconcile: fetch, finalizer, pause, resolution of the clusters, and dispatch to
    the mode reconciler; handleDeletion: cleanup and finalizer removal. *)

From S2P Require Import Prelude GoString Errors Types Kube KubeLogic Syncer Watch Modes.

Definition NamespaceMappingFinalizerName : string := "dr-syncer.io/cleanup-namespacemapping".

Fixpoint containsString (slice : list string) (s : string) : bool :=
  match slice with
  | [] => false
  | item :: rest => if item =s? s then true else containsString rest s
  end.

Definition removeString (slice : list string) (s : string) : list string :=
  filter (λ item, (item =s? s) = false) slice.

(** The clients both callers pass to NewModeReconciler: nil interfaces and configs. *)
Definition nil_clients : ResourceSyncer := mkResourceSyncer None None None None false.

Definition cluster_mapping_key (m : NamespaceMapping) (ref : ClusterMappingReference) : string * string :=
  (if ref.(CMRNamespace) =s? "" then m.(Namespace) else ref.(CMRNamespace), ref.(CMRName)).

(** Remove the finalizer and store the mapping. *)
Definition remove_finalizer (m : NamespaceMapping) : KP (Result * res unit) :=
  u ← kcall (KUpdateMapping (set_Finalizers (removeString m.(Finalizers) NamespaceMappingFinalizerName) m));
  match u with
  | Ok _ => mret (0, Ok tt)
  | Err err => mret (0, Err err)
  end.

Definition cleanup_and_remove (m : NamespaceMapping) (destCluster : string) : KP (Result * res unit) :=
  c ← CleanupResources (NewModeReconciler nil_clients "" destCluster) m;
  match c with
  | Err err => mret (0, Err err)
  | Ok _ => remove_finalizer m
  end.

Definition handleDeletion (m : NamespaceMapping) : KP (Result * res unit) :=
  if negb (containsString m.(Finalizers) NamespaceMappingFinalizerName) then mret (0, Ok tt)
  else
    match m.(Spec).(ClusterMappingRef) with
    | Some ref =>
        let '(ns, name) := cluster_mapping_key m ref in
        g ← kcall (KGetClusterMapping ns name);
        match g with
        | Err err => if IsNotFound err then remove_finalizer m else mret (0, Err err)
        | Ok cm =>
            let dest := cm.(CMSpec).(TargetCluster) in
            cleanup_and_remove (set_Spec (set_DestinationCluster dest m.(Spec)) m) dest
        end
    | None =>
        if m.(Spec).(DestinationCluster) =s? "" then
          mret (0, Err (PlainError "either ClusterMappingRef or DestinationCluster must be specified"))
        else cleanup_and_remove m m.(Spec).(DestinationCluster)
    end.

Definition setupModeHandlerForNamespaceMapping (m : NamespaceMapping)
    : KP (res (ModeReconciler * NamespaceMapping)) :=
  match m.(Spec).(ClusterMappingRef) with
  | Some ref =>
      let '(ns, name) := cluster_mapping_key m ref in
      cm ←? kcall (KGetClusterMapping ns name) onerr id;
      let src := cm.(CMSpec).(CMSourceCluster) in
      let dest := cm.(CMSpec).(TargetCluster) in
      let m := set_Spec (set_DestinationCluster dest (set_SourceCluster src m.(Spec))) m in
      mret (Ok (NewModeReconciler nil_clients src dest, m))
  | None =>
      if (m.(Spec).(SourceCluster) =s? "") || (m.(Spec).(DestinationCluster) =s? "") then
        mret (Err (PlainError "either ClusterMappingRef or both SourceCluster and DestinationCluster must be specified"))
      else mret (Ok (NewModeReconciler nil_clients m.(Spec).(SourceCluster) m.(Spec).(DestinationCluster), m))
  end.

Section Reconcile.
Context (ParseStandard : string → option (Time → Time)) (gcm : bool).

Definition dispatch (r : ModeReconciler) (m : NamespaceMapping) : KP (Result * res unit) :=
  if m.(Spec).(ReplicationMode) =s? ContinuousMode then
    x ← ReconcileContinuous r m; mret x.1
  else if m.(Spec).(ReplicationMode) =s? ManualMode then
    x ← ReconcileManual gcm r m; mret x.1
  else
    x ← ReconcileScheduled ParseStandard gcm r m; mret x.1.

Definition Reconcile (ns name : string) : KP (Result * res unit) :=
  g ← kcall (KGetMapping ns name);
  match g with
  | Err err => if IsNotFound err then mret (0, Ok tt) else mret (0, Err err)
  | Ok m =>
      match m.(DeletionTimestamp) with
      | Some _ => handleDeletion m
      | None =>
          if default false m.(Spec).(Paused) then mret (0, Ok tt)
          else if negb (containsString m.(Finalizers) NamespaceMappingFinalizerName) then
            u ← kcall (KUpdateMapping
                  (set_Finalizers (m.(Finalizers) ++ [NamespaceMappingFinalizerName])%list m));
            match u with
            | Ok _ => mret (0, Ok tt)
            | Err err => mret (0, Err err)
            end
          else
            h ← setupModeHandlerForNamespaceMapping m;
            match h with
            | Err err => mret (0, Err err)
            | Ok (r, m) => dispatch r m
            end
      end
  end.

End Reconcile.
