(* ===== verification/ModesProps.v ===== *)
(** * Properties of the mode reconciler and the NamespaceMapping controller

    The retry schedule, optimistic status updates, when a mode syncs and what it
    reports, and what the controller can do with the clients it passes on. *)

From S2P Require Import Prelude GoString Errors Types Float Duration Status Kube KubeLogic ApiServer.
From S2P Require Import Syncer Watch Modes MappingController.

(** ** The retry schedule *)

(** The retry status after [n] consecutive failures; [times] are the retry times the
    clock gave. *)
Fixpoint after_failures (times : nat → Time) (n : nat) : option RetryStatus :=
  match n with
  | O => None
  | S k =>
      let rs := (next_retry (after_failures times k)).1 in
      Some (mkRetryStatus (Some (times k)) rs.(RetriesRemaining) rs.(BackoffDuration))
  end.

(** Ten seconds doubled with every further failure, at most five minutes. *)
Definition retry_backoff (n : Z) : Z := Z.min (5 * Second * 2 ^ n) (5 * Minute).

Lemma next_backoff_small b : 0 ≤ b ≤ 5 * Minute → next_backoff b = Z.min (5 * Minute) (b * 2).
Proof.
  intros Hb. unfold next_backoff. rewrite r64_small by (unfold Minute, Second in *; lia).
  apply f64_to_int64_id. unfold in_int64, Minute, Second in *. lia.
Qed.

Lemma retry_backoff_range n : 0 ≤ n → 0 ≤ retry_backoff n ≤ 5 * Minute.
Proof.
  intros Hn. unfold retry_backoff. pose proof (Z.pow_nonneg 2 n ltac:(lia)).
  unfold Minute, Second. lia.
Qed.

(** Every backoff is a whole number of seconds. *)
Lemma retry_backoff_seconds n : 0 ≤ n → retry_backoff n mod Second = 0.
Proof.
  intros Hn. unfold retry_backoff, Minute.
  destruct (Z.min_spec (5 * Second * 2 ^ n) (5 * (60 * Second))) as [[_ ->]|[_ ->]].
  - replace (5 * Second * 2 ^ n) with (5 * 2 ^ n * Second) by lia. by apply Z.mod_mul.
  - done.
Qed.

Lemma current_backoff_format b :
  0 ≤ b ≤ 5 * Minute → b mod Second = 0 → current_backoff (formatDuration b) = b.
Proof.
  intros Hb Hs. unfold current_backoff.
  destruct (formatDuration_groups b ltac:(lia)) as (gs & Hne & Hgs & E & _).
  destruct (groups_text_head gs Hgs) as [Hn|(c & r & Hc & _)].
  - destruct gs as [|g gs]; [done|]. exfalso. cbn in Hn. unfold group_text in Hn.
    apply (f_equal String.length) in Hn. rewrite !slength_app in Hn. cbn in Hn. lia.
  - rewrite E, Hc. cbn [String.eqb]. rewrite <- Hc, <- E.
    rewrite formatDuration_parses by (unfold pow63, Minute, Second in *; lia).
    rewrite Hs. lia.
Qed.

Lemma retry_backoff_step n : 0 ≤ n →
  next_backoff (current_backoff (formatDuration (retry_backoff n))) = retry_backoff (n + 1).
Proof.
  intros Hn. pose proof (retry_backoff_range n Hn) as Hr.
  rewrite current_backoff_format, next_backoff_small by (auto using retry_backoff_seconds).
  unfold retry_backoff in *. rewrite Z.pow_add_r by lia. change (2 ^ 1) with 2. lia.
Qed.

(** The k-th consecutive failure schedules a retry after ten seconds doubled k-1
    times, at most five minutes, and leaves 10-k retries, never below zero; the text
    stored between failures loses nothing. *)
Theorem retry_schedule times n :
  let '(rs, b) := next_retry (after_failures times n) in
  b = retry_backoff (Z.of_nat n + 1) ∧
  rs.(RetriesRemaining) = Z.max 0 (9 - Z.of_nat n) ∧
  rs.(BackoffDuration) = formatDuration b.
Proof.
  induction n as [|n IH]; [vm_compute; done|].
  cbn [after_failures]. destruct (next_retry (after_failures times n)) as [rs b] eqn:E.
  destruct IH as (-> & Hrem & Htext). unfold next_retry. cbn [default fst id RetriesRemaining BackoffDuration].
  rewrite Htext, retry_backoff_step by lia. cbn [RetriesRemaining BackoffDuration]. rewrite Hrem.
  split_and!; [f_equal; lia| |done].
  destruct (Z.ltb_spec 0 (Z.max 0 (9 - Z.of_nat n))); lia.
Qed.

(** ** updateStatus *)

Definition plain (f : NamespaceMappingStatus → NamespaceMappingStatus) :
    NamespaceMappingStatus → KP NamespaceMappingStatus := λ st, mret (f st).

(** A status update as updateStatus sends it: the version just read, changed by [f]. *)
Definition attempt (f : NamespaceMappingStatus → NamespaceMappingStatus) (m : NamespaceMapping)
    (tr : list (event KSig)) (sent : NamespaceMapping) : Prop :=
  ∃ latest, Ev (Sg := KSig) (KGetMapping m.(Namespace) m.(Name)) (Ok latest) ∈ tr ∧
    sent = set_Status (f latest.(Status)) latest ∧
    statusEqual latest.(Status) sent.(Status) = false.

Definition status_updates (tr : list (event KSig)) : list NamespaceMapping :=
  omap (λ e : event KSig, match (ev_op e : KOp) with KUpdateMappingStatus m => Some m | _ => None end) tr.

Lemma status_updates_app t1 t2 :
  status_updates (t1 ++ t2)%list = (status_updates t1 ++ status_updates t2)%list.
Proof. apply omap_app. Qed.

Lemma attempt_mono f m tr tr' sent : attempt f m tr sent → tr ⊆ tr' → attempt f m tr' sent.
Proof. intros (l & Hl & ?) Hs. exists l. split; [by apply Hs|done]. Qed.

(** What is to be shown of the loop with [n] attempts left. *)
Definition attempts_ok (n : nat) (f : NamespaceMappingStatus → NamespaceMappingStatus)
    (m : NamespaceMapping) (tr : list (event KSig)) (out : exec (res unit * NamespaceMapping)) : Prop :=
  (length (status_updates tr) ≤ n)%nat ∧ Forall (attempt f m tr) (status_updates tr) ∧
  ∃ r m', out = Ret (r, m').

Lemma attempts_ok_prefix n f m t1 t2 out :
  status_updates t1 = [] → attempts_ok n f m t2 out → attempts_ok n f m (t1 ++ t2)%list out.
Proof.
  intros H1 (Hl & Ha & Ho). unfold attempts_ok. rewrite status_updates_app, H1. cbn.
  split_and!; [done| |done]. eapply Forall_impl; [exact Ha|]. intros x Hx.
  eapply attempt_mono; [exact Hx|]. apply list_subseteq_app_r. done.
Qed.

Lemma attempts_ok_done n f m tr r m' :
  status_updates tr = [] → attempts_ok n f m tr (Ret (r, m')).
Proof. intros H. unfold attempts_ok. rewrite H. cbn. split_and!; [lia|constructor|by eauto]. Qed.

(** One attempt: the read, the update, and what follows. *)
Lemma attempts_ok_step n f m latest a t out :
  let sent := set_Status (f (Status latest)) latest in
  statusEqual (Status latest) (f (Status latest)) = false →
  attempts_ok n f m t out →
  attempts_ok (S n) f m
    (Ev (Sg := KSig) (KGetMapping (Namespace m) (Name m)) (Ok latest) ::
     Ev (Sg := KSig) (KUpdateMappingStatus sent) a :: t) out.
Proof.
  intros sent Hne (Hl & Ha & Ho).
  unfold attempts_ok, status_updates in *; cbn in *. split_and!; [lia| |done].
  constructor; [exists latest; split; [by left|done]|].
  eapply Forall_impl; [exact Ha|]. intros x Hx. eapply attempt_mono; [exact Hx|].
  intros e He. by do 2 right.
Qed.

Lemma update_loop_attempts n d m f tr out :
  runs (update_loop n d m (plain f)) tr out → attempts_ok n f m tr out.
Proof.
  revert d tr. induction n as [|n IH]; intros d tr Hr; cbn [update_loop] in Hr.
  { runs_case Hr. by apply attempts_ok_done. }
  runs_case Hr. destruct a as [latest|err]; [|runs_case Hr; by apply attempts_ok_done].
  apply runs_bind_inv in Hr as [(st & t1 & t2 & H1 & Hr & ->)|(w & H1 & _)].
  2:{ by apply runs_ret_inv in H1 as [_ [=]]. }
  apply runs_ret_inv in H1 as [-> [= ->]]. cbn [app].
  destruct (statusEqual (Status latest) (f (Status latest))) eqn:Heq.
  { runs_case Hr. by apply attempts_ok_done. }
  runs_case Hr. destruct a as [stored|err].
  { runs_case Hr. apply attempts_ok_step; [done|]. by apply attempts_ok_done. }
  destruct (negb (IsConflict err)).
  { runs_case Hr. apply attempts_ok_step; [done|]. by apply attempts_ok_done. }
  runs_case Hr. destruct a as [conflicted|err'].
  2:{ runs_case Hr. apply attempts_ok_step; [done|]. by apply attempts_ok_done. }
  destruct (statusEqual (Status conflicted) (f (Status latest))).
  { runs_case Hr. apply attempts_ok_step; [done|]. by apply attempts_ok_done. }
  runs_case Hr. apply attempts_ok_step; [done|].
  apply (attempts_ok_prefix _ _ _ [_; _]); [done|]. by eapply IH.
Qed.

(** Whatever the API server answers, updateStatus terminates without panicking
    after at most five update attempts, and every attempt sends the version it has
    just read with the change applied to it, and only if the change is visible: no
    concurrent change to the object can be overwritten unseen. *)
Theorem updateStatus_optimistic m f tr out :
  runs (updateStatus m (plain f)) tr out →
  (length (status_updates tr) ≤ 5)%nat ∧ Forall (attempt f m tr) (status_updates tr) ∧
  ∃ r m', out = Ret (r, m').
Proof. apply update_loop_attempts. Qed.

(** A mapping on the reference server. *)
Definition ex_spec : NamespaceMappingSpec :=
  mkNamespaceMappingSpec None "" None None "east" "west" "prod" "dr" "" ["configmaps"; "deployments"]
    None [] None None None None.
Definition ex_mapping : NamespaceMapping :=
  mkNamespaceMapping "nm" "sys" ∅ [NamespaceMappingFinalizerName] None "1" ex_spec empty_status.
Definition ex_map_world : world := mkWorld [] [ex_mapping] [] 2 1000.

Lemma updateStatus_optimistic_witness :
  let p := updateStatus ex_mapping (plain (set_Phase SyncPhasePending)) in
  length (status_updates (run_trace api p ex_map_world)) = 1%nat ∧
  Forall (attempt (set_Phase SyncPhasePending) ex_mapping (run_trace api p ex_map_world))
    (status_updates (run_trace api p ex_map_world)).
Proof.
  split; [vm_compute; reflexivity|].
  exact (proj1 (proj2 (updateStatus_optimistic ex_mapping (set_Phase SyncPhasePending) _ _
    (run_trace_runs api (updateStatus ex_mapping (plain (set_Phase SyncPhasePending))) ex_map_world)))).
Defined.

(** ** What handleRetry records *)

(** After a success the server has acknowledged a status [f] made, or a version was read whose
    status does not differ from one. *)
Lemma update_loop_acknowledged n d m f tr m' :
  runs (update_loop n d m (plain f)) tr (Ret (Ok tt, m')) →
  (∃ latest stored, Ev (Sg := KSig) (KUpdateMappingStatus (set_Status (f (Status latest)) latest)) (Ok stored) ∈ tr) ∨
  (∃ x y, Ev (Sg := KSig) (KGetMapping (Namespace m) (Name m)) (Ok x) ∈ tr ∧ statusEqual (Status x) (f (Status y)) = true).
Proof.
  revert d tr. induction n as [|n IH]; intros d tr Hr; cbn [update_loop] in Hr; [by runs_case Hr|].
  runs_case Hr. destruct a as [latest|err]; [|by runs_case Hr].
  apply runs_bind_inv in Hr as [(st & t1 & t2 & H1 & Hr & ->)|(w & H1 & _)]; [|by apply runs_ret_inv in H1 as [_ [=]]].
  apply runs_ret_inv in H1 as [-> [= ->]]. cbn [app].
  destruct (statusEqual (Status latest) (f (Status latest))) eqn:Heq; [right; exists latest, latest; split; [left|done]|].
  runs_case Hr. destruct a as [stored|err]; [left; exists latest, stored; set_solver|].
  destruct (negb (IsConflict err)); [by runs_case Hr|].
  runs_case Hr. destruct a as [conflicted|err']; [|by runs_case Hr].
  destruct (statusEqual (Status conflicted) (f (Status latest))) eqn:Heq2; [right; exists conflicted, latest; split; [set_solver|done]|].
  runs_case Hr. apply IH in Hr as [(x & y & H)|(x & y & H & He)]; [left; exists x, y; set_solver|right; exists x, y; split; [set_solver|done]].
Qed.

(** The retries left and the backoff of the last failure; at first there are ten retries, and
    without a backoff that parses it counts as five seconds. *)
Definition retry_before (rs : option RetryStatus) (retries backoff : Z) : Prop :=
  match rs with
  | None => retries = 10 ∧ backoff = 5 * Second
  | Some rs => retries = rs.(RetriesRemaining) ∧ backoff = default (5 * Second) (ParseDuration rs.(BackoffDuration))
  end.

(** A status that records a failure at [now] after [retries] retries were left and a backoff of
    [backoff]: one retry fewer, twice the backoff up to five minutes, and the error. *)
Definition records_failure (retries backoff : Z) (err : error) (now : Time) (st : NamespaceMappingStatus) : Prop :=
  st.(Phase) = "Failed" ∧
  (∃ rs, st.(RetryStatus_) = Some rs ∧ rs.(RetriesRemaining) = (if 0 <? retries then retries - 1 else retries) ∧
     rs.(NextRetryTime) = Some (now + Z.min (300 * 10 ^ 9) (2 * backoff)) ∧
     rs.(BackoffDuration) = formatDuration (Z.min (300 * 10 ^ 9) (2 * backoff))) ∧
  ∃ e, st.(LastError) = Some e ∧ e.(SEMessage) = Error err ∧ e.(SETime) = now.

Lemma next_backoff_doubles c : 0 ≤ c → next_backoff c = Z.min (300 * 10 ^ 9) (2 * c).
Proof.
  intros Hc. change (300 * 10 ^ 9) with (5 * Minute). destruct (Z_le_gt_dec c (5 * Minute)) as [Hle|Hgt].
  - rewrite next_backoff_small by lia. lia.
  - unfold next_backoff. pose proof (r64_ge_small c (5 * Minute) ltac:(done) ltac:(done) ltac:(lia)).
    assert (0 ≤ 5 * Minute) by done. rewrite !Z.min_l by lia. by apply f64_to_int64_id.
Qed.

Lemma next_retry_numbers rs retries c : retry_before rs retries c → 0 ≤ c →
  (next_retry rs).2 = Z.min (300 * 10 ^ 9) (2 * c) ∧
  RetriesRemaining (next_retry rs).1 = (if 0 <? retries then retries - 1 else retries) ∧
  BackoffDuration (next_retry rs).1 = formatDuration (Z.min (300 * 10 ^ 9) (2 * c)).
Proof.
  intros Hb Hc. unfold next_retry. destruct rs as [[nrt rem text]|]; cbn in *.
  - destruct Hb as [-> Hb]. assert (current_backoff text = c) as ->.
    { rewrite Hb. unfold current_backoff. destruct (String.eqb_spec text "") as [->|]; [done|]. by destruct (ParseDuration text). }
    by rewrite next_backoff_doubles.
  - destruct Hb as [-> ->]. done.
Qed.

(** C29: every status handleRetry sends is that of the version it read, changed to record the
    failure: phase Failed, the error, one retry fewer than were left, the backoff doubled up to
    five minutes, and the next retry that long after the time of the failure.  When it reports
    success, the server has acknowledged such a status, or was read to hold one; and the
    decision it returns is to retry exactly when another retry is left, after that backoff. *)
Theorem handleRetry_sends m err tr d r m' retries backoff :
  retry_before (RetryStatus_ (Status m)) retries backoff → 0 ≤ backoff →
  runs (handleRetry m err) tr (Ret (d, r, m')) →
  ∃ now rest, tr = Ev (Sg := KSig) KNow now :: rest ∧
    d = mkRetryDecision (1 <? retries) (Z.min (300 * 10 ^ 9) (2 * backoff)) ∧
    (∀ x, x ∈ status_updates tr → records_failure retries backoff err now (Status x) ∧
       ∃ latest, Ev (Sg := KSig) (KGetMapping (Namespace m) (Name m)) (Ok latest) ∈ tr ∧ x = set_Status (Status x) latest) ∧
    (r = Ok tt →
      (∃ x stored, Ev (Sg := KSig) (KUpdateMappingStatus x) (Ok stored) ∈ tr ∧ records_failure retries backoff err now (Status x)) ∨
      (∃ x, Ev (Sg := KSig) (KGetMapping (Namespace m) (Name m)) (Ok x) ∈ tr ∧ records_failure retries backoff err now (Status x))).
Proof.
  intros Hb Hc Hr. destruct (next_retry_numbers _ _ _ Hb Hc) as (E1 & E2 & E3).
  unfold handleRetry in Hr. destruct (next_retry _) as [rs b]. cbn [fst snd] in *. subst b. runs_case Hr. rename a into now.
  set (f := λ st, set_Conditions (replace_synced (failed_condition now err
              (mkRetryStatus (Some (now + Z.min (300 * 10 ^ 9) (2 * backoff))) (RetriesRemaining rs) (BackoffDuration rs)))
              (Conditions (set_LastError (Some (error_details err now)) (set_RetryStatus_
                (Some (mkRetryStatus (Some (now + Z.min (300 * 10 ^ 9) (2 * backoff))) (RetriesRemaining rs) (BackoffDuration rs)))
                (set_Phase SyncPhaseFailed st)))))
              (set_LastError (Some (error_details err now)) (set_RetryStatus_
                (Some (mkRetryStatus (Some (now + Z.min (300 * 10 ^ 9) (2 * backoff))) (RetriesRemaining rs) (BackoffDuration rs)))
                (set_Phase SyncPhaseFailed st)))).
  assert (Hf : ∀ st, records_failure retries backoff err now (f st)).
  { intros st. split; [done|]. split; [eexists; by split_and!|]. exists (error_details err now). by destruct err. }
  apply runs_bind_inv in Hr as [([r0 m0] & t1 & t2 & H1 & Hr & ->)|(w & _ & [=])]. apply runs_ret_inv in Hr as [-> [= -> -> ->]].
  rewrite app_nil_r. exists now, t1. split; [done|]. split; [|split].
  - f_equal. cbn [RetriesRemaining]. rewrite E2. destruct (Z.ltb_spec 0 retries), (Z.ltb_spec 1 retries); lia.
  - intros x Hx. destruct (update_loop_attempts _ _ _ f _ _ H1) as (_ & Ha & _). rewrite Forall_forall in Ha.
    destruct (Ha x Hx) as (latest & Hl & -> & _). split; [apply Hf|]. exists latest. split; [by right|done].
  - intros [= ->]. destruct (update_loop_acknowledged _ _ _ f _ _ H1) as [(latest & stored & Hin)|(x & y & Hin & He)].
    + left. eexists _, stored. split; [by right|apply Hf].
    + right. exists x. split; [by right|]. apply statusEqual_andb in He as (Hp & _ & _ & _ & _ & Hle & Hrs & _).
      specialize (Hf (f y.(Status))). unfold records_failure in *. rewrite Hp, Hle, Hrs. apply (Hf).
Qed.

Definition clock_reading (e : event KSig) : option Time :=
  match e with
  | Ev o r => match o as o return KResp o → option Time with KNow => λ t, Some t | _ => λ _, None end r
  end.

(** Three retries left and a backoff of four minutes: five minutes, and the retry at the time
    that takes. *)
Definition retrying : NamespaceMapping :=
  set_Status (set_RetryStatus_ (Some (mkRetryStatus None 3 "4m")) empty_status) ex_mapping.

Lemma handleRetry_sends_witness :
  let w := mkWorld [] [retrying] [] 2 1000 in
  let tr := run_trace api (handleRetry retrying (PlainError "boom")) w in
  length (status_updates tr) = 1%nat ∧
  ∀ x, x ∈ status_updates tr → records_failure 3 (240 * 10 ^ 9) (PlainError "boom") 1000 (Status x).
Proof.
  intros w tr. split; [vm_compute; reflexivity|].
  assert (E : ∃ d m', (run api (handleRetry retrying (PlainError "boom")) w).1 = Ret (d, Ok tt, m')) by (eexists _, _; vm_compute; reflexivity).
  destruct E as (d & m' & E). pose proof (run_trace_runs api (handleRetry retrying (PlainError "boom")) w) as Hr. rewrite E in Hr.
  destruct (handleRetry_sends retrying (PlainError "boom") tr d (Ok tt) m' 3 (240 * 10 ^ 9)) as (now & rest & Ht & _ & Hx & _);
    [split; [reflexivity|vm_compute; reflexivity]|vm_compute; discriminate|exact Hr|].
  assert (Hh : (head tr ≫= clock_reading) = Some 1000) by (vm_compute; reflexivity).
  rewrite Ht in Hh. cbn in Hh. injection Hh as En.
  intros x Hin. destruct (Hx x Hin) as [H _]. rewrite En in H. exact H.
Defined.

Definition any_call : Op KSig → Prop := λ _, True.

Lemma safe_any {A} (p : KP A) : safe any_call p anyr.
Proof. induction p as [a|w|o k IH]; [done..|]. split; [done|exact IH]. Qed.

Definition ex_cron (s : string) : option (Time → Time) := Some (λ t, t + 5 * Minute).

(** The two clusters of [ex_spec] and the mapping itself. *)
Definition ex_sync_world : world :=
  mkWorld [mkEntry Src namespaces "" (new_namespace "prod" None None);
           mkEntry Src deployments "prod"
             (mkObject (mkGVK "" "" "") (mkObjectMeta "web" "prod" "u" "3" "" None [] [] 0 [] None None)
                (DeploymentBody (mkDeploymentSpec (Some 3) None "t" "" 0 None false None) ""))]
    [ex_mapping] [] 2 1000.
Definition ex_reconciler : ModeReconciler :=
  NewModeReconciler (mkResourceSyncer (Some Src) (Some Dst) (Some Src) (Some Dst) true) "east" "west".

(** ** What the modes leave alone *)

(** Calls that do not touch a cluster's resources. *)
Definition own_objects_only : Op KSig → Prop := λ o : KOp,
  match o with
  | KNow | KSleep _ | KGetMapping _ _ | KUpdateMappingStatus _ | KUpdateMapping _
  | KGetClusterMapping _ _ | KStartTicker _ => True
  | _ => False
  end.

Lemma update_loop_calls (P : Op KSig → Prop) n d m f :
  P (KGetMapping (Namespace m) (Name m)) → (∀ d, P (KSleep d)) →
  (∀ st, safe P (f st) (λ st', ∀ latest, P (KUpdateMappingStatus (set_Status st' latest)))) →
  safe P (update_loop n d m f) anyr.
Proof.
  intros Hg Hs Hf. revert d. induction n as [|n IH]; intros d; cbn [update_loop]; [done|].
  apply safe_call_bind; [done|]. intros [latest|err]; [|done].
  eapply safe_bind; [apply Hf|]. intros st' Hst'.
  repeat first [done | apply IH | apply Hst' | apply Hs | safe_step].
Qed.

(** A manual mapping without a sync annotation is not synced unless it is already
    Running: no call reaches the clusters, only its own status changes. *)
Theorem ReconcileManual_waits gcm r m tr out :
  Annotations m !! sync_now_annotation = None → Annotations m !! trigger_sync_annotation = None →
  Phase (Status m) ≠ SyncPhaseRunning →
  runs (ReconcileManual gcm r m) tr out → Forall (λ e, own_objects_only (ev_op e)) tr.
Proof.
  intros H1 H2 H3 Hr.
  assert (Hsafe : safe own_objects_only (ReconcileManual gcm r m) anyr).
  { unfold ReconcileManual, to_pending. rewrite H1, H2. cbn [orb].
    rewrite !bool_decide_eq_false_2 by (by intros []). cbn [orb].
    apply String.eqb_neq in H3. rewrite H3.
    repeat first [done | by apply update_loop_calls | safe_step]. }
  by apply (safe_sound _ _ _ _ _ Hsafe) in Hr as [? _].
Qed.

Lemma ReconcileManual_waits_witness :
  let p := ReconcileManual false ex_reconciler ex_mapping in
  (run api p ex_map_world).1 ≠ Panic "" ∧
  Forall (λ e, own_objects_only (ev_op e)) (run_trace api p ex_map_world).
Proof.
  split; [by vm_compute|].
  eapply (ReconcileManual_waits false ex_reconciler ex_mapping); [done..|apply run_trace_runs].
Defined.

(** ** The controller as it is wired *)

(** A call that neither touches a cluster nor marks a mapping as Completed. *)
Definition never_completes : Op KSig → Prop := λ o : KOp,
  match o with
  | KUpdateMappingStatus m => Phase (Status m) ≠ SyncPhaseCompleted
  | o => own_objects_only o
  end.

Lemma mark_running_safe w st :
  safe never_completes (mark_running w st)
    (λ st', ∀ latest, never_completes (KUpdateMappingStatus (set_Status st' latest))).
Proof. unfold mark_running. safe_step; [done|]. by destruct w. Qed.

Lemma handleRetry_safe m err : safe never_completes (handleRetry m err) anyr.
Proof.
  unfold handleRetry. destruct (next_retry _) as [rs b]. safe_step; [done|].
  apply safe_bind_any; [|intros; done]. by apply update_loop_calls.
Qed.

(** Without clients a sync fails before it calls anything. *)
Lemma syncResources_nil gcm r m : mrSyncer r = nil_clients →
  safe never_completes (syncResources gcm r m) (λ x, ∃ e, x.1 = Err e).
Proof.
  intros Hr. unfold syncResources. rewrite Hr. unfold SyncNamespaceResources.
  destruct (SyncCRDs (Spec m)) as [[]|]; cbn; eauto.
Qed.

Lemma sync_failed_safe on_retry m err : safe never_completes (sync_failed on_retry m err) anyr.
Proof.
  unfold sync_failed. apply safe_bind_any; [apply handleRetry_safe|].
  intros [[d [[]|e]] m']; [|done]. by destruct (shouldRetry d).
Qed.

Lemma perform_sync_nil gcm r m : mrSyncer r = nil_clients → safe never_completes (perform_sync gcm r m) anyr.
Proof.
  intros Hr. unfold perform_sync.
  apply safe_bind_any; [apply update_loop_calls; [done..|apply mark_running_safe]|].
  intros [[[]|e] m1]; [|done]. safe_step; [done|].
  eapply safe_bind; [by apply syncResources_nil|]. intros [sr m2] [e He]. cbn in He. subst sr.
  safe_step; [done|]. apply sync_failed_safe.
Qed.

Lemma scheduled_sync_nil cron gcm r m :
  mrSyncer r = nil_clients → safe never_completes (scheduled_sync cron gcm r m) anyr.
Proof.
  intros Hr. unfold scheduled_sync.
  apply safe_bind_any; [apply update_loop_calls; [done..|apply mark_running_safe]|].
  intros [[[]|e] m1]; [|done]. safe_step; [done|].
  eapply safe_bind; [by apply syncResources_nil|]. intros [sr m2] [e He]. cbn in He. subst sr.
  safe_step; [done|]. apply sync_failed_safe.
Qed.

(** Without a client nothing is watched: an informer that is started ends the process. *)
Lemma StartWatching_nil rs : safe never_completes (StartWatching (NewWatchManager None None) rs) anyr.
Proof. by destruct rs. Qed.

Definition has_no_clients (r : ModeReconciler) : Prop :=
  mrSyncer r = nil_clients ∧ watchManager r = NewWatchManager None None.

Lemma dispatch_nil cron gcm r m :
  has_no_clients r → safe never_completes (dispatch cron gcm r m) anyr.
Proof.
  intros [Hr Hw]. unfold dispatch.
  safe_step; [|safe_step]; (apply safe_bind_any; [|intros; done]).
  - unfold ReconcileContinuous. rewrite Hw. apply safe_bind_any; [apply StartWatching_nil|]. intros [s w].
    unfold StartBackgroundSync. repeat first [ done | safe_step ].
  - unfold ReconcileManual, to_pending.
    repeat first
      [ done | by apply perform_sync_nil | by apply update_loop_calls
      | apply update_loop_calls; [done..|apply mark_running_safe] | safe_step ].
  - unfold ReconcileScheduled. repeat first [ done | by apply scheduled_sync_nil | safe_step ].
Qed.

Lemma handleDeletion_safe m : safe never_completes (handleDeletion m) anyr.
Proof.
  unfold handleDeletion, cleanup_and_remove, CleanupResources, remove_finalizer.
  repeat first [ done | safe_step ].
Qed.

Lemma Reconcile_nil cron gcm ns name : safe never_completes (Reconcile cron gcm ns name) anyr.
Proof.
  unfold Reconcile, setupModeHandlerForNamespaceMapping.
  safe_step; [done|]. destruct r as [m|err]; [|repeat first [done|safe_step]].
  destruct (DeletionTimestamp m); [apply handleDeletion_safe|].
  safe_step; [done|]. safe_step; [repeat first [done|safe_step]|].
  apply (safe_bind _ _ _ (λ x, match x with Ok (r, _) => has_no_clients r | Err _ => True end)).
  - destruct (ClusterMappingRef _) as [ref|]; [|by safe_step].
    unfold cluster_mapping_key. apply (safe_bindE _ _ _ _ anyr); [|by intros ? _].
    apply safe_call; [done|]. by intros [].
  - intros [[r m']|e] Hx; [by apply dispatch_nil|done].
Qed.

(** C36: with the nil clients the controller passes to its mode reconcilers, no
    reconciliation ever calls a source or destination cluster or marks a mapping as
    Completed, and a deletion never cleans up the destination. *)
Theorem Reconcile_never_syncs cron gcm ns name tr out :
  runs (Reconcile cron gcm ns name) tr out → Forall (λ e, never_completes (ev_op e)) tr.
Proof. intros Hr. by apply (safe_sound _ _ _ _ _ (Reconcile_nil cron gcm ns name)) in Hr as [? _]. Qed.

Lemma Reconcile_never_syncs_witness :
  let p := Reconcile ex_cron false "sys" "nm" in
  (∃ after e, (run api p ex_sync_world).1 = Ret (after, Err e)) ∧
  Forall (λ e, never_completes (ev_op e)) (run_trace api p ex_sync_world).
Proof.
  split; [eexists _, _; vm_compute; reflexivity|].
  eapply (Reconcile_never_syncs ex_cron false "sys" "nm"). apply run_trace_runs.
Defined.
