(* ===== verification/Rfc3339.v ===== *)
(** * time.RFC3339: the timestamps of lock annotations

    [Format] of an instant in UTC and [Parse] with the layout
    2006-01-02T15:04:05Z07:00, for the years 0000 to 9999; an instant is a number
    of nanoseconds since 1970. *)

From S2P Require Import Prelude GoString.
From Stdlib Require Import Ascii.

(** ** The proleptic Gregorian calendar *)

Definition days_from_civil (y m d : Z) : Z :=
  let y' := if m <=? 2 then y - 1 else y in
  let era := y' / 400 in
  let yoe := y' - era * 400 in
  let doy := (153 * (if 2 <? m then m - 3 else m + 9) + 2) / 5 + d - 1 in
  let doe := yoe * 365 + yoe / 4 - yoe / 100 + doy in
  era * 146097 + doe - 719468.

(** Year, month and day of a day of a 400-year era that starts on the first of March. *)
Definition civil_of_doe (doe : Z) : Z * Z * Z :=
  let yoe := (doe - doe / 1460 + doe / 36524 - doe / 146096) / 365 in
  let doy := doe - (365 * yoe + yoe / 4 - yoe / 100) in
  let mp := (5 * doy + 2) / 153 in
  let d := doy - (153 * mp + 2) / 5 + 1 in
  let m := if mp <? 10 then mp + 3 else mp - 9 in
  (if m <=? 2 then yoe + 1 else yoe, m, d).

Definition civil_from_days (z : Z) : Z * Z * Z :=
  let z := z + 719468 in
  let '(y, m, d) := civil_of_doe (z mod 146097) in
  (y + z / 146097 * 400, m, d).

Definition leap (y : Z) : bool := (y mod 4 =? 0) && (negb (y mod 100 =? 0) || (y mod 400 =? 0)).

Definition daysIn (m y : Z) : Z :=
  if m =? 2 then (if leap y then 29 else 28)
  else if (m =? 4) || (m =? 6) || (m =? 9) || (m =? 11) then 30 else 31.

(** ** Printing *)

Definition pad2 (n : Z) : string := String (digit_char (n / 10)) (String (digit_char (n mod 10)) "").
Definition pad4 (n : Z) : string := pad2 (n / 100) +:+ pad2 (n mod 100).

Definition FormatRFC3339 (t : Z) : string :=
  let secs := t / Second in
  let '(y, m, d) := civil_from_days (secs / 86400) in
  let sod := secs mod 86400 in
  pad4 y +:+ "-" +:+ pad2 m +:+ "-" +:+ pad2 d +:+ "T" +:+ pad2 (sod / 3600) +:+ ":" +:+
  pad2 (sod / 60 mod 60) +:+ ":" +:+ pad2 (sod mod 60) +:+ "Z".

(** The layout 20060102-150405, of the names of pods and syncs. *)
Definition FormatStamp (t : Z) : string :=
  let secs := t / Second in
  let '(y, m, d) := civil_from_days (secs / 86400) in
  let sod := secs mod 86400 in
  pad4 y +:+ pad2 m +:+ pad2 d +:+ "-" +:+ pad2 (sod / 3600) +:+ pad2 (sod / 60 mod 60) +:+ pad2 (sod mod 60).

(** The layout 20060102150405: the same without the dash. *)
Definition FormatCompact (t : Z) : string :=
  let secs := t / Second in
  let '(y, m, d) := civil_from_days (secs / 86400) in
  let sod := secs mod 86400 in
  pad4 y +:+ pad2 m +:+ pad2 d +:+ pad2 (sod / 3600) +:+ pad2 (sod / 60 mod 60) +:+ pad2 (sod mod 60).

(** ** Parsing *)

Definition get2 (s : string) : option (Z * string) :=
  match s with
  | String a (String b r) =>
      if is_digit a && is_digit b then Some (10 * (code a - 48) + (code b - 48), r) else None
  | _ => None
  end.

Definition get4 (s : string) : option (Z * string) :=
  '(a, s) ← get2 s; '(b, s) ← get2 s; Some (100 * a + b, s).

Definition expect (c : ascii) (s : string) : option string :=
  match s with
  | String a r => if Ascii.eqb a c then Some r else None
  | EmptyString => None
  end.

(** An optional fraction of a second: a point or comma and digits; nine digits count. *)
Fixpoint fraction_value (s : string) (places : nat) (acc : Z) : Z :=
  match places with
  | O => acc
  | S p =>
      match s with
      | String c r => fraction_value r p (10 * acc + (code c - 48))
      | EmptyString => fraction_value s p (10 * acc)
      end
  end.

Fixpoint drop_digits (s : string) : string :=
  match s with
  | String c r => if is_digit c then drop_digits r else s
  | EmptyString => s
  end.

Definition get_fraction (s : string) : Z * string :=
  match s with
  | String p (String c r) =>
      if (Ascii.eqb p "." || Ascii.eqb p ",") && is_digit c
      then (fraction_value (take_digits (String c r)) 9 0, drop_digits (String c r)) else (0, s)
  | _ => (0, s)
  end.

(** Z or a numeric offset, in seconds. *)
Definition get_zone (s : string) : option Z :=
  match s with
  | String z r =>
      if Ascii.eqb z "Z" then (if r =s? "" then Some 0 else None)
      else if Ascii.eqb z "+" || Ascii.eqb z "-" then
        '(hh, r) ← get2 r; r ← expect ":" r; '(mm, r) ← get2 r;
        if (r =s? "") && (hh <=? 24) && (mm <? 60) then
          Some ((if Ascii.eqb z "-" then -1 else 1) * (hh * 3600 + mm * 60))
        else None
      else None
  | EmptyString => None
  end.

Definition ParseRFC3339 (s : string) : option Z :=
  '(y, s) ← get4 s; s ← expect "-" s; '(m, s) ← get2 s; s ← expect "-" s; '(d, s) ← get2 s;
  s ← expect "T" s; '(hh, s) ← get2 s; s ← expect ":" s; '(mi, s) ← get2 s; s ← expect ":" s;
  '(ss, s) ← get2 s;
  let '(frac, s) := get_fraction s in
  zone ← get_zone s;
  if (1 <=? m) && (m <=? 12) && (1 <=? d) && (d <=? daysIn m y) && (hh <? 24) && (mi <? 60) && (ss <? 60)
  then Some ((days_from_civil y m d * 86400 + hh * 3600 + mi * 60 + ss - zone) * Second + frac)
  else None.

(** ** The round trip *)

Fixpoint all_below (f : Z → bool) (n : nat) (z : Z) : bool :=
  match n with
  | O => true
  | S n' => f z && all_below f n' (z + 1)
  end.

Lemma all_below_spec f n z k : all_below f n z = true → z ≤ k < z + Z.of_nat n → f k = true.
Proof.
  revert z. induction n as [|n IH]; intros z H Hk; [lia|]. cbn in H. bool_props.
  destruct (Z.eq_dec k z) as [->|]; [done|]. apply (IH (z + 1)); [done|lia].
Qed.

(** First day of a year of the era, and the numerator that recovers the year. *)
Definition year_start (y : Z) : Z := 365 * y + y / 4 - y / 100.
Definition year_num (doe : Z) : Z := doe - doe / 1460 + doe / 36524 - doe / 146096.

(** A year of the era, by computation: its first and last days give it back, and it
    has 366 days exactly when the February that ends it has 29. *)
Definition year_ok (y : Z) : bool :=
  let next := if y =? 399 then 146097 else year_start (y + 1) in
  (y <=? year_num (year_start y) / 365) && (year_num (next - 1) / 365 <=? y) &&
  (next =? year_start y + (if leap (y + 1) then 366 else 365)).

Lemma year_valid y : 0 ≤ y < 400 → year_ok y = true.
Proof. intros H. apply (all_below_spec _ 400 0); [vm_compute; reflexivity|lia]. Qed.

(** A day of a year that starts in March, by computation. *)
Definition doy_ok (doy : Z) : bool :=
  let mp := (5 * doy + 2) / 153 in
  let d := doy - (153 * mp + 2) / 5 + 1 in
  let m := if mp <? 10 then mp + 3 else mp - 9 in
  (1 <=? m) && (m <=? 12) && (1 <=? d) && (d <=? (if m =? 2 then (if doy =? 365 then 29 else 28) else daysIn m 1))
  && ((153 * (if 2 <? m then m - 3 else m + 9) + 2) / 5 + d - 1 =? doy).

Lemma doy_valid doy : 0 ≤ doy < 366 → doy_ok doy = true.
Proof. intros H. apply (all_below_spec _ 366 0); [vm_compute; reflexivity|lia]. Qed.

Lemma sub_div_mono k a b : 0 < k → a ≤ b → a - a / k ≤ b - b / k.
Proof.
  intros Hk Hab. assert (b / k ≤ (a + (b - a) * k) / k) as H by (apply Z.div_le_mono; nia).
  rewrite Z.div_add in H by lia. lia.
Qed.

Lemma year_num_mono a b : 0 ≤ a ≤ b → b < 146097 → year_num a ≤ year_num b.
Proof.
  unfold year_num. intros. pose proof (sub_div_mono 1460 a b).
  change 146096 with (36524 * 4). rewrite <- !Z.div_div by lia.
  assert (a / 36524 ≤ b / 36524) by (apply Z.div_le_mono; lia).
  pose proof (sub_div_mono 4 (a / 36524) (b / 36524)). lia.
Qed.

Lemma year_quot_mono a b : 0 ≤ a ≤ b → b < 146097 → year_num a / 365 ≤ year_num b / 365.
Proof. intros. apply Z.div_le_mono; [lia|]. by apply year_num_mono. Qed.

Lemma year_start_bounds y : 0 ≤ y ≤ 400 → 0 ≤ year_start y ≤ 146097.
Proof. unfold year_start. Z.to_euclidean_division_equations. lia. Qed.

(** The year of a day is the one that contains it. *)
Lemma year_of_doe doe :
  0 ≤ doe < 146097 → let y := year_num doe / 365 in
  0 ≤ y < 400 ∧ 0 ≤ doe - year_start y < (if leap (y + 1) then 366 else 365).
Proof.
  intros H y.
  assert (Hy : 0 ≤ y < 400).
  { pose proof (year_num_mono 0 doe ltac:(lia) ltac:(lia)) as L.
    pose proof (year_num_mono doe 146096 ltac:(lia) ltac:(lia)) as U.
    change (year_num 0) with 0 in L. change (year_num 146096) with 145999 in U.
    subst y. split; [apply Z.div_pos; lia|apply Z.div_lt_upper_bound; lia]. }
  split; [done|]. pose proof (year_valid y Hy) as Y. unfold year_ok in Y. bool_props.
  split.
  - destruct (Z_lt_le_dec doe (year_start y)) as [Hl|]; [|lia]. exfalso.
    destruct (Z.eq_dec y 0) as [E|E]; [rewrite E in Hl; change (year_start 0) with 0 in Hl; lia|].
    pose proof (year_valid (y - 1) ltac:(lia)) as P. unfold year_ok in P. bool_props.
    rewrite (proj2 (Z.eqb_neq (y - 1) 399)) in * by lia. replace (y - 1 + 1) with y in * by lia.
    pose proof (year_start_bounds y ltac:(lia)).
    pose proof (year_quot_mono doe (year_start y - 1) ltac:(lia) ltac:(lia)). subst y. lia.
  - match goal with _ : ?n = _ + (if leap _ then _ else _) |- _ =>
      destruct (Z_lt_le_dec doe n) as [|Hl]; [lia|] end. exfalso.
    destruct (Z.eqb_spec y 399) as [E|E]; [lia|].
    pose proof (year_valid (y + 1) ltac:(lia)) as P. unfold year_ok in P. bool_props.
    pose proof (year_start_bounds (y + 1) ltac:(lia)).
    pose proof (year_quot_mono (year_start (y + 1)) doe ltac:(lia) ltac:(lia)). subst y. lia.
Qed.

(** Every day of the era is a valid date that converts back. *)
Lemma doe_valid doe :
  0 ≤ doe < 146097 → let '(y, m, d) := civil_of_doe doe in
  days_from_civil y m d + 719468 = doe ∧ 1 ≤ m ≤ 12 ∧ 1 ≤ d ≤ daysIn m y.
Proof.
  intros H. destruct (year_of_doe doe H) as [Hy Hd]. unfold civil_of_doe. fold (year_num doe).
  set (y := year_num doe / 365) in *. fold (year_start y). set (doy := doe - year_start y) in *.
  pose proof (doy_valid doy ltac:(destruct (leap (y + 1)); lia)) as D. unfold doy_ok in D.
  set (mp := (5 * doy + 2) / 153) in *. set (m := if mp <? 10 then mp + 3 else mp - 9) in *.
  set (d := doy - (153 * mp + 2) / 5 + 1) in *. cbv zeta in D. bool_props.
  split_and!; try lia.
  - unfold days_from_civil.
    replace (if m <=? 2 then (if m <=? 2 then y + 1 else y) - 1 else (if m <=? 2 then y + 1 else y)) with y
      by (destruct (m <=? 2); lia).
    rewrite (Z.div_small y 400), !Z.mul_0_l, !Z.sub_0_r by lia. subst doy. unfold year_start in *. lia.
  - unfold daysIn in *. destruct (Z.eqb_spec m 2) as [E|]; [|lia]. rewrite E. change (2 <=? 2) with true.
    cbv iota. destruct (leap (y + 1)); destruct (Z.eqb_spec doy 365); lia.
Qed.

Lemma days_from_civil_shift y m d k :
  days_from_civil (y + k * 400) m d = days_from_civil y m d + k * 146097.
Proof.
  unfold days_from_civil.
  replace (if m <=? 2 then y + k * 400 - 1 else y + k * 400)
    with ((if m <=? 2 then y - 1 else y) + k * 400) by (destruct (m <=? 2); lia).
  set (y' := if m <=? 2 then y - 1 else y). rewrite Z.div_add by lia.
  replace (y' + k * 400 - (y' / 400 + k) * 400) with (y' - y' / 400 * 400) by lia. lia.
Qed.

Lemma leap_shift y k : leap (y + k * 400) = leap y.
Proof.
  unfold leap.
  replace (y + k * 400) with (y + (k * 100) * 4) at 1 by lia. rewrite Z.mod_add by lia.
  replace (y + k * 400) with (y + (k * 4) * 100) at 1 by lia. rewrite Z.mod_add by lia.
  by rewrite Z.mod_add by lia.
Qed.

(** Days to dates and back, and the date is a valid one. *)
Lemma civil_roundtrip z :
  let '(y, m, d) := civil_from_days z in
  days_from_civil y m d = z ∧ 1 ≤ m ≤ 12 ∧ 1 ≤ d ≤ daysIn m y.
Proof.
  unfold civil_from_days. set (u := z + 719468).
  pose proof (doe_valid (u mod 146097) ltac:(apply Z.mod_pos_bound; lia)) as H.
  destruct (civil_of_doe (u mod 146097)) as [[y m] d]. destruct H as (H & Hm & Hd).
  rewrite days_from_civil_shift. unfold daysIn in *. rewrite leap_shift.
  pose proof (Z.div_mod u 146097 ltac:(lia)). split_and!; try lia.
Qed.

Lemma get2_pad2 n r : 0 ≤ n < 100 → get2 (pad2 n +:+ r) = Some (n, r).
Proof.
  intros Hn. change (pad2 n +:+ r) with (String (digit_char (n / 10)) (String (digit_char (n mod 10)) r)).
  pose proof (Z.mod_pos_bound n 10 ltac:(lia)). pose proof (Z.div_mod n 10 ltac:(lia)).
  assert (0 ≤ n / 10 < 10) by (split; [apply Z.div_pos; lia|apply Z.div_lt_upper_bound; lia]).
  destruct (is_digit_char (n / 10)) as [D1 C1]; [lia|].
  destruct (is_digit_char (n mod 10)) as [D2 C2]; [lia|].
  unfold get2. rewrite D1, D2, C1, C2. cbn. do 2 f_equal. lia.
Qed.

Lemma get4_pad4 n r : 0 ≤ n < 10000 → get4 (pad4 n +:+ r) = Some (n, r).
Proof.
  intros Hn. unfold get4, pad4.
  pose proof (Z.mod_pos_bound n 100 ltac:(lia)). pose proof (Z.div_mod n 100 ltac:(lia)).
  assert (0 ≤ n / 100 < 100) by (split; [apply Z.div_pos; lia|apply Z.div_lt_upper_bound; lia]).
  change ((pad2 (n / 100) +:+ pad2 (n mod 100)) +:+ r) with (pad2 (n / 100) +:+ (pad2 (n mod 100) +:+ r)).
  rewrite get2_pad2 by lia. cbn [mbind option_bind]. rewrite get2_pad2 by lia. cbn. do 2 f_equal. lia.
Qed.

(** The instants of the years 0 to 9999. *)
Definition rfc3339_year (t : Z) : Prop := 0 ≤ (civil_from_days (t / Second / 86400)).1.1 < 10000.

#[global] Instance rfc3339_year_dec t : Decision (rfc3339_year t).
Proof. unfold rfc3339_year. apply _. Defined.

Lemma Parse_Format t : rfc3339_year t → ParseRFC3339 (FormatRFC3339 t) = Some (t - t mod Second).
Proof.
  intros Hy. unfold FormatRFC3339, rfc3339_year in *. set (secs := t / Second) in *.
  pose proof (civil_roundtrip (secs / 86400)) as Hc.
  destruct (civil_from_days (secs / 86400)) as [[y m] d]. cbn [fst] in Hy.
  destruct Hc as (Hdays & Hm & Hd).
  assert (Hd2 : daysIn m y ≤ 31) by (unfold daysIn; repeat case_match; lia).
  pose proof (Z.mod_pos_bound secs 86400 ltac:(lia)) as Hsod. set (sod := secs mod 86400) in *.
  assert (Hh : 0 ≤ sod / 3600 < 24) by (split; [apply Z.div_pos; lia|apply Z.div_lt_upper_bound; lia]).
  pose proof (Z.mod_pos_bound (sod / 60) 60 ltac:(lia)) as Hmi.
  pose proof (Z.mod_pos_bound sod 60 ltac:(lia)) as Hs.
  unfold ParseRFC3339. rewrite get4_pad4 by lia. cbn [mbind option_bind].
  change (expect "-" ("-" +:+ ?x)) with (Some x). cbn [mbind option_bind].
  rewrite get2_pad2 by lia. cbn [mbind option_bind].
  change (expect "-" ("-" +:+ ?x)) with (Some x). cbn [mbind option_bind].
  rewrite get2_pad2 by lia. cbn [mbind option_bind].
  change (expect "T" ("T" +:+ ?x)) with (Some x). cbn [mbind option_bind].
  rewrite get2_pad2 by lia. cbn [mbind option_bind].
  change (expect ":" (":" +:+ ?x)) with (Some x). cbn [mbind option_bind].
  rewrite get2_pad2 by lia. cbn [mbind option_bind].
  change (expect ":" (":" +:+ ?x)) with (Some x). cbn [mbind option_bind].
  rewrite get2_pad2 by lia. cbn [mbind option_bind get_fraction get_zone Ascii.eqb String.eqb].
  cbn -[daysIn days_from_civil Z.mul Z.add Z.sub Z.div Z.modulo Second].
  assert (Hb : (1 <=? m) && (m <=? 12) && (1 <=? d) && (d <=? daysIn m y) && (sod / 3600 <? 24)
    && (sod / 60 mod 60 <? 60) && (sod mod 60 <? 60) = true).
  { rewrite !andb_true_iff, !Z.leb_le, !Z.ltb_lt. lia. }
  rewrite Hb. f_equal. rewrite Hdays.
  assert (Hsum : sod / 3600 * 3600 + sod / 60 mod 60 * 60 + sod mod 60 = sod).
  { clear. Z.to_euclidean_division_equations. lia. }
  pose proof (Z.div_mod secs 86400 ltac:(lia)). pose proof (Z.div_mod t Second ltac:(done)).
  fold sod in H. fold secs in H0. nia.
Qed.
