(* ===== verification/Regexp.v ===== *)
(** * regexp: the leftmost-first matches the parsers of rsync's output use

    Patterns without nested repetition: classes, their greedy repetition, sequences,
    alternatives and groups.  Go prefers, among the matches that start leftmost, the one a
    backtracking search finds first; [rmatch] is that search. *)

From S2P Require Import Prelude GoString.
From Stdlib Require Import Ascii.

Inductive re : Type :=
| REps
| RClass (p : ascii → bool)
| RPlus (p : ascii → bool)
| RSeq (a b : re)
| RAlt (a b : re)
| RGroup (a : re).

(** What was read between [s] and its suffix [s']. *)
Definition consumed (s s' : string) : string := String.substring 0 (String.length s - String.length s') s.

(** The greedy repetition, at least once, of a class. *)
Fixpoint rplus {R : Type} (p : ascii → bool) (s : string) (k : string → option R) : option R :=
  match s with
  | EmptyString => None
  | String c rest =>
      if p c then match rplus p rest k with Some x => Some x | None => k rest end else None
  end.

(** Match [r] at the start of [s]; [k] is what follows, with the groups so far. *)
Fixpoint rmatch {R : Type} (r : re) (s : string) (groups : list string)
    (k : string → list string → option R) : option R :=
  match r with
  | REps => k s groups
  | RClass p => match s with String c rest => if p c then k rest groups else None | EmptyString => None end
  | RPlus p => rplus p s (λ rest, k rest groups)
  | RSeq a b => rmatch a s groups (λ s' g', rmatch b s' g' k)
  | RAlt a b => match rmatch a s groups k with Some x => Some x | None => rmatch b s groups k end
  | RGroup a => rmatch a s groups (λ s' g', k s' (g' ++ [consumed s s'])%list)
  end.

(** The groups of a match at the start of [s] (the anchor ^). *)
Definition match_here (r : re) (s : string) : option (list string) := rmatch r s [] (λ _ g, Some g).

(** FindStringSubmatch: the groups of the leftmost match. *)
Fixpoint FindStringSubmatch (r : re) (s : string) : option (list string) :=
  match match_here r s with
  | Some g => Some g
  | None => match s with String _ rest => FindStringSubmatch r rest | EmptyString => None end
  end.

(** A literal. *)
Fixpoint rlit (s : string) : re :=
  match s with
  | EmptyString => REps
  | String c rest => RSeq (RClass (Ascii.eqb c)) (rlit rest)
  end.

(** [?] on a group that captures nothing when it is absent. *)
Definition ropt_group (a : re) : re := RAlt (RGroup a) (RGroup REps).

(** A character of a set given as a string. *)
Fixpoint one_of (set : string) (c : ascii) : bool :=
  match set with
  | EmptyString => false
  | String d rest => Ascii.eqb c d || one_of rest c
  end.

(** ** Lemmas *)

Lemma slength_cons c s : String.length (String c s) = S (String.length s).
Proof. done. Qed.

Lemma consumed_app a b : consumed (a +:+ b) b = a.
Proof.
  unfold consumed. assert (Hl : String.length (a +:+ b) = (String.length a + String.length b)%nat).
  { induction a as [|c a IH]; [done|]. by rewrite sappend_cons, !slength_cons, IH. }
  rewrite Hl. replace (String.length a + String.length b - String.length b)%nat with (String.length a) by lia.
  clear Hl. induction a as [|c a IH]; [by destruct b|]. rewrite sappend_cons, slength_cons. cbn. by rewrite IH.
Qed.

(** All characters of a string satisfy [p]. *)
Fixpoint sforall (p : ascii → bool) (s : string) : bool :=
  match s with EmptyString => true | String c rest => p c && sforall p rest end.

(** The first character, if any, does not satisfy [p]. *)
Definition stops (p : ascii → bool) (s : string) : bool :=
  match s with EmptyString => true | String c _ => negb (p c) end.

(** The greedy choice succeeds at the end of the run. *)
Lemma rplus_run {R} p (a b : string) (k : string → option R) x :
  a ≠ "" → sforall p a = true → stops p b = true → k b = Some x → rplus p (a +:+ b) k = Some x.
Proof.
  intros Hne Ha Hb Hk. induction a as [|c a IH]; [done|]. cbn in Ha. apply andb_true_iff in Ha as [Hc Ha].
  rewrite sappend_cons. cbn [rplus]. rewrite Hc. destruct a as [|d a].
  - rewrite sappend_nil. destruct b as [|e b]; cbn [rplus]; [done|]. cbn in Hb. apply negb_true_iff in Hb. by rewrite Hb.
  - by rewrite IH.
Qed.

(** A run followed by something the continuation rejects everywhere in the run. *)
Lemma rplus_fail {R} p (s : string) (k : string → option R) :
  (∀ a b, s = a +:+ b → a ≠ "" → sforall p a = true → k b = None) → rplus p s k = None.
Proof.
  induction s as [|c s IH]; intros H; [done|]. cbn [rplus]. destruct (p c) eqn:Hc; [|done].
  rewrite IH.
  - apply (H (String c "") s); [done|done|]. cbn. by rewrite Hc.
  - intros a b -> Hne Ha. apply (H (String c a) b); [done|done|]. cbn. by rewrite Hc.
Qed.

Lemma rlit_match {R} l s g (k : string → list string → option R) :
  rmatch (rlit l) (l +:+ s) g k = k s g.
Proof. induction l as [|c l IH]; [done|]. rewrite sappend_cons. cbn. by rewrite Ascii.eqb_refl. Qed.
