(* ===== verification/Progress.v ===== *)
(** * rsync's output: the parsers and printers of sync_status.go

    ParseRsyncOutput reads the summary of a finished transfer, ParseProgress2Output the
    lines of --info=progress2, FormatDuration prints the remaining time.  A speed is a
    float64 at the scale 2^131 of Float.v. *)

From S2P Require Import Prelude GoString Float Duration Regexp.
From Stdlib Require Import Ascii.

Definition newline : ascii := "010"%char.

(** [strings.Contains(line, "%")] and the like. *)
Definition digits_or_comma : ascii → bool := λ c, is_digit c || Ascii.eqb c ",".

(** [strings.ReplaceAll(s, ",", "")] *)
Definition no_commas (s : string) : string := ReplaceAll s "," "".

Definition sentPattern : re := RSeq (rlit "sent ") (RSeq (RGroup (RPlus digits_or_comma)) (rlit " bytes")).

Definition fileCountPattern : re :=
  RSeq (rlit "Number of ") (RSeq (ropt_group (rlit "regular ")) (RSeq (rlit "files ")
    (RSeq (RGroup (RAlt (rlit "transferred") (rlit "created"))) (RSeq (rlit ": ") (RGroup (RPlus digits_or_comma)))))).

(** The counters of the loop over the lines: bytes, files, transfer lines. *)
Definition scan_line (acc : Z * Z * Z) (line : string) : Z * Z * Z :=
  let '(bytesTransferred, filesTransferred, fileTransferCount) := acc in
  let bytesTransferred :=
    match FindStringSubmatch sentPattern line with
    | Some [n] => match ParseInt (no_commas n) 64 with Some b => int64 (bytesTransferred + b) | None => bytesTransferred end
    | _ => bytesTransferred
    end in
  let filesTransferred :=
    match FindStringSubmatch fileCountPattern line with
    | Some [_; _; n] => default filesTransferred (Atoi (no_commas n))
    | _ => filesTransferred
    end in
  let fileTransferCount :=
    if Contains line "%" && (Contains line "to-chk=" || Contains line "to-check=") then fileTransferCount + 1
    else fileTransferCount in
  (bytesTransferred, filesTransferred, fileTransferCount).

(** Bytes, files and progress; the error is always nil. *)
Definition ParseRsyncOutput (output : string) : Z * Z * Z :=
  let '(bytesTransferred, files, fileTransferCount) := foldl scan_line (0, 0, 0) (Split output newline) in
  let filesTransferred := if (files =? 0) && (0 <? fileTransferCount) then fileTransferCount else files in
  let progress :=
    if 0 <? filesTransferred then
      if Contains output "speedup is" || Contains output "total size is" then 100
      else Z.min 95 fileTransferCount
    else 0 in
  (bytesTransferred, filesTransferred, progress).

(** Progress2Info *)
Record Progress2Info : Type := mkProgress2Info {
  piBytesTransferred : Z;
  piTotalBytes : Z;
  piFilesTransferred : Z;
  piTotalFiles : Z;
  piProgress : Z;
  piSpeedBytesPerSec : Z;
  piETASeconds : Z
}.

(** The last line that has a percent sign. *)
Fixpoint progress_line (rev_lines : list string) : string :=
  match rev_lines with
  | [] => ""
  | l :: rest =>
      let line := TrimSpace l in
      if negb (line =s? "") && Contains line "%" then line else progress_line rest
  end.

Definition bytesPattern : re := RSeq (RAlt (RPlus (one_of (String "009" (String "010" (String "012" (String "013" " ")))))) REps)
                                     (RGroup (RPlus digits_or_comma)).
Definition percentPattern : re := RSeq (RGroup (RPlus is_digit)) (rlit "%").
Definition speedPattern : re :=
  RSeq (RGroup (RPlus (λ c, is_digit c || Ascii.eqb c "."))) (RSeq (RGroup (RPlus (one_of "kKMGTB"))) (rlit "/s")).
Definition etaPattern : re :=
  RSeq (RGroup (RPlus is_digit)) (RSeq (rlit ":") (RSeq (RGroup (RPlus is_digit)) (RSeq (rlit ":") (RGroup (RPlus is_digit))))).
Definition xfrPattern : re := RSeq (rlit "xfr#") (RGroup (RPlus is_digit)).
Definition toChkPattern : re :=
  RSeq (rlit "to-ch") (RSeq (RPlus (one_of "ek")) (RSeq (rlit "=") (RSeq (RGroup (RPlus is_digit))
    (RSeq (rlit "/") (RGroup (RPlus is_digit)))))).

(** [n, _ := strconv.Atoi(digits)]: out of range the value is the largest one. *)
Definition atoi_clamped (s : string) : Z := Z.min (default 0 (parse_unsigned s)) 9223372036854775807.

(** [strconv.ParseFloat] of digits and points. *)
Definition parse_float (s : string) : option Z :=
  match Split s "." with
  | [a] => (λ n, fdiv131 n 1) <$> parse_unsigned a
  | [a; b] =>
      if (a =s? "") && (b =s? "") then None
      else (λ n, fdiv131 n (10 ^ Z.of_nat (String.length b))) <$> parse_digits (a +:+ b) 0
  | _ => None
  end.

(** The factor of a unit: the prefix of its upper case. *)
Definition speed_factor (unit : string) : Z :=
  match unit with
  | String c _ =>
      if Ascii.eqb c "K" || Ascii.eqb c "k" then 1024
      else if Ascii.eqb c "M" then 1024 * 1024
      else if Ascii.eqb c "G" then 1024 * 1024 * 1024
      else if Ascii.eqb c "T" then 1024 * 1024 * 1024 * 1024
      else 1
  | EmptyString => 1
  end.

Definition ParseProgress2Output (output : string) : Progress2Info :=
  let progressLine := progress_line (rev (Split output newline)) in
  if progressLine =s? "" then mkProgress2Info 0 0 0 0 0 0 0
  else
    let bytes :=
      match match_here bytesPattern progressLine with
      | Some [n] => default 0 (ParseInt (no_commas n) 64)
      | _ => 0
      end in
    let pct :=
      match FindStringSubmatch percentPattern progressLine with Some [n] => Atoi n | _ => None end in
    let progress := default 0 pct in
    let total :=
      match pct with
      | Some p => if (0 <? p) && (0 <? bytes) then Z.quot (int64 (bytes * 100)) p else 0
      | None => 0
      end in
    let speed :=
      match FindStringSubmatch speedPattern progressLine with
      | Some [v; unit] => match parse_float v with Some f => f * speed_factor unit | None => 0 end
      | _ => 0
      end in
    let eta :=
      match FindStringSubmatch etaPattern progressLine with
      | Some [h; m; s] => int64 (int64 (int64 (atoi_clamped h * 3600) + int64 (atoi_clamped m * 60)) + atoi_clamped s)
      | _ => 0
      end in
    let xfr := match FindStringSubmatch xfrPattern progressLine with Some [n] => default 0 (Atoi n) | _ => 0 end in
    let '(files, total_files) :=
      match FindStringSubmatch toChkPattern progressLine with
      | Some [r; t] => (if xfr =? 0 then int64 (atoi_clamped t - atoi_clamped r) else xfr, atoi_clamped t)
      | _ => (xfr, 0)
      end in
    mkProgress2Info bytes total files total_files progress speed eta.

(** [d.Hours()] and the like are floats that are exact for these values. *)
Definition FormatDuration (seconds : Z) : string :=
  if seconds <=? 0 then ""
  else
    let d := int64 (seconds * Second) in
    if Hour <=? d then itoa (Z.quot d Hour) +:+ "h" +:+ itoa (Z.rem (Z.quot d Minute) 60) +:+ "m"
    else if Minute <=? d then itoa (Z.quot d Minute) +:+ "m" +:+ itoa (Z.rem (Z.quot d Second) 60) +:+ "s"
    else itoa seconds +:+ "s".

Example progress2_line :
  ParseProgress2Output "  1,234,567  12%  100.00kB/s    0:05:30  (xfr#5, to-chk=95/100)" =
  mkProgress2Info 1234567 10288058 5 100 12 (102400 * 2 ^ 131) 330.
Proof. vm_compute. reflexivity. Qed.

Example rsync_summary :
  ParseRsyncOutput (Join ["Number of regular files transferred: 1,024"; "sent 12,345 bytes  received 67 bytes  8.00 bytes/sec";
                          "total size is 99  speedup is 1.00"] (String newline "")) = (12345, 1024, 100).
Proof. vm_compute. reflexivity. Qed.
