(* ===== verification/Immutable.v ===== *)
(** * Immutable resources and claims: pkg/controllers/sync

    immutable.go decides what to do with a resource whose fields cannot be updated in
    place (nothing, recreate it, drain its pods first, update only mutable fields, force
    the deletion) and does it; pvc.go copies claims and their volumes.

    The controller-runtime client is a client of one cluster.  Its RESTMapping of an
    object's type to a resource and retry.OnError of client-go are parameters
    ([RESTMapper], [OnErrorRetry]) with the law OnError documents.  An [Object] implements
    client.Object and metav1.Object, so those assertions hold. *)

From S2P Require Import Prelude GoString Errors Types Kube KubeLogic Rfc3339.

(** ** Polling loops

    [for time.Now().Before(deadline) { body; time.Sleep(time.Second) }].  The body
    leaves the loop ([Break]), returns from the function ([Return]) or goes on; [s] is the
    variables it assigns to.  [poll_fuel] is the number of rounds the clock allows. *)

Inductive flow (St R : Type) : Type :=
| Break (s : St)
| Continue (s : St)
| Return (r : R).
Arguments Break {St R} s.
Arguments Continue {St R} s.
Arguments Return {St R} r.

Definition out_of_fuel : string := "out of fuel".

Fixpoint poll_until {St R : Type} (fuel : nat) (deadline : Time) (s : St)
    (body : St → KP (flow St R)) : KP (St + R) :=
  match fuel with
  | O => panic out_of_fuel
  | S fuel' =>
      now ← kcall KNow;
      if now <? deadline then
        r ← body s;
        match r with
        | Break s' => mret (inl s')
        | Return v => mret (inr v)
        | Continue s' => _ ← kcall (KSleep Second); poll_until fuel' deadline s' body
        end
      else mret (inl s)
  end.

(** A round takes a second at least. *)
Definition poll_fuel (timeout : Z) : nat := Z.to_nat (timeout / Second) + 2.

Definition poll_for {St R : Type} (timeout : Z) (s : St) (body : St → KP (flow St R)) : KP (St + R) :=
  now ← kcall KNow;
  poll_until (poll_fuel timeout) (now + timeout) s body.

(** ** What the handler is given *)

Class RESTMapper : Type := RESTMapping : Object → GVR.

(** [retry.OnError(retry.DefaultRetry, retriable, fn)]; [fn] assigns to a variable. *)
Class OnErrorRetry : Type :=
  OnError : (error → bool) → (Object → KP (Object * res unit)) → Object → KP (Object * res unit).

Definition is_retriable (retriable : error → bool) (r : res unit) : bool :=
  match r with Ok _ => false | Err e => retriable e end.

(** Its documentation: fn is tried until it returns nil or an error that is not
    retriable, at most [n] times, with a wait in between; the last error is returned. *)
Inductive tried (retriable : error → bool) (fn : Object → KP (Object * res unit))
    : nat → Object → list (event KSig) → exec (Object * res unit) → Prop :=
| tried_done n x tr x' r :
    runs (fn x) tr (Ret (x', r)) → is_retriable retriable r = false ∨ n = 0%nat →
    tried retriable fn (S n) x tr (Ret (x', r))
| tried_again n x x' tr1 tr2 d r out :
    runs (fn x) tr1 (Ret (x', r)) → is_retriable retriable r = true → tried retriable fn n x' tr2 out →
    tried retriable fn (S n) x (tr1 ++ Ev (Sg := KSig) (KSleep d) tt :: tr2)%list out
| tried_panic n x tr w : runs (fn x) tr (Panic w) → tried retriable fn (S n) x tr (Panic w).

(** retry.DefaultRetry has five steps. *)
Class LawfulOnError `{OnErrorRetry} : Prop :=
  on_error_tried : ∀ retriable fn x tr out,
    runs (OnError retriable fn x) tr out → tried retriable fn 5 x tr out.

(** ** immutable.go *)

Definition ImmutableHandlingLabel : string := "dr-syncer.io/immutable-handling".

Record ImmutableResourceHandler : Type := mkImmutableResourceHandler {
  ihSourceClient : option Cluster;
  ihDestClient : option Cluster;
  ihCtrlClient : option Cluster
}.

Definition NewImmutableResourceHandler (sourceClient destClient ctrlClient : option Cluster)
    : ImmutableResourceHandler :=
  mkImmutableResourceHandler sourceClient destClient ctrlClient.

(** The values of the label. *)
Definition label_handling (v : string) : option string :=
  if v =s? "no-change" then Some NoChange
  else if v =s? "recreate" then Some Recreate
  else if v =s? "recreate-with-drain" then Some RecreateWithPodDrain
  else if v =s? "partial-update" then Some PartialUpdate
  else if v =s? "force-update" then Some ForceUpdate
  else None.

Definition DetermineHandling (obj : Object) (config : option ImmutableResourceConfig) : string :=
  match get_key obj.(oMeta).(mLabels) ImmutableHandlingLabel ≫= label_handling with
  | Some h => h
  | None =>
      match config with
      | Some cfg =>
          let resourceKey := obj.(oGVK).(kKind) +:+ "." +:+ obj.(oGVK).(kGroup) in
          match get_key cfg.(ResourceOverrides) resourceKey with
          | Some h => h
          | None => cfg.(DefaultHandling)
          end
      | None => NoChange
      end
  end.

(** [Format("20060102150405")], in UTC. *)
Definition FormatCompact (t : Time) : string :=
  let secs := t / Second in
  let '(y, m, d) := civil_from_days (secs / 86400) in
  let sod := secs mod 86400 in
  pad4 y +:+ pad2 m +:+ pad2 d +:+ pad2 (sod / 3600) +:+ pad2 (sod / 60 mod 60) +:+ pad2 (sod mod 60).

(** GroupVersion.String *)
Definition group_version (g : GVK) : string :=
  if g.(kGroup) =s? "" then g.(kVersion) else g.(kGroup) +:+ "/" +:+ g.(kVersion).

Definition skipped_event (obj : Object) (t1 t2 t3 : Time) : Object :=
  let ns := GetNamespace obj in
  let name := GetName obj in
  mkObject (mkGVK "" "" "")
    (mkObjectMeta (name +:+ "." +:+ FormatCompact t1) ns "" "" "" None [] [] 0 [] None None)
    (EventBody (mkEventFields (group_version obj.(oGVK)) obj.(oGVK).(kKind) name ns obj.(oMeta).(mUID)
       "ImmutableUpdateSkipped"
       ("Skipped update of immutable resource " +:+ ns +:+ "/" +:+ name +:+
        ": resource has immutable fields that cannot be updated in place")
       "Warning" "dr-syncer" t2 t3 1)).

Definition handleNoChange (h : ImmutableResourceHandler) (obj : Object) : KP (res unit) :=
  t1 ← kcall KNow;
  t2 ← kcall KNow;
  t3 ← kcall KNow;
  deref h.(ihDestClient) (λ c,
    _ ← kcall (KCreate c events (GetNamespace obj) (skipped_event obj t1 t2 t3));
    mret (Ok tt)).

(** The pods of a namespace that mount a claim. *)
Definition uses_claim (name : string) (pod : Object) : bool :=
  match pod.(oBody) with
  | PodBody f => existsb (λ v, match v with Some n => n =s? name | None => false end) f.(podClaims)
  | _ => false
  end.

Definition getPodsUsingPVC (h : ImmutableResourceHandler) (namespace pvcName : string) : KP (res (list Object)) :=
  deref h.(ihDestClient) (λ c,
    allPods ←? kcall (KList c pods namespace None) onerr id;
    mret (Ok (List.filter (uses_claim pvcName) allPods))).

(** [labels.SelectorFromSet(m).String()]; the text of an empty set is empty. *)
Definition label_selector (m : option (gmap string string)) : option (gmap string string) :=
  match m with
  | Some m => if decide (m = ∅) then None else Some m
  | None => None
  end.

Definition pods_selected (h : ImmutableResourceHandler) (namespace : string)
    (sel : option (gmap string string)) : KP (res (list Object)) :=
  match sel with
  | None => mret (Ok [])
  | Some m => deref h.(ihDestClient) (λ c, kcall (KList c pods namespace (Some m)))
  end.

Definition getPodsForResource (h : ImmutableResourceHandler) (obj : Object) : KP (res (list Object)) :=
  let namespace := GetNamespace obj in
  match obj.(oBody) with
  | DeploymentBody s _ =>
      pods_selected h namespace (label_selector (s.(dSelector) ≫= fst))
  | ServiceBody s _ => pods_selected h namespace (label_selector s.(svcSelector))
  | PVCBody _ _ => getPodsUsingPVC h namespace (GetName obj)
  | ConfigMapBody _ | SecretBody _ | IngressBody _ _ => mret (Ok [])
  | _ => mret (Ok [])
  end.

(** [updated.Labels = source.Labels; updated.Annotations = source.Annotations] *)
Definition copy_labels (source : Object) (m : ObjectMeta) : ObjectMeta :=
  set_mAnnotations source.(oMeta).(mAnnotations) (set_mLabels source.(oMeta).(mLabels) m).

Definition updateConfigMapFields (current source : ConfigMapFields) : ConfigMapFields :=
  set_cmBinaryData source.(cmBinaryData) (set_cmData source.(cmData) current).

Definition updateSecretFields (current source : SecretFields) : SecretFields :=
  set_secStringData source.(secStringData) (set_secData source.(secData) current).

Definition updateServiceFields (current source : ServiceSpec) : ServiceSpec :=
  let updated := set_svcPorts source.(svcPorts) current in
  let updated := set_svcSelector source.(svcSelector) updated in
  let updated := set_svcExternalIPs source.(svcExternalIPs) updated in
  let updated := set_svcLoadBalancerIP source.(svcLoadBalancerIP) updated in
  let updated := set_svcLoadBalancerSourceRanges source.(svcLoadBalancerSourceRanges) updated in
  let updated := set_svcExternalName source.(svcExternalName) updated in
  let updated := set_svcExternalTrafficPolicy source.(svcExternalTrafficPolicy) updated in
  let updated := set_svcSessionAffinity source.(svcSessionAffinity) updated in
  let updated := set_svcSessionAffinityConfig source.(svcSessionAffinityConfig) updated in
  let updated := set_svcClusterIP current.(svcClusterIP) updated in
  set_svcClusterIPs current.(svcClusterIPs) updated.

Definition ResourceStorage : string := "storage".

Definition storage_request (s : PVCSpec) : option Z := s.(pvcRequests) ≫= λ m, m !! ResourceStorage.

Definition updatePVCFields (current source : PVCSpec) : PVCSpec :=
  match storage_request source, storage_request current with
  | Some sourceStorage, Some currentStorage =>
      if currentStorage <? sourceStorage then
        set_pvcRequests (Some (<[ResourceStorage := sourceStorage]> (default ∅ current.(pvcRequests)))) current
      else current
  | _, _ => current
  end.

Definition updateDeploymentFields (current source : DeploymentSpec) : DeploymentSpec :=
  let updated := set_dReplicas source.(dReplicas) current in
  let updated := set_dTemplate source.(dTemplate) updated in
  let updated := set_dStrategy source.(dStrategy) updated in
  let updated := set_dMinReadySeconds source.(dMinReadySeconds) updated in
  let updated := set_dRevisionHistoryLimit source.(dRevisionHistoryLimit) updated in
  let updated := set_dPaused source.(dPaused) updated in
  let updated := set_dProgressDeadlineSeconds source.(dProgressDeadlineSeconds) updated in
  set_dSelector current.(dSelector) updated.

Definition updateIngressFields (current source : IngressSpec) : IngressSpec :=
  let updated := set_ingClassName source.(ingClassName) current in
  let updated := set_ingDefaultBackend source.(ingDefaultBackend) updated in
  let updated := set_ingTLS source.(ingTLS) updated in
  set_ingRules source.(ingRules) updated.

Definition updateMetadataOnly (current source : Object) : Object :=
  on_meta (copy_labels source) current.

Definition not_a (what : string) : res Body := Err (PlainError ("current object is not " +:+ what)).

Definition updated_body (current source : Body) : res Body :=
  match source with
  | ConfigMapBody src =>
      match current with ConfigMapBody curr => Ok (ConfigMapBody (updateConfigMapFields curr src)) | _ => not_a "a ConfigMap" end
  | SecretBody src =>
      match current with SecretBody curr => Ok (SecretBody (updateSecretFields curr src)) | _ => not_a "a Secret" end
  | ServiceBody src _ =>
      match current with ServiceBody curr st => Ok (ServiceBody (updateServiceFields curr src) st) | _ => not_a "a Service" end
  | PVCBody src _ =>
      match current with PVCBody curr st => Ok (PVCBody (updatePVCFields curr src) st) | _ => not_a "a PersistentVolumeClaim" end
  | DeploymentBody src _ =>
      match current with DeploymentBody curr st => Ok (DeploymentBody (updateDeploymentFields curr src) st) | _ => not_a "a Deployment" end
  | IngressBody src _ =>
      match current with IngressBody curr st => Ok (IngressBody (updateIngressFields curr src) st) | _ => not_a "an Ingress" end
  | _ => Ok current
  end.

(** Every branch ends by copying the labels and annotations, as [updateMetadataOnly]
    does alone for a type it does not know. *)
Definition applyMutableFieldUpdates (current source : Object) : res Object :=
  match updated_body current.(oBody) source.(oBody) with
  | Ok b => Ok (updateMetadataOnly (set_oBody b current) source)
  | Err e => Err e
  end.

Section Handler.
Context `{RESTMapper} `{OnErrorRetry} (h : ImmutableResourceHandler).

(** [h.ctrlClient.Get(ctx, key, clientObj)]: on success the object is overwritten. *)
Definition get_into (c : Cluster) (gvr : GVR) (namespace name : string) (clientObj : Object)
    : KP (Object * res unit) :=
  r ← kcall (KGet c gvr namespace name);
  match r with
  | Ok x => mret (x, Ok tt)
  | Err e => mret (clientObj, Err e)
  end.

Definition create_new (c : Cluster) (gvr : GVR) (clientObj : Object) : KP (res unit) :=
  _ ←? kcall (KCreate c gvr (GetNamespace clientObj) clientObj) onerr (wrapf "failed to create resource: ");
  mret (Ok tt).

(** [err != nil && !apierrors.IsNotFound(err)] *)
Definition failed (r : res unit) : option error :=
  match r with
  | Err e => if IsNotFound e then None else Some e
  | Ok _ => None
  end.

Definition handleRecreate (obj : Object) : KP (res unit) :=
  let gvr := RESTMapping obj in
  let namespace := GetNamespace obj in
  let name := GetName obj in
  deref h.(ihCtrlClient) (λ c,
    r ← kcall (KDelete c gvr namespace name);
    match failed r with
    | Some err => mret (Err (wrapf "failed to delete resource: " err))
    | None =>
        w ← OnError (λ err, negb (IsNotFound err)) (get_into c gvr namespace name) obj;
        match failed w.2 with
        | Some err => mret (Err (wrapf "failed waiting for resource deletion: " err))
        | None => create_new c gvr w.1
        end
    end).

Definition evict_all (evicted : list Object) : KP (res unit) :=
  range_err evicted tt (λ pod _,
    deref h.(ihDestClient) (λ c,
      _ ←? kcall (KEvict c (GetNamespace pod) (GetName pod))
        onerr (wrapf ("failed to evict pod " +:+ GetName pod +:+ ": "));
      mret (Ok tt))).

(** One round of waiting for the pods to go. *)
Definition drain_round (obj : Object) (_ : unit) : KP (flow unit error) :=
  r ← getPodsForResource h obj;
  match r with
  | Err err => mret (Return (wrapf "failed to get pods: " err))
  | Ok [] => mret (Break tt)
  | Ok _ => mret (Continue tt)
  end.

Definition handleRecreateWithDrain (obj : Object) (timeout : Z) : KP (res unit) :=
  items ←? getPodsForResource h obj onerr (wrapf "failed to get pods: ");
  _ ←? evict_all items onerr id;
  w ← poll_for timeout tt (drain_round obj);
  match w with
  | inr err => mret (Err err)
  | inl _ => handleRecreate obj
  end.

Definition handlePartialUpdate (obj : Object) : KP (res unit) :=
  let gvr := RESTMapping obj in
  deref h.(ihCtrlClient) (λ c,
    current ←? kcall (KGet c gvr (GetNamespace obj) (GetName obj)) onerr (wrapf "failed to get current resource: ");
    match applyMutableFieldUpdates current obj with
    | Err err => mret (Err (wrapf "failed to apply mutable updates: " err))
    | Ok updated =>
        _ ←? kcall (KUpdate c gvr (GetNamespace updated) updated) onerr (wrapf "failed to update resource: ");
        mret (Ok tt)
    end).

(** One round of waiting for the deletion; the object is read into [clientObj]. *)
Definition deletion_round (c : Cluster) (gvr : GVR) (namespace name : string) (clientObj : Object)
    : KP (flow Object error) :=
  r ← get_into c gvr namespace name clientObj;
  match r with
  | (x, Ok _) => mret (Continue x)
  | (x, Err err) =>
      if IsNotFound err then mret (Break x)
      else mret (Return (wrapf "failed to check resource deletion: " err))
  end.

Definition handleForceUpdate (obj : Object) (timeout : Z) : KP (res unit) :=
  let gvr := RESTMapping obj in
  let namespace := GetNamespace obj in
  let name := GetName obj in
  deref h.(ihCtrlClient) (λ c,
    r ← kcall (KDeleteForeground c gvr namespace name);
    match failed r with
    | Some err => mret (Err (wrapf "failed to delete resource: " err))
    | None =>
        w ← poll_for timeout obj (deletion_round c gvr namespace name);
        match w with
        | inr err => mret (Err err)
        | inl clientObj => create_new c gvr clientObj
        end
    end).

Definition HandleImmutableResource (obj : Object) (handling : string)
    (config : option ImmutableResourceConfig) : KP (res unit) :=
  if handling =s? NoChange then handleNoChange h obj
  else if handling =s? Recreate then handleRecreate obj
  else if handling =s? RecreateWithPodDrain then
    handleRecreateWithDrain obj (default (5 * Minute) (config ≫= DrainTimeout))
  else if handling =s? PartialUpdate then handlePartialUpdate obj
  else if handling =s? ForceUpdate then
    handleForceUpdate obj (default (2 * Minute) (config ≫= ForceDeleteTimeout))
  else handleNoChange h obj.
End Handler.

(** ** pvc.go *)

Definition StorageClassLabel : string := "dr-syncer.io/storage-class".
Definition AccessModeLabel : string := "dr-syncer.io/access-mode".
Definition SyncPVLabel : string := "dr-syncer.io/sync-pv".

Fixpoint getStorageClassMapping (srcStorageClass : string) (mappings : list StorageClassMapping) : string :=
  match mappings with
  | [] => srcStorageClass
  | mapping :: rest =>
      if mapping.(SCFrom) =s? srcStorageClass then mapping.(SCTo)
      else getStorageClassMapping srcStorageClass rest
  end.

Fixpoint getAccessModeMapping (srcAccessMode : string) (mappings : list AccessModeMapping) : string :=
  match mappings with
  | [] => srcAccessMode
  | mapping :: rest =>
      if mapping.(AMFrom) =s? srcAccessMode then mapping.(AMTo)
      else getAccessModeMapping srcAccessMode rest
  end.

(** The storage class of the copy. *)
Definition mapped_class (cfg : option PVCConfig) (labels : option (gmap string string)) (s : PVCSpec) : PVCSpec :=
  match s.(pvcStorageClassName) with
  | None => s
  | Some src =>
      match get_key labels StorageClassLabel with
      | Some override => set_pvcStorageClassName (Some override) s
      | None =>
          match cfg with
          | Some cfg =>
              if (0 <? length cfg.(StorageClassMappings))%nat then
                set_pvcStorageClassName (Some (getStorageClassMapping src cfg.(StorageClassMappings))) s
              else s
          | None => s
          end
      end
  end.

(** The access modes of the copy. *)
Definition mapped_modes (cfg : option PVCConfig) (labels : option (gmap string string)) (s : PVCSpec) : PVCSpec :=
  if (0 <? length s.(pvcAccessModes))%nat then
    match get_key labels AccessModeLabel with
    | Some override => set_pvcAccessModes [override] s
    | None =>
        match cfg with
        | Some cfg =>
            if (0 <? length cfg.(AccessModeMappings))%nat then
              set_pvcAccessModes
                ((λ mode, getAccessModeMapping mode cfg.(AccessModeMappings)) <$> s.(pvcAccessModes)) s
            else s
        | None => s
        end
    end
  else s.

Definition wants_pv (cfg : option PVCConfig) (labels : option (gmap string string)) : bool :=
  match get_key labels SyncPVLabel with
  | Some val => val =s? "true"
  | None => match cfg with Some cfg => cfg.(SyncPersistentVolumes) | None => false end
  end.

(** Without the volume the copy does not name it; its attributes go too unless they
    are to be kept. *)
Definition unbound (cfg : option PVCConfig) (s : PVCSpec) : PVCSpec :=
  let s := set_pvcVolumeName "" s in
  if match cfg with Some cfg => cfg.(PreserveVolumeAttributes) | None => false end then s
  else set_pvcDataSourceRef None (set_pvcDataSource None (set_pvcSelector None (set_pvcVolumeMode None s))).

Definition dest_pvc_spec (cfg : option PVCConfig) (labels : option (gmap string string)) (s : PVCSpec) : PVCSpec :=
  let s := mapped_modes cfg labels (mapped_class cfg labels s) in
  if wants_pv cfg labels then s else unbound cfg s.

(** Typed clients hand out claims; another body does not occur. *)
Definition dest_pvc (cfg : option PVCConfig) (dst : string) (pvc : Object) : Object :=
  let copy := SanitizeMetadata (on_meta (set_mNamespace dst) pvc) in
  match pvc.(oBody) with
  | PVCBody s st => set_oBody (PVCBody (dest_pvc_spec cfg pvc.(oMeta).(mLabels) s) st) copy
  | _ => copy
  end.

Definition pvc_spec (o : Object) : option PVCSpec := match o.(oBody) with PVCBody s _ => Some s | _ => None end.
Definition pv_spec (o : Object) : option Payload := match o.(oBody) with PVBody s _ _ => Some s | _ => None end.

(** Create, or update when the specs differ; [spec] is what reflect.DeepEqual compares. *)
Definition create_or_update {Sp : Type} `{EqDecision Sp} (spec : Object → Sp) (c : Cluster) (r : GVR)
    (ns : string) (x : Object) (on_create on_get on_update : error → error) : KP (res unit) :=
  g ← kcall (KGet c r ns (GetName x));
  match g with
  | Err err =>
      if IsNotFound err then
        _ ←? kcall (KCreate c r ns x) onerr on_create; mret (Ok tt)
      else mret (Err (on_get err))
  | Ok existing =>
      if decide (spec x = spec existing) then mret (Ok tt)
      else
        _ ←? kcall (KUpdate c r ns (on_meta (set_mResourceVersion existing.(oMeta).(mResourceVersion)) x)) onerr on_update;
        mret (Ok tt)
  end.

Definition syncPersistentVolume (sourceClient destClient : Cluster) (pvName : string) : KP (res unit) :=
  pv ←? kcall (KGet sourceClient persistentvolumes "" pvName) onerr (plainf ("failed to get PV " +:+ pvName +:+ ": "));
  let destPV := SanitizeMetadata pv in
  let named (what : string) := plainf ("failed to " +:+ what +:+ " PV " +:+ GetName destPV +:+ ": ") in
  create_or_update pv_spec destClient persistentvolumes "" destPV (named "create") (named "get") (named "update").

Definition sync_claim (sourceClient : Cluster) (destClient : option Cluster) (dstNamespace : string)
    (cfg : option PVCConfig) (pvc : Object) : KP unit :=
  if ShouldIgnoreResource pvc then mret tt
  else deref destClient (λ destClient,
    r ← create_or_update pvc_spec destClient persistentvolumeclaims dstNamespace (dest_pvc cfg dstNamespace pvc) id id id;
    match r with
    | Err _ => mret tt
    | Ok _ =>
        match pvc_spec pvc with
        | Some s =>
            if wants_pv cfg pvc.(oMeta).(mLabels) && negb (s.(pvcVolumeName) =s? "") then
              _ ← syncPersistentVolume sourceClient destClient s.(pvcVolumeName); mret tt
            else mret tt
        | None => mret tt
        end
    end).

Definition syncPersistentVolumeClaims (sourceClient destClient : option Cluster) (srcNamespace dstNamespace : string)
    (pvcConfig : option PVCConfig) : KP (res unit) :=
  deref sourceClient (λ src,
    items ←? kcall (KList src persistentvolumeclaims srcNamespace None) onerr (plainf "failed to list PVCs: ");
    _ ← range_each items tt (λ pvc _, sync_claim src destClient dstNamespace pvcConfig pvc);
    mret (Ok tt)).
