(* ===== verification/ImmutableProps.v ===== *)
(** * Theorems about immutable resources and claims

    The handlers of immutable.go return under any lawful clock, a partial update keeps
    the fields that cannot change, a recreation stores the object unless it is still
    there; pvc.go's mappings agree with those of the resource syncer. *)

From S2P Require Import Prelude GoString Errors Types Kube KubeLogic ApiServer Syncer Rfc3339 Immutable.

(** ** Clocks *)

(** [clk] is the time of a state: time.Now reads it, time.Sleep passes at least its
    argument, and it never goes back. *)
Class LawfulClock {S : Type} (h : handler KSig S) (clk : S → Time) : Prop := {
  now_clock : ∀ s, (h KNow s).1 = clk s;
  clock_mono : ∀ o s, clk s ≤ clk (h o s).2;
  sleep_clock : ∀ d s, clk s + d ≤ clk (h (KSleep d) s).2
}.

#[global] Instance api_clock : LawfulClock api clock.
Proof.
  split.
  - done.
  - intros o w. destruct o; cbn; repeat case_match; cbn; lia.
  - intros d w. cbn. lia.
Qed.

Lemma Z_nat_max z : Z.of_nat (Z.to_nat z) = Z.max z 0.
Proof. lia. Qed.

Section Termination.
Context {S : Type} (h : handler KSig S) (clk : S → Time) `{!LawfulClock h clk}.

Lemma run_clock {A} (p : KP A) s : clk s ≤ clk (run h p s).2.
Proof.
  revert s. induction p as [a|w|o k IH]; intros s; cbn; [lia..|].
  pose proof (clock_mono o s). destruct (h o s) as [r s'] eqn:E. cbn in *. specialize (IH r s'). lia.
Qed.

Lemma run_kcall_ex {A} (o : KOp) (f : KResp o → KP A) s :
  (∃ a s', run h (f (h o s).1) (h o s).2 = (Ret a, s')) → ∃ a s', run h (kcall o ≫= f) s = (Ret a, s').
Proof. intros (a & s' & E). exists a, s'. by rewrite <- E, <- run_kcall. Qed.

(** From every state [p] returns. *)
Definition returns {A} (p : KP A) : Prop := ∀ s, ∃ a s', run h p s = (Ret a, s').

Lemma returns_ret {A} (a : A) : returns (mret a).
Proof. intros s. by exists a, s. Qed.

Lemma returns_call (o : KOp) : returns (kcall o).
Proof. intros s. cbn. destruct (h o s). by eauto. Qed.

Lemma returns_bind {A B} (p : KP A) (f : A → KP B) : returns p → (∀ a, returns (f a)) → returns (p ≫= f).
Proof. intros Hp Hf s. destruct (Hp s) as (a & s' & E). rewrite run_bind, E. apply Hf. Qed.

Lemma returns_bindE {A B} (p : KP (res A)) w (f : A → KP (res B)) :
  returns p → (∀ a, returns (f a)) → returns (bindE p w f).
Proof. intros Hp Hf. apply returns_bind; [done|]. intros [a|e]; [apply Hf|apply returns_ret]. Qed.

Lemma returns_range_err {A St} (xs : list A) (s : St) body :
  (∀ x s, returns (body x s)) → returns (range_err xs s body).
Proof.
  intros Hb. revert s. induction xs as [|x xs IH]; intros s; cbn [range_err]; [apply returns_ret|].
  apply returns_bind; [apply Hb|]. intros [s'|e]; [apply IH|apply returns_ret].
Qed.

Lemma returns_never_panics {A} (p : KP A) : (∀ tr w, ¬ runs p tr (Panic w)) → returns p.
Proof.
  intros Hp s. pose proof (run_trace_runs h p s) as Hr.
  destruct (run h p s) as [[a|w] s'] eqn:E; [by eauto|]. by destruct (Hp _ _ Hr).
Qed.

(** The loop ends before its fuel does: with [n] rounds left there are less than [n - 1]
    seconds to the deadline. *)
Lemma poll_until_returns {St R} n deadline (s : St) (body : St → KP (flow St R)) st :
  (∀ s, returns (body s)) → deadline < clk st + (Z.of_nat n - 1) * Second →
  0 < Z.of_nat n → ∃ a st', run h (poll_until n deadline s body) st = (Ret a, st').
Proof.
  intros Hb. revert s st. induction n as [|n IH]; intros s st Hd Hn; [lia|]. cbn [poll_until].
  pose proof (now_clock st) as Hnow. pose proof (clock_mono KNow st) as Hm. apply run_kcall_ex.
  destruct (h KNow st) as [now st1]. cbn [fst snd] in *. subst now.
  destruct (clk st <? deadline) eqn:Hlt; [|by eauto]. bool_props.
  destruct (Hb s st1) as (f & st2 & E). pose proof (run_clock (body s) st1) as Hc.
  rewrite E in Hc. rewrite run_bind, E. destruct f as [s'|s'|v]; [by eauto| |by eauto]. cbn [snd] in Hc.
  apply run_kcall_ex. pose proof (sleep_clock Second st2) as Hsl. unfold Second in *. apply IH; [|lia].
  destruct (h (KSleep 1000000000) st2) as [u st3]. cbn [snd] in *. lia.
Qed.

Lemma poll_for_returns {St R} timeout (s : St) (body : St → KP (flow St R)) :
  (∀ s, returns (body s)) → returns (poll_for timeout s body).
Proof.
  intros Hb st. unfold poll_for. apply run_kcall_ex.
  pose proof (now_clock st) as Hnow. pose proof (clock_mono KNow st) as Hm.
  destruct (h KNow st) as [now st1]. cbn [fst snd] in *. subst now.
  apply poll_until_returns; [done| |unfold poll_fuel; lia].
  pose proof (Z.mul_div_le timeout Second ltac:(done)).
  pose proof (Z.mul_succ_div_gt timeout Second ltac:(done)).
  unfold poll_fuel. rewrite Nat2Z.inj_add, Z_nat_max. unfold Second in *. lia.
Qed.
End Termination.

(** Take a goal [returns h p] apart along the shape of [p]. *)
Ltac returns_step :=
  lazymatch goal with
  | |- returns _ (match ?x with _ => _ end) => destruct x eqn:?
  | |- returns _ (if ?x then _ else _) => destruct x eqn:?
  | |- returns _ (mret _) => apply returns_ret
  | |- returns ?e (kcall ?o) => exact (returns_call e o)
  | |- returns _ (poll_for _ _ _) => eapply poll_for_returns; [done|intros ?]
  | |- returns _ (range_err _ _ _) => apply returns_range_err; intros ? ?
  | |- returns _ (bindE _ _ _) => apply returns_bindE; [|intros ?]
  | |- returns _ (_ ≫= _) => apply returns_bind; [|intros ?]
  | |- returns _ (let _ := _ in _) => cbv zeta
  end.

(** ** immutable.go: the handlers return *)

Lemma get_into_runs c gvr ns name x tr out :
  runs (get_into c gvr ns name x) tr out →
  (∃ cur, tr = [Ev (Sg := KSig) (KGet c gvr ns name) (Ok cur)] ∧ out = Ret (cur, Ok tt))
  ∨ (∃ e, tr = [Ev (Sg := KSig) (KGet c gvr ns name) (Err e)] ∧ out = Ret (x, Err e)).
Proof. intros Hr. unfold get_into in Hr. repeat runs_case Hr; eauto. Qed.

Lemma tried_never_panics retriable c gvr ns name n x tr w :
  ¬ tried retriable (get_into c gvr ns name) n x tr (Panic w).
Proof.
  intros Ht. remember (Panic w) as out eqn:Ho.
  induction Ht as [n x tr x' r Hr|n x x' tr1 tr2 d r out Hr Hret Ht IH|n x tr w' Hr]; [done|by apply IH|].
  apply get_into_runs in Hr as [(? & _ & ?)|(? & _ & ?)]; done.
Qed.

Section Handlers.
Context `{RESTMapper} `{OnErrorRetry} `{!LawfulOnError}.
Context {S : Type} (env : handler KSig S) (clk : S → Time) `{!LawfulClock env clk}.
Context (h : ImmutableResourceHandler) (ctrl dest : Cluster).
Context (Hctrl : h.(ihCtrlClient) = Some ctrl) (Hdest : h.(ihDestClient) = Some dest).

Lemma getPodsForResource_returns obj : returns env (getPodsForResource h obj).
Proof.
  unfold getPodsForResource, pods_selected, getPodsUsingPVC. rewrite Hdest. cbn [deref].
  repeat returns_step.
Qed.

Lemma handleRecreate_returns obj : returns env (handleRecreate h obj).
Proof.
  unfold handleRecreate, create_new. rewrite Hctrl. cbn [deref].
  repeat (returns_step || (apply returns_never_panics; intros tr w Hr)).
  apply on_error_tried in Hr. by apply tried_never_panics in Hr.
Qed.

Lemma handleRecreateWithDrain_returns obj timeout : returns env (handleRecreateWithDrain h obj timeout).
Proof.
  unfold handleRecreateWithDrain, evict_all, drain_round. rewrite Hdest. cbn [deref].
  repeat (returns_step || apply getPodsForResource_returns || apply handleRecreate_returns).
Qed.

Lemma handlePartialUpdate_returns obj : returns env (handlePartialUpdate h obj).
Proof. unfold handlePartialUpdate. rewrite Hctrl. cbn [deref]. repeat returns_step. Qed.

Lemma handleForceUpdate_returns obj timeout : returns env (handleForceUpdate h obj timeout).
Proof.
  unfold handleForceUpdate, deletion_round, get_into, create_new. rewrite Hctrl. cbn [deref].
  repeat returns_step.
Qed.

(** C22: whatever the API servers answer, handling an immutable resource returns a result: the loops that
    wait for pods to be evicted and for a foreground deletion end at their deadlines, for any
    drain and force-delete timeouts, on any clock that does not go back and passes a second
    in a sleep of a second; the retry of the read is bounded. *)
Theorem HandleImmutableResource_returns obj handling config s :
  ∃ r s', run env (HandleImmutableResource h obj handling config) s = (Ret r, s').
Proof.
  enough (returns env (HandleImmutableResource h obj handling config)) as Hr by apply Hr.
  unfold HandleImmutableResource, handleNoChange. rewrite Hdest. cbn [deref].
  repeat (returns_step || apply handleRecreate_returns || apply handleRecreateWithDrain_returns
          || apply handlePartialUpdate_returns || apply handleForceUpdate_returns).
Qed.
End Handlers.

(** *** A retry that satisfies the law, and a handler to run *)

Fixpoint on_error_from (n : nat) (retriable : error → bool) (fn : Object → KP (Object * res unit))
    (x : Object) : KP (Object * res unit) :=
  r ← fn x;
  if is_retriable retriable r.2 then
    match n with
    | O => mret r
    | S n' => _ ← kcall (KSleep (10 * Millisecond)); on_error_from n' retriable fn r.1
    end
  else mret r.

Definition default_on_error : OnErrorRetry := on_error_from 4.

Lemma on_error_from_tried n retriable fn x tr out :
  runs (on_error_from n retriable fn x) tr out → tried retriable fn (S n) x tr out.
Proof.
  revert x tr. induction n as [|n IH]; intros x tr Hr;
    apply runs_bind_inv in Hr as [([x' r] & t1 & t2 & H1 & Hr & ->)|(w & H1 & ->)];
    try (by constructor); cbn [fst snd] in Hr; destruct (is_retriable retriable r) eqn:Hc; repeat runs_case Hr;
    rewrite ?app_nil_r.
  - constructor; [done|by right].
  - constructor; [done|by left].
  - destruct a. eapply tried_again; [done..|by apply IH].
  - constructor; [done|by left].
Qed.

#[global] Instance default_on_error_lawful : LawfulOnError (H := default_on_error).
Proof. intros retriable fn x tr out. apply on_error_from_tried. Qed.

Definition demo_mapper : RESTMapper := λ o,
  match o.(oBody) with
  | DeploymentBody _ _ => deployments
  | ServiceBody _ _ => services
  | PVCBody _ _ => persistentvolumeclaims
  | ConfigMapBody _ => configmaps
  | SecretBody _ => secrets
  | IngressBody _ _ => ingresses
  | _ => mkGVR "" "" ""
  end.

Definition demo_handler : ImmutableResourceHandler :=
  NewImmutableResourceHandler (Some Src) (Some Dst) (Some Dst).

Definition demo_meta (name rv : string) : ObjectMeta :=
  mkObjectMeta name "dr" "" rv "" None [] [] 0 [] None None.

Definition demo_pvc (rv : string) (size : Z) : Object :=
  mkObject (mkGVK "" "" "") (demo_meta "data" rv)
    (PVCBody (mkPVCSpec ["ReadWriteOnce"] None (Some {["storage" := size]}) "" "pv-1" (Some "fast") None None None) "").

Definition demo_world : world :=
  mkWorld [mkEntry Dst persistentvolumeclaims "dr" (demo_pvc "1" 10)] [] [] 2 0.

Lemma HandleImmutableResource_returns_witness :
  ∃ r s', run api (HandleImmutableResource (H := demo_mapper) (H0 := default_on_error) demo_handler
    (demo_pvc "" 20) ForceUpdate (Some (mkImmutableResourceConfig NoChange None None (Some (30 * Second))))) demo_world
    = (Ret r, s').
Proof. apply (HandleImmutableResource_returns api clock demo_handler Dst Dst); reflexivity. Defined.

(** ** immutable.go: a partial update keeps what cannot change *)

(** [u] is of the type of [b] and has the fields of it that the API does not let change;
    a claim may only grow. *)
Definition keeps_immutable (b u : Body) : Prop :=
  match b, u with
  | ConfigMapBody c, ConfigMapBody c' => c'.(cmImmutable) = c.(cmImmutable)
  | SecretBody c, SecretBody c' => c'.(secType) = c.(secType) ∧ c'.(secImmutable) = c.(secImmutable)
  | ServiceBody c st, ServiceBody c' st' =>
      c'.(svcClusterIP) = c.(svcClusterIP) ∧ c'.(svcClusterIPs) = c.(svcClusterIPs) ∧
      c'.(svcType) = c.(svcType) ∧ c'.(svcRest) = c.(svcRest) ∧ st' = st
  | DeploymentBody c st, DeploymentBody c' st' => c'.(dSelector) = c.(dSelector) ∧ st' = st
  | IngressBody _ st, IngressBody _ st' => st' = st
  | PVCBody c st, PVCBody c' st' =>
      st' = st ∧ set_pvcRequests None c' = set_pvcRequests None c ∧
      (∀ k, k ≠ ResourceStorage → (c'.(pvcRequests) ≫= λ m, m !! k) = (c.(pvcRequests) ≫= λ m, m !! k)) ∧
      (∀ size, storage_request c = Some size → ∃ size', storage_request c' = Some size' ∧ size ≤ size')
  | b, u => u = b
  end.

Lemma updatePVCFields_request c s size :
  storage_request c = Some size → ∃ size', storage_request (updatePVCFields c s) = Some size' ∧ size ≤ size'.
Proof.
  intros Hc. unfold updatePVCFields. rewrite Hc. destruct (storage_request s) as [sz|]; [|eauto with lia].
  destruct (size <? sz) eqn:E; bool_props; [|eauto with lia].
  exists sz. split; [|lia]. unfold storage_request. cbn. by rewrite lookup_insert_eq.
Qed.

Lemma updatePVCFields_other c s k :
  k ≠ ResourceStorage →
  ((updatePVCFields c s).(pvcRequests) ≫= λ m, m !! k) = (c.(pvcRequests) ≫= λ m, m !! k).
Proof.
  intros Hk. unfold updatePVCFields. destruct (storage_request s), (storage_request c) as [n|] eqn:Hc; try done.
  destruct (n <? z); [|done]. unfold storage_request in Hc. cbn.
  destruct (pvcRequests c) as [m|]; cbn in *; [|done]. by rewrite lookup_insert_ne.
Qed.

Lemma updatePVCFields_rest c s : set_pvcRequests None (updatePVCFields c s) = set_pvcRequests None c.
Proof. unfold updatePVCFields. repeat case_match; done. Qed.

Lemma keeps_immutable_refl b : keeps_immutable b b.
Proof. destruct b; cbn; split_and?; try done. intros size ->. eauto with lia. Qed.

Lemma updated_body_keeps b src u : updated_body b src = Ok u → keeps_immutable b u.
Proof.
  destruct src; cbn; try (intros [= <-]; apply keeps_immutable_refl);
    destruct b; cbn; intros E; try discriminate E; injection E as <-; try done.
  split_and!; [done|apply updatePVCFields_rest|intros; by apply updatePVCFields_other|].
  intros; by apply updatePVCFields_request.
Qed.

(** Everything of the metadata but labels and annotations. *)
Definition keeps_meta (source m m' : ObjectMeta) : Prop :=
  m' = set_mAnnotations source.(mAnnotations) (set_mLabels source.(mLabels) m).

(** What a partial update may send: nothing but reads and one update of an object read
    before, with the version that was read. *)
Definition partial_only (tr : list (event KSig)) (obj : Object) : Op KSig → Prop := λ o : KOp,
  match o with
  | KGet _ _ _ _ => True
  | KUpdate c r ns u =>
      ∃ cur, Ev (Sg := KSig) (KGet c r (GetNamespace obj) (GetName obj)) (Ok cur) ∈ tr ∧
        keeps_immutable cur.(oBody) u.(oBody) ∧ keeps_meta obj.(oMeta) cur.(oMeta) u.(oMeta) ∧ u.(oGVK) = cur.(oGVK)
  | _ => False
  end.

Section Partial.
Context `{RESTMapper} (h : ImmutableResourceHandler).

(** C21: for every answer of the API server, a partial update reads the object and sends at most an update of what
    it read: same kind, name, UID and resource version, the fields the API does not let
    change (cluster IPs, selector, secret type, class, volume and modes of a claim) as read,
    labels and annotations from the source, and a storage request that is never smaller. *)
Theorem handlePartialUpdate_keeps obj tr out :
  runs (handlePartialUpdate h obj) tr out → Forall (λ e, partial_only tr obj (ev_op e)) tr.
Proof.
  intros Hr. unfold handlePartialUpdate in Hr. repeat runs_case Hr; repeat constructor.
  all: unfold applyMutableFieldUpdates in *; repeat case_match; simplify_eq; eexists; split; [left|].
  all: cbn; split_and!; try done; by eapply updated_body_keeps.
Qed.
End Partial.

Definition demo_partial : KP (res unit) := handlePartialUpdate (H := demo_mapper) demo_handler (demo_pvc "" 20).

Lemma handlePartialUpdate_keeps_witness :
  Forall (λ e, partial_only (run_trace api demo_partial demo_world) (demo_pvc "" 20) (ev_op e))
    (run_trace api demo_partial demo_world) ∧
  find_object Dst persistentvolumeclaims "dr" "data" (run api demo_partial demo_world).2.(objects) =
    Some (demo_pvc "2" 20).
Proof.
  split; [|vm_compute; reflexivity].
  exact (handlePartialUpdate_keeps (H := demo_mapper) demo_handler (demo_pvc "" 20) _ _
    (run_trace_runs api demo_partial demo_world)).
Defined.

Lemma updatePVCFields_idemp c s : updatePVCFields (updatePVCFields c s) s = updatePVCFields c s.
Proof.
  unfold updatePVCFields. destruct (storage_request s) as [a|] eqn:Ha; [|done].
  destruct (storage_request c) as [b|] eqn:Hb; [|by rewrite Hb].
  destruct (b <? a) eqn:E; [|by rewrite Hb, E].
  unfold storage_request at 1. cbn. rewrite lookup_insert_eq, Z.ltb_irrefl. done.
Qed.

Lemma updated_body_idemp b src u : updated_body b src = Ok u → updated_body u src = Ok u.
Proof.
  destruct src; cbn; try (by intros [= <-]);
    destruct b; cbn; intros E; try discriminate E; injection E as <-; try done.
  by rewrite updatePVCFields_idemp.
Qed.

(** Applying the mutable fields of a source to an object that already has them changes
    nothing: a repeated partial update of a stored object is the identity, for every kind. *)
Theorem applyMutableFieldUpdates_idemp current source u :
  applyMutableFieldUpdates current source = Ok u → applyMutableFieldUpdates u source = Ok u.
Proof.
  unfold applyMutableFieldUpdates. destruct (updated_body _ _) as [b|e] eqn:E; [|done].
  intros [= <-]. cbn. by rewrite (updated_body_idemp _ _ _ E).
Qed.

Lemma applyMutableFieldUpdates_idemp_witness :
  applyMutableFieldUpdates (demo_pvc "1" 20) (demo_pvc "" 20) = Ok (demo_pvc "1" 20).
Proof. apply (applyMutableFieldUpdates_idemp (demo_pvc "1" 10)). vm_compute. reflexivity. Defined.

(** ** immutable.go: what is recreated *)

Lemma cons_inj {A} (x y : A) l k : x :: l = y :: k → x = y ∧ l = k.
Proof. intros E. split; [|exact (f_equal tail E)]. by injection (f_equal head E). Qed.

Lemma delete_answer c r ns name (a b : res unit) :
  Ev (Sg := KSig) (KDelete c r ns name) a = Ev (Sg := KSig) (KDelete c r ns name) b → a = b.
Proof.
  intros E. exact (f_equal (λ e : event KSig,
    match e with
    | Ev o x =>
        match o as o return KResp o → res unit with
        | KDelete _ _ _ _ => λ x, x
        | _ => λ _, Ok tt
        end x
    end) E).
Qed.

Lemma get_answer c r ns name (a b : res Object) :
  Ev (Sg := KSig) (KGet c r ns name) a = Ev (Sg := KSig) (KGet c r ns name) b → a = b.
Proof.
  intros E. exact (f_equal (λ e : event KSig,
    match e with
    | Ev o x =>
        match o as o return KResp o → res Object with
        | KGet _ _ _ _ => λ x, x
        | _ => λ _, a
        end x
    end) E).
Qed.

Section Recreate.
Context `{RESTMapper} `{OnErrorRetry} `{!LawfulOnError}.
Context (h : ImmutableResourceHandler) (c : Cluster) (Hc : h.(ihCtrlClient) = Some c) (obj : Object).

Let gvr : GVR := RESTMapping obj.
Let ns : string := GetNamespace obj.
Let name : string := GetName obj.

(** The object that is created is the one handed in when the last read did not find it,
    and otherwise the last one that was read. *)
Lemma wait_result n x tr x' r :
  tried (λ err, negb (IsNotFound err)) (get_into c gvr ns name) n x tr (Ret (x', r)) → failed r = None →
  (x' = x ∧ ∃ e, IsNotFound e = true ∧ last tr = Some (Ev (Sg := KSig) (KGet c gvr ns name) (Err e)))
  ∨ last tr = Some (Ev (Sg := KSig) (KGet c gvr ns name) (Ok x')).
Proof.
  intros Ht. remember (Ret (x', r)) as out eqn:Ho. revert Ho.
  induction Ht as [n x tr y r' Hr Hd|n x y tr1 tr2 d r' out Hr Hret Ht IH|n x tr w Hr]; intros Ho Hf; [| |done].
  - injection Ho as -> ->. apply get_into_runs in Hr as [(cur & -> & [= -> ->])|(e & -> & [= -> ->])]; [by right|].
    left. split; [done|]. exists e. cbn in Hf. destruct (IsNotFound e); [done|discriminate].
  - apply get_into_runs in Hr as [(cur & -> & [= -> ->])|(e & -> & [= -> ->])]; [done|].
    cbn [app]. rewrite !last_cons. specialize (IH Ho Hf).
    destruct IH as [(-> & e' & He & ->)| -> ]; [left|right]; [|done]. split; [done|]. by exists e'.
Qed.

(** When recreating succeeds, the object that was created is the one handed in, after
    a read that did not find it; or it is the object of the last read, that is the one
    that was to be replaced. *)
Theorem handleRecreate_creates tr :
  runs (handleRecreate h obj) tr (Ret (Ok tt)) →
  ∃ before x stored, tr = (before ++ [Ev (Sg := KSig) (KCreate c gvr (GetNamespace x) x) (Ok stored)])%list ∧
    ((x = obj ∧ ∃ e, IsNotFound e = true ∧ last before = Some (Ev (Sg := KSig) (KGet c gvr ns name) (Err e)))
     ∨ last before = Some (Ev (Sg := KSig) (KGet c gvr ns name) (Ok x))).
Proof.
  intros Hr. unfold handleRecreate in Hr. rewrite Hc in Hr. cbn [deref] in Hr. runs_case Hr.
  destruct (failed a); [by apply runs_ret_inv in Hr as [_ ?]|].
  apply runs_bind_inv in Hr as [([x r] & t1 & t2 & Hw1 & Hr & ->)|(w & _ & ?)]; [|done].
  apply on_error_tried in Hw1. cbn [fst snd] in Hr.
  destruct (failed r) eqn:Hf; [by apply runs_ret_inv in Hr as [_ ?]|].
  pose proof (wait_result _ _ _ _ _ Hw1 Hf) as Hw. unfold create_new in Hr.
  runs_case Hr. repeat runs_case Hr; [|by simplify_eq].
  exists (Ev (Sg := KSig) (KDelete c gvr ns name) a :: t1), x. eexists. split; [done|].
  rewrite last_cons. destruct Hw as [(-> & e & He & ->)| -> ]; [left|by right]. split; [done|]. by exists e.
Qed.

(** The wait for the deletion does not wait: as soon as a read finds the object,
    because its deletion is still pending, the loop ends and the object just read is
    created in place of the one handed in. *)
Theorem handleRecreate_no_wait (cur : Object) tr out :
  runs (handleRecreate h obj)
    (Ev (Sg := KSig) (KDelete c gvr ns name) (Ok tt) :: Ev (Sg := KSig) (KGet c gvr ns name) (Ok cur) :: tr) out →
  ∃ r, tr = [Ev (Sg := KSig) (KCreate c gvr (GetNamespace cur) cur) r].
Proof.
  intros Hr. unfold handleRecreate in Hr. rewrite Hc in Hr. cbn [deref] in Hr. 
  apply (runs_call_inv (Sg := KSig) (KDelete c gvr ns name)) in Hr as (a & t & E & Hr).
  apply cons_inj in E as [Ea <-]. apply (delete_answer _ _ _ _ (Ok tt)) in Ea as <-. cbn [failed] in Hr.
  apply runs_bind_inv in Hr as [([x r] & t1 & t2 & Hw1 & Hr & Ht)|(w & Hw1 & ?)];
    apply on_error_tried in Hw1; [|by apply tried_never_panics in Hw1].
  assert (t1 = [Ev (Sg := KSig) (KGet c gvr ns name) (Ok cur)] ∧ x = cur ∧ r = Ok tt) as (-> & -> & ->).
  { inversion Hw1 as [? ? ? ? ? Hg _|? ? ? ? ? ? ? ? Hg Hret _|]; subst;
      apply get_into_runs in Hg as [(y & -> & E)|(e & -> & E)]; injection E as -> ->;
      apply cons_inj in Ht as [Eg _]; apply (get_answer _ _ _ _ (Ok cur)) in Eg;
      first [discriminate Eg|injection Eg as <-; done]. }
  apply cons_inj in Ht as [_ <-]. cbn [failed fst snd] in Hr. unfold create_new in Hr. runs_case Hr. repeat runs_case Hr; by eexists.
Qed.
End Recreate.

(** A server on which deletions stay pending, as with finalizers. *)
Definition pending_api : handler KSig world := λ o w,
  match o as o return KResp o * world with
  | KDelete _ _ _ _ => (Ok tt, w)
  | o => api o w
  end.

Definition demo_recreate : KP (res unit) :=
  handleRecreate (H := demo_mapper) (H0 := default_on_error) demo_handler (demo_pvc "" 20).

Lemma handleRecreate_creates_witness :
  find_object Dst persistentvolumeclaims "dr" "data" (run api demo_recreate demo_world).2.(objects) =
    Some (on_meta (set_mUID "uid-3") (demo_pvc "3" 20)) ∧
  ∃ before x stored, run_trace api demo_recreate demo_world =
      (before ++ [Ev (Sg := KSig) (KCreate Dst persistentvolumeclaims (GetNamespace x) x) (Ok stored)])%list ∧
    ((x = demo_pvc "" 20 ∧ ∃ e, IsNotFound e = true ∧
        last before = Some (Ev (Sg := KSig) (KGet Dst persistentvolumeclaims "dr" "data") (Err e)))
     ∨ last before = Some (Ev (Sg := KSig) (KGet Dst persistentvolumeclaims "dr" "data") (Ok x))).
Proof.
  split; [vm_compute; reflexivity|].
  apply (handleRecreate_creates (H := demo_mapper) (H0 := default_on_error) demo_handler Dst eq_refl (demo_pvc "" 20)).
  exact (run_trace_runs api demo_recreate demo_world).
Defined.

Lemma handleRecreate_no_wait_witness :
  ∃ tr, run_trace pending_api demo_recreate demo_world =
    Ev (Sg := KSig) (KDelete Dst persistentvolumeclaims "dr" "data") (Ok tt) ::
    Ev (Sg := KSig) (KGet Dst persistentvolumeclaims "dr" "data") (Ok (demo_pvc "1" 10)) :: tr ∧
  ∃ r, tr = [Ev (Sg := KSig) (KCreate Dst persistentvolumeclaims "dr" (demo_pvc "1" 10)) r].
Proof.
  eexists. split; [vm_compute; reflexivity|].
  apply (handleRecreate_no_wait (H := demo_mapper) (H0 := default_on_error) demo_handler Dst eq_refl
    (demo_pvc "" 20) (demo_pvc "1" 10) _ (run pending_api demo_recreate demo_world).1).
  exact (run_trace_runs pending_api demo_recreate demo_world).
Defined.

(** ** pvc.go *)

(** No mapping produces a mode that a later mapping would map again. *)
Fixpoint unchained (mappings : list AccessModeMapping) : bool :=
  match mappings with
  | [] => true
  | m :: rest => forallb (λ m', negb (m.(AMTo) =s? m'.(AMFrom))) rest && unchained rest
  end.

Lemma map_modes_fixed rest mode :
  forallb (λ m', negb (mode =s? m'.(AMFrom))) rest = true → map_access_modes rest [mode] = [mode].
Proof.
  unfold map_access_modes. induction rest as [|m rest IH]; cbn; [done|].
  intros [Hm Hr]%andb_true_iff. apply negb_true_iff in Hm. rewrite Hm. by apply IH.
Qed.

Lemma map_access_modes_cons m rest modes :
  map_access_modes (m :: rest) modes =
  map_access_modes rest ((λ mode, if mode =s? m.(AMFrom) then m.(AMTo) else mode) <$> modes).
Proof. done. Qed.

Lemma map_access_modes_app rest (a : string) l :
  map_access_modes rest (a :: l) = (map_access_modes rest [a] ++ map_access_modes rest l)%list.
Proof.
  revert a l. induction rest as [|m rest IH]; intros a l; [done|].
  rewrite !map_access_modes_cons. cbn [fmap list_fmap]. apply IH.
Qed.

Lemma map_one_mode mappings mode :
  unchained mappings = true → map_access_modes mappings [mode] = [getAccessModeMapping mode mappings].
Proof.
  revert mode. induction mappings as [|m rest IH]; intros mode; [done|].
  cbn [unchained]. intros [Hm Hr]%andb_true_iff. rewrite map_access_modes_cons. cbn.
  rewrite (String.eqb_sym mode). destruct (AMFrom m =s? mode) eqn:E; [by apply map_modes_fixed|by apply IH].
Qed.

(** The two implementations of the claim mappings agree: the storage class of
    pvc.go is the one of the resource syncer for every list of mappings, and its
    access modes are the ones of the resource syncer when no mapping's result is mapped by a
    later one (the resource syncer applies every mapping in turn, pvc.go the first). *)
Theorem mappings_agree classes modes (sc : string) (ms : list string) :
  map_storage_class classes (Some sc) = Some (getStorageClassMapping sc classes) ∧
  (unchained modes = true → map_access_modes modes ms = (λ m, getAccessModeMapping m modes) <$> ms).
Proof.
  split.
  - induction classes as [|m rest IH]; [done|]. cbn. rewrite (String.eqb_sym sc).
    by destruct (SCFrom m =s? sc).
  - intros Hu. induction ms as [|a ms IH].
    + clear Hu. unfold map_access_modes. induction modes; by cbn.
    + rewrite map_access_modes_app, map_one_mode, IH by done. done.
Qed.

Lemma mappings_agree_witness :
  let modes := [mkAccessModeMapping "ReadWriteOnce" "ReadWriteMany"; mkAccessModeMapping "ReadOnlyMany" "ReadWriteOnce"] in
  map_access_modes modes ["ReadOnlyMany"] = (λ m, getAccessModeMapping m modes) <$> ["ReadOnlyMany"].
Proof. apply (mappings_agree [] _ ""). vm_compute. reflexivity. Defined.

(** [x] is the copy of [pvc] that pvc.go makes, with the version of the claim it replaces. *)
Definition copy_of_claim (cfg : option PVCConfig) (dst : string) (x : Object) : Prop :=
  ∃ pvc rv, ShouldIgnoreResource pvc = false ∧ x = on_meta (set_mResourceVersion rv) (dest_pvc cfg dst pvc).

(** A volume as SanitizeMetadata leaves it, up to its version. *)
Definition clean_volume (x : Object) : Prop :=
  ∃ pv rv, x = on_meta (set_mResourceVersion rv) (SanitizeMetadata pv).

Definition claims_only (cfg : option PVCConfig) (dst : string) : Op KSig → Prop := λ o : KOp,
  match o with
  | KCreate c r ns x | KUpdate c r ns x =>
      c = Dst ∧ ((r = persistentvolumeclaims ∧ ns = dst ∧ copy_of_claim cfg dst x) ∨
                 (r = persistentvolumes ∧ ns = "" ∧ clean_volume x))
  | KGet _ _ _ _ | KList _ _ _ _ => True
  | _ => False
  end.

Lemma sanitized_version x : on_meta (set_mResourceVersion "") (SanitizeMetadata x) = SanitizeMetadata x.
Proof. done. Qed.

Lemma dest_pvc_version cfg dst pvc : on_meta (set_mResourceVersion "") (dest_pvc cfg dst pvc) = dest_pvc cfg dst pvc.
Proof. unfold dest_pvc. by destruct (oBody pvc). Qed.

Lemma create_or_update_safe (P : Op KSig → Prop) {Sp} `{EqDecision Sp} (spec : Object → Sp) c r ns x w1 w2 w3 :
  (∀ c r ns name, P (KGet c r ns name)) → P (KCreate c r ns x) →
  (∀ rv, P (KUpdate c r ns (on_meta (set_mResourceVersion rv) x))) →
  safe P (create_or_update spec c r ns x w1 w2 w3) anyr.
Proof. intros Hg Hc Hu. unfold create_or_update. repeat safe_step; auto. Qed.

(** For every answer of the API servers, copying claims writes to the destination
    cluster only: copies of claims that are not marked to be ignored, in the destination
    namespace, and sanitized volumes; nothing is deleted and the source is only read. *)
Theorem syncPersistentVolumeClaims_sends src dst cfg tr out :
  runs (syncPersistentVolumeClaims (Some Src) (Some Dst) src dst cfg) tr out →
  Forall (λ e, claims_only cfg dst (ev_op e)) tr.
Proof.
  apply (safe_sound _ _ anyr). unfold syncPersistentVolumeClaims, sync_claim, syncPersistentVolume. cbn [deref].
  repeat (safe_step || (apply create_or_update_safe; [done|..])); try done; cbn; split; try done.
  - left. split_and!; [done..|]. exists x, "". by rewrite dest_pvc_version.
  - left. split_and!; [done..|]. by exists x, rv.
  - right. split_and!; [done..|]. by exists a2, "".
  - right. split_and!; [done..|]. by exists a2, rv.
Qed.

Lemma syncPersistentVolumeClaims_sends_witness :
  Forall (λ e, claims_only None "dr" (ev_op e))
    (run_trace api (syncPersistentVolumeClaims (Some Src) (Some Dst) "prod" "dr" None)
      (mkWorld [mkEntry Src persistentvolumeclaims "prod" (demo_pvc "1" 10)] [] [] 2 0)).
Proof.
  exact (syncPersistentVolumeClaims_sends _ _ _ _ _
    (run_trace_runs api (syncPersistentVolumeClaims (Some Src) (Some Dst) "prod" "dr" None) _)).
Defined.
