(* ===== verification/Cli.v ===== *)
(** * The command line: pkg/cli and cmd/cli

    The Stage, Cutover and Failback modes (mode.go), the selection of resource types
    (config.go), the dispatch on the mode (cli.go) and the checks of the flags
    (cmd/cli/main.go).  The dynamic and the typed clients of a cluster are both a client
    of that cluster; removing a field of an unstructured object leaves it empty.  Making
    the clients from kubeconfig files (client.go, modelled in Main.v) is a parameter of [Run]. *)

From S2P Require Import Prelude GoString Errors Types Kube KubeLogic.
From Stdlib Require Import Ascii.

Definition OriginalReplicasAnnotation : string := "dr-syncer.io/original-replicas".

(** ** config.go *)

Record Config : Type := mkConfig {
  cfgSourceKubeconfig : string;
  cfgDestKubeconfig : string;
  cfgSourceNamespace : string;
  cfgDestNamespace : string;
  cfgMode : string;
  cfgIncludeCustomResources : bool;
  cfgMigratePVCData : bool;
  cfgReverseMigratePVCData : bool;
  cfgResourceTypes : list string;
  cfgExcludeResourceTypes : list string;
  cfgPVMigrateFlags : string
}.

Definition DefaultResourceTypes : list string :=
  ["configmaps"; "secrets"; "deployments"; "statefulsets"; "daemonsets"; "services"; "ingresses";
   "serviceaccounts"; "roles"; "rolebindings"; "persistentvolumeclaims"; "horizontalpodautoscalers";
   "networkpolicies"].

Definition member (x : string) (l : list string) : bool := existsb (λ y, y =s? x) l.

Definition ShouldSyncResourceType (c : Config) (resourceType : string) (isCustomResource : bool) : bool :=
  if isCustomResource && negb c.(cfgIncludeCustomResources) then false
  else if member resourceType c.(cfgExcludeResourceTypes) then false
  else if (0 <? length c.(cfgResourceTypes))%nat then member resourceType c.(cfgResourceTypes)
  else if negb isCustomResource && member resourceType DefaultResourceTypes then true
  else isCustomResource.

(** ** mode.go: commands *)

(** executeCommand: the error is formatted with %v, so its type is lost. *)
Definition executeCommand (command : string) (args : list string) : KP (string * option error) :=
  r ← kcall (KCommand command args);
  match r with
  | (output, None) => mret (output, None)
  | (output, Some err) =>
      let text := match err with ExitError _ msg | StartError msg => msg end in
      mret ("", Some (PlainError ("command failed: " +:+ text +:+ ": " +:+ output)))
  end.

(** [err.( *exec.ExitError)]: no error value of this program is one. *)
Definition as_exit_error (e : error) : option Z := None.

Definition isPvMigrateAvailable : KP bool :=
  r ← executeCommand "pv-migrate" ["--version"];
  match r.2 with
  | None => mret true
  | Some _ =>
      r ← executeCommand "pv-migrate" [];
      match r.2 with
      | Some err =>
          match as_exit_error err with
          | Some code => mret ((0 <? code) && (code <? 127))
          | None => mret false
          end
      | None => mret true
      end
  end.

(** The loop of parseCommandLineArgs (character 34 is the double quote): the arguments so far, the current one and the open quote. *)
Fixpoint parse_args (cmd : string) (args : list string) (currentArg : string) (quote : option ascii)
    : list string * string * option ascii :=
  match cmd with
  | EmptyString => (args, currentArg, quote)
  | String r rest =>
      if Ascii.eqb r "034" || Ascii.eqb r "'" then
        match quote with
        | Some q =>
            if Ascii.eqb r q then parse_args rest args currentArg None
            else parse_args rest args (currentArg +:+ String r "") quote
        | None => parse_args rest args currentArg (Some r)
        end
      else if Ascii.eqb r " " && bool_decide (quote = None) then
        if currentArg =s? "" then parse_args rest args currentArg quote
        else parse_args rest (args ++ [currentArg])%list "" quote
      else parse_args rest args (currentArg +:+ String r "") quote
  end.

Definition parseCommandLineArgs (cmd : string) : res (list string) :=
  let '(args, currentArg, quote) := parse_args cmd [] "" None in
  let args := if currentArg =s? "" then args else (args ++ [currentArg])%list in
  match quote with
  | Some _ => Err (PlainError ("unterminated quote in command line: " +:+ cmd))
  | None => Ok args
  end.

(** ** mode.go: transforming resources *)

(** The common part of transformResource. *)
Definition transform_meta (destNamespace : string) (m : ObjectMeta) : ObjectMeta :=
  mkObjectMeta m.(mName) destNamespace "" "" "" None [] m.(mOwnerReferences) m.(mGeneration) m.(mFinalizers)
    m.(mLabels) m.(mAnnotations).

(** [transformed.Object["status"] = nil] *)
Definition drop_status (b : Body) : Body :=
  match b with
  | ServiceBody s _ => ServiceBody s ""
  | DeploymentBody s _ => DeploymentBody s ""
  | StatefulSetBody s _ => StatefulSetBody s ""
  | IngressBody s _ => IngressBody s ""
  | PVCBody s _ => PVCBody s ""
  | PVBody s _ _ => PVBody s "" ""
  | NodeBody _ r _ => NodeBody [] r ""
  | VolumeAttachmentBody n p r _ => VolumeAttachmentBody n p r ""
  | PodBody f => PodBody (set_podStatus "" (set_podPhase "" f))
  | UnstructuredBody c _ => UnstructuredBody c ""
  | ConfigMapBody _ | SecretBody _ | EventBody _ | NamespaceBody => b
  end.

Definition no_owners (m : ObjectMeta) : ObjectMeta :=
  mkObjectMeta m.(mName) m.(mNamespace) m.(mUID) m.(mResourceVersion) m.(mSelfLink) m.(mCreationTimestamp)
    m.(mManagedFields) [] m.(mGeneration) m.(mFinalizers) m.(mLabels) m.(mAnnotations).

Definition annotate (key value : string) (m : ObjectMeta) : ObjectMeta :=
  set_mAnnotations (Some (<[key := value]> (or_make m.(mAnnotations)))) m.

(** Store the replicas in an annotation when they are set. *)
Definition keep_replicas (replicas : option Z) (m : ObjectMeta) : ObjectMeta :=
  match replicas with
  | Some n => annotate OriginalReplicasAnnotation (itoa n) m
  | None => m
  end.

Definition handleServiceTransform (s : ServiceSpec) : ServiceSpec :=
  let s := set_svcClusterIP "" s in
  let s := set_svcClusterIPs [] s in
  let s := set_svcHealthCheckNodePort "" s in
  let s := set_svcExternalTrafficPolicy "" s in
  let s := set_svcIPFamilyPolicy "" s in
  let s := set_svcIPFamilies "" s in
  let s := set_svcAllocateLoadBalancerNodePorts "" s in
  let s := set_svcLoadBalancerIP "" s in
  let s := set_svcLoadBalancerSourceRanges "" s in
  let s := set_svcExternalIPs "" s in
  let s := set_svcSessionAffinity "" s in
  set_svcSessionAffinityConfig "" s.

Definition handleDeploymentTransform (s : DeploymentSpec) (m : ObjectMeta) : ObjectMeta :=
  no_owners (keep_replicas s.(dReplicas) m).

Definition handleStatefulSetTransform (s : StatefulSetSpec) (m : ObjectMeta) : StatefulSetSpec * ObjectMeta :=
  let s' :=
    match s.(ssVolumeClaimTemplates) with
    | Some l => set_ssVolumeClaimTemplates (Some ((λ t, (t.1, "")) <$> l)) s
    | None => s
    end in
  (s', no_owners (keep_replicas s.(ssReplicas) m)).

Definition ingress_class : string := "kubernetes.io/ingress.class".

Definition handleIngressTransform (m : ObjectMeta) : ObjectMeta :=
  no_owners (set_mAnnotations (delete ingress_class <$> m.(mAnnotations)) m).

(** The kind decides; an object of a kind has its body. *)
Definition transformResource (resource : Object) (destNamespace : string) : res Object :=
  let transformed := set_oBody (drop_status resource.(oBody)) (on_meta (transform_meta destNamespace) resource) in
  let kind := resource.(oGVK).(kKind) in
  Ok match transformed.(oBody) with
     | ServiceBody s st =>
         if kind =s? "Service" then set_oBody (ServiceBody (handleServiceTransform s) st) transformed else transformed
     | DeploymentBody s _ =>
         if kind =s? "Deployment" then on_meta (handleDeploymentTransform s) transformed else transformed
     | StatefulSetBody s st =>
         if kind =s? "StatefulSet" then
           let '(s', m') := handleStatefulSetTransform s transformed.(oMeta) in
           mkObject transformed.(oGVK) m' (StatefulSetBody s' st)
         else transformed
     | IngressBody _ _ =>
         if kind =s? "Ingress" then on_meta handleIngressTransform transformed else transformed
     | _ => transformed
     end.

(** ** mode.go: syncResources *)

(** schema.ParseGroupVersion: "v1" or "group/v1". *)
Definition ParseGroupVersion (gv : string) : option (string * string) :=
  if (gv =s? "") || (gv =s? "/") then Some ("", "")
  else match Split gv "/" with
       | [v] => Some ("", v)
       | [g; v] => Some (g, v)
       | _ => None
       end.

Definition standard_groups : list string := [""; "apps"; "batch"; "extensions"; "networking.k8s.io"].

(** [err.(interface { Status() interface { Reason() string } })]: the Status method of an
    API error returns a metav1.Status, which is another type, so no error has this method. *)
Definition status_reason (e : error) : option string := None.

Definition sync_item (dest : Cluster) (gvr : GVR) (cfg : Config) (item : Object) : KP unit :=
  match transformResource item cfg.(cfgDestNamespace) with
  | Err _ => mret tt
  | Ok transformed =>
      r ← kcall (KCreate dest gvr cfg.(cfgDestNamespace) transformed);
      match r with
      | Ok _ => mret tt
      | Err err =>
          match status_reason err with
          | Some reason =>
              if reason =s? "AlreadyExists" then
                _ ← kcall (KUpdate dest gvr cfg.(cfgDestNamespace) transformed); mret tt
              else mret tt
          | None => mret tt
          end
      end
  end.

(** The guards on a resource type, in the order of the code. *)
Definition selected (cfg : Config) (group : string) (resource : PreferredResource) : bool :=
  resource.(prNamespaced) &&
  negb (negb (resource.(prName) =s? resource.(prSingularName)) && negb (resource.(prSingularName) =s? "")) &&
  ShouldSyncResourceType cfg resource.(prName) (negb (member group standard_groups)).

Definition sync_type (source dest : Cluster) (cfg : Config) (gv : string * string) (resource : PreferredResource)
    : KP unit :=
  if selected cfg gv.1 resource then
    let gvr := mkGVR gv.1 gv.2 resource.(prName) in
    r ← kcall (KList source gvr cfg.(cfgSourceNamespace) None);
    match r with
    | Err _ => mret tt
    | Ok items => range_each items tt (λ item _, sync_item dest gvr cfg item)
    end
  else mret tt.

Definition syncResources (source dest : Cluster) (cfg : Config) : KP (res unit) :=
  apiResources ←? kcall (KServerPreferredResources source) onerr (plainf "failed to get API resources: ");
  _ ← range_each apiResources tt (λ l _,
        match ParseGroupVersion l.1 with
        | None => mret tt
        | Some gv => range_each l.2 tt (λ resource _, sync_type source dest cfg gv resource)
        end);
  mret (Ok tt).

(** ** mode.go: replicas *)

(** [Spec.Replicas] of a deployment or a stateful set. *)
Definition replicas_of (o : Object) : option Z :=
  match o.(oBody) with
  | DeploymentBody s _ => s.(dReplicas)
  | StatefulSetBody s _ => s.(ssReplicas)
  | _ => None
  end.

Definition set_replicas (n : Z) (o : Object) : Object :=
  match o.(oBody) with
  | DeploymentBody s st => set_oBody (DeploymentBody (set_dReplicas (Some n) s) st) o
  | StatefulSetBody s st => set_oBody (StatefulSetBody (set_ssReplicas (Some n) s) st) o
  | _ => o
  end.

Definition original_replicas (o : Object) : option string := get_key o.(oMeta).(mAnnotations) OriginalReplicasAnnotation.

(** List the workloads of a kind and update each for which [change] gives a new value; an
    update that fails is logged. *)
Definition update_each (c : Cluster) (gvr : GVR) (namespace failure : string) (change : Object → option Object)
    : KP (res unit) :=
  items ←? kcall (KList c gvr namespace None) onerr (plainf failure);
  _ ← range_each items tt (λ item _,
        match change item with
        | None => mret tt
        | Some updated => _ ← kcall (KUpdate c gvr namespace updated); mret tt
        end);
  mret (Ok tt).

(** The same for deployments and then for stateful sets. *)
Definition update_workloads (c : Cluster) (namespace : string) (change : Object → option Object) : KP (res unit) :=
  _ ←? update_each c deployments namespace "failed to list deployments: " change onerr id;
  update_each c statefulsets namespace "failed to list statefulsets: " change.

Definition scaleDeployments (client : Cluster) (namespace : string) (replicas : Z) : KP (res unit) :=
  update_workloads client namespace (λ o, Some (set_replicas replicas o)).

Definition annotate_replicas (o : Object) : option Object :=
  match original_replicas o with
  | Some _ => None
  | None => Some (on_meta (annotate OriginalReplicasAnnotation (itoa (default 0 (replicas_of o)))) o)
  end.

Definition annotateOriginalReplicas (client : Cluster) (namespace : string) : KP (res unit) :=
  update_workloads client namespace annotate_replicas.

(** The count in the annotation, [int32(replicas)]. *)
Definition annotated_count (o : Object) : option Z := original_replicas o ≫= λ s, int32 <$> Sscanf_d s.

Definition restore_replicas (o : Object) : option Object := (λ n, set_replicas n o) <$> annotated_count o.

Definition restoreOriginalReplicas (client : Cluster) (namespace : string) : KP (res unit) :=
  update_workloads client namespace restore_replicas.

Definition restore_scales (source dest : Cluster) (gvr : GVR) (sourceNamespace destNamespace failure : string)
    : KP (res unit) :=
  items ←? kcall (KList source gvr sourceNamespace None) onerr (plainf failure);
  _ ← range_each items tt (λ item _,
        match annotated_count item with
        | None => mret tt
        | Some n =>
            r ← kcall (KGet dest gvr destNamespace (GetName item));
            match r with
            | Err _ => mret tt
            | Ok d => _ ← kcall (KUpdate dest gvr destNamespace (set_replicas n d)); mret tt
            end
        end);
  mret (Ok tt).

Definition restoreDeploymentScales (source dest : Cluster) (sourceNamespace destNamespace : string) : KP (res unit) :=
  _ ←? restore_scales source dest deployments sourceNamespace destNamespace "failed to list deployments in source: "
    onerr id;
  restore_scales source dest statefulsets sourceNamespace destNamespace "failed to list statefulsets in source: ".

(** ** mode.go: data *)

Definition pvMigrate (sourceKubeconfig destKubeconfig sourceNamespace destNamespace sourcePVC destPVC
    additionalFlags : string) : KP (res unit) :=
  let args := ["--source"; sourcePVC; "--dest"; destPVC; "--source-namespace"; sourceNamespace;
               "--dest-namespace"; destNamespace; "-k"; sourceKubeconfig; "-K"; destKubeconfig] in
  let additional := if additionalFlags =s? "" then Ok [] else parseCommandLineArgs additionalFlags in
  match additional with
  | Err err => mret (Err (plainf "failed to parse additional pv-migrate flags: " err))
  | Ok more =>
      r ← executeCommand "pv-migrate" (args ++ more)%list;
      mret (match r.2 with Some err => Err err | None => Ok tt end)
  end.

Definition migratePVCData (source dest : Cluster) (cfg : Config) : KP (res unit) :=
  available ← isPvMigrateAvailable;
  if negb available then
    errorf "pv-migrate not found in PATH, PVC data migration requires pv-migrate to be installed"
  else
    pvcs ←? kcall (KList source persistentvolumeclaims cfg.(cfgSourceNamespace) None)
      onerr (plainf "failed to list PVCs in source namespace: ");
    _ ← range_each pvcs tt (λ pvc _,
          r ← kcall (KGet dest persistentvolumeclaims cfg.(cfgDestNamespace) (GetName pvc));
          match r with
          | Err _ => mret tt
          | Ok _ =>
              _ ← pvMigrate cfg.(cfgSourceKubeconfig) cfg.(cfgDestKubeconfig) cfg.(cfgSourceNamespace)
                    cfg.(cfgDestNamespace) (GetName pvc) (GetName pvc) cfg.(cfgPVMigrateFlags);
              mret tt
          end);
    mret (Ok tt).

(** ** The modes *)

Definition executeStageModeSync (source dest : Cluster) (cfg : Config) : KP (res unit) :=
  _ ←? syncResources source dest cfg onerr (plainf "failed to sync resources: ");
  _ ←? scaleDeployments dest cfg.(cfgDestNamespace) 0 onerr (plainf "failed to scale down deployments in destination: ");
  if cfg.(cfgMigratePVCData) then
    _ ←? migratePVCData source dest cfg onerr (plainf "failed to migrate PVC data: "); mret (Ok tt)
  else mret (Ok tt).

Definition executeCutoverModeSync (source dest : Cluster) (cfg : Config) : KP (res unit) :=
  _ ←? syncResources source dest cfg onerr (plainf "failed to sync resources: ");
  _ ←? annotateOriginalReplicas source cfg.(cfgSourceNamespace) onerr (plainf "failed to annotate original replicas: ");
  _ ←? scaleDeployments source cfg.(cfgSourceNamespace) 0 onerr (plainf "failed to scale down deployments in source: ");
  _ ←? restoreDeploymentScales source dest cfg.(cfgSourceNamespace) cfg.(cfgDestNamespace)
    onerr (plainf "failed to scale up deployments in destination: ");
  if cfg.(cfgMigratePVCData) then
    _ ←? migratePVCData source dest cfg onerr (plainf "failed to migrate PVC data: "); mret (Ok tt)
  else mret (Ok tt).

Definition reverse_config (cfg : Config) : Config :=
  mkConfig cfg.(cfgDestKubeconfig) cfg.(cfgSourceKubeconfig) cfg.(cfgDestNamespace) cfg.(cfgSourceNamespace) "" false
    true false [] [] cfg.(cfgPVMigrateFlags).

Definition executeFailbackModeSync (source dest : Cluster) (cfg : Config) : KP (res unit) :=
  _ ←? (if cfg.(cfgReverseMigratePVCData) then migratePVCData dest source (reverse_config cfg) else mret (Ok tt))
    onerr (plainf "failed to reverse migrate PVC data: ");
  _ ←? scaleDeployments dest cfg.(cfgDestNamespace) 0 onerr (plainf "failed to scale down deployments in destination: ");
  _ ←? restoreOriginalReplicas source cfg.(cfgSourceNamespace) onerr (plainf "failed to scale up deployments in source: ");
  mret (Ok tt).

(** ** cli.go *)

Definition ensureNamespace (client : Cluster) (namespace : string) : KP (res unit) :=
  r ← kcall (KGet client namespaces "" namespace);
  match r with
  | Ok _ => mret (Ok tt)
  | Err err =>
      if negb (IsNotFound err) then
        mret (Err (plainf ("error checking namespace " +:+ namespace +:+ ": ") err))
      else
        let nsObj := mkObject (mkGVK "" "" "")
          (mkObjectMeta namespace "" "" "" "" None [] [] 0 [] None None) NamespaceBody in
        _ ←? kcall (KCreate client namespaces "" nsObj)
          onerr (plainf ("error creating namespace " +:+ namespace +:+ ": "));
        mret (Ok tt)
  end.

(** [setupClients] gives the clients of the two clusters. *)
Definition Run (setupClients : Config → KP (res (Cluster * Cluster))) (cfg : Config) : KP (res unit) :=
  clients ←? setupClients cfg onerr (plainf "failed to setup Kubernetes clients: ");
  let source := clients.1 in
  let dest := clients.2 in
  _ ←? ensureNamespace dest cfg.(cfgDestNamespace) onerr (plainf "failed to ensure destination namespace exists: ");
  let mode := cfg.(cfgMode) in
  if mode =s? "Stage" then
    _ ←? executeStageModeSync source dest cfg onerr (plainf "stage mode failed: "); mret (Ok tt)
  else if mode =s? "Cutover" then
    _ ←? executeCutoverModeSync source dest cfg onerr (plainf "cutover mode failed: "); mret (Ok tt)
  else if mode =s? "Failback" then
    _ ←? executeFailbackModeSync source dest cfg onerr (plainf "failback mode failed: "); mret (Ok tt)
  else errorf ("unknown mode: " +:+ mode).

(** ** cmd/cli/main.go *)

(** The values of the flags. *)
Record Flags : Type := mkFlags {
  fSourceKubeconfig : string; fDestKubeconfig : string; fSourceNamespace : string; fDestNamespace : string;
  fMode : string; fIncludeCustomResources : bool; fMigratePVCData : bool; fReverseMigratePVCData : bool;
  fResourceTypes : string; fExcludeResourceTypes : string; fPVMigrateFlags : string
}.

(** A comma-separated list. *)
Definition comma_list (s : string) : list string :=
  if s =s? "" then [] else TrimSpace <$> Split s ",".

Definition valid_mode (m : string) : bool := (m =s? "Stage") || (m =s? "Cutover") || (m =s? "Failback").

(** The configuration, or the message the program exits with. *)
Definition config_of_flags (f : Flags) : string + Config :=
  if f.(fSourceKubeconfig) =s? "" then inl "Error: --source-kubeconfig is required"
  else if f.(fDestKubeconfig) =s? "" then inl "Error: --dest-kubeconfig is required"
  else if f.(fSourceNamespace) =s? "" then inl "Error: --source-namespace is required"
  else if f.(fDestNamespace) =s? "" then inl "Error: --dest-namespace is required"
  else if f.(fMode) =s? "" then inl "Error: --mode is required (Stage, Cutover, or Failback)"
  else if negb (valid_mode f.(fMode)) then
    inl ("Error: Invalid mode '" +:+ f.(fMode) +:+ "'. Must be one of: Stage, Cutover, Failback")
  else inr (mkConfig f.(fSourceKubeconfig) f.(fDestKubeconfig) f.(fSourceNamespace) f.(fDestNamespace) f.(fMode)
    f.(fIncludeCustomResources) f.(fMigratePVCData) f.(fReverseMigratePVCData) (comma_list f.(fResourceTypes))
    (comma_list f.(fExcludeResourceTypes)) f.(fPVMigrateFlags)).
