(* ===== verification/CliProps.v ===== *)
(** * Theorems about the command line

    A cutover followed by a failback restores the replicas of the source; staging writes
    only to the destination; the additional flags of pv-migrate are split as quoted; what
    the type assertions on errors make of existing resources and of a missing pv-migrate. *)

From S2P Require Import Prelude GoString Errors Types Kube KubeLogic ApiServer Cli.
From Stdlib Require Import Ascii.

(** ** Replicas *)

Definition is_workload (o : Object) : bool :=
  match o.(oBody) with DeploymentBody _ _ | StatefulSetBody _ _ => true | _ => false end.

Lemma replicas_set n o : is_workload o = true → replicas_of (set_replicas n o) = Some n.
Proof. unfold is_workload, replicas_of, set_replicas. by destruct (oBody o) eqn:E; cbn; rewrite ?E. Qed.

Lemma set_replicas_meta n o : (set_replicas n o).(oMeta) = o.(oMeta).
Proof. unfold set_replicas. by destruct (oBody o). Qed.

Lemma set_replicas_workload n o : is_workload (set_replicas n o) = is_workload o.
Proof. unfold is_workload, set_replicas. by destruct (oBody o) eqn:E; cbn; rewrite ?E. Qed.

(** What survives the metadata the server owns. *)
Lemma sanitized_same o o' :
  SanitizeMetadata o' = SanitizeMetadata o →
  o'.(oBody) = o.(oBody) ∧ original_replicas o' = original_replicas o ∧ GetName o' = GetName o.
Proof.
  intros E. split; [by injection E|]. split; [|by injection E].
  pose proof (f_equal original_replicas E) as H. unfold original_replicas, get_key in *. cbn in H.
  destruct (mAnnotations (oMeta o')), (mAnnotations (oMeta o)); cbn in *;
    by rewrite ?lookup_delete_ne in H by done.
Qed.

Lemma sanitized_workload o o' :
  SanitizeMetadata o' = SanitizeMetadata o →
  is_workload o' = is_workload o ∧ replicas_of o' = replicas_of o ∧ annotated_count o' = annotated_count o.
Proof.
  intros (Hb & Ha & _)%sanitized_same. unfold is_workload, replicas_of, annotated_count. by rewrite Hb, Ha.
Qed.

(** A change of a workload that the server accepts: name and version are the ones read. *)
Definition conservative (change : Object → option Object) : Prop :=
  ∀ o u, change o = Some u → GetName u = GetName o ∧ u.(oMeta).(mResourceVersion) = o.(oMeta).(mResourceVersion).

Lemma scale_conservative n : conservative (λ o, Some (set_replicas n o)).
Proof. intros o u [= <-]. unfold GetName. by rewrite set_replicas_meta. Qed.

Lemma annotate_conservative : conservative annotate_replicas.
Proof. intros o u. unfold annotate_replicas. destruct (original_replicas o); [done|]. by intros [= <-]. Qed.

Lemma restore_conservative : conservative restore_replicas.
Proof.
  intros o u. unfold restore_replicas. destruct (annotated_count o); [|done].
  intros [= <-]. unfold GetName. by rewrite set_replicas_meta.
Qed.

(** The object a server holds after a change: the new value up to the metadata it owns. *)
Definition changed (change : Object → option Object) (o o' : Object) : Prop :=
  match change o with
  | Some u => SanitizeMetadata o' = SanitizeMetadata u
  | None => o' = o
  end.

Section Store.
Context {S : Type} (h : handler KSig S) (wf : S → Prop) `{!QuietStore h wf}.

Abbreviation get c r ns name s := ((h (KGet c r ns name) s).1).

Definition workload_loop (c : Cluster) (r : GVR) (ns : string) (change : Object → option Object) (items : list Object)
    : KP unit :=
  range_each items tt (λ item _,
    match change item with
    | None => mret tt
    | Some updated => _ ← kcall (KUpdate c r ns updated); mret tt
    end).

Lemma may_write_update c r ns x c' r' ns' name :
  (c, r, ns, GetName x) ≠ (c', r', ns', name) → may_write c' r' ns' name (KUpdate c r ns x) = false.
Proof. intros. by apply bool_decide_eq_false. Qed.

(** One step of the loop. *)
Lemma update_step c r ns change item s :
  conservative change → wf s → get c r ns (GetName item) s = Ok item →
  ∃ s', run h (match change item with
               | None => mret tt
               | Some updated => _ ← kcall (KUpdate c r ns updated); mret tt
               end) s = (Ret tt, s') ∧ wf s' ∧
    (∃ o', get c r ns (GetName item) s' = Ok o' ∧ changed change item o') ∧
    ∀ c' r' ns' name, (c, r, ns, GetName item) ≠ (c', r', ns', name) → get c' r' ns' name s' = get c' r' ns' name s.
Proof.
  intros Hc Hw Hg. unfold changed. destruct (change item) as [u|] eqn:Hu.
  - destruct (Hc item u Hu) as [Hn Hv]. exists (h (KUpdate c r ns u) s).2. split_and!.
    + by run_kstep.
    + by apply quiet_wf.
    + rewrite <- Hn in Hg |- *. destruct (quiet_update c r ns u s item Hw Hg Hv) as (x' & _ & Hx & Hs). by eauto.
    + intros c' r' ns' name Hne. apply quiet_frame; [done|]. apply may_write_update. by rewrite Hn.
  - exists s. split_and!; [done..| |done]. by exists item.
Qed.

Lemma run_each_cons {A} (x : A) xs body s s1 :
  run h (body x tt) s = (Ret tt, s1) → run h (range_each (x :: xs) tt body) s = run h (range_each xs tt body) s1.
Proof. intros E. cbn [range_each]. by rewrite run_bind, E. Qed.

Lemma update_loop_spec c r ns change items s :
  conservative change → wf s → NoDup (GetName <$> items) → (∀ o, o ∈ items → get c r ns (GetName o) s = Ok o) →
  ∃ s', run h (workload_loop c r ns change items) s = (Ret tt, s') ∧ wf s' ∧
    (∀ o, o ∈ items → ∃ o', get c r ns (GetName o) s' = Ok o' ∧ changed change o o') ∧
    ∀ c' r' ns' name, ¬ (c' = c ∧ r' = r ∧ ns' = ns ∧ name ∈ GetName <$> items) →
      get c' r' ns' name s' = get c' r' ns' name s.
Proof.
  intros Hc. revert s. induction items as [|x items IH]; intros s Hw Hnd Hi.
  { exists s. split_and!; [done..| |done]. by intros o ?%elem_of_nil. }
  rewrite fmap_cons in Hnd. apply NoDup_cons in Hnd as [Hx Hnd].
  destruct (update_step c r ns change x s Hc Hw (Hi x ltac:(left))) as (s1 & E & Hw1 & (x' & Hx' & Hch) & Hf1).
  destruct (IH s1 Hw1 Hnd) as (s2 & E2 & Hw2 & Hd & Hf2).
  { intros o Ho. rewrite Hf1; [apply Hi; by right|]. intros En. apply Hx. replace (GetName x) with (GetName o) by congruence.
    by apply list_elem_of_fmap_2. }
  exists s2. split_and!; [|done| |].
  - unfold workload_loop in *. by rewrite (run_each_cons _ _ _ _ _ E).
  - intros o [->|Ho]%elem_of_cons; [|by apply Hd]. exists x'. split; [|done]. rewrite Hf2; [done|].
    by intros (_ & _ & _ & ?).
  - intros c' r' ns' name Hne. rewrite fmap_cons in Hne. rewrite Hf2, Hf1; [done| |].
    + intros [= <- <- <- <-]. apply Hne. split_and!; [done..|left].
    + intros (-> & -> & -> & ?). apply Hne. split_and!; [done..|by right].
Qed.

(** What [update_each] does on a quiet server: every object of the kind is changed, and
    nothing else. *)
Lemma update_each_spec c r ns failure change s :
  conservative change → wf s → ns ≠ "" →
  ∃ s', run h (update_each c r ns failure change) s = (Ret (Ok tt), s') ∧ wf s' ∧
    (∀ name o, get c r ns name s = Ok o → GetName o = name →
       ∃ o', get c r ns name s' = Ok o' ∧ changed change o o') ∧
    ∀ c' r' ns' name, (c', r', ns') ≠ (c, r, ns) → get c' r' ns' name s' = get c' r' ns' name s.
Proof.
  intros Hc Hw Hns. destruct (quiet_list c r ns s Hw Hns) as (items & El & Hnd & Hi).
  destruct (update_loop_spec c r ns change items s Hc Hw Hnd (λ o, proj1 (Hi o))) as (s' & E & Hw' & Hd & Hf).
  exists s'. split_and!; [|done| |].
  - unfold update_each, bindE. run_kstep. rewrite El. cbn [fst snd]. unfold workload_loop in E. by rewrite run_bind, E.
  - intros name o Hg <-. apply Hd. by apply Hi.
  - intros c' r' ns' name Hne. apply Hf. intros (-> & -> & -> & _). done.
Qed.

Definition workloads (r : GVR) : Prop := r = deployments ∨ r = statefulsets.

Lemma update_workloads_spec c ns change s :
  conservative change → wf s → ns ≠ "" →
  ∃ s', run h (update_workloads c ns change) s = (Ret (Ok tt), s') ∧ wf s' ∧
    (∀ r name o, workloads r → get c r ns name s = Ok o → GetName o = name →
       ∃ o', get c r ns name s' = Ok o' ∧ changed change o o') ∧
    ∀ c' r' ns' name, (c', ns') ≠ (c, ns) → get c' r' ns' name s' = get c' r' ns' name s.
Proof.
  intros Hc Hw Hns.
  destruct (update_each_spec c deployments ns "failed to list deployments: " change s Hc Hw Hns) as (s1 & E1 & Hw1 & Hd1 & Hf1).
  destruct (update_each_spec c statefulsets ns "failed to list statefulsets: " change s1 Hc Hw1 Hns) as (s2 & E2 & Hw2 & Hd2 & Hf2).
  exists s2. split_and!; [|done| |].
  - unfold update_workloads, bindE. by rewrite run_bind, E1.
  - intros r name o [->| ->] Hg Hn.
    + rewrite Hf2 by done. by apply Hd1.
    + apply Hd2; [by rewrite Hf1|done].
  - intros c' r' ns' name Hne. rewrite Hf2, Hf1; [done|congruence..].
Qed.

Lemma run_bindE_ok {A B} (p : KP (res A)) w (k : A → KP (res B)) s b s' :
  run h (bindE p w k) s = (Ret (Ok b), s') →
  ∃ a s1, run h p s = (Ret (Ok a), s1) ∧ run h (k a) s1 = (Ret (Ok b), s').
Proof.
  unfold bindE. rewrite run_bind. destruct (run h p s) as [[[a|e]|x] s1] eqn:E; [by eauto|done|done].
Qed.

(** Calls that write to the namespace [ns] of the cluster [c] only. *)
Definition writes_into (c : Cluster) (ns : string) : Op KSig → Prop := λ o : KOp,
  match o with
  | KCreate c' _ ns' _ | KUpdate c' _ ns' _ => c' = c ∧ ns' = ns
  | KGet _ _ _ _ | KList _ _ _ _ | KServerPreferredResources _ => True
  | _ => False
  end.

Lemma writes_into_other c ns c' r ns' name (o : KOp) :
  (c', ns') ≠ (c, ns) → writes_into c ns o → may_write c' r ns' name o = false.
Proof. intros Hne. destruct o; cbn; try done; intros [-> ->]; apply bool_decide_eq_false; congruence. Qed.

Lemma run_into {A} (p : KP A) c ns c' r ns' name s :
  wf s → safe (writes_into c ns) p anyr → (c', ns') ≠ (c, ns) →
  wf (run h p s).2 ∧ get c' r ns' name (run h p s).2 = get c' r ns' name s.
Proof.
  intros Hw Hp Hne. apply run_frame; [done..|].
  apply (safe_mono _ _ _ _ _ Hp); [|done]. intros o. by apply writes_into_other.
Qed.

Lemma syncResources_into source dest cfg : safe (writes_into dest cfg.(cfgDestNamespace)) (syncResources source dest cfg) anyr.
Proof.
  unfold syncResources, sync_type, sync_item. repeat safe_step; done.
Qed.

Lemma restoreDeploymentScales_into source dest ns ns' :
  safe (writes_into dest ns') (restoreDeploymentScales source dest ns ns') anyr.
Proof. unfold restoreDeploymentScales, restore_scales. repeat safe_step; done. Qed.

Lemma update_workloads_into c ns change : safe (writes_into c ns) (update_workloads c ns change) anyr.
Proof. unfold update_workloads, update_each. repeat safe_step; done. Qed.

(** The count a cutover leaves in the annotation of a workload: the one an earlier cutover
    wrote, or the replicas it has. *)
Definition expected_count (o : Object) : option Z :=
  match original_replicas o with
  | Some a => int32 <$> Sscanf_d a
  | None => Some (default 0 (replicas_of o))
  end.

Lemma annotate_count o o' :
  in_int32 (default 0 (replicas_of o)) → changed annotate_replicas o o' → annotated_count o' = expected_count o.
Proof.
  intros Hr. unfold changed, annotate_replicas, expected_count, annotated_count.
  destruct (original_replicas o) as [a|] eqn:Ha; [by intros ->; rewrite Ha|].
  intros (_ & -> & _)%sanitized_same. unfold original_replicas, get_key. cbn. rewrite lookup_insert_eq. cbn.
  rewrite Sscanf_itoa by (unfold in_int64, in_int32 in *; lia). cbn. by rewrite int32_id.
Qed.

Lemma annotate_keeps o o' :
  changed annotate_replicas o o' → is_workload o' = is_workload o ∧ GetName o' = GetName o.
Proof.
  unfold changed, annotate_replicas. destruct (original_replicas o); [by intros ->|].
  intros E. destruct (sanitized_workload _ _ E) as (-> & _). apply sanitized_same in E as (_ & _ & ->). done.
Qed.

Lemma scaled n o o' :
  is_workload o = true → changed (λ o, Some (set_replicas n o)) o o' →
  replicas_of o' = Some n ∧ annotated_count o' = annotated_count o ∧ is_workload o' = true ∧ GetName o' = GetName o.
Proof.
  intros Hk E. cbn in E. destruct (sanitized_workload _ _ E) as (-> & -> & ->). apply sanitized_same in E as (_ & _ & ->).
  rewrite replicas_set, set_replicas_workload by done. split_and!; [done| |done|].
  - unfold annotated_count, original_replicas. by rewrite set_replicas_meta.
  - unfold GetName. by rewrite set_replicas_meta.
Qed.

Lemma restored o o' :
  is_workload o = true → changed restore_replicas o o' →
  replicas_of o' = match annotated_count o with Some n => Some n | None => replicas_of o end.
Proof.
  intros Hk. unfold changed, restore_replicas. destruct (annotated_count o); cbn; [|by intros ->].
  intros (_ & -> & _)%sanitized_workload. by apply replicas_set.
Qed.

Section Modes.
Context (source dest : Cluster) (cfg : Config).
Let ns : string := cfg.(cfgSourceNamespace).
Context (Hns : ns ≠ "") (Hdist : (source, ns) ≠ (dest, cfg.(cfgDestNamespace))).

Lemma cutover_source s s1 r o :
  cfg.(cfgMigratePVCData) = false → wf s → run h (executeCutoverModeSync source dest cfg) s = (Ret (Ok tt), s1) →
  workloads r → is_workload o = true → in_int32 (default 0 (replicas_of o)) →
  get source r ns (GetName o) s = Ok o →
  wf s1 ∧ ∃ o1, get source r ns (GetName o) s1 = Ok o1 ∧ is_workload o1 = true ∧ replicas_of o1 = Some 0 ∧
    annotated_count o1 = expected_count o ∧ GetName o1 = GetName o.
Proof.
  intros Hm Hw Hr Hk Ho Hrange Hg. unfold executeCutoverModeSync in Hr. rewrite Hm in Hr. fold ns in Hr.
  apply run_bindE_ok in Hr as (? & sa & Ea & Hr).
  destruct (run_into _ _ _ source r ns (GetName o) s Hw (syncResources_into source dest cfg) Hdist) as [Hwa Hga].
  rewrite Ea in Hwa, Hga. cbn [snd] in Hwa, Hga. rewrite Hg in Hga.
  destruct (update_workloads_spec source ns _ sa annotate_conservative Hwa Hns) as (sb & Eb & Hwb & Hb & _).
  destruct (Hb r _ o Hk Hga eq_refl) as (ob & Hgb & Hcb). destruct (annotate_keeps _ _ Hcb) as [Hob Hnb].
  apply run_bindE_ok in Hr as (? & sb' & Eb' & Hr). unfold annotateOriginalReplicas in Eb'.
  rewrite Eb in Eb'. injection Eb' as <- <-.
  destruct (update_workloads_spec source ns _ sb (scale_conservative 0) Hwb Hns) as (sc & Ec & Hwc & Hc & _).
  destruct (Hc r (GetName o) ob Hk Hgb Hnb) as (oc & Hgc & Hcc).
  destruct (scaled 0 ob oc ltac:(congruence) Hcc) as (Hrep & Han & Hoc & Hnc).
  apply run_bindE_ok in Hr as (? & sc' & Ec' & Hr). unfold scaleDeployments in Ec'.
  rewrite Ec in Ec'. injection Ec' as <- <-.
  apply run_bindE_ok in Hr as (? & sd & Ed & Hr). cbn in Hr. injection Hr as <-.
  destruct (run_into _ _ _ source r ns (GetName o) sc Hwc (restoreDeploymentScales_into source dest ns cfg.(cfgDestNamespace)) Hdist)
    as [Hwd Hgd]. rewrite Ed in Hwd, Hgd. cbn [snd] in Hwd, Hgd.
  split; [done|]. exists oc. rewrite Hgd, Hgc, Han, (annotate_count _ _ Hrange Hcb), Hnc, Hnb. done.
Qed.

Lemma failback_source s s2 r o :
  cfg.(cfgReverseMigratePVCData) = false → wf s → run h (executeFailbackModeSync source dest cfg) s = (Ret (Ok tt), s2) →
  workloads r → is_workload o = true → get source r ns (GetName o) s = Ok o →
  ∃ o2, get source r ns (GetName o) s2 = Ok o2 ∧
    replicas_of o2 = match annotated_count o with Some n => Some n | None => replicas_of o end.
Proof.
  intros Hm Hw Hr Hk Ho Hg. unfold executeFailbackModeSync in Hr. rewrite Hm in Hr. fold ns in Hr.
  apply run_bindE_ok in Hr as (? & s' & E' & Hr). cbn in E'. injection E' as <- <-.
  apply run_bindE_ok in Hr as (? & sa & Ea & Hr).
  destruct (run_into _ _ _ source r ns (GetName o) s Hw (update_workloads_into dest cfg.(cfgDestNamespace) (λ o, Some (set_replicas 0 o))) Hdist)
    as [Hwa Hga]. unfold scaleDeployments in Ea. rewrite Ea in Hwa, Hga. cbn [snd] in Hwa, Hga. rewrite Hg in Hga.
  destruct (update_workloads_spec source ns _ sa restore_conservative Hwa Hns) as (sb & Eb & _ & Hb & _).
  destruct (Hb r _ o Hk Hga eq_refl) as (ob & Hgb & Hcb).
  apply run_bindE_ok in Hr as (? & sb' & Eb' & Hr). unfold restoreOriginalReplicas in Eb'.
  rewrite Eb in Eb'. injection Eb' as <- <-. cbn in Hr. injection Hr as <-.
  exists ob. split; [done|]. by apply restored.
Qed.

(** C14: on servers nobody else writes to, a cutover followed by a failback gives every
    deployment and stateful set of the source namespace its replicas back.  A workload that
    still carries the annotation of an earlier cutover gets the count of that one, and stays
    at zero when it is not a number. *)
Theorem cutover_failback_replicas s s1 s2 r o :
  cfg.(cfgMigratePVCData) = false → cfg.(cfgReverseMigratePVCData) = false → wf s →
  run h (executeCutoverModeSync source dest cfg) s = (Ret (Ok tt), s1) →
  run h (executeFailbackModeSync source dest cfg) s1 = (Ret (Ok tt), s2) →
  workloads r → is_workload o = true → in_int32 (default 0 (replicas_of o)) →
  get source r ns (GetName o) s = Ok o →
  (∃ o1, get source r ns (GetName o) s1 = Ok o1 ∧ replicas_of o1 = Some 0) ∧
  ∃ o2, get source r ns (GetName o) s2 = Ok o2 ∧
    replicas_of o2 = Some (default 0 (match original_replicas o with
                                      | None => replicas_of o
                                      | Some a => int32 <$> Sscanf_d a
                                      end)).
Proof.
  intros Hm Hrm Hw Hc Hf Hk Ho Hrange Hg.
  destruct (cutover_source s s1 r o Hm Hw Hc Hk Ho Hrange Hg) as (Hw1 & o1 & Hg1 & Ho1 & Hr1 & Ha1 & Hn1).
  split; [by exists o1|]. rewrite <- Hn1 in Hg1 |- *.
  destruct (failback_source s1 s2 r o1 Hrm Hw1 Hf Hk Ho1 Hg1) as (o2 & Hg2 & Hr2).
  exists o2. split; [done|]. rewrite Hr2, Ha1, Hr1. unfold expected_count.
  destruct (original_replicas o) as [a|]; [|done]. by destruct (int32 <$> Sscanf_d a).
Qed.
End Modes.
End Store.

Definition demo_config (mode : string) : Config :=
  mkConfig "src.yaml" "dst.yaml" "prod" "dr" mode false false false [] [] "".

Definition demo_deployment (rv : string) (replicas : Z) : Object :=
  mkObject (mkGVK "apps" "v1" "Deployment") (mkObjectMeta "web" "prod" "" rv "" None [] [] 0 [] None None)
    (DeploymentBody (mkDeploymentSpec (Some replicas) None "" "" 0 None false None) "").

Definition demo_cluster : world := mkWorld [mkEntry Src deployments "prod" (demo_deployment "1" 3)] [] [] 2 0.

Definition demo_cutover : exec (res unit) * world :=
  run api (executeCutoverModeSync Src Dst (demo_config "Cutover")) demo_cluster.

Definition demo_failback : exec (res unit) * world :=
  run api (executeFailbackModeSync Src Dst (demo_config "Failback")) demo_cutover.2.

Lemma demo_distinct : api_distinct demo_cluster.
Proof. apply NoDup_singleton. Qed.

Lemma cutover_failback_replicas_witness :
  (∃ o1, (api (KGet Src deployments "prod" "web") demo_cutover.2).1 = Ok o1 ∧ replicas_of o1 = Some 0) ∧
  ∃ o2, (api (KGet Src deployments "prod" "web") demo_failback.2).1 = Ok o2 ∧ replicas_of o2 = Some 3.
Proof.
  apply (cutover_failback_replicas api api_distinct Src Dst (demo_config "Cutover") ltac:(done) ltac:(done)
    demo_cluster demo_cutover.2 demo_failback.2 deployments (demo_deployment "1" 3)).
  1, 2: reflexivity.
  1: exact demo_distinct.
  1, 2: vm_compute; reflexivity.
  1: by left.
  1: reflexivity.
  1: vm_compute; split; congruence.
  reflexivity.
Defined.

(** ** Staging *)

(** What staging may send. *)
Definition stage_writes (dest : Cluster) (ns : string) : Op KSig → Prop := λ o : KOp,
  match o with
  | KCreate c _ ns' x =>
      c = dest ∧ ns' = ns ∧ GetNamespace x = ns ∧ x.(oMeta).(mResourceVersion) = "" ∧ x.(oMeta).(mUID) = "" ∧
      x.(oMeta).(mManagedFields) = []
  | KUpdate c r ns' x =>
      c = dest ∧ ns' = ns ∧ workloads r ∧ (is_workload x = true → replicas_of x = Some 0)
  | KGet _ _ _ _ | KList _ _ _ _ | KServerPreferredResources _ => True
  | KCommand command _ => command = "pv-migrate"
  | _ => False
  end.

Lemma transformResource_clean o ns x :
  transformResource o ns = Ok x →
  GetNamespace x = ns ∧ x.(oMeta).(mResourceVersion) = "" ∧ x.(oMeta).(mUID) = "" ∧ x.(oMeta).(mManagedFields) = [] ∧
  GetName x = GetName o.
Proof.
  unfold transformResource. intros [= <-]. unfold handleDeploymentTransform, handleStatefulSetTransform, keep_replicas.
  repeat case_match; simplify_eq; done.
Qed.

(** Existing resources of the destination are never updated by syncResources: the
    assertion on the error of the creation fails for every error. *)
Definition no_update : Op KSig → Prop := λ o : KOp, match o with KUpdate _ _ _ _ => False | _ => True end.

Lemma syncResources_stage source dest cfg :
  safe (λ o : Op KSig, stage_writes dest cfg.(cfgDestNamespace) o ∧ no_update o)
    (syncResources source dest cfg) anyr.
Proof.
  unfold syncResources, sync_type, sync_item.
  repeat (safe_step || (cbn [status_reason])); try done.
  split; [|done]. apply transformResource_clean in Heqr0 as (? & ? & ? & ? & _). done.
Qed.

Lemma scale_stage dest ns : safe (stage_writes dest ns) (scaleDeployments dest ns 0) anyr.
Proof.
  unfold scaleDeployments, update_workloads, update_each. repeat safe_step; try done.
  all: simplify_eq; cbn; split_and!; try done; rewrite ?set_replicas_workload; auto using replicas_set.
  all: first [by left|by right].
Qed.

Lemma migrate_stage source dest cfg ns : safe (stage_writes dest ns) (migratePVCData source dest cfg) anyr.
Proof.
  unfold migratePVCData, isPvMigrateAvailable, pvMigrate, executeCommand. repeat safe_step; done.
Qed.

(** Staging writes to nothing but the destination namespace, whatever the API servers
    answer: resources are created there with their namespace set, without version, UID and
    managed fields, and workloads of that namespace are updated to zero replicas. *)
Theorem executeStageModeSync_writes source dest cfg tr out :
  runs (executeStageModeSync source dest cfg) tr out →
  Forall (λ e, stage_writes dest cfg.(cfgDestNamespace) (ev_op e)) tr.
Proof.
  apply (safe_sound _ _ anyr). unfold executeStageModeSync.
  repeat (safe_step || apply scale_stage || apply migrate_stage); try done.
  eapply safe_mono; [apply syncResources_stage|by intros o [? _]|done].
Qed.

Lemma executeStageModeSync_writes_witness :
  Forall (λ e, stage_writes Dst "dr" (ev_op e))
    (run_trace api (executeStageModeSync Src Dst (demo_config "Stage")) demo_cluster) ∧
  replicas_of <$> find_object Dst deployments "dr" "web"
    (run api (executeStageModeSync Src Dst (demo_config "Stage")) demo_cluster).2.(objects) = Some (Some 0).
Proof.
  split; [|vm_compute; reflexivity].
  exact (executeStageModeSync_writes Src Dst (demo_config "Stage") _ _ (run_trace_runs api _ demo_cluster)).
Defined.

(** Syncing again does not bring the destination up to date: syncResources makes no
    update at all, also when the creation answers that the resource already exists, since
    the type assertion that looks for the reason fails for every error. *)
Theorem syncResources_never_updates source dest cfg tr out :
  runs (syncResources source dest cfg) tr out →
  Forall (λ e, no_update (ev_op e)) tr.
Proof.
  apply (safe_sound _ _ anyr). eapply safe_mono; [apply syncResources_stage|by intros o [_ ?]|done].
Qed.

Lemma syncResources_never_updates_witness :
  let w := mkWorld [mkEntry Src deployments "prod" (demo_deployment "1" 3);
                    mkEntry Dst deployments "dr" (demo_deployment "2" 1)] [] [] 3 0 in
  Forall (λ e, no_update (ev_op e))
    (run_trace api (syncResources Src Dst (demo_config "Stage")) w) ∧
  (run api (syncResources Src Dst (demo_config "Stage")) w).2 = w.
Proof.
  cbv zeta. split; [|vm_compute; reflexivity].
  exact (syncResources_never_updates Src Dst (demo_config "Stage") _ _ (run_trace_runs api _ _)).
Defined.

(** ** pv-migrate *)

(** Pv-migrate counts as installed only when it exits with status 0, with or without
    --version: an exit status of 1 or 2, which the code means to accept, is lost when the
    error is formatted. *)
Theorem isPvMigrateAvailable_exit tr (b : bool) :
  runs isPvMigrateAvailable tr (Ret b) →
  b = true ↔ ∃ args output, Ev (Sg := KSig) (KCommand "pv-migrate" args) (output, None) ∈ tr.
Proof.
  unfold isPvMigrateAvailable, executeCommand. intros Hr. prun.
  apply (runs_call_inv (Sg := KSig) (KCommand "pv-migrate" ["--version"])) in Hr as ([o1 [e1|]] & t & -> & Hr); cbn in Hr.
  2: { apply runs_ret_inv in Hr as [-> [= ->]]. split; [|done]. intros _. exists ["--version"], o1. left. }
  apply (runs_call_inv (Sg := KSig) (KCommand "pv-migrate" [])) in Hr as ([o2 [e2|]] & t' & -> & Hr); cbn in Hr;
    apply runs_ret_inv in Hr as [-> [= ->]].
  2: { split; [|done]. intros _. exists [], o2. right. left. }
  split; [done|]. intros (args & output & [E|[E|[]%elem_of_nil]%elem_of_cons]%elem_of_cons).
  all: apply (f_equal (λ e : event KSig, match e with
         | Ev o r => match o as o return KResp o → option CommandError with
                     | KCommand _ _ => snd | _ => λ _, None end r end)) in E; done.
Qed.

Lemma isPvMigrateAvailable_exit_witness :
  (true = true ↔ ∃ args output, Ev (Sg := KSig) (KCommand "pv-migrate" args) (output, None) ∈
     run_trace api isPvMigrateAvailable demo_cluster).
Proof.
  apply (isPvMigrateAvailable_exit _ true).
  exact (run_trace_runs api isPvMigrateAvailable demo_cluster).
Defined.

(** Quote every character of an argument on its own: in single quotes when it is a double
    quote, in double quotes otherwise. *)
Definition quote_char (c : ascii) : string :=
  let q : ascii := if Ascii.eqb c "034" then "'"%char else "034"%char in
  String q (String c (String q "")).

Fixpoint quote_arg (s : string) : string :=
  match s with
  | EmptyString => ""
  | String c r => quote_char c +:+ quote_arg r
  end.

Lemma parse_quoted_char c rest args cur :
  parse_args (quote_char c +:+ rest) args cur None = parse_args rest args (cur +:+ String c "") None.
Proof.
  unfold quote_char. destruct (Ascii.eqb c "034") eqn:E.
  - apply Ascii.eqb_eq in E as ->. by rewrite !sappend_cons, sappend_nil.
  - rewrite !sappend_cons, sappend_nil. cbn [parse_args]. rewrite E.
    change (Ascii.eqb "034" "034") with true. cbn [orb]. rewrite andb_false_r.
    by destruct (Ascii.eqb c "'").
Qed.

Lemma parse_quoted s rest args cur :
  parse_args (quote_arg s +:+ rest) args cur None = parse_args rest args (cur +:+ s) None.
Proof.
  revert cur. induction s as [|c s IH]; intros cur; cbn [quote_arg].
  - by rewrite sappend_nil_r.
  - rewrite sappend_assoc, parse_quoted_char, IH, sappend_assoc. done.
Qed.

Lemma parse_joined l args :
  Forall (λ a, a ≠ "") l →
  match parse_args (Join (quote_arg <$> l) " ") args "" None with
  | (args', cur, q) => q = None ∧ (if cur =s? "" then args' else (args' ++ [cur])%list) = (args ++ l)%list
  end.
Proof.
  revert args. induction l as [|a l IH]; intros args Hl; [cbn; by rewrite app_nil_r|].
  apply Forall_cons in Hl as [Ha Hl]. apply String.eqb_neq in Ha as Hb. destruct l as [|b l].
  - cbn [fmap list_fmap Join]. rewrite <- (sappend_nil_r (quote_arg a)), parse_quoted, sappend_nil. cbn [parse_args].
    by rewrite Hb.
  - change (Join (quote_arg <$> a :: b :: l) " ") with (quote_arg a +:+ (" " +:+ Join (quote_arg <$> b :: l) " ")).
    rewrite parse_quoted, sappend_nil, sappend_cons, sappend_nil. cbn [parse_args].
    rewrite bool_decide_eq_true_2 by done. change (Ascii.eqb " " "034" || Ascii.eqb " " "'") with false.
    change (Ascii.eqb " " " " && true) with true. cbn iota. rewrite Hb.
    specialize (IH (args ++ [a])%list Hl). destruct (parse_args _ _ _ _) as [[args' cur] q].
    by rewrite <- app_assoc in IH.
Qed.

(** Any list of non-empty arguments, whatever characters they contain, can be passed in
    the additional flags: quoted and joined by spaces they are split into the same
    arguments. *)
Theorem parseCommandLineArgs_quoted l :
  Forall (λ a, a ≠ "") l → parseCommandLineArgs (Join (quote_arg <$> l) " ") = Ok l.
Proof.
  intros Hl. pose proof (parse_joined l [] Hl) as H. unfold parseCommandLineArgs.
  destruct (parse_args _ _ _ _) as [[args cur] q]. destruct H as [-> H]. by rewrite H.
Qed.

Lemma parseCommandLineArgs_quoted_witness :
  parseCommandLineArgs (Join (quote_arg <$> ["--strategy"; "a b"; "it's"]) " ") = Ok ["--strategy"; "a b"; "it's"].
Proof. apply parseCommandLineArgs_quoted. repeat constructor; done. Defined.
