(* ===== verification/Lock.v ===== *)
(** * PVC locks: pkg/controller/replication

    AcquirePVCLock and ReleasePVCLock of rsync_helpers.go keep a lock in two
    annotations of the source claim; pvc_lock.go has the older single-annotation
    format and the cleanup of orphaned rsync deployments, which still reads it. *)

From S2P Require Import Prelude GoString Errors Types Kube KubeLogic Rfc3339.
From Stdlib Require Import Ascii.

(** ** rsync_helpers.go *)

Record PVCLockInfo : Type := mkPVCLockInfo { ControllerPodName : string; Timestamp : string }.

#[global] Instance PVCLockInfo_eq_dec : EqDecision PVCLockInfo.
Proof. solve_decision. Defined.

Definition lock_owner : string := "dr-syncer.io/lock-owner".
Definition lock_timestamp : string := "dr-syncer.io/lock-timestamp".

(** [obj.Annotations[k]], the empty string when it is absent. *)
Definition annot (o : Object) (k : string) : string := default "" (get_key o.(oMeta).(mAnnotations) k).

(** [time.Since]: the difference saturates at the bounds of an int64. *)
Definition Since (now t : Time) : Z :=
  Z.max (-9223372036854775808) (Z.min 9223372036854775807 (now - t)).

(** [POD_NAME], or a fixed name when the variable is unset. *)
Definition pod_name (env : string) : string := if env =s? "" then "unknown" else env.

(** GetCurrentControllerPodName, which the locks do not use: POD_NAME, the host name, or a name
    made of the time in nanoseconds. *)
Definition GetCurrentControllerPodName (POD_NAME : string) (hostname : res string) (nanos : Z) : string :=
  if negb (POD_NAME =s? "") then POD_NAME
  else match hostname with
       | Ok h => if negb (h =s? "") then h else "dr-syncer-controller-" +:+ itoa nanos
       | Err _ => "dr-syncer-controller-" +:+ itoa nanos
       end.

Definition with_annotations (a : option (gmap string string)) (o : Object) : Object :=
  on_meta (set_mAnnotations a) o.

(** The claim with the lock annotations set, as it is sent to the server. *)
Definition locked_pvc (podName : string) (now : Time) (pvc : Object) : Object :=
  with_annotations (Some (<[lock_timestamp := FormatRFC3339 now]>
                           (<[lock_owner := podName]> (or_make pvc.(oMeta).(mAnnotations))))) pvc.

(** The tail of AcquirePVCLock: write the lock. *)
Definition store_lock (podName ns : string) (pvc : Object) (now : Time) : KP (res (bool * PVCLockInfo)) :=
  _ ←? kcall (KUpdate Src persistentvolumeclaims ns (locked_pvc podName now pvc))
    onerr plainf "failed to update source PVC to acquire lock: ";
  mret (Ok (true, mkPVCLockInfo podName (FormatRFC3339 now))).

Definition take_lock (podName ns : string) (pvc : Object) : KP (res (bool * PVCLockInfo)) :=
  now ← kcall KNow; store_lock podName ns pvc now.

(** A lock of another pod that carries a readable time: taken over after an hour. *)
Definition contend (podName ns : string) (pvc : Object) (lockTime : Time) : KP (res (bool * PVCLockInfo)) :=
  now ← kcall KNow;
  if Hour <? Since now lockTime then take_lock podName ns pvc
  else mret (Ok (false, mkPVCLockInfo (annot pvc lock_owner) (annot pvc lock_timestamp))).

Definition acquire_found (podName ns : string) (pvc : Object) : KP (res (bool * PVCLockInfo)) :=
  let owner := annot pvc lock_owner in
  let timestamp := annot pvc lock_timestamp in
  if negb (owner =s? "") then
    if owner =s? podName then mret (Ok (true, mkPVCLockInfo podName timestamp))
    else if negb (timestamp =s? "") then
      match ParseRFC3339 timestamp with
      | Some lockTime => contend podName ns pvc lockTime
      | None => take_lock podName ns pvc
      end
    else mret (Ok (false, mkPVCLockInfo owner ""))
  else take_lock podName ns pvc.

Definition AcquirePVCLock (POD_NAME ns pvcName : string) : KP (res (bool * PVCLockInfo)) :=
  pvc ←? kcall (KGet Src persistentvolumeclaims ns pvcName) onerr plainf "failed to get source PVC: ";
  acquire_found (pod_name POD_NAME) ns pvc.

Definition unlocked_pvc (pvc : Object) : Object :=
  with_annotations ((λ m, delete lock_timestamp (delete lock_owner m)) <$> pvc.(oMeta).(mAnnotations)) pvc.

Definition ReleasePVCLock (POD_NAME ns pvcName : string) : KP (res unit) :=
  pvc ←? kcall (KGet Src persistentvolumeclaims ns pvcName) onerr plainf "failed to get source PVC: ";
  if annot pvc lock_owner =s? "" then mret (Ok tt)
  else if negb (annot pvc lock_owner =s? pod_name POD_NAME) then
    errorf ("PVC is locked by another controller: " +:+ annot pvc lock_owner)
  else
    _ ←? kcall (KUpdate Src persistentvolumeclaims ns (unlocked_pvc pvc))
      onerr plainf "failed to update source PVC to release lock: ";
    mret (Ok tt).

(** ** pvc_lock.go *)

Definition LockAnnotation : string := "dr-syncer.io/replication-lock".
Definition DefaultLockTimeout : Z := 60.

(** The time is an instant; [FormatLockInfo] prints it in UTC. *)
Record LockInfo : Type := mkLockInfo { liControllerPodName : string; liTimestamp : Time }.

Definition ParseLockInfo (lockValue : string) : res LockInfo :=
  match Split lockValue "|" with
  | [pod; stamp] =>
      match ParseRFC3339 stamp with
      | Some t => Ok (mkLockInfo pod t)
      | None => Err (PlainError ("invalid timestamp in lock value: " +:+ stamp))
      end
  | _ => Err (PlainError ("invalid lock value format: " +:+ lockValue))
  end.

Definition FormatLockInfo (info : LockInfo) : string :=
  info.(liControllerPodName) +:+ "|" +:+ FormatRFC3339 info.(liTimestamp).

(** The environment variable LOCK_TIMEOUT_MINUTES; the product wraps around. *)
Definition GetLockTimeout (LOCK_TIMEOUT_MINUTES : string) : Z :=
  match Atoi LOCK_TIMEOUT_MINUTES with
  | Some timeout => if 0 <? timeout then int64 (timeout * Minute) else DefaultLockTimeout * Minute
  | None => DefaultLockTimeout * Minute
  end.

Definition rsync_selector : gmap string string := {[ "app.kubernetes.io/name" := "dr-syncer-rsync" ]}.

(** Does the claim of a deployment hold a lock that is still valid?  The claim is
    read twice. *)
Definition has_valid_lock (c : Cluster) (ns pvcName timeout : string) : KP bool :=
  first ← kcall (KGet c persistentvolumeclaims ns pvcName);
  match first with
  | Err _ => mret false
  | Ok _ =>
      second ← kcall (KGet c persistentvolumeclaims ns pvcName);
      match second with
      | Err _ => mret false
      | Ok pvc =>
          match get_key pvc.(oMeta).(mAnnotations) LockAnnotation with
          | None => mret false
          | Some lockValue =>
              match ParseLockInfo lockValue with
              | Err _ => mret false
              | Ok info =>
                  now ← kcall KNow;
                  mret (Since now info.(liTimestamp) <=? GetLockTimeout timeout)
              end
          end
      end
  end.

Definition cleanup_deployment (c : Cluster) (ns timeout : string) (deployment : Object) : KP unit :=
  let pvcName := default "" (get_key deployment.(oMeta).(mLabels) "dr-syncer.io/pvc-name") in
  skip ← (if negb (pvcName =s? "") then has_valid_lock c ns pvcName timeout else mret false);
  if (skip : bool) then mret tt
  else _ ← kcall (KDelete c deployments ns (GetName deployment)); mret tt.

Definition CleanupOrphanedRsyncDeployments (c : Cluster) (ns timeout : string) : KP (res unit) :=
  items ←? kcall (KList c deployments ns (Some rsync_selector)) onerr plainf "failed to list rsync deployments: ";
  _ ← range_each items tt (λ deployment _, cleanup_deployment c ns timeout deployment);
  mret (Ok tt).
