(* ===== verification/LockProps.v ===== *)
(** * Properties of the PVC locks

    Mutual exclusion between controller pods under any interleaving of their calls,
    the life of a lock (acquire, refuse, expire, release), the annotation format of
    pvc_lock.go, and what the orphan cleanup does to claims locked this way. *)

From S2P Require Import Prelude GoString Errors Types Kube KubeLogic ApiServer Rfc3339 Lock.
From Stdlib Require Import Ascii.

(** ** Annotations *)

Lemma annot_locked_owner pod now pvc : annot (locked_pvc pod now pvc) lock_owner = pod.
Proof.
  unfold annot, locked_pvc, get_key; cbn. rewrite lookup_insert_ne by done. by rewrite lookup_insert_eq.
Qed.

Lemma annot_locked_timestamp pod now pvc :
  annot (locked_pvc pod now pvc) lock_timestamp = FormatRFC3339 now.
Proof. unfold annot, locked_pvc, get_key; cbn. by rewrite lookup_insert_eq. Qed.

Lemma annot_stored o o' k : keeps_annotations o o' → annot o' k = annot o k.
Proof. intros H. unfold annot. by rewrite H. Qed.

Lemma GetName_locked pod now pvc : GetName (locked_pvc pod now pvc) = GetName pvc.
Proof. done. Qed.

Lemma pod_name_nonempty env : pod_name env ≠ "".
Proof. unfold pod_name. destruct (String.eqb_spec env ""); [done|congruence]. Qed.

(** ** Lock times *)

Lemma Since_le now t : now - t ≤ Hour → (Hour <? Since now t) = false.
Proof. unfold Since, Hour, Minute, Second. intros. apply Z.ltb_ge. lia. Qed.

Lemma Since_gt now t : Hour < now - t → (Hour <? Since now t) = true.
Proof. unfold Since, Hour, Minute, Second. intros. apply Z.ltb_lt. lia. Qed.

Lemma FormatRFC3339_nonempty t : FormatRFC3339 t ≠ "".
Proof. unfold FormatRFC3339. by destruct (civil_from_days _) as [[? ?] ?]. Qed.

(** A lock taken at [t] and read back at [now], less than an hour later to the second. *)
Lemma lock_time_fresh t now :
  now - t ≤ Hour - Second → (Hour <? Since now (t - t mod Second)) = false.
Proof. intros H. apply Since_le. pose proof (Z.mod_pos_bound t Second ltac:(done)). lia. Qed.

(** What a pod finds in a claim another pod has locked at [t]. *)
Lemma acquire_found_locked pod ns pvc t :
  annot pvc lock_owner ≠ "" → annot pvc lock_owner ≠ pod →
  annot pvc lock_timestamp = FormatRFC3339 t → rfc3339_year t →
  acquire_found pod ns pvc = contend pod ns pvc (t - t mod Second).
Proof.
  intros Ho Hp Ht Hy. unfold acquire_found.
  rewrite (proj2 (String.eqb_neq _ _) Ho), (proj2 (String.eqb_neq _ _) Hp). cbn [negb].
  rewrite Ht, (proj2 (String.eqb_neq _ _) (FormatRFC3339_nonempty t)), Parse_Format by done. done.
Qed.

Lemma acquire_found_free pod ns pvc :
  annot pvc lock_owner = "" → acquire_found pod ns pvc = take_lock pod ns pvc.
Proof. unfold acquire_found. by intros ->. Qed.

Lemma acquire_found_own pod ns pvc :
  pod ≠ "" → annot pvc lock_owner = pod →
  acquire_found pod ns pvc = mret (Ok (true, mkPVCLockInfo pod (annot pvc lock_timestamp))).
Proof.
  unfold acquire_found. intros Hp ->. rewrite (proj2 (String.eqb_neq _ _) Hp), String.eqb_refl. done.
Qed.

(** ** Mutual exclusion *)

(** The clock readings of an execution lie within an hour of [T], to the second. *)
Definition in_window (T t : Time) : Prop := T ≤ t ≤ T + Hour - Second ∧ rfc3339_year t.

Definition clock_in (T : Time) (e : event KSig) : Prop :=
  match e with
  | Ev o r =>
      match o as o return KResp o → Prop with
      | KNow => λ t, in_window T t
      | _ => λ _, True
      end r
  end.

Section mutex.
Context {S : Type} (h : handler KSig S) (wf : S → Prop) (rv : string → Z) `{!LawfulKube h} `{!LawfulStore h wf rv}.
Context (T : Time) (ns name : string).

(** What a contender read earlier: an unlocked claim that is either the current one
    or older than it. *)
Let seen (snap cur : Object) : Prop :=
  GetName snap = name ∧ snap.(oMeta).(mResourceVersion) ≠ "" ∧ annot snap lock_owner = "" ∧
  (snap = cur ∨ rv snap.(oMeta).(mResourceVersion) < rv cur.(oMeta).(mResourceVersion)).

(** Where a contender can be, while the claim is [cur]. *)
Inductive at_point (env : string) (cur : Object) : KP (res (bool * PVCLockInfo)) → Prop :=
| at_start : at_point env cur (AcquirePVCLock env ns name)
| at_take snap : seen snap cur → at_point env cur (take_lock (pod_name env) ns snap)
| at_store snap t : seen snap cur → in_window T t →
    at_point env cur (store_lock (pod_name env) ns snap t)
| at_contend pvc t : in_window T t →
    at_point env cur (contend (pod_name env) ns pvc (t - t mod Second))
| at_won info : annot cur lock_owner = pod_name env → at_point env cur (PRet (Ok (true, info)))
| at_lost info : at_point env cur (PRet (Ok (false, info)))
| at_error e : at_point env cur (PRet (Err e)).

(** The claim is free, or was locked within the window. *)
Let fresh (cur : Object) : Prop :=
  annot cur lock_owner = "" ∨
  ∃ t, in_window T t ∧ annot cur lock_timestamp = FormatRFC3339 t.

Definition mutex_inv (envs : list string) (ps : list (KP (res (bool * PVCLockInfo)))) (s : S) : Prop :=
  wf s ∧ ∃ cur, (h (KGet Src persistentvolumeclaims ns name) s).1 = Ok cur ∧ fresh cur ∧
  Forall2 (λ env p, at_point env cur p) envs ps.

(** Reading the claim. *)
Lemma at_point_get env cur s :
  wf s → (h (KGet Src persistentvolumeclaims ns name) s).1 = Ok cur → fresh cur →
  at_point env cur (acquire_found (pod_name env) ns cur).
Proof.
  intros Hwf Hget Hf. destruct (decide (annot cur lock_owner = "")) as [Ho|Ho].
  - rewrite acquire_found_free by done. constructor. split_and!; [|by eapply get_versioned|done|by left].
    by eapply get_name.
  - destruct Hf as [?|(t & Hw & Ht)]; [done|].
    destruct (decide (annot cur lock_owner = pod_name env)) as [Hp|Hp].
    + rewrite acquire_found_own by (done || apply pod_name_nonempty). by constructor.
    + rewrite (acquire_found_locked _ _ _ t) by (done || apply Hw). by constructor.
Qed.

(** A successful write moves the claim past every earlier reading of it. *)
Lemma at_point_written env cur cur' p :
  annot cur lock_owner = "" →
  rv cur.(oMeta).(mResourceVersion) < rv cur'.(oMeta).(mResourceVersion) →
  at_point env cur p → at_point env cur' p.
Proof.
  intros Ho Hrv Hp.
  assert (Hseen : ∀ snap, seen snap cur → seen snap cur').
  { intros snap (? & ? & ? & [->|?]); split_and!; auto; right; lia. }
  destruct Hp; try (constructor; by auto).
  exfalso. by apply (pod_name_nonempty env); congruence.
Qed.

(** Every contender keeps its place when the claim changes to [cur'] as [Hmove]
    allows; contender [i] goes to [p']. *)
Lemma mutex_move envs ps i env p' cur cur' s' :
  wf s' → (h (KGet Src persistentvolumeclaims ns name) s').1 = Ok cur' → fresh cur' →
  Forall2 (λ env p, at_point env cur p) envs ps → envs !! i = Some env → at_point env cur' p' →
  (∀ env p, at_point env cur p → at_point env cur' p) →
  mutex_inv envs (<[i := p']> ps) s'.
Proof.
  intros Hwf Hget Hf Hall Henv Hp Hmove. split; [done|]. exists cur'. split_and!; [done..|].
  rewrite <- (list_insert_id envs i env) by done. apply Forall2_insert; [|done].
  eapply Forall2_impl; [exact Hall|]. auto.
Qed.

(** Writing the lock. *)
Lemma mutex_store envs ps s i env snap t :
  wf s → ∀ cur, (h (KGet Src persistentvolumeclaims ns name) s).1 = Ok cur → fresh cur →
  Forall2 (λ env p, at_point env cur p) envs ps → envs !! i = Some env → seen snap cur → in_window T t →
  let o := KUpdate Src persistentvolumeclaims ns (locked_pvc (pod_name env) t snap) in
  ∀ a : res Object, a = (h o s).1 →
  mutex_inv envs (<[i := match a with
                         | Ok _ => mret (Ok (true, mkPVCLockInfo (pod_name env) (FormatRFC3339 t)))
                         | Err e => mret (Err (plainf "failed to update source PVC to acquire lock: " e))
                         end]> ps) (h o s).2.
Proof.
  intros Hwf cur Hget Hf Hall Henv (Hn & Hv & Ho & Hcur) Ht o a Ha.
  pose proof (wf_step o s Hwf) as Hwf'.
  destruct (update_effect Src persistentvolumeclaims ns (locked_pvc (pod_name env) t snap) s Hwf)
    as [[[er Her] Hsame]|(old & o' & Hold & Hver & Hnew & Hsan & Hrv)].
  - assert (a = Err er) as -> by exact (eq_trans Ha Her). rewrite GetName_locked, Hn, Hget in Hsame.
    apply (mutex_move _ _ _ env _ cur cur); auto. apply at_error.
  - rewrite GetName_locked, Hn in Hold, Hnew. rewrite Hget in Hold. injection Hold as <-.
    destruct Hver as [Hver|Hver]; [done|]. cbn in Hver.
    destruct Hcur as [->|Hlt]; [|rewrite Hver in Hlt; lia].
    assert (Hown : annot o' lock_owner = pod_name env)
      by (rewrite (annot_stored _ _ _ Hsan); apply annot_locked_owner).
    apply (mutex_move _ _ _ env _ cur o'); [done..| |done|done| |].
    + right. exists t. split; [done|]. rewrite (annot_stored _ _ _ Hsan). apply annot_locked_timestamp.
    + destruct a; [by apply at_won|apply at_error].
    + intros env' p. by apply at_point_written.
Qed.

Lemma mutex_step envs ps s i p p' s' e :
  mutex_inv envs ps s → ps !! i = Some p → pstep h p s = Some (p', s', e) → clock_in T e →
  mutex_inv envs (<[i := p']> ps) s'.
Proof.
  intros (Hwf & cur & Hget & Hf & Hall) Hi Hstep He.
  destruct (Forall2_lookup_r _ _ _ _ _ Hall Hi) as (env & Henv & Hp).
  assert (Hnow : ∀ p', at_point env cur p' → mutex_inv envs (<[i := p']> ps) (h KNow s).2).
  { intros q Hq. apply (mutex_move _ _ _ env _ cur cur); auto; [exact (wf_step KNow s Hwf)|].
    by rewrite now_quiet. }
  destruct Hp as [|snap Hseen|snap t Hseen Ht|pvc t Ht|info Hw|info|er];
    try (cbn in Hstep; discriminate Hstep); injection Hstep as <- <- <-.
  - match goal with |- mutex_inv _ _ ?x => replace x with s by (symmetry; apply get_pure) end.
    apply (mutex_move _ _ _ env _ cur cur); auto.
    match goal with |- context [match ?x with Ok _ => _ | Err _ => _ end] => replace x with (Ok cur : res Object) by (symmetry; exact Hget) end.
    by apply (at_point_get _ _ s).
  - apply Hnow. by apply at_store.
  - by apply (mutex_store _ _ _ _ _ _ _ Hwf cur).
  - apply Hnow. destruct He as [Hr _]. destruct Ht as [Ht _]. cbn in Hr.
    rewrite lock_time_fresh by lia. apply at_lost.
Qed.
End mutex.

(** C7: mutual exclusion.  However the calls of several controller pods with different
    names are interleaved with each other, as long as all clock readings lie within
    the same hour at most one of them acquires the lock on a claim that was free. *)
Theorem AcquirePVCLock_mutex {S} (h : handler KSig S) wf rv `{!LawfulKube h} `{!LawfulStore h wf rv}
    T ns name pods s pvc tr ps s' i j info1 info2 :
  NoDup (pod_name <$> pods) →
  wf s → (h (KGet Src persistentvolumeclaims ns name) s).1 = Ok pvc → annot pvc lock_owner = "" →
  interleave h ((λ env, AcquirePVCLock env ns name) <$> pods) s tr ps s' →
  Forall (clock_in T) tr →
  ps !! i = Some (PRet (Ok (true, info1))) → ps !! j = Some (PRet (Ok (true, info2))) →
  i = j.
Proof.
  intros Hnd Hwf Hget Ho Hil Htr Hi Hj.
  assert (mutex_inv h wf rv T ns name pods ps s') as (_ & cur & _ & _ & Hall).
  { eapply (interleave_invariant h (clock_in T) (mutex_inv h wf rv T ns name pods)); [|done..|].
    - intros. by eapply mutex_step.
    - split; [done|]. exists pvc. split_and!; [done|by left|]. apply Forall2_fmap_r, Forall_Forall2_diag.
      apply Forall_true. intros. constructor. }
  destruct (Forall2_lookup_r _ _ _ _ _ Hall Hi) as (e1 & H1 & P1).
  destruct (Forall2_lookup_r _ _ _ _ _ Hall Hj) as (e2 & H2 & P2).
  inversion P1; inversion P2; subst. eapply NoDup_lookup; [exact Hnd|..]; rewrite list_lookup_fmap.
  - rewrite H1; cbn. reflexivity.
  - rewrite H2; cbn. congruence.
Qed.

(** A claim and its server, for the witnesses. *)
Definition data_claim : Object :=
  mkObject (mkGVK "" "" "")
    (set_mResourceVersion "1" (set_mAnnotations (Some {[ "team" := "storage" ]})
      (mkObjectMeta "data" "app" "" "" "" None [] [] 0 [] None None)))
    (PVCBody (mkPVCSpec ["ReadWriteOnce"] None None "" "pv" None None None None) "").

Definition one_claim : world :=
  mkWorld [mkEntry Src persistentvolumeclaims "app" data_claim] [] [] 2 (1700000000 * Second).

Definition two_pods : list (KP (res (bool * PVCLockInfo))) * world * list (event KSig) :=
  schedule api [0%nat; 1%nat; 0%nat; 1%nat; 1%nat; 0%nat]
    ((λ env, AcquirePVCLock env "app" "data") <$> ["pod-a"; "pod-b"]) one_claim.

Lemma one_claim_wf : api_wf one_claim.
Proof. split; [done|]. repeat constructor. exists 1. done. Qed.

(** Both pods read the free claim; the second writes first and wins. *)
Lemma AcquirePVCLock_mutex_witness :
  let ps := two_pods.1.1 in
  ps !! 1%nat = Some (PRet (Ok (true, mkPVCLockInfo "pod-b" "2023-11-14T22:13:20Z"))) ∧
  ∀ i info, ps !! i = Some (PRet (Ok (true, info))) → i = 1%nat.
Proof.
  split; [vm_compute; reflexivity|]. intros i info Hi.
  apply (AcquirePVCLock_mutex api api_wf api_rv (1700000000 * Second) "app" "data" ["pod-a"; "pod-b"]
    one_claim data_claim two_pods.2 two_pods.1.1 two_pods.1.2 i 1%nat
    info (mkPVCLockInfo "pod-b" "2023-11-14T22:13:20Z")).
  - apply (bool_decide_unpack _). vm_compute. exact I.
  - apply one_claim_wf.
  - vm_compute. reflexivity.
  - vm_compute. reflexivity.
  - apply (schedule_interleave api [0%nat; 1%nat; 0%nat; 1%nat; 1%nat; 0%nat]
      ((λ env, AcquirePVCLock env "app" "data") <$> ["pod-a"; "pod-b"]) one_claim).
  - assert (in_window (1700000000 * Second) (1700000000 * Second)) as W
      by (split; [vm_compute; split; intros ?; discriminate|vm_compute; split; [intros ?; discriminate|done]]).
    repeat (constructor; [first [exact I|exact W]|]). constructor.
  - exact Hi.
  - vm_compute. reflexivity.
Defined.

(** ** The life of a lock *)

Section life.
Context {S : Type} (h : handler KSig S) (wf : S → Prop) (rv : string → Z)
  `{!LawfulKube h} `{!LawfulStore h wf rv}.
Context (ns name : string).

Let claim (s : S) : res Object := (h (KGet Src persistentvolumeclaims ns name) s).1.

Lemma run_take_lock pod pvc s :
  run h (take_lock pod ns pvc) s =
  let t := (h KNow s).1 in
  let o := KUpdate Src persistentvolumeclaims ns (locked_pvc pod t pvc) in
  (match (h o (h KNow s).2).1 with
   | Ok _ => Ret (Ok (true, mkPVCLockInfo pod (FormatRFC3339 t)))
   | Err e => Ret (Err (plainf "failed to update source PVC to acquire lock: " e))
   end, (h o (h KNow s).2).2).
Proof.
  unfold take_lock. rewrite run_now. unfold store_lock. rewrite run_update. by destruct (h (KUpdate _ _ _ _) _).1.
Qed.

Lemma take_lock_stored pod pvc s info s' :
  GetName pvc = name → run h (take_lock pod ns pvc) s = (Ret (Ok (true, info)), s') →
  ∃ cur t, claim s' = Ok cur ∧ keeps_annotations (locked_pvc pod t pvc) cur ∧
           info = mkPVCLockInfo pod (FormatRFC3339 t).
Proof.
  intros Hn. rewrite run_take_lock. cbv zeta. intros [= Hr <-].
  match type of Hr with match ?x with _ => _ end = _ => destruct x as [cur|e] eqn:E; [|done] end.
  injection Hr as <-. exists cur, (h KNow s).1.
  by apply (update_stored_get h _ _ _ name) in E as [? ?].
Qed.

(** Whoever is told that it has the lock is the owner the claim names. *)
Lemma acquire_true_stored env s s' info :
  run h (AcquirePVCLock env ns name) s = (Ret (Ok (true, info)), s') →
  info.(ControllerPodName) = pod_name env ∧
  ∃ cur, claim s' = Ok cur ∧ annot cur lock_owner = pod_name env ∧
         annot cur lock_timestamp = info.(Timestamp).
Proof.
  unfold AcquirePVCLock. rewrite (run_get h). intros H.
  destruct (h (KGet _ _ _ _) s).1 as [pvc|e] eqn:Hg; [|done].
  assert (Htake : ∀ s0, run h (take_lock (pod_name env) ns pvc) s0 = (Ret (Ok (true, info)), s') →
    info.(ControllerPodName) = pod_name env ∧
    ∃ cur, claim s' = Ok cur ∧ annot cur lock_owner = pod_name env ∧
           annot cur lock_timestamp = info.(Timestamp)).
  { intros s0 (cur & t & Hs & Hsan & ->)%take_lock_stored;
      [|by apply (get_name (wf := wf) (rv := rv) _ _ _ _ _ _ Hg)].
    split; [done|]. exists cur. split; [done|]. rewrite !(annot_stored _ _ _ Hsan).
    by rewrite annot_locked_owner, annot_locked_timestamp. }
  unfold acquire_found in H. destruct (negb (annot pvc lock_owner =s? "")); [|by apply Htake in H].
  destruct (String.eqb_spec (annot pvc lock_owner) (pod_name env)) as [Ho|Ho].
  { injection H as <- <-. split; [done|]. by exists pvc. }
  destruct (negb _); [|done]. destruct (ParseRFC3339 _) as [t|]; [|by apply Htake in H].
  unfold contend in H. rewrite run_now in H. destruct (Hour <? _); [by apply Htake in H|done].
Qed.

(** The claim under its owner's lock, seen by another pod at [now]. *)
Lemma acquire_other env s pvc t :
  claim s = Ok pvc → annot pvc lock_owner ≠ "" → annot pvc lock_owner ≠ pod_name env →
  annot pvc lock_timestamp = FormatRFC3339 t → rfc3339_year t →
  run h (AcquirePVCLock env ns name) s = run h (contend (pod_name env) ns pvc (t - t mod Second)) s.
Proof.
  intros Hg Ho Hp Ht Hy. unfold AcquirePVCLock. rewrite (run_get_ok h _ _ _ _ _ _ _ _ Hg).
  by rewrite (acquire_found_locked _ _ _ t).
Qed.
End life.

(** Once a pod has the lock, taken at [t], another pod that finds the claim
    unchanged is refused, with the owner's information and without a write, for an
    hour (to the second); after that hour it takes the lock over, and succeeds
    whenever the update does. *)
Theorem AcquirePVCLock_excludes {S} (h : handler KSig S) wf rv `{!LawfulKube h} `{!LawfulStore h wf rv}
    ns name a b s s1 info t s2 :
  pod_name a ≠ pod_name b →
  run h (AcquirePVCLock a ns name) s = (Ret (Ok (true, info)), s1) →
  info.(Timestamp) = FormatRFC3339 t → rfc3339_year t →
  (h (KGet Src persistentvolumeclaims ns name) s2).1 = (h (KGet Src persistentvolumeclaims ns name) s1).1 →
  ((h KNow s2).1 - t ≤ Hour - Second →
     run h (AcquirePVCLock b ns name) s2 = (Ret (Ok (false, info)), (h KNow s2).2)) ∧
  (Hour < (h KNow s2).1 - t → let s3 := (h KNow s2).2 in
     ∃ pvc, let o := KUpdate Src persistentvolumeclaims ns (locked_pvc (pod_name b) (h KNow s3).1 pvc) in
       run h (AcquirePVCLock b ns name) s2 =
       (match (h o (h KNow s3).2).1 with
        | Ok _ => Ret (Ok (true, mkPVCLockInfo (pod_name b) (FormatRFC3339 (h KNow s3).1)))
        | Err e => Ret (Err (plainf "failed to update source PVC to acquire lock: " e))
        end, (h o (h KNow s3).2).2)).
Proof.
  intros Hab Ha Ht Hy Hsame.
  destruct (acquire_true_stored h wf rv ns name a s s1 info Ha) as (Hi & cur & Hcur & Ho & Hts).
  rewrite Hcur in Hsame. rewrite Ht in Hts.
  rewrite (acquire_other h ns name b s2 cur t) by
    (done || (rewrite Ho; apply pod_name_nonempty) || (rewrite Ho; done)).
  unfold contend. rewrite run_now. split; intros Hn.
  - rewrite lock_time_fresh by done. rewrite Ho, Hts, <- Ht, <- Hi. by destruct info.
  - exists cur. rewrite Since_gt. { apply run_take_lock. }
    pose proof (Z.mod_pos_bound t Second ltac:(done)). lia.
Qed.

(** [one_claim] after pod-a has taken the lock, and a little under an hour later. *)
Definition locked_claim : world := (run api (AcquirePVCLock "pod-a" "app" "data") one_claim).2.
Definition later (d : Z) (w : world) : world := (api (KSleep d) w).2.

Lemma AcquirePVCLock_excludes_witness :
  run api (AcquirePVCLock "pod-b" "app" "data") (later (59 * Minute) locked_claim) =
    (Ret (Ok (false, mkPVCLockInfo "pod-a" "2023-11-14T22:13:20Z")),
     (api KNow (later (59 * Minute) locked_claim)).2).
Proof.
  pose proof (AcquirePVCLock_excludes api api_wf api_rv "app" "data" "pod-a" "pod-b" one_claim locked_claim
    (mkPVCLockInfo "pod-a" "2023-11-14T22:13:20Z") (1700000000 * Second) (later (59 * Minute) locked_claim)
    ltac:(vm_compute; discriminate) ltac:(vm_compute; reflexivity) ltac:(vm_compute; reflexivity)
    ltac:(apply (bool_decide_unpack _); vm_compute; exact I) ltac:(vm_compute; reflexivity)) as [H _].
  refine (H _). vm_compute. discriminate.
Defined.

Definition lock_key (k : string) : Prop := k = lock_owner ∨ k = lock_timestamp.

#[global] Instance lock_key_dec k : Decision (lock_key k).
Proof. unfold lock_key. apply _. Defined.

Lemma annot_unlocked o k : annot (unlocked_pvc o) k = if decide (lock_key k) then "" else annot o k.
Proof.
  unfold annot, unlocked_pvc, get_key; cbn. destruct (mAnnotations (oMeta o)) as [m|]; cbn;
    [|by destruct (decide _)].
  destruct (decide (lock_key k)) as [[->| ->]|Hk].
  - rewrite lookup_delete_ne by done. by rewrite lookup_delete_eq.
  - by rewrite lookup_delete_eq.
  - rewrite !lookup_delete_ne by (intros <-; apply Hk; unfold lock_key; auto). done.
Qed.

Lemma annot_locked_other pod now o k : ¬ lock_key k → annot (locked_pvc pod now o) k = annot o k.
Proof.
  intros Hk. unfold annot, locked_pvc, get_key; cbn.
  rewrite !lookup_insert_ne by (intros <-; apply Hk; unfold lock_key; auto).
  unfold or_make. by destruct (mAnnotations (oMeta o)).
Qed.

(** The pod that locked a free claim releases it: ReleasePVCLock makes one update
    and succeeds exactly when that update does; then the claim is free again and every
    other annotation is as it was before the lock was taken. *)
Theorem ReleasePVCLock_restores {S} (h : handler KSig S) wf rv `{!LawfulKube h} `{!LawfulStore h wf rv}
    ns name env s pvc info s1 :
  (h (KGet Src persistentvolumeclaims ns name) s).1 = Ok pvc → annot pvc lock_owner = "" →
  run h (AcquirePVCLock env ns name) s = (Ret (Ok (true, info)), s1) →
  ∃ o, let u := KUpdate Src persistentvolumeclaims ns o in
    run h (ReleasePVCLock env ns name) s1 =
      (match (h u s1).1 with
       | Ok _ => Ret (Ok tt)
       | Err e => Ret (Err (plainf "failed to update source PVC to release lock: " e))
       end, (h u s1).2) ∧
    ∀ o', (h u s1).1 = Ok o' →
      (h (KGet Src persistentvolumeclaims ns name) (h u s1).2).1 = Ok o' ∧
      ∀ k, k ≠ last_applied → annot o' k = if decide (lock_key k) then "" else annot pvc k.
Proof.
  intros Hg Hfree. unfold AcquirePVCLock. rewrite (run_get_ok h _ _ _ _ _ _ _ _ Hg), acquire_found_free by done.
  intros (cur & t & Hcur & Hsan & ->)%(take_lock_stored h ns name);
    [|by apply (get_name (wf := wf) (rv := rv) _ _ _ _ _ _ Hg)].
  exists (unlocked_pvc cur). split.
  - unfold ReleasePVCLock. rewrite (run_get_ok h _ _ _ _ _ _ _ _ Hcur), !(annot_stored _ _ _ Hsan).
    rewrite annot_locked_owner, String.eqb_refl, (proj2 (String.eqb_neq _ _) (pod_name_nonempty env)).
    cbn [negb]. rewrite run_update.
    match goal with |- match ?x with _ => _ end = _ => by destruct x end.
  - intros o' Ho'. apply (update_stored_get h _ _ _ name) in Ho' as [Hs Hsan'].
    2: { by apply (get_name (wf := wf) (rv := rv) _ _ _ _ _ _ Hcur). }
    split; [done|]. intros k Hk. rewrite (annot_stored _ _ _ Hsan'). rewrite annot_unlocked.
    destruct (decide (lock_key k)); [done|].
    rewrite (annot_stored _ _ _ Hsan). by apply annot_locked_other.
Qed.

Lemma ReleasePVCLock_restores_witness :
  ∃ o, run api (ReleasePVCLock "pod-a" "app" "data") locked_claim =
    (match (api (KUpdate Src persistentvolumeclaims "app" o) locked_claim).1 with
     | Ok _ => Ret (Ok tt)
     | Err e => Ret (Err (plainf "failed to update source PVC to release lock: " e))
     end, (api (KUpdate Src persistentvolumeclaims "app" o) locked_claim).2).
Proof.
  destruct (ReleasePVCLock_restores api api_wf api_rv "app" "data" "pod-a" one_claim data_claim
    (mkPVCLockInfo "pod-a" "2023-11-14T22:13:20Z") locked_claim
    ltac:(vm_compute; reflexivity) ltac:(vm_compute; reflexivity) ltac:(vm_compute; reflexivity))
    as (o & H & _).
  exists o. exact H.
Defined.

(** The lock does not separate controllers without a POD_NAME, nor two syncs of
    the same pod: the second caller is told it owns the lock and nothing is written. *)
Theorem AcquirePVCLock_reentrant {S} (h : handler KSig S) wf rv `{!LawfulKube h} `{!LawfulStore h wf rv}
    ns name a b s s1 info :
  pod_name a = pod_name b →
  run h (AcquirePVCLock a ns name) s = (Ret (Ok (true, info)), s1) →
  run h (AcquirePVCLock b ns name) s1 = (Ret (Ok (true, info)), s1).
Proof.
  intros Hab Ha. destruct (acquire_true_stored h wf rv ns name a s s1 info Ha) as (Hi & cur & Hcur & Ho & Hts).
  unfold AcquirePVCLock. rewrite (run_get_ok h _ _ _ _ _ _ _ _ Hcur).
  rewrite acquire_found_own by (apply pod_name_nonempty || congruence).
  rewrite Hts, <- Hab, <- Hi. by destruct info.
Qed.

Lemma AcquirePVCLock_reentrant_witness :
  run api (AcquirePVCLock "unknown" "app" "data") (run api (AcquirePVCLock "" "app" "data") one_claim).2 =
    (Ret (Ok (true, mkPVCLockInfo "unknown" "2023-11-14T22:13:20Z")),
     (run api (AcquirePVCLock "" "app" "data") one_claim).2).
Proof.
  refine (AcquirePVCLock_reentrant api api_wf api_rv "app" "data" "" "unknown" one_claim
    (run api (AcquirePVCLock "" "app" "data") one_claim).2
    (mkPVCLockInfo "unknown" "2023-11-14T22:13:20Z") _ _); vm_compute; reflexivity.
Defined.

(** ** The format of pvc_lock.go *)

Fixpoint no_char (c : ascii) (s : string) : Prop :=
  match s with
  | EmptyString => True
  | String a r => Ascii.eqb a c = false ∧ no_char c r
  end.

Lemma Split_no_char s c : no_char c s → Split s c = [s].
Proof. induction s as [|a s IH]; cbn; [done|]. intros [-> H]. by rewrite IH. Qed.

Lemma Split_pair a b c : no_char c a → no_char c b → Split (a +:+ String c "" +:+ b) c = [a; b].
Proof.
  induction a as [|x a IH]; intros Ha Hb.
  - change ("" +:+ String c "" +:+ b) with (String c b). cbn [Split].
    by rewrite Ascii.eqb_refl, Split_no_char.
  - change (String x a +:+ String c "" +:+ b) with (String x (a +:+ String c "" +:+ b)). cbn [Split].
    destruct Ha as [-> Ha]. by rewrite IH.
Qed.

Lemma no_char_app c a b : no_char c a → no_char c b → no_char c (a +:+ b).
Proof. induction a as [|x a IH]; [done|]. intros [? ?] ?. split; [done|]. by apply IH. Qed.

Lemma no_bar_digit d : 0 ≤ d < 10 → Ascii.eqb (digit_char d) "|" = false.
Proof.
  intros Hd. destruct (is_digit_char d Hd) as [Hdig _]. apply Ascii.eqb_neq. intros E.
  rewrite E in Hdig. done.
Qed.

Lemma no_bar_pad2 n : 0 ≤ n < 100 → no_char "|" (pad2 n).
Proof.
  intros Hn. pose proof (Z.mod_pos_bound n 10 ltac:(lia)).
  assert (0 ≤ n / 10 < 10) by (split; [apply Z.div_pos; lia|apply Z.div_lt_upper_bound; lia]).
  cbn. rewrite !no_bar_digit by lia. done.
Qed.

Lemma no_bar_FormatRFC3339 t : rfc3339_year t → no_char "|" (FormatRFC3339 t).
Proof.
  unfold rfc3339_year, FormatRFC3339. pose proof (civil_roundtrip (t / Second / 86400)) as Hc.
  destruct (civil_from_days _) as [[y m] d]. cbn [fst snd]. intros Hy. destruct Hc as (_ & Hm & Hd).
  assert (daysIn m y ≤ 31) by (unfold daysIn; repeat case_match; lia).
  set (sod := t / Second mod 86400).
  assert (0 ≤ sod < 86400) by (apply Z.mod_pos_bound; lia).
  assert (0 ≤ sod / 3600 < 100) by (split; [apply Z.div_pos; lia|apply Z.div_lt_upper_bound; lia]).
  assert (0 ≤ y / 100 < 100) by (split; [apply Z.div_pos; lia|apply Z.div_lt_upper_bound; lia]).
  pose proof (Z.mod_pos_bound y 100 ltac:(lia)). pose proof (Z.mod_pos_bound (sod / 60) 60 ltac:(lia)).
  pose proof (Z.mod_pos_bound sod 60 ltac:(lia)).
  unfold pad4. repeat apply no_char_app; solve [by repeat constructor | apply no_bar_pad2; lia].
Qed.

(** Reading back a lock value that FormatLockInfo wrote gives the same pod and the
    time to the second, when the pod name has no bar. *)
Theorem ParseLockInfo_FormatLockInfo info :
  no_char "|" info.(liControllerPodName) → rfc3339_year info.(liTimestamp) →
  ParseLockInfo (FormatLockInfo info) =
    Ok (mkLockInfo info.(liControllerPodName) (info.(liTimestamp) - info.(liTimestamp) mod Second)).
Proof.
  intros Hp Ht. unfold ParseLockInfo, FormatLockInfo. change "|"%string with (String "|" "").
  rewrite Split_pair by (done || by apply no_bar_FormatRFC3339). by rewrite Parse_Format.
Qed.

Lemma ParseLockInfo_FormatLockInfo_witness :
  ParseLockInfo (FormatLockInfo (mkLockInfo "pod-a" (1700000000 * Second + 5))) =
    Ok (mkLockInfo "pod-a" (1700000000 * Second)).
Proof.
  refine (ParseLockInfo_FormatLockInfo (mkLockInfo "pod-a" (1700000000 * Second + 5)) _ _).
  - repeat constructor.
  - apply (bool_decide_unpack _). vm_compute. exact I.
Defined.

(** ** The orphan cleanup *)

Section cleanup.
Context {S : Type} (h : handler KSig S) (c : Cluster) (ns timeout : string).

(** No claim of the namespace carries the annotation of pvc_lock.go. *)
Hypothesis no_old_lock : ∀ name s pvc,
  (h (KGet c persistentvolumeclaims ns name) s).1 = Ok pvc → get_key pvc.(oMeta).(mAnnotations) LockAnnotation = None.

Lemma run_has_valid_lock name s : ∃ s', run h (has_valid_lock c ns name timeout) s = (Ret false, s').
Proof.
  unfold has_valid_lock. cbn. destruct (h (KGet c persistentvolumeclaims ns name) s) as [[o|e] s1] eqn:E1;
    [|by eexists]. cbn.
  destruct (h (KGet c persistentvolumeclaims ns name) s1) as [[pvc|e] s2] eqn:E2; [|by eexists]. cbn.
  rewrite (no_old_lock name s1 pvc) by (by rewrite E2). by eexists.
Qed.

Lemma cleanup_deployment_deletes d s :
  ∃ r s', run h (cleanup_deployment c ns timeout d) s = (Ret tt, s') ∧
    Ev (Sg := KSig) (KDelete c deployments ns (GetName d)) r ∈ run_trace h (cleanup_deployment c ns timeout d) s.
Proof.
  unfold cleanup_deployment.
  assert (∃ s', run h (if negb (default "" (get_key d.(oMeta).(mLabels) "dr-syncer.io/pvc-name") =s? "")
    then has_valid_lock c ns (default "" (get_key d.(oMeta).(mLabels) "dr-syncer.io/pvc-name")) timeout
    else mret false) s = (Ret false, s')) as [s1 E1].
  { destruct (negb _); [apply run_has_valid_lock|by eexists]. }
  rewrite run_bind, run_trace_bind, E1. cbn. destruct (h (KDelete _ _ _ _) s1) as [r s2] eqn:E2.
  exists r, s2. split; [done|]. apply elem_of_app. right. cbn. left.
Qed.

Lemma cleanup_all items s d :
  d ∈ items →
  ∃ r, Ev (Sg := KSig) (KDelete c deployments ns (GetName d)) r ∈
       run_trace h (range_each items tt (λ d _, cleanup_deployment c ns timeout d)) s.
Proof.
  revert s. induction items as [|x items IH]; intros s Hd; [by apply elem_of_nil in Hd|].
  cbn [range_each]. rewrite run_trace_bind.
  destruct (cleanup_deployment_deletes x s) as (r & s' & E & Hx). rewrite E.
  apply elem_of_cons in Hd as [->|Hd].
  - exists r. apply elem_of_app. by left.
  - destruct (IH s' Hd) as [r' Hr']. exists r'. apply elem_of_app. by right.
Qed.
End cleanup.

(** CleanupOrphanedRsyncDeployments looks for the annotation of pvc_lock.go only.
    When the claims of a namespace do not carry it, however they are locked with
    AcquirePVCLock, every rsync deployment of the namespace is deleted. *)
Theorem CleanupOrphaned_ignores_locks {S} (h : handler KSig S) c ns timeout s items s1 d :
  (∀ name s pvc, (h (KGet c persistentvolumeclaims ns name) s).1 = Ok pvc →
     get_key pvc.(oMeta).(mAnnotations) LockAnnotation = None) →
  h (KList c deployments ns (Some rsync_selector)) s = (Ok items, s1) → d ∈ items →
  ∃ r, Ev (Sg := KSig) (KDelete c deployments ns (GetName d)) r ∈
       run_trace h (CleanupOrphanedRsyncDeployments c ns timeout) s.
Proof.
  intros Hno Hl Hd. unfold CleanupOrphanedRsyncDeployments, bindE. rewrite run_trace_bind.
  destruct (cleanup_all h c ns timeout Hno items s1 d Hd) as [r Hr]. exists r. apply elem_of_app. right.
  cbn. rewrite Hl. fold (prog_bind KSig). rewrite run_trace_bind. apply elem_of_app. by left.
Qed.

(** A server whose one claim pod-a has locked, with an rsync deployment at work on it. *)
Definition rsync_deployment : Object :=
  mkObject (mkGVK "" "" "")
    (mkObjectMeta "rsync" "app" "" "" "" None [] [] 0 []
      (Some {[ "app.kubernetes.io/name" := "dr-syncer-rsync"; "dr-syncer.io/pvc-name" := "data" ]}) None)
    (DeploymentBody (mkDeploymentSpec None None "" "" 0 None false None) "").

Definition busy : handler KSig world := λ o w,
  match o as o return KResp o * world with
  | KGet _ _ _ _ => (Ok (locked_pvc "pod-a" (1700000000 * Second) data_claim), w)
  | KList _ _ _ _ => (Ok [rsync_deployment], w)
  | o => api o w
  end.

Lemma CleanupOrphaned_ignores_locks_witness :
  ∃ r, Ev (Sg := KSig) (KDelete Dst deployments "app" "rsync") r ∈
       run_trace busy (CleanupOrphanedRsyncDeployments Dst "app" "") one_claim.
Proof.
  refine (CleanupOrphaned_ignores_locks busy Dst "app" "" one_claim [rsync_deployment] one_claim
    rsync_deployment _ _ _).
  - intros name s pvc [= <-]. vm_compute. reflexivity.
  - reflexivity.
  - left.
Defined.
