(* ===== verification/Helpers.v ===== *)
(** * Finding a claim and its data: rsync_helpers.go and pvc_sync.go

    Where a claim is mounted (FindPVCNode and its variants, HasVolumeAttachments), which
    agent serves that node (FindAgentPod), under which path (FindPVCMountPath with its
    cache), and the annotations and mapping updates around a sync.

    The syncer's two kinds of client of a cluster are both a client of it.  The encoding
    of the cache as JSON is a parameter ([CacheCodec]) with the law that a decoder reads
    back what the encoder wrote. *)

From S2P Require Import Prelude GoString Errors Types Kube KubeLogic Rfc3339 Lock.
From Stdlib Require Import Ascii.

(** ** Nodes of a claim *)

Definition contains (slice : list string) (s : string) : bool := existsb (λ item, item =s? s) slice.

(** [if !contains(nodes, n) { nodes = append(nodes, n) }] *)
Definition add_node (nodes : list string) (n : string) : list string :=
  if contains nodes n then nodes else (nodes ++ [n])%list.

Definition mounts (pvcName : string) (claim : option string) : bool :=
  match claim with Some c => c =s? pvcName | None => false end.

(** The nodes of the running pods that mount the claim: a pod adds its node for every
    volume of the claim. *)
Definition pod_nodes (pvcName : string) (podList : list Object) : list string :=
  foldl (λ ns pod,
    match pod.(oBody) with
    | PodBody f =>
        if f.(podPhase) =s? "Running" then
          foldl (λ ns v, if mounts pvcName v then add_node ns f.(podNodeName) else ns) ns f.(podClaims)
        else ns
    | _ => ns
    end) [] podList.

(** The nodes the volume is attached to. *)
Definition attached_nodes (pvName : string) (attachments : list Object) : list string :=
  foldl (λ ns va,
    match va.(oBody) with
    | VolumeAttachmentBody node (Some pv) _ _ => if pv =s? pvName then add_node ns node else ns
    | _ => ns
    end) [] attachments.

(** [pvc.Spec.VolumeName] *)
Definition volume_name (pvc : Object) : string :=
  match pvc.(oBody) with PVCBody s _ => s.(pvcVolumeName) | _ => "" end.

(** The second half of the search: the attachments of the claim's volume. *)
Definition nodes_by_attachment (c : Cluster) (pvc : Object) : KP (res (list string)) :=
  if volume_name pvc =s? "" then mret (Ok [])
  else
    attachments ←? kcall (KList c volumeattachments "" None) onerr (plainf "failed to list volume attachments: ");
    mret (Ok (attached_nodes (volume_name pvc) attachments)).

Definition findPVCNodesWithClient (k8sClient : Cluster) (namespace pvcName : string) : KP (res (list string)) :=
  podList ←? kcall (KList k8sClient pods namespace None) onerr (plainf "failed to list pods: ");
  match pod_nodes pvcName podList with
  | [] =>
      pvc ←? kcall (KGet k8sClient persistentvolumeclaims namespace pvcName) onerr (plainf "failed to get PVC: ");
      nodes_by_attachment k8sClient pvc
  | ns => mret (Ok ns)
  end.

(** FindPVCNodes: the claim is read again through the source client when [c] fails, and
    the attachments are always those of the source cluster. *)
Definition FindPVCNodes (c : Cluster) (namespace pvcName : string) : KP (res (list string)) :=
  podList ←? kcall (KList c pods namespace None) onerr (plainf "failed to list pods: ");
  match pod_nodes pvcName podList with
  | [] =>
      r ← kcall (KGet c persistentvolumeclaims namespace pvcName);
      match r with
      | Ok pvc => nodes_by_attachment Src pvc
      | Err err =>
          r ← kcall (KGet Src persistentvolumeclaims namespace pvcName);
          match r with
          | Ok pvc => nodes_by_attachment Src pvc
          | Err pvcErr =>
              errorf ("failed to get PVC with both clients: original: " +:+ Error err +:+ ", direct: " +:+ Error pvcErr)
          end
      end
  | ns => mret (Ok ns)
  end.

(** [ctx.Value(PVCClusterKey)]: which cluster the lookup is for. *)
Definition cluster_of_context (key : option string) : Cluster :=
  match key with
  | Some v => if v =s? "destination" then Dst else Src
  | None => Src
  end.

Definition FindPVCNode (key : option string) (namespace pvcName : string) : KP (res string) :=
  ns ←? findPVCNodesWithClient (cluster_of_context key) namespace pvcName onerr id;
  match ns with
  | [] => errorf ("no nodes found with PVC " +:+ namespace +:+ "/" +:+ pvcName +:+ " mounted")
  | n :: _ => mret (Ok n)
  end.

(** A running pod mounts the claim. *)
Definition used_by (pvcName : string) (pod : Object) : bool :=
  match pod.(oBody) with
  | PodBody f => (f.(podPhase) =s? "Running") && existsb (mounts pvcName) f.(podClaims)
  | _ => false
  end.

Definition attached_to (pvName : string) (va : Object) : bool :=
  match va.(oBody) with VolumeAttachmentBody _ (Some pv) _ _ => pv =s? pvName | _ => false end.

(** The pods are listed with the controller-runtime client of the syncer, [sourceClient], first;
    the other calls use the clientset of the source. *)
Definition HasVolumeAttachments (sourceClient : Cluster) (namespace pvcName : string) : KP (res bool) :=
  pvc ←? kcall (KGet Src persistentvolumeclaims namespace pvcName) onerr (plainf "failed to get PVC: ");
  if volume_name pvc =s? "" then mret (Ok false)
  else
    r ← kcall (KList sourceClient pods namespace None);
    podList ←? match r with
               | Ok l => mret (Ok l)
               | Err _ => kcall (KList Src pods namespace None)
               end onerr (plainf "failed to list pods with both clients: ");
    if existsb (used_by pvcName) podList then mret (Ok true)
    else
      attachments ←? kcall (KList Src volumeattachments "" None) onerr (plainf "failed to list volume attachments: ");
      mret (Ok (existsb (attached_to (volume_name pvc)) attachments)).

(** ** The agent of a node *)

Definition agent_selector : gmap string string := {[ "app" := "dr-syncer-agent" ]}.

Definition runs_on (nodeName : string) (pod : Object) : bool :=
  match pod.(oBody) with
  | PodBody f => (f.(podNodeName) =s? nodeName) && (f.(podPhase) =s? "Running")
  | _ => false
  end.

(** The first external address, or else the first internal one. *)
Fixpoint node_ip (addresses : list (string * string)) (nodeIP : string) : string :=
  match addresses with
  | [] => nodeIP
  | (type, address) :: rest =>
      if (type =s? "ExternalIP") && negb (address =s? "") then address
      else if (type =s? "InternalIP") && (nodeIP =s? "") then node_ip rest address
      else node_ip rest nodeIP
  end.

Definition FindAgentPod (nodeName : string) : KP (res (Object * string)) :=
  podList ←? kcall (KList Src pods "" (Some agent_selector)) onerr (plainf "failed to list agent pods: ");
  match List.find (runs_on nodeName) podList with
  | None => errorf ("no DR-Syncer-Agent found on node " +:+ nodeName)
  | Some agentPod =>
      node ←? kcall (KGet Src nodes "" nodeName) onerr (plainf ("failed to get node " +:+ nodeName +:+ ": "));
      let nodeIP := match node.(oBody) with NodeBody addresses _ _ => node_ip addresses "" | _ => "" end in
      if nodeIP =s? "" then errorf ("no IP address found for node " +:+ nodeName)
      else mret (Ok (agentPod, nodeIP))
  end.

(** ** The mount path and its cache *)

Record MountPathCache : Type := mkMountPathCache {
  Path : string;
  NodeName : string;
  AgentPodUID : string;
  CacheTimestamp : string
}.

Definition MountPathCacheAnnotation : string := "dr-syncer.io/mount-path-cache".
Definition MountPathCacheTTL : Z := 1 * Hour.

(** encoding/json on a MountPathCache. *)
Class CacheCodec : Type := {
  Marshal : MountPathCache → string;
  Unmarshal : string → option MountPathCache
}.

Class LawfulCodec `{CacheCodec} : Prop := {
  unmarshal_marshal : ∀ c, Unmarshal (Marshal c) = Some c;
  marshal_nonempty : ∀ c, Marshal c ≠ ""
}.

(** [agentPod.Spec.NodeName] *)
Definition pod_node (pod : Object) : string := match pod.(oBody) with PodBody f => f.(podNodeName) | _ => "" end.

(** Running a command in a pod of the source cluster: its output; an error does not
    discard what was written before it. *)
Definition execCommandOnPod (namespace podName : string) (command : list string)
    : KP (string * string * option error) :=
  r ← kcall (KExec Src namespace podName command);
  match r with
  | NoExecutor e => mret ("", "", Some e)
  | Executed out err e => mret (out, err, e)
  end.

Section MountPath.
Context `{CacheCodec}.

Definition getMountPathFromCache (pvc agentPod : Object) : KP (option string) :=
  match get_key pvc.(oMeta).(mAnnotations) MountPathCacheAnnotation with
  | None => mret None
  | Some cacheJSON =>
      if cacheJSON =s? "" then mret None
      else
        match Unmarshal cacheJSON with
        | None => mret None
        | Some cache =>
            if negb (cache.(AgentPodUID) =s? agentPod.(oMeta).(mUID)) then mret None
            else if negb (cache.(NodeName) =s? pod_node agentPod) then mret None
            else
              match ParseRFC3339 cache.(CacheTimestamp) with
              | None => mret None
              | Some cacheTime =>
                  now ← kcall KNow;
                  if MountPathCacheTTL <? Since now cacheTime then mret None
                  else mret (Some cache.(Path))
              end
        end
  end.

(** The claim with the cache in its annotations. *)
Definition cached_pvc (mountPath : string) (agentPod : Object) (now : Time) (pvc : Object) : Object :=
  with_annotations (Some (<[MountPathCacheAnnotation :=
    Marshal (mkMountPathCache mountPath (pod_node agentPod) agentPod.(oMeta).(mUID) (FormatRFC3339 now))]>
    (or_make pvc.(oMeta).(mAnnotations)))) pvc.

Definition saveMountPathToCache (namespace pvcName mountPath : string) (agentPod : Object) : KP (res unit) :=
  pvc ←? kcall (KGet Src persistentvolumeclaims namespace pvcName) onerr (plainf "failed to get PVC for cache update: ");
  now ← kcall KNow;
  _ ←? kcall (KUpdate Src persistentvolumeclaims namespace (cached_pvc mountPath agentPod now pvc))
    onerr (plainf "failed to update PVC with mount path cache: ");
  mret (Ok tt).

(** The three searches, in order. *)
Definition df_command (pvName pvcName : string) : list string :=
  ["bash"; "-c"; "df | grep -E '" +:+ pvName +:+ "|" +:+ pvcName +:+ "' | awk '{print $6}' | head -n 1"].
Definition mount_command (pvName : string) : list string :=
  ["bash"; "-c"; "mount | grep " +:+ pvName +:+ " | awk '{print $3}' | head -n 1"].
Definition find_command (pvName : string) : list string :=
  ["bash"; "-c"; "timeout 30s find /var/lib/kubelet/pods -name " +:+ pvName +:+
                 " -type d -path '*/volumes/*' | grep -v plugins | head -n 1"].

(** Try the commands until one prints a path; only the output counts, not the error. *)
Fixpoint first_path (agentPod : Object) (commands : list (list string)) : KP string :=
  match commands with
  | [] => mret ""
  | cmd :: rest =>
      r ← execCommandOnPod (GetNamespace agentPod) (GetName agentPod) cmd;
      let mountPath := TrimSpace r.1.1 in
      if mountPath =s? "" then first_path agentPod rest else mret mountPath
  end.

Definition FindPVCMountPath (namespace pvcName : string) (agentPod : Object) : KP (res string) :=
  pvc ←? kcall (KGet Src persistentvolumeclaims namespace pvcName) onerr (plainf "failed to get PVC: ");
  cached ← getMountPathFromCache pvc agentPod;
  match cached with
  | Some cachedPath => mret (Ok cachedPath)
  | None =>
      let pvName := volume_name pvc in
      if pvName =s? "" then errorf ("PVC " +:+ namespace +:+ "/" +:+ pvcName +:+ " is not bound to a PV")
      else
        pv ←? kcall (KGet Src persistentvolumes "" pvName) onerr (plainf "failed to get PV: ");
        if negb (match pv.(oBody) with PVBody _ phase _ => phase =s? "Bound" | _ => false end) then
          errorf ("PV " +:+ namespace +:+ "/" +:+ pvName +:+ " is not bound")
        else
          mountPath ← first_path agentPod [df_command pvName pvcName; mount_command pvName; find_command pvName];
          if mountPath =s? "" then
            errorf ("mount path not found for PVC " +:+ namespace +:+ "/" +:+ pvcName +:+ " after trying multiple methods")
          else
            _ ← saveMountPathToCache namespace pvcName mountPath agentPod;
            mret (Ok mountPath)
  end.
End MountPath.

(** ** Keys and annotations *)

Definition newline_text : string := String "010" "".

Definition PushPublicKeyToAgent (agentPod : Object) (publicKey trackingInfo : string) : KP (res unit) :=
  let authKeyEntry := "# " +:+ trackingInfo +:+ newline_text +:+ publicKey +:+ newline_text in
  let cmd := ["bash"; "-c"; "mkdir -p /root/.ssh && echo '" +:+ authKeyEntry +:+
              "' >> /root/.ssh/authorized_keys && chmod 600 /root/.ssh/authorized_keys"] in
  r ← execCommandOnPod (GetNamespace agentPod) (GetName agentPod) cmd;
  match r with
  | (_, stderr, Some err) => errorf ("failed to push public key to agent pod: " +:+ Error err +:+ ": " +:+ stderr)
  | (_, _, None) => mret (Ok tt)
  end.

Definition synced_annotations (now : Time) (destinationNamespace pvcName : string) (a : option (gmap string string))
    : gmap string string :=
  <["dr-syncer.io/destination-pvc" := pvcName]>
  (<["dr-syncer.io/destination-namespace" := destinationNamespace]>
  (<["dr-syncer.io/last-sync-status" := "Completed"]>
  (<["dr-syncer.io/last-sync-time" := FormatRFC3339 now]> (or_make a)))).

(** [destinationNamespace] is the syncer's DestinationNamespace. *)
Definition UpdateSourcePVCAnnotations (destinationNamespace namespace pvcName : string) : KP (res unit) :=
  pvc ←? kcall (KGet Src persistentvolumeclaims namespace pvcName)
    onerr (plainf "failed to get source PVC for annotation update: ");
  now ← kcall KNow;
  _ ←? kcall (KUpdate Src persistentvolumeclaims namespace
         (with_annotations (Some (synced_annotations now destinationNamespace pvcName pvc.(oMeta).(mAnnotations))) pvc))
    onerr (plainf "failed to update source PVC annotations: ");
  mret (Ok tt).

Definition ValidatePVCSync (sourcePVCName sourceNamespace destPVCName destNamespace : string) : KP (res unit) :=
  _ ←? kcall (KGet Src persistentvolumeclaims sourceNamespace sourcePVCName) onerr (plainf "source PVC does not exist: ");
  _ ←? kcall (KGet Dst persistentvolumeclaims destNamespace destPVCName) onerr (plainf "destination PVC does not exist: ");
  mret (Ok tt).

(** ** pvc_sync.go: the mapping after a sync *)

Definition zero_mapping : NamespaceMapping :=
  mkNamespaceMapping "" "" ∅ [] None ""
    (mkNamespaceMappingSpec None "" None None "" "" "" "" "" [] None [] None None None None)
    (mkNamespaceMappingStatus "" None None None None None [] [] [] None [] None [] []).

Definition set_mapping_annotations (a : gmap string string) (m : NamespaceMapping) : NamespaceMapping :=
  mkNamespaceMapping m.(Name) m.(Namespace) a m.(Finalizers) m.(DeletionTimestamp) m.(ResourceVersion) m.(Spec) m.(Status).

Definition operatorNamespace : string := "dr-syncer".

(** The lookups of CompleteNamespaceMappingPVCSync and ScheduleNextPVCSync: the operator's
    namespace, the destination namespace, no namespace, the object handed in.  Without a
    destination namespace the first failure leaves the zero value. *)
Definition latest_mapping (destinationClient : Cluster) (destinationNamespace : string) (repl : NamespaceMapping) : KP NamespaceMapping :=
  r ← kcall (KGetMappingAt destinationClient operatorNamespace repl.(Name));
  match r with
  | Ok nm => mret nm
  | Err _ =>
      if destinationNamespace =s? "" then mret zero_mapping
      else
        r ← kcall (KGetMappingAt destinationClient destinationNamespace repl.(Name));
        match r with
        | Ok nm => mret nm
        | Err _ =>
            r ← kcall (KGetMappingAt destinationClient "" repl.(Name));
            match r with Ok nm => mret nm | Err _ => mret repl end
        end
  end.

Definition CompleteNamespaceMappingPVCSync (destinationClient : Cluster) (destinationNamespace : string) (repl : NamespaceMapping) (syncID : string)
    : KP (res unit) :=
  nm ← latest_mapping destinationClient destinationNamespace repl;
  now ← kcall KNow;
  let annotations :=
    <["dr-syncer.io/last-pvc-sync-status" := "Completed"]>
    (<["dr-syncer.io/last-pvc-sync-id" := syncID]>
    (<["dr-syncer.io/last-pvc-sync-time" := FormatRFC3339 now]> nm.(Annotations))) in
  _ ←? kcall (KUpdateMappingAt destinationClient (set_mapping_annotations annotations nm))
    onerr (plainf "failed to update namespace mapping status: ");
  mret (Ok tt).

(** The interval of a schedule of the form "unit:value". *)
Definition schedule_interval (schedule : string) : option Z :=
  if schedule =s? "" then None
  else
    match Split schedule ":" with
    | [unit; text] =>
        value ← Atoi text;
        let unit := ToLower unit in
        if unit =s? "minutes" then Some (int64 (value * Minute))
        else if unit =s? "hours" then Some (int64 (value * Hour))
        else if unit =s? "days" then Some (int64 (int64 (value * 24) * Hour))
        else None
    | _ => None
    end.

Definition next_pvc_sync : string := "dr-syncer.io/next-pvc-sync-time".

Definition ScheduleNextPVCSync (destinationClient : Cluster) (destinationNamespace : string) (repl : NamespaceMapping) : KP (res unit) :=
  nm ← latest_mapping destinationClient destinationNamespace repl;
  now ← kcall KNow;
  next ← match schedule_interval repl.(Spec).(Schedule) with
         | Some d => now ← kcall KNow; mret (now + d)
         | None => mret (now + 24 * Hour)
         end;
  _ ←? kcall (KUpdateMappingAt destinationClient (set_mapping_annotations (<[next_pvc_sync := FormatRFC3339 next]> nm.(Annotations)) nm))
    onerr (plainf "failed to update namespace mapping with next sync time: ");
  mret (Ok tt).

Definition agent_name_selector : gmap string string := {[ "app.kubernetes.io/name" := "dr-syncer-agent" ]}.

(** executeCommandInPod with the syncer in its context: the client of the source cluster
    is matched to the source configuration. *)
Definition AddPublicKeyToSourceAgent (publicKey trackingInfo : string) : KP (res unit) :=
  podList ←? kcall (KList Src pods "" (Some agent_name_selector)) onerr (plainf "failed to list agent pods in source cluster: ");
  match podList with
  | [] => errorf "no agent pods found in source cluster"
  | agentPod :: _ =>
      let cmd := ["sh"; "-c"; "mkdir -p /root/.ssh && echo '" +:+ publicKey +:+ " " +:+ trackingInfo +:+
                  "' >> /root/.ssh/authorized_keys && chmod 600 /root/.ssh/authorized_keys"] in
      r ← kcall (KExec Src (GetNamespace agentPod) (GetName agentPod) cmd);
      match r with
      | NoExecutor e => errorf ("failed to add public key to agent pod: failed to create SPDY executor: " +:+ Error e)
      | Executed _ stderr (Some e) =>
          let text := Error e in
          if Contains text "connection refused" || Contains text "connection reset" || Contains text "broken pipe" then
            errorf ("failed to add public key to agent pod: transient error: " +:+ text)
          else errorf ("failed to add public key to agent pod: failed to execute command: " +:+ text +:+ ", stderr: " +:+ stderr)
      | Executed _ _ None => mret (Ok tt)
      end
  end.
