(* ===== verification/HelpersProps.v ===== *)
(** * Theorems about finding a claim and its data

    The searches for the nodes of a claim agree with the question whether it is in use; the
    cache of mount paths; the next sync of a mapping. *)

From S2P Require Import Prelude GoString Errors Types Kube KubeLogic ApiServer Rfc3339 Lock LockProps Helpers.
From Stdlib Require Import Ascii.

(** ** Nodes *)

Lemma contains_spec l s : contains l s = true ↔ s ∈ l.
Proof.
  unfold contains. rewrite existsb_exists. setoid_rewrite String.eqb_eq. setoid_rewrite <- list_elem_of_In. naive_solver.
Qed.

Lemma add_node_spec l n x : x ∈ add_node l n ↔ x ∈ l ∨ x = n.
Proof.
  unfold add_node. destruct (contains l n) eqn:E; [apply contains_spec in E; naive_solver|].
  rewrite elem_of_app, list_elem_of_singleton. done.
Qed.

Lemma add_node_NoDup l n : NoDup l → NoDup (add_node l n).
Proof.
  intros Hl. unfold add_node. destruct (contains l n) eqn:E; [done|]. apply NoDup_app. split_and!; [done| |apply NoDup_singleton].
  intros x Hx ->%list_elem_of_singleton. apply contains_spec in Hx. congruence.
Qed.

(** A loop that adds a node for each element it selects. *)
Lemma foldl_add_spec {A} (f : A → option string) (step : list string → A → list string) l ns :
  (∀ ns a, step ns a = match f a with Some n => add_node ns n | None => ns end) →
  (∀ x, x ∈ foldl step ns l ↔ x ∈ ns ∨ ∃ a, a ∈ l ∧ f a = Some x) ∧ (NoDup ns → NoDup (foldl step ns l)).
Proof.
  intros Hstep. revert ns. induction l as [|a l IH]; intros ns; cbn [foldl]; [set_solver|].
  destruct (IH (step ns a)) as [Hin Hnd]. rewrite Hstep in *. split.
  - intros x. rewrite Hin. destruct (f a) as [n|] eqn:E; [rewrite add_node_spec|]; set_solver.
  - intros Hns. apply Hnd. destruct (f a); [by apply add_node_NoDup|done].
Qed.

(** The node a pod contributes. *)
Definition using_node (pvcName : string) (pod : Object) : option string :=
  if used_by pvcName pod then Some (pod_node pod) else None.

Lemma foldl_mounts pvcName node claims ns :
  foldl (λ ns v, if mounts pvcName v then add_node ns node else ns) ns claims =
  if existsb (mounts pvcName) claims then add_node ns node else ns.
Proof.
  revert ns. induction claims as [|c claims IH]; intros ns; [done|]. cbn [foldl existsb]. rewrite IH.
  destruct (mounts pvcName c); [|done]. cbn [orb]. destruct (existsb _ claims); [|done].
  unfold add_node at 1. rewrite (proj2 (contains_spec _ _)); [done|]. apply add_node_spec. by right.
Qed.

Lemma pod_nodes_spec pvcName podList :
  (∀ n, n ∈ pod_nodes pvcName podList ↔ ∃ pod, pod ∈ podList ∧ used_by pvcName pod = true ∧ pod_node pod = n) ∧
  NoDup (pod_nodes pvcName podList).
Proof.
  unfold pod_nodes.
  match goal with |- context [foldl ?step _ _] => destruct (foldl_add_spec (using_node pvcName) step podList []) as [Hin Hnd] end.
  { intros ns pod. unfold using_node, used_by, pod_node. destruct (oBody pod) as []; try done.
    destruct (podPhase _ =s? "Running"); [|done]. rewrite foldl_mounts. cbn [andb]. by destruct (existsb _ _). }
  split; [|apply Hnd, NoDup_nil_2]. intros n. rewrite Hin. unfold using_node. split.
  - intros [[]%not_elem_of_nil|(pod & Hp & E)]. destruct (used_by pvcName pod) eqn:Hu; [|done]. injection E as <-. by eauto.
  - intros (pod & Hp & Hu & <-). right. exists pod. by rewrite Hu.
Qed.

Definition attachment_node (pvName : string) (va : Object) : option string :=
  match va.(oBody) with
  | VolumeAttachmentBody node (Some pv) _ _ => if pv =s? pvName then Some node else None
  | _ => None
  end.

Lemma attached_nodes_spec pvName l :
  (∀ n, n ∈ attached_nodes pvName l ↔ ∃ va, va ∈ l ∧ attachment_node pvName va = Some n) ∧ NoDup (attached_nodes pvName l).
Proof.
  unfold attached_nodes.
  match goal with |- context [foldl ?step _ _] => destruct (foldl_add_spec (attachment_node pvName) step l []) as [Hin Hnd] end.
  { intros ns va. unfold attachment_node. destruct (oBody va) as []; try done. by repeat case_match. }
  split; [|apply Hnd, NoDup_nil_2]. intros n. rewrite Hin. split; [|by right]. by intros [[]%not_elem_of_nil|].
Qed.

(** Emptiness is what the question whether the claim is in use asks for. *)
Lemma pod_nodes_used pvcName podList : existsb (used_by pvcName) podList = negb (bool_decide (pod_nodes pvcName podList = [])).
Proof.
  destruct (pod_nodes_spec pvcName podList) as [Hin _]. apply eq_true_iff_eq.
  rewrite existsb_exists, negb_true_iff, bool_decide_eq_false. split.
  - intros (pod & Hp%list_elem_of_In & Hu) E. rewrite E in Hin. apply (not_elem_of_nil (pod_node pod)), Hin. by eauto.
  - destruct (pod_nodes pvcName podList) as [|n ns]; [done|]. intros _.
    destruct (proj1 (Hin n) (list_elem_of_here _ _)) as (pod & Hp%list_elem_of_In & Hu & _). by eauto.
Qed.

Lemma attached_nodes_used pvName l : existsb (attached_to pvName) l = negb (bool_decide (attached_nodes pvName l = [])).
Proof.
  destruct (attached_nodes_spec pvName l) as [Hin _]. apply eq_true_iff_eq.
  rewrite existsb_exists, negb_true_iff, bool_decide_eq_false.
  assert (Hto : ∀ va, attached_to pvName va = true ↔ ∃ n, attachment_node pvName va = Some n).
  { intros va. unfold attached_to, attachment_node. repeat case_match; try (by split; [|intros [? ?]]). split; by eauto. }
  split.
  - intros (va & Hp%list_elem_of_In & [n Hn]%Hto) E. rewrite E in Hin. apply (not_elem_of_nil n), Hin. by eauto.
  - destruct (attached_nodes pvName l) as [|n ns]; [done|]. intros _.
    destruct (proj1 (Hin n) (list_elem_of_here _ _)) as (va & Hp%list_elem_of_In & Hu). exists va. split; [done|]. apply Hto. by eauto.
Qed.

Section Lookup.
Context {S : Type} (h : handler KSig S) `{!LawfulKube h}.

(** Listing does not change anything. *)
Hypothesis list_pure : ∀ c r ns sel s, (h (KList c r ns sel) s).2 = s.

Lemma run_list c r ns sel w {A} (k : list Object → KP (res A)) s :
  run h (bindE (kcall (KList c r ns sel)) w k) s =
  match (h (KList c r ns sel) s).1 with Ok l => run h (k l) s | Err e => (Ret (Err (w e)), s) end.
Proof.
  pose proof (list_pure c r ns sel s) as Hp. cbn. destruct (h (KList c r ns sel) s) as [[l|e] s'] eqn:E; cbn in *; by subst.
Qed.

(** What both lookups read. *)
Lemma run_FindPVCNode ns name s pvc podList vas :
  (h (KGet Src persistentvolumeclaims ns name) s).1 = Ok pvc → volume_name pvc ≠ "" →
  (h (KList Src pods ns None) s).1 = Ok podList → (h (KList Src volumeattachments "" None) s).1 = Ok vas →
  run h (FindPVCNode None ns name) s =
  (Ret match (match pod_nodes name podList with [] => attached_nodes (volume_name pvc) vas | l => l end) with
       | [] => Err (PlainError ("no nodes found with PVC " +:+ ns +:+ "/" +:+ name +:+ " mounted"))
       | n :: _ => Ok n
       end, s).
Proof.
  intros Hg Hv Hp Ha. unfold FindPVCNode, findPVCNodesWithClient. cbn [cluster_of_context].
  unfold bindE at 1. rewrite run_bind, run_list, Hp. destruct (pod_nodes name podList) as [|n l]; [|done].
  rewrite (run_get_ok _ _ _ _ _ _ _ _ _ Hg). unfold nodes_by_attachment.
  rewrite (proj2 (String.eqb_neq _ _) Hv), run_list, Ha. by destruct (attached_nodes (volume_name pvc) vas).
Qed.

Lemma run_HasVolumeAttachments ns name s pvc podList vas :
  (h (KGet Src persistentvolumeclaims ns name) s).1 = Ok pvc → volume_name pvc ≠ "" →
  (h (KList Src pods ns None) s).1 = Ok podList → (h (KList Src volumeattachments "" None) s).1 = Ok vas →
  run h (HasVolumeAttachments Src ns name) s =
  (Ret (Ok (existsb (used_by name) podList || existsb (attached_to (volume_name pvc)) vas)), s).
Proof.
  intros Hg Hv Hp Ha. unfold HasVolumeAttachments. rewrite (run_get_ok _ _ _ _ _ _ _ _ _ Hg).
  rewrite (proj2 (String.eqb_neq _ _) Hv). run_kstep. rewrite Hp, list_pure. unfold bindE at 1. rewrite run_bind. cbn [run mret prog_ret].
  destruct (existsb (used_by name) podList); [done|]. by rewrite run_list, Ha.
Qed.

(** For a bound claim the two lookups of a sync agree: HasVolumeAttachments says that the
    claim is in use exactly when FindPVCNode finds a node, and that node runs a pod that
    mounts the claim or has its volume attached. *)
Theorem HasVolumeAttachments_FindPVCNode ns name s pvc podList vas :
  (h (KGet Src persistentvolumeclaims ns name) s).1 = Ok pvc → volume_name pvc ≠ "" →
  (h (KList Src pods ns None) s).1 = Ok podList → (h (KList Src volumeattachments "" None) s).1 = Ok vas →
  ∃ b r, run h (HasVolumeAttachments Src ns name) s = (Ret (Ok b), s) ∧ run h (FindPVCNode None ns name) s = (Ret r, s) ∧
    (b = true ↔ ∃ node, r = Ok node) ∧
    ∀ node, r = Ok node →
      (∃ pod, pod ∈ podList ∧ used_by name pod = true ∧ pod_node pod = node) ∨
      (∃ va, va ∈ vas ∧ attachment_node (volume_name pvc) va = Some node).
Proof.
  intros Hg Hv Hp Ha. do 2 eexists. split; [by eapply run_HasVolumeAttachments|]. split; [by eapply run_FindPVCNode|].
  rewrite pod_nodes_used, attached_nodes_used.
  destruct (pod_nodes_spec name podList) as [Hpod _], (attached_nodes_spec (volume_name pvc) vas) as [Hva _].
  destruct (pod_nodes name podList) as [|n l].
  - destruct (attached_nodes (volume_name pvc) vas) as [|n l]; cbn; [by split; [split; [|intros [? ?]]|]|].
    split; [split; by eauto|]. intros node [= <-]. right. apply Hva. left.
  - cbn. split; [split; by eauto|]. intros node [= <-]. left. apply Hpod. left.
Qed.
End Lookup.

(** A running pod on node-1 that mounts the claim. *)
Definition user_pod : Object :=
  mkObject (mkGVK "" "v1" "Pod") (mkObjectMeta "web-0" "app" "u-7" "3" "" None [] [] 0 [] None None)
    (PodBody (mkPodFields [Some "data"] "node-1" "Running" "" "")).

Definition bound_claim : Object :=
  mkObject (mkGVK "" "" "") (mkObjectMeta "data" "app" "" "1" "" None [] [] 0 [] None None)
    (PVCBody (mkPVCSpec ["ReadWriteOnce"] None None "" "pv-1" None None None None) "Bound").

Definition used_claim : world :=
  mkWorld [mkEntry Src persistentvolumeclaims "app" bound_claim; mkEntry Src pods "app" user_pod] [] [] 4 (1700000000 * Second).

Lemma HasVolumeAttachments_FindPVCNode_witness :
  run api (FindPVCNode None "app" "data") used_claim = (Ret (Ok "node-1"), used_claim) ∧
  ∃ b r, run api (HasVolumeAttachments Src "app" "data") used_claim = (Ret (Ok b), used_claim) ∧
    run api (FindPVCNode None "app" "data") used_claim = (Ret r, used_claim) ∧
    (b = true ↔ ∃ node, r = Ok node) ∧
    ∀ node, r = Ok node →
      (∃ pod, pod ∈ [user_pod] ∧ used_by "data" pod = true ∧ pod_node pod = node) ∨
      (∃ va, va ∈ [] ∧ attachment_node (volume_name bound_claim) va = Some node).
Proof.
  split; [vm_compute; reflexivity|].
  apply (HasVolumeAttachments_FindPVCNode api (λ _ _ _ _ _, eq_refl) "app" "data" used_claim bound_claim [user_pod] []); done.
Defined.

(** ** The cache of mount paths *)

Section Cache.
Context {S : Type} (h : handler KSig S) `{!LawfulKube h} `{LawfulCodec}.
Variables (ns name path : string) (agent : Object).

(** The entry that is saved at [now]. *)
Definition cache_entry (now : Time) : MountPathCache :=
  mkMountPathCache path (pod_node agent) agent.(oMeta).(mUID) (FormatRFC3339 now).

Lemma cached_annotation now pvc o :
  keeps_annotations (cached_pvc path agent now pvc) o →
  get_key o.(oMeta).(mAnnotations) MountPathCacheAnnotation = Some (Marshal (cache_entry now)).
Proof.
  intros Hs. assert (Ha : annot o MountPathCacheAnnotation = Marshal (cache_entry now)).
  { rewrite (annot_stored _ _ _ Hs). unfold annot, cached_pvc, get_key; cbn. by rewrite lookup_insert_eq. }
  pose proof (marshal_nonempty (cache_entry now)) as Hne. unfold annot in Ha.
  destruct (get_key _ _); cbn in Ha; congruence.
Qed.

(** What a saved entry is worth to an agent. *)
Lemma cache_lookup now pvc o agent' s :
  rfc3339_year now → keeps_annotations (cached_pvc path agent now pvc) o →
  run h (getMountPathFromCache o agent') s =
  if (agent.(oMeta).(mUID) =s? agent'.(oMeta).(mUID)) && (pod_node agent =s? pod_node agent') then
    (Ret (if MountPathCacheTTL <? Since (h KNow s).1 (now - now mod Second) then None else Some path), (h KNow s).2)
  else (Ret None, s).
Proof.
  intros Hy Hs. unfold getMountPathFromCache. rewrite (cached_annotation now pvc o Hs).
  rewrite (proj2 (String.eqb_neq _ _) (marshal_nonempty (cache_entry now))), unmarshal_marshal.
  cbn [AgentPodUID NodeName CacheTimestamp Path cache_entry].
  destruct (_ =s? _); [|done]. destruct (_ =s? _); [|done]. cbn [negb andb]. rewrite Parse_Format by done.
  run_kstep. by destruct (MountPathCacheTTL <? _).
Qed.

Lemma run_save s pvc s1 :
  (h (KGet Src persistentvolumeclaims ns name) s).1 = Ok pvc → GetName pvc = name →
  run h (saveMountPathToCache ns name path agent) s = (Ret (Ok tt), s1) →
  ∃ o, (h (KGet Src persistentvolumeclaims ns name) s1).1 = Ok o ∧
       keeps_annotations (cached_pvc path agent (h KNow s).1 pvc) o.
Proof.
  intros Hg Hn. unfold saveMountPathToCache. rewrite (run_get_ok _ _ _ _ _ _ _ _ _ Hg), run_now, run_update.
  destruct (h (KUpdate _ _ _ _) _).1 as [o|e] eqn:E; [|done]. intros [= <-]. exists o.
  by apply (update_stored_get h _ _ _ name) in E.
Qed.

(** A mount path that was saved is found again by the same agent on the same node within an
    hour (less the second the timestamp drops) without running a command in the agent; an
    agent pod with another identity or on another node never gets it. *)
Theorem FindPVCMountPath_cached s pvc s1 :
  (h (KGet Src persistentvolumeclaims ns name) s).1 = Ok pvc → GetName pvc = name → rfc3339_year (h KNow s).1 →
  run h (saveMountPathToCache ns name path agent) s = (Ret (Ok tt), s1) →
  ((h KNow s1).1 - (h KNow s).1 ≤ Hour - Second →
     run h (FindPVCMountPath ns name agent) s1 = (Ret (Ok path), (h KNow s1).2)) ∧
  ∃ o, (h (KGet Src persistentvolumeclaims ns name) s1).1 = Ok o ∧
    ∀ agent' s2, agent'.(oMeta).(mUID) ≠ agent.(oMeta).(mUID) ∨ pod_node agent' ≠ pod_node agent →
      run h (getMountPathFromCache o agent') s2 = (Ret None, s2).
Proof.
  intros Hg Hn Hy Hsave. destruct (run_save s pvc s1 Hg Hn Hsave) as (o & Ho & Hs). split.
  - intros Ht. unfold FindPVCMountPath. rewrite (run_get_ok _ _ _ _ _ _ _ _ _ Ho), run_bind.
    rewrite (cache_lookup _ _ _ _ _ Hy Hs), !String.eqb_refl. cbn [andb].
    change MountPathCacheTTL with Hour. by rewrite (lock_time_fresh (h KNow s).1 (h KNow s1).1 Ht).
  - exists o. split; [done|]. intros agent' s2 Hne. rewrite (cache_lookup _ _ _ _ _ Hy Hs).
    destruct (String.eqb_spec (mUID (oMeta agent)) (mUID (oMeta agent'))), (String.eqb_spec (pod_node agent) (pod_node agent'));
      cbn; try done. by destruct Hne as [[]|[]].
Qed.
End Cache.

(** A codec: each byte of a field follows an "a", and a field ends with a "z". *)
Fixpoint put_field (s rest : string) : string :=
  match s with EmptyString => String "z" rest | String c r => String "a" (String c (put_field r rest)) end.

Fixpoint get_field (s : string) : option (string * string) :=
  match s with
  | String m (String c r as t) => if Ascii.eqb m "z" then Some ("", t) else '(x, rest) ← get_field r; Some (String c x, rest)
  | String m EmptyString => if Ascii.eqb m "z" then Some ("", "") else None
  | EmptyString => None
  end.

Lemma get_put_field s rest : get_field (put_field s rest) = Some (s, rest).
Proof. induction s as [|c s IH]; cbn; [by destruct rest|]. by rewrite IH. Qed.

#[local] Instance field_codec : CacheCodec := {
  Marshal c := put_field c.(Path) (put_field c.(NodeName) (put_field c.(AgentPodUID) (put_field c.(CacheTimestamp) "")));
  Unmarshal s := '(p, s) ← get_field s; '(n, s) ← get_field s; '(u, s) ← get_field s; '(t, _) ← get_field s;
                 Some (mkMountPathCache p n u t)
}.

#[local] Instance field_lawful : LawfulCodec.
Proof.
  split; intros [p n u t]; cbn - [put_field].
  - by repeat (rewrite get_put_field; cbn [mbind option_bind]).
  - by destruct p.
Qed.

Definition agent_pod : Object :=
  mkObject (mkGVK "" "v1" "Pod") (mkObjectMeta "agent-1" "dr-syncer" "u-9" "4" "" None [] [] 0 [] None None)
    (PodBody (mkPodFields [] "node-1" "Running" "" "")).

Lemma FindPVCMountPath_cached_witness :
  let s1 := (run api (saveMountPathToCache "app" "data" "/mnt/pv-1" agent_pod) used_claim).2 in
  run api (FindPVCMountPath "app" "data" agent_pod) s1 = (Ret (Ok "/mnt/pv-1"), s1).
Proof.
  intros s1.
  refine (proj1 (FindPVCMountPath_cached api "app" "data" "/mnt/pv-1" agent_pod used_claim bound_claim s1 _ _ _ _) _);
    [done|done|by apply (bool_decide_unpack _); vm_compute|by vm_compute|by vm_compute].
Defined.

(** ** The next sync of the claims of a mapping *)

(** What is written as the next time, and the time it follows. *)
Definition next_monitor (st : option Time) (e : event KSig) : option (option Time) :=
  match e with
  | Ev o r =>
      match o as o return KResp o → option (option Time) with
      | KNow => λ t, Some (Some t)
      | KUpdateMappingAt _ m => λ _,
          match st with
          | Some t => if bool_decide (m.(Annotations) !! next_pvc_sync = Some (FormatRFC3339 (t + 24 * Hour))) then Some st else None
          | None => None
          end
      | _ => λ _, Some st
      end r
  end.

Lemma schedule_interval_cron s : no_char ":" s → schedule_interval s = None.
Proof. intros Hs. unfold schedule_interval. destruct (s =s? ""); [done|]. by rewrite Split_no_char. Qed.

(** ScheduleNextPVCSync understands schedules of the form unit:value only.  For a schedule
    without a colon, such as the cron expressions the mapping reconciler uses, every write
    sets the next sync to 24 hours after the time read last. *)
Theorem ScheduleNextPVCSync_cron c destinationNamespace repl tr out :
  no_char ":" repl.(Spec).(Schedule) →
  runs (ScheduleNextPVCSync c destinationNamespace repl) tr out →
  ∃ st, observe next_monitor None tr = Some st.
Proof.
  intros Hs Hr. enough (Hm : monitored next_monitor (ScheduleNextPVCSync c destinationNamespace repl) None (λ _ _, True)).
  { destruct (monitored_sound _ _ _ _ _ _ Hm Hr) as (st & Ho & _). by eauto. }
  unfold ScheduleNextPVCSync. apply monitored_bind.
  assert (Hl : monitored next_monitor (latest_mapping c destinationNamespace repl) None (λ out st, (∃ a, out = Ret a) ∧ st = None)).
  { unfold latest_mapping. intros [m|e]; cbn; [by eauto|]. destruct (_ =s? ""); cbn; [by eauto|].
    intros [m|e']; cbn; [by eauto|]. intros [m|e'']; cbn; by eauto. }
  eapply monitored_mono; [exact Hl|]. intros o st [[nm ->] ->]. cbn beta iota. intros now. cbn [next_monitor].
  rewrite schedule_interval_cron by done. cbn [monitored mbind mret prog_bind prog_ret pbind bindE kcall call].
  intros r. cbn. rewrite bool_decide_eq_true_2 by apply lookup_insert_eq. by destruct r.
Qed.

(** A mapping that is synced at three in the morning. *)
Definition nightly : NamespaceMapping :=
  mkNamespaceMapping "app-dr" operatorNamespace ∅ [] None "1"
    (mkNamespaceMappingSpec None "Scheduled" None None "" "" "app" "app-dr" "0 3 * * *" [] None [] None None None None)
    zero_mapping.(Status).

Definition nightly_world : world := mkWorld [] [nightly] [] 2 (1700000000 * Second).

Lemma ScheduleNextPVCSync_cron_witness :
  (∃ st, observe next_monitor None (run_trace api (ScheduleNextPVCSync Dst "app-dr" nightly) nightly_world) = Some st) ∧
  (run api (ScheduleNextPVCSync Dst "app-dr" nightly) nightly_world).1 = Ret (Ok tt).
Proof.
  split; [|vm_compute; reflexivity]. eapply ScheduleNextPVCSync_cron; [|apply run_trace_runs]. repeat split.
Defined.
