(* ===== verification/RsyncExec.v ===== *)
(** * Running rsync: pvc_sync.go (retries), sync_status.go (status), perform_rsync.go

    The retry loops, the status kept in the annotations of the source claim, the
    verification configuration and performRsync.  json.Marshal of a status is a parameter
    ([StatusCodec]).  The goroutine that updates the progress every 30 seconds runs beside
    the attempts and the waits between them and is joined before the outcome is reported;
    its step is [progress_tick].  [performRsync] is the calls of the goroutine that runs
    it, and theorems about all its executions hold whatever the servers answer, so also
    when the other one writes in between. *)

From S2P Require Import Prelude GoString Errors Types Kube KubeLogic Float Duration Rfc3339 Regexp Progress Lock.
From Stdlib Require Import Ascii.

(** ** Retries *)

(** An error of an operation: a [*RetryableError] or another one. *)
Inductive opError : Type :=
| RetryableErr (Err : error)
| OtherErr (e : error).

Definition op_error (e : opError) : error := match e with RetryableErr e | OtherErr e => e end.

Definition context_canceled : error := PlainError "context canceled".

(** [fmt.Errorf("operation failed after %d attempts: %v", maxRetries, err)] *)
Definition exhausted (maxRetries : Z) (err : option opError) : error :=
  PlainError ("operation failed after " +:+ itoa maxRetries +:+ " attempts: " +:+
    match err with Some e => Error (op_error e) | None => "<nil>" end).

Section Retries.
(** [St] is what the operation assigns to. *)
Context {St : Type} (operation : St → KP (St * option opError)).

(** The loop of withRetry with [n] attempts left. *)
Fixpoint retry_from (n : nat) (maxRetries attempt backoff : Z) (st : St) (err : option opError) : KP (St * res unit) :=
  match n with
  | O => mret (st, Err (exhausted maxRetries err))
  | S n' =>
      r ← operation st;
      match r with
      | (st', None) => mret (st', Ok tt)
      | (st', Some (OtherErr e)) => mret (st', Err e)
      | (st', Some (RetryableErr e)) =>
          fired ← kcall (KWait (int64 (backoff * int64 (2 ^ attempt))));
          if fired : bool then retry_from n' maxRetries (attempt + 1) backoff st' (Some (RetryableErr e))
          else mret (st', Err context_canceled)
      end
  end.

Definition withRetry (maxRetries backoff : Z) (st : St) : KP (St * res unit) :=
  retry_from (Z.to_nat maxRetries) maxRetries 0 backoff st None.

(** [time.Duration(float64(d) * f)], [f] at scale [2^bits]. *)
Definition scale_duration (d f bits : Z) : Z := f64_to_int64 (Z.quot (r64 (r64 d * f)) (2 ^ bits)).

(** The float64 nearest to 0.3 is [c03] at scale 2^54, the one nearest to 0.15 at 2^55. *)
Definition c03 : Z := 5404319552844595.

(** [1.0 + (rand.Float64()*0.3 - 0.15)] at scale 2^107. *)
Definition jitter (rnd : Z) : Z := r64 (2 ^ 107 + r64 (r64 (rnd * c03) - c03 * 2 ^ 52)).

(** [nextBackoff], capped. *)
Definition next_backoff (currentBackoff multiplier maxBackoff : Z) : Z :=
  let next := scale_duration currentBackoff multiplier 131 in
  if maxBackoff <? next then maxBackoff else next.

Fixpoint retry_config_from (n : nat) (maxRetries multiplier maxBackoff currentBackoff : Z) (st : St)
    (err : option opError) : KP (St * res unit) :=
  match n with
  | O => mret (st, Err (exhausted maxRetries err))
  | S n' =>
      r ← operation st;
      match r with
      | (st', None) => mret (st', Ok tt)
      | (st', Some (OtherErr e)) => mret (st', Err e)
      | (st', Some (RetryableErr e)) =>
          rnd ← kcall KRandom;
          fired ← kcall (KWait (scale_duration currentBackoff (jitter rnd) 107));
          if fired : bool then
            retry_config_from n' maxRetries multiplier maxBackoff
              (next_backoff currentBackoff multiplier maxBackoff) st' (Some (RetryableErr e))
          else mret (st', Err context_canceled)
      end
  end.

(** The settings: maximum attempts, first and largest backoff, multiplier at scale 2^131. *)
Definition retry_settings (config : option RetryConfig) : Z * Z * Z * Z :=
  let maxRetries := default 5 (config ≫= MaxRetries) in
  let duration (text : RetryConfig → string) (d : Z) :=
    default d (c ← config; if text c =s? "" then None else ParseDuration (text c)) in
  let multiplier := match config ≫= BackoffMultiplier with Some m => fdiv131 m 100 | None => 2 * 2 ^ 131 end in
  (maxRetries, duration InitialBackoff (5 * Second), duration MaxBackoff (5 * Minute), multiplier).

Definition withRetryConfig (config : option RetryConfig) (st : St) : KP (St * res unit) :=
  let '(maxRetries, initialBackoff, maxBackoff, multiplier) := retry_settings config in
  retry_config_from (Z.to_nat maxRetries) maxRetries multiplier maxBackoff initialBackoff st None.
End Retries.

(** ** sync_status.go: status *)

Record VerificationResult : Type := mkVerificationResult {
  vrMode : string;
  vrFilesVerified : Z;
  vrFilesTotal : Z;
  vrChecksumMatch : bool;
  vrVerifiedAt : Time;
  vrError : string
}.

(** A zero time is [None]; the speed is at scale 2^131. *)
Record SyncStatus : Type := mkSyncStatus {
  ssPhase : string;
  ssStartTime : option Time;
  ssCompletionTime : option Time;
  ssBytesTransferred : Z;
  ssFilesTransferred : Z;
  ssTotalBytes : Z;
  ssTotalFiles : Z;
  ssProgress : Z;
  ssSpeedBytesPerSec : Z;
  ssEstimatedRemaining : string;
  ssError : string;
  ssVerification : option VerificationResult
}.

(** encoding/json on a SyncStatus: it fails for no value of this type. *)
Class StatusCodec : Type := MarshalStatus : SyncStatus → string.

(** The parts of a PVCSyncer that are used: the clusters of its two controller-runtime clients,
    its namespaces, and whether it has an event recorder.  Its clientsets are those of the source
    and of the destination cluster. *)
Record PVCSyncer : Type := mkPVCSyncer {
  psSourceClient : Cluster;
  psDestinationClient : Cluster;
  psSourceNamespace : string;
  psDestinationNamespace : string;
  psRecorder : bool
}.

Definition status_annotation : string := "dr-syncer.io/sync-status".
Definition phase_annotation : string := "dr-syncer.io/phase".

Section Status.
Context `{StatusCodec}.

Definition status_annotations (status : SyncStatus) (now : Time) (a : option (gmap string string)) : gmap string string :=
  let a := <[phase_annotation := status.(ssPhase)]>
           (<["dr-syncer.io/last-updated" := FormatRFC3339 now]>
           (<[status_annotation := MarshalStatus status]> (or_make a))) in
  if 0 <? status.(ssProgress) then <["dr-syncer.io/progress" := itoa status.(ssProgress)]> a else a.

Definition UpdateSyncStatus (namespace pvcName : string) (status : SyncStatus) : KP (res unit) :=
  pvc ←? kcall (KGet Src persistentvolumeclaims namespace pvcName) onerr (plainf "failed to get PVC: ");
  now ← kcall KNow;
  _ ←? kcall (KUpdate Src persistentvolumeclaims namespace
         (with_annotations (Some (status_annotations status now pvc.(oMeta).(mAnnotations))) pvc))
    onerr (plainf "failed to update PVC annotations: ");
  mret (Ok tt).

(** recordEvent: an event on the source claim, when there is a recorder and the claim is found. *)
Definition recordEvent (p : PVCSyncer) (namespace pvcName eventType reason : string) : KP unit :=
  if p.(psRecorder) then
    r ← kcall (KGet Src persistentvolumeclaims namespace pvcName);
    match r with
    | Ok pvc => kcall (KRecordEvent pvc eventType reason)
    | Err _ => mret tt
    end
  else mret tt.

Definition RecordNormalEvent (p : PVCSyncer) (namespace pvcName reason : string) : KP unit :=
  recordEvent p namespace pvcName "Normal" reason.

Definition RecordWarningEvent (p : PVCSyncer) (namespace pvcName reason : string) : KP unit :=
  recordEvent p namespace pvcName "Warning" reason.

Definition simple_status (phase : string) (start completion : option Time) (bytes files progress : Z) (err : string)
    (v : option VerificationResult) : SyncStatus :=
  mkSyncStatus phase start completion bytes files 0 0 progress 0 "" err v.

Definition InitSyncStatus (namespace pvcName : string) : KP (res unit) :=
  now ← kcall KNow;
  UpdateSyncStatus namespace pvcName (simple_status "Initializing" (Some now) None 0 0 0 "" None).

Definition CompleteSyncStatusWithVerification (namespace pvcName : string) (bytesTransferred filesTransferred : Z)
    (verification : option VerificationResult) : KP (res unit) :=
  t1 ← kcall KNow;
  t2 ← kcall KNow;
  UpdateSyncStatus namespace pvcName
    (simple_status "Completed" (Some (t1 - 1 * Minute)) (Some t2) bytesTransferred filesTransferred 100 "" verification).

Definition CompleteSyncStatus (namespace pvcName : string) (bytesTransferred filesTransferred : Z) : KP (res unit) :=
  CompleteSyncStatusWithVerification namespace pvcName bytesTransferred filesTransferred None.

Definition FailedSyncStatus (namespace pvcName : string) (err : option error) : KP (res unit) :=
  let errMsg := match err with Some e => Error e | None => "" end in
  now ← kcall KNow;
  UpdateSyncStatus namespace pvcName (simple_status "Failed" None (Some now) 0 0 0 errMsg None).

(** One tick of the progress goroutine, with the output so far. *)
Definition progress_tick (p : PVCSyncer) (pvcName : string) (syncStartTime : Time) (currentOutput : string) : KP unit :=
  if currentOutput =s? "" then mret tt
  else
    let progress := ParseProgress2Output currentOutput in
    if 0 <? progress.(piProgress) then
      _ ← UpdateSyncStatus p.(psSourceNamespace) pvcName
            (mkSyncStatus "Syncing" (Some syncStartTime) None progress.(piBytesTransferred) progress.(piFilesTransferred)
               progress.(piTotalBytes) progress.(piTotalFiles) progress.(piProgress) progress.(piSpeedBytesPerSec)
               (FormatDuration progress.(piETASeconds)) "" None);
      mret tt
    else mret tt.
End Status.

(** ** perform_rsync.go: verification *)

Record VerificationConfig : Type := mkVerificationConfig { vcMode : string; vcSamplePercent : Z }.

(** [if mode != "" { config.Mode = mode }; if percent != nil { config.SamplePercent = *percent }] *)
Definition override (mode : string) (percent : option Z) (c : VerificationConfig) : VerificationConfig :=
  mkVerificationConfig (if mode =s? "" then c.(vcMode) else mode) (default c.(vcSamplePercent) percent).

(** [fmt.Sscanf(s, "%d", &v)] for an int32. *)
Definition Sscanf_int32 (s : string) : option Z :=
  n ← Sscanf_d s; if bool_decide (in_int32 n) then Some n else None.

Definition valid_mode (mode : string) : bool :=
  (mode =s? VerificationModeNone) || (mode =s? VerificationModeSample) || (mode =s? VerificationModeFull).

(** The annotations of a claim. *)
Definition annotation_override (a : option (gmap string string)) (c : VerificationConfig) : VerificationConfig :=
  let mode :=
    match get_key a "dr-syncer.io/verification-mode" with
    | Some m => if valid_mode m then m else c.(vcMode)
    | None => c.(vcMode)
    end in
  let percent :=
    match get_key a "dr-syncer.io/sample-percent" ≫= Sscanf_int32 with
    | Some n => if (1 <=? n) && (n <=? 100) then n else c.(vcSamplePercent)
    | None => c.(vcSamplePercent)
    end in
  mkVerificationConfig mode percent.

(** The first RemoteCluster's defaults. *)
Definition cluster_override (clusters : list RemoteCluster) (c : VerificationConfig) : VerificationConfig :=
  match clusters with
  | rc :: _ =>
      match rc.(PVCSync) with
      | Some spec => override spec.(psDefaultVerificationMode) spec.(psDefaultSamplePercent) c
      | None => c
      end
  | [] => c
  end.

Definition data_sync_config (nm : option NamespaceMapping) : option PVCDataSyncConfig :=
  match nm with Some m => m.(Spec).(PVCConfig_) ≫= DataSyncConfig | None => None end.

Definition mapping_override (nm : option NamespaceMapping) (c : VerificationConfig) : VerificationConfig :=
  match data_sync_config nm with
  | Some dsc => override dsc.(dsVerificationMode) dsc.(dsSamplePercent) c
  | None => c
  end.

Definition getVerificationConfig (p : PVCSyncer) (pvcName : string) (nm : option NamespaceMapping) : KP VerificationConfig :=
  l ← kcall (KListRemoteClusters p.(psSourceClient));
  let config := mkVerificationConfig VerificationModeNone 10 in
  let config := match l with Ok clusters => cluster_override clusters config | Err _ => config end in
  let config := mapping_override nm config in
  r ← kcall (KGet Src persistentvolumeclaims p.(psSourceNamespace) pvcName);
  mret (match r with
        | Ok pvc => annotation_override pvc.(oMeta).(mAnnotations) config
        | Err _ => config
        end).

Record RsyncDeployment : Type := mkRsyncDeployment {
  rdName : string;
  rdNamespace : string;
  rdPodName : string;
  rdPVCName : string
}.

(** rsyncpod.ExecuteCommandInPod with the destination's configuration. *)
Definition exec_in_worker (d : RsyncDeployment) (command : list string) : KP (string * string * option error) :=
  r ← kcall (KExec Dst d.(rdNamespace) d.(rdPodName) command);
  match r with
  | NoExecutor e => mret ("", "", Some (plainf "failed to create SPDY executor: " e))
  | Executed out err None => mret (out, err, None)
  | Executed out err (Some e) =>
      let text := Error e in
      if Contains text "connection refused" || Contains text "connection reset" || Contains text "broken pipe" then
        mret (out, err, Some (plainf "transient error: " e))
      else mret (out, err, Some (PlainError ("failed to execute command: " +:+ text +:+ ", stderr: " +:+ err)))
  end.

Definition dq : string := String "034" "".

Definition HasSuffix (s suffix : string) : bool := HasPrefix (srev s "") (srev suffix "").
Definition TrimSuffix1 (s : string) (c : ascii) : string :=
  match srev s "" with String d r => if Ascii.eqb d c then srev r "" else s | EmptyString => s end.
Definition TrimPrefix (s p : string) : string :=
  if HasPrefix s p then String.substring (String.length p) (String.length s - String.length p) s else s.

(** The path under which files are looked for: [dsPath] is the path of the DaemonSet mode. *)
Definition dest_base (dsPath : option string) : string :=
  match dsPath with
  | Some path => if path =s? "" then "/data" else TrimSuffix1 path "/"
  | None => "/data"
  end.

Definition list_command (base : string) : list string :=
  ["sh"; "-c"; "find " +:+ base +:+ " -type f 2>/dev/null | head -1000"].
Definition dest_checksum_command (file : string) : list string :=
  ["sh"; "-c"; "md5sum '" +:+ file +:+ "' 2>/dev/null | awk '{print $1}'"].
Definition ssh_options : string := "ssh -o StrictHostKeyChecking=no -o UserKnownHostsFile=/dev/null -i /root/.ssh/id_rsa -p ".
Definition source_checksum_command (sshPort : Z) (nodeIP sourcePath : string) : list string :=
  ["sh"; "-c"; ssh_options +:+ itoa sshPort +:+ " root@" +:+ nodeIP +:+ " " +:+ dq +:+ "md5sum '" +:+ sourcePath +:+
               "' 2>/dev/null | awk '{print \$1}'" +:+ dq].

(** [int(float64(len(files)) * float64(samplePercent) / 100.0)] and its clamping. *)
Definition num_samples (count samplePercent : Z) : Z :=
  let n := Z.quot (fdiv131 (count * samplePercent) 100) (2 ^ 131) in
  let n := if n <? 1 then 1 else n in
  if count <? n then count else n.

(** Compare the checksums of one file: whether it was verified, and whether it differs. *)
Definition verify_file (d : RsyncDeployment) (base nodeIP mountPath : string) (sshPort : Z) (file : string)
    (acc : Z * bool * string) : KP (Z * bool * string) :=
  let '(verified, ok, err) := acc in
  if file =s? "" then mret acc
  else
    let relPath := TrimPrefix file base in
    let relPath := if relPath =s? "" then "/" else relPath in
    r1 ← exec_in_worker d (dest_checksum_command file);
    match r1 with
    | (_, _, Some _) => mret acc
    | (destChecksum, _, None) =>
        r2 ← exec_in_worker d (source_checksum_command sshPort nodeIP (mountPath +:+ relPath));
        match r2 with
        | (_, _, Some _) => mret acc
        | (sourceChecksum, _, None) =>
            if TrimSpace destChecksum =s? TrimSpace sourceChecksum then mret (verified + 1, ok, err)
            else mret (verified + 1, false, "checksum mismatch for file: " +:+ file)
        end
    end.

Definition performSampleVerification (d : RsyncDeployment) (dsPath : option string) (nodeIP mountPath : string)
    (sshPort samplePercent : Z) : KP (VerificationResult * option error) :=
  now ← kcall KNow;
  let base := dest_base dsPath in
  let result verified total ok err := mkVerificationResult VerificationModeSample verified total ok now err in
  r ← exec_in_worker d (list_command base);
  match r with
  | (_, _, Some err) => mret (result 0 0 false ("failed to list files: " +:+ Error err), Some err)
  | (stdout, _, None) =>
      let files := Split (TrimSpace stdout) newline in
      if bool_decide (files = [""]) then mret (result 0 0 true "", None)
      else
        let total := Z.of_nat (length files) in
        shuffled ← kcall (KShuffle files);
        v ← range_each (take (Z.to_nat (num_samples total samplePercent)) shuffled) (0, true, "")
              (verify_file d base nodeIP mountPath sshPort);
        let '(verified, ok, err) := v in
        mret (result verified total ok err, None)
  end.

(** ** performRsync *)

Definition transientErrorPatterns : list string :=
  ["connection refused"; "connection reset"; "connection timed out"; "no route to host"; "network is unreachable";
   "i/o timeout"; "broken pipe"; "eof"; "temporary failure"; "resource temporarily unavailable"].
Definition stderrPatterns : list string :=
  ["Connection timed out"; "Connection reset by peer"; "Connection closed"; "Host key verification failed";
   "Permission denied (publickey)"; "ssh_exchange_identification"; "Read from socket failed"; "Write failed";
   "rsync error: error in rsync protocol data stream"; "rsync: connection unexpectedly closed"].

Definition isTransientError (err : option error) (stderr : string) : bool :=
  match err with
  | Some e => existsb (Contains (ToLower (Error e))) transientErrorPatterns
  | None => false
  end || (negb (stderr =s? "") && existsb (Contains stderr) stderrPatterns).

(** One attempt: [rsyncOutput] is assigned on success only. *)
Definition rsync_attempt (d : RsyncDeployment) (cmd : list string) (rsyncOutput : string) : KP (string * option opError) :=
  r ← exec_in_worker d cmd;
  match r with
  | (_, _, Some execErr) =>
      mret (rsyncOutput,
            Some (if isTransientError (Some execErr) "" then RetryableErr (plainf "transient error during rsync: " execErr)
                  else OtherErr execErr))
  | (stdout, stderr, None) =>
      if isTransientError None stderr then
        mret (rsyncOutput, Some (RetryableErr (PlainError ("transient connection error in rsync: " +:+ stderr))))
      else mret (stdout, None)
  end.

Definition default_options : list string := ["-avz"; "--info=progress2"; "--delete"].

(** The options of a mapping, and whether they ask for checksums. *)
Definition mapping_options (nm : option NamespaceMapping) : list string * bool :=
  match data_sync_config nm with
  | Some dsc =>
      let limit :=
        match dsc.(dsBandwidthLimit) with
        | Some bw => if 0 <? bw then ["--bwlimit=" +:+ itoa bw] else []
        | None => []
        end in
      ((dsc.(dsRsyncOptions) ++ limit)%list, existsb (λ o, o =s? "--checksum") dsc.(dsRsyncOptions))
  | None => ([], false)
  end.

Definition rsync_options (nm : option NamespaceMapping) (mode : string) : list string :=
  let '(custom, checksum) := mapping_options nm in
  (default_options ++ custom ++ (if checksum || (mode =s? VerificationModeFull) then ["--checksum"] else []))%list.

Definition rsync_command (options : list string) (sshPort : Z) (sourceInfo destInfo : string) : list string :=
  ["sh"; "-c"; "rsync " +:+ Join options " " +:+ " --rsh=" +:+ dq +:+ ssh_options +:+ itoa sshPort +:+ dq +:+ " " +:+
               sourceInfo +:+ " " +:+ destInfo].

Definition verify_command (destInfo : string) : list string :=
  ["sh"; "-c"; "if [ $(ls -la " +:+ destInfo +:+ " | wc -l) -gt 3 ]; then echo 'SUCCESS'; else echo 'FAILED'; fi"].

Definition ssh_port (clusters : res (list RemoteCluster)) : Z :=
  match clusters with
  | Ok (rc :: _) =>
      match sshPort <$> (rc.(PVCSync) ≫= psSSH) with
      | Some port => if 0 <? port then port else 2222
      | None => 2222
      end
  | _ => 2222
  end.

(** Where rsync writes to. *)
Definition dest_info (dsPath : option string) : string :=
  match dsPath with
  | Some path => if path =s? "" then "/data/" else if HasSuffix path "/" then path else path +:+ "/"
  | None => "/data/"
  end.

Section PerformRsync.
Context `{StatusCodec}.

(** The part after the check that files arrived: nothing of it makes the sync fail. *)
Definition conclude (p : PVCSyncer) (d : RsyncDeployment) (dsPath : option string) (nodeIP mountPath : string)
    (sshPort : Z) (verify : VerificationConfig) (rsyncOutput : string) : KP (res unit) :=
  verification ←
    (if verify.(vcMode) =s? VerificationModeSample then
       r ← performSampleVerification d dsPath nodeIP mountPath sshPort verify.(vcSamplePercent); mret (Some r.1)
     else if verify.(vcMode) =s? VerificationModeFull then
       now ← kcall KNow; mret (Some (mkVerificationResult VerificationModeFull 0 0 true now ""))
     else mret None);
  let '(bytesTransferred, filesTransferred, _) := ParseRsyncOutput rsyncOutput in
  _ ← kcall KNow;
  _ ← CompleteSyncStatusWithVerification p.(psSourceNamespace) d.(rdPVCName) bytesTransferred filesTransferred verification;
  mret (Ok tt).

(** The transfer with its retries, the check that files arrived, and the report. *)
Definition rsync_and_verify (p : PVCSyncer) (d : RsyncDeployment) (dsPath : option string) (nodeIP mountPath : string)
    (sshPort : Z) (verify : VerificationConfig) (cmd : list string) (retry : option RetryConfig) : KP (res unit) :=
  r ← withRetryConfig (rsync_attempt d cmd) retry "";
  match r with
  | (_, Err err) =>
      _ ← kcall KNow;
      _ ← FailedSyncStatus p.(psSourceNamespace) d.(rdPVCName) (Some err);
      mret (Err (plainf "rsync command failed: " err))
  | (rsyncOutput, Ok _) =>
      v ← exec_in_worker d (verify_command (dest_info dsPath));
      let '(verifyOut, _, verr) := v in
      match verr with
      | None =>
          if Contains verifyOut "SUCCESS" then conclude p d dsPath nodeIP mountPath sshPort verify rsyncOutput
          else
            let err := PlainError "rsync verification failed: <nil>" in
            _ ← FailedSyncStatus p.(psSourceNamespace) d.(rdPVCName) (Some err);
            mret (Err err)
      | Some e =>
          let err := plainf "rsync verification failed: " e in
          _ ← FailedSyncStatus p.(psSourceNamespace) d.(rdPVCName) (Some err);
          mret (Err err)
      end
  end.

Definition performRsync (p : PVCSyncer) (d : RsyncDeployment) (dsPath : option string) (nodeIP mountPath : string)
    : KP (res unit) :=
  let ns := p.(psSourceNamespace) in
  let sourceInfo := "root@" +:+ nodeIP +:+ ":" +:+ mountPath +:+ "/" in
  let destInfo := dest_info dsPath in
  _ ← InitSyncStatus ns d.(rdPVCName);
  _ ← kcall KNow;
  g ← kcall (KGetMappingAt p.(psSourceClient) "" (ns +:+ "-" +:+ p.(psDestinationNamespace)));
  let nm := match g with Ok m => Some m | Err _ => None end in
  verify ← getVerificationConfig p d.(rdPVCName) nm;
  started ← kcall KNow;
  _ ← UpdateSyncStatus ns d.(rdPVCName) (simple_status "Syncing" (Some started) None 0 0 5 "" None);
  clusters ← kcall (KListRemoteClusters p.(psSourceClient));
  let sshPort := ssh_port clusters in
  let cmd := rsync_command (rsync_options nm verify.(vcMode)) sshPort sourceInfo destInfo in
  rsync_and_verify p d dsPath nodeIP mountPath sshPort verify cmd (nm ≫= λ m, m.(Spec).(RetryConfig_)).
End PerformRsync.
