(* ===== verification/RsyncProps.v ===== *)
(** * Theorems about running rsync

    The default retry schedule, what a successful transfer means, the phases written to the
    claim, the options of the command, sampling; and the searches for the node, the agent and
    the mount path of a claim. *)

From S2P Require Import Prelude GoString Errors Types Kube KubeLogic ApiServer Float Duration Rfc3339 Regexp Progress Lock Helpers RsyncExec.
From Stdlib Require Import Ascii.

(** ** Retries *)

(** The waits of an execution, with the draws they follow. *)
Definition waits (tr : list (event KSig)) : list Z :=
  omap (λ e : event KSig, match (ev_op e : KOp) with KWait d => Some d | _ => None end) tr.

Lemma waits_app t1 t2 : waits (t1 ++ t2)%list = (waits t1 ++ waits t2)%list.
Proof. apply omap_app. Qed.

(** rand.Float64 is in [0, 1). *)
Definition fair (e : event KSig) : Prop :=
  match e with
  | Ev o r => match o as o return KResp o → Prop with KRandom => λ n, 0 ≤ n < 2 ^ 53 | _ => λ _, True end r
  end.

Definition fairb (e : event KSig) : bool :=
  match e with
  | Ev o r => match o as o return KResp o → bool with KRandom => λ n, (0 <=? n) && (n <? 2 ^ 53) | _ => λ _, true end r
  end.

Lemma fairb_ok tr : forallb fairb tr = true → Forall fair tr.
Proof.
  intros H. apply Forall_forall. intros [o r] He. rewrite forallb_forall in H.
  pose proof (H (Ev o r) (proj1 (list_elem_of_In _ _) He)) as Hb. destruct o; try done. cbn in Hb |- *. bool_props. lia.
Qed.

Definition no_wait : Op KSig → Prop := λ o : KOp, match o with KWait _ => False | _ => True end.

Lemma no_wait_waits tr : Forall (λ e, no_wait (ev_op e)) tr → waits tr = [].
Proof.
  induction tr as [|[o r] tr IH]; [done|]. rewrite Forall_cons. intros [Ho Ht]. cbn in Ho |- *.
  unfold waits in *. cbn. rewrite (IH Ht). by destruct o.
Qed.

Lemma r64_mono x y : x ≤ y → r64 x ≤ r64 y.
Proof.
  intros Hxy. destruct (Z.ltb_spec x 0) as [Hx|Hx]; [|by apply r64_le].
  unfold r64. rewrite (proj2 (Z.ltb_lt x 0)) by lia. destruct (Z.ltb_spec y 0) as [Hy|Hy].
  - pose proof (r64_pos_le (- y) (- x) ltac:(lia) ltac:(lia)). lia.
  - pose proof (r64_pos_le 0 (- x) ltac:(lia) ltac:(lia)). pose proof (r64_pos_le 0 y ltac:(lia) Hy).
    rewrite r64_pos_0 in *. lia.
Qed.

Lemma jitter_le r r' : 0 ≤ r ≤ r' → jitter r ≤ jitter r'.
Proof.
  intros Hr. unfold jitter. apply r64_mono. apply Z.add_le_mono_l, r64_mono. apply Z.sub_le_mono_r, r64_mono.
  apply Z.mul_le_mono_nonneg_r; [done|lia].
Qed.

Lemma jitter_nonneg r : 0 ≤ r → 0 ≤ jitter r.
Proof. intros Hr. transitivity (jitter 0); [vm_compute; done|]. apply jitter_le. lia. Qed.

Lemma f64_to_int64_le x y : 0 ≤ x ≤ y → in_int64 y → f64_to_int64 x ≤ f64_to_int64 y.
Proof. intros Hx Hy. rewrite !f64_to_int64_id by (unfold in_int64 in *; lia). lia. Qed.

Lemma scaled_between d rnd :
  0 ≤ d ≤ 2 ^ 40 → 0 ≤ rnd < 2 ^ 53 →
  scale_duration d (jitter 0) 107 ≤ scale_duration d (jitter rnd) 107 ≤ scale_duration d (jitter (2 ^ 53 - 1)) 107.
Proof.
  intros Hd Hr. unfold scale_duration. rewrite (r64_small d) by lia.
  assert (Hm : ∀ a b, 0 ≤ a ≤ b → b ≤ 2 ^ 53 - 1 →
    0 ≤ Z.quot (r64 (d * jitter a)) (2 ^ 107) ≤ Z.quot (r64 (d * jitter b)) (2 ^ 107)).
  { intros a b Ha Hb. pose proof (jitter_nonneg a ltac:(lia)). pose proof (jitter_le a b Ha).
    pose proof (r64_nonneg (d * jitter a) ltac:(nia)). pose proof (r64_mono (d * jitter a) (d * jitter b) ltac:(nia)).
    split; [apply Z.quot_pos; lia|]. apply Z.quot_le_mono; lia. }
  assert (Hin : ∀ a, 0 ≤ a ≤ 2 ^ 53 - 1 → in_int64 (Z.quot (r64 (d * jitter a)) (2 ^ 107))).
  { intros a Ha. pose proof (Hm a (2 ^ 53 - 1) ltac:(lia) ltac:(lia)) as [H0 H1].
    assert (Hb : r64 (d * jitter (2 ^ 53 - 1)) ≤ 2 ^ 150).
    { transitivity (r64 (2 ^ 150)); [apply r64_mono|vm_compute; done].
      transitivity (2 ^ 40 * jitter (2 ^ 53 - 1)); [|vm_compute; done].
      pose proof (jitter_nonneg (2 ^ 53 - 1) ltac:(lia)). nia. }
    apply (Z.quot_le_mono _ _ (2 ^ 107)) in Hb; [|lia]. change (2 ^ 150 ÷ 2 ^ 107) with (2 ^ 43) in Hb.
    unfold in_int64. lia. }
  split; apply f64_to_int64_le; try (apply Hm; lia); apply Hin; lia.
Qed.

(** The backoffs before jitter of [n] attempts. *)
Fixpoint backoffs (n : nat) (multiplier maxBackoff cur : Z) : list Z :=
  match n with
  | O => []
  | S n' => cur :: backoffs n' multiplier maxBackoff (next_backoff cur multiplier maxBackoff)
  end.

(** A wait that follows a backoff of [b]. *)
Definition within_jitter (b d : Z) : Prop :=
  scale_duration b (jitter 0) 107 ≤ d ≤ scale_duration b (jitter (2 ^ 53 - 1)) 107.

Lemma retry_waits {St} (operation : St → KP (St * option opError)) n max mult maxB cur st err tr out :
  (∀ st, safe no_wait (operation st) anyr) →
  Forall (λ b, 0 ≤ b ≤ 2 ^ 40) (backoffs n mult maxB cur) →
  runs (retry_config_from operation n max mult maxB cur st err) tr out → Forall fair tr →
  ∃ bs, bs `prefix_of` backoffs n mult maxB cur ∧ Forall2 within_jitter bs (waits tr).
Proof.
  intros Hop. revert cur st err tr. induction n as [|n IH]; intros cur st err tr Hb Hr Hf; cbn [retry_config_from backoffs] in *.
  { runs_case Hr. exists []. split; [done|constructor]. }
  apply Forall_cons in Hb as [Hcur Hb].
  apply runs_bind_inv in Hr as [(r & t1 & t2 & H1 & H2 & ->)|(w & H1 & ->)]; cycle 1.
  { apply (safe_sound _ _ _ _ _ (Hop st)) in H1 as [H1 _]. rewrite (no_wait_waits _ H1).
    exists []. split; [apply prefix_nil|constructor]. }
  apply (safe_sound _ _ _ _ _ (Hop st)) in H1 as [H1 _]. apply Forall_app in Hf as [_ Hf].
  assert (Hnil : ∃ bs, bs `prefix_of` cur :: backoffs n mult maxB (next_backoff cur mult maxB) ∧ Forall2 within_jitter bs []).
  { exists []. split; [apply prefix_nil|constructor]. }
  rewrite waits_app, (no_wait_waits _ H1). cbn [app].
  destruct r as [st' [[e|e]|]]; [|by runs_case H2..].
  runs_case H2. runs_case H2. apply Forall_cons in Hf as [Hrnd Hf]. apply Forall_cons in Hf as [_ Hf]. cbn in Hrnd.
  pose proof (scaled_between cur a Hcur Hrnd) as Hw.
  destruct a0; cbn [waits omap list_omap ev_op] in *.
  - destruct (IH _ _ _ _ Hb H2 Hf) as (bs & Hp & Hall). exists (cur :: bs).
    split; [by apply prefix_cons|by constructor].
  - runs_case H2. exists [cur]. split; [apply prefix_cons, prefix_nil|]. apply Forall2_cons. split; [done|apply Forall2_nil_2].
Qed.

Lemma default_backoffs : backoffs 5 (2 * 2 ^ 131) (5 * Minute) (5 * Second) = map (λ n, n * Second) [5; 10; 20; 40; 80].
Proof. vm_compute. reflexivity. Qed.

(** The extreme waits of each. *)
Lemma default_extremes :
  map (λ b, (scale_duration b (jitter 0) 107, scale_duration b (jitter (2 ^ 53 - 1)) 107))
      (map (λ n, n * Second) [5; 10; 20; 40; 80]) =
  map (λ n, (n * 850000000, n * 1150000000)) [5; 10; 20; 40; 80].
Proof. vm_compute. reflexivity. Qed.

(** Without a retry configuration an operation that never waits itself is followed by at
    most five waits, and the k-th of them is within 15% of 5 * 2^k seconds
    for every draw of the random source. *)
Theorem withRetryConfig_default_schedule {St} (operation : St → KP (St * option opError)) st tr out :
  (∀ st, safe no_wait (operation st) anyr) →
  runs (withRetryConfig operation None st) tr out → Forall fair tr →
  (length (waits tr) ≤ 5)%nat ∧
  ∀ k d, waits tr !! k = Some d →
    85 * (5 * 2 ^ Z.of_nat k * Second) ≤ 100 * d ≤ 115 * (5 * 2 ^ Z.of_nat k * Second).
Proof.
  intros Hop Hr Hf.
  assert (Hb : Forall (λ b, 0 ≤ b ≤ 2 ^ 40) (backoffs 5 (2 * 2 ^ 131) (5 * Minute) (5 * Second))).
  { rewrite default_backoffs. unfold Second. repeat (apply Forall_cons; split; [lia|]). by apply Forall_nil. }
  destruct (retry_waits operation 5 5 _ _ _ st None tr out Hop Hb Hr Hf) as (bs & Hp & Hall).
  rewrite default_backoffs in Hp. pose proof (Forall2_length _ _ _ Hall) as Hl. pose proof (prefix_length _ _ Hp) as Hn.
  split; [cbn in Hn; lia|]. intros k d Hk.
  destruct (Forall2_lookup_r _ _ _ _ _ Hall Hk) as (b & Hbk & [Hlo Hhi]).
  pose proof (prefix_lookup_Some _ _ _ _ Hbk Hp) as E.
  pose proof (f_equal (λ l, l !! k) default_extremes) as X. cbv beta in X.
  change (map (λ n, n * Second) [5; 10; 20; 40; 80] !! k = Some b) in E.
  rewrite list_lookup_fmap, E in X. cbn [fmap option_fmap option_map] in X.
  unfold Second.
  do 5 (destruct k as [|k]; [cbn in X; injection X as X1 X2; rewrite X1 in Hlo; rewrite X2 in Hhi;
                             cbn - [Z.mul Z.pow] in *; lia|]). done.
Qed.

(** *** Success after an outage *)

(** [outage s] bounds the attempts that fail transiently from the state [s] on: with none
    left the operation succeeds, waiting and drawing do not prolong the outage, and timers
    fire. *)
Record recovers {St S : Type} (h : handler KSig S) (operation : St → KP (St * option opError)) (outage : S → nat) : Prop := {
  rec_timer : ∀ d s, (h (KWait d) s).1 = true;
  rec_wait : ∀ d s, (outage (h (KWait d) s).2 ≤ outage s)%nat;
  rec_random : ∀ s, (outage (h KRandom s).2 ≤ outage s)%nat;
  rec_attempt : ∀ st s, ∃ st' s',
    run h (operation st) s = (Ret (st', None), s') ∨
    ∃ e, run h (operation st) s = (Ret (st', Some (RetryableErr e)), s') ∧ (outage s' < outage s)%nat
}.

Lemma retry_config_recovers {St S} (h : handler KSig S) (operation : St → KP (St * option opError)) outage n max mult maxB cur st err s :
  recovers h operation outage → (outage s < n)%nat →
  ∃ st' s', run h (retry_config_from operation n max mult maxB cur st err) s = (Ret (st', Ok tt), s').
Proof.
  intros Hrec. revert cur st err s. induction n as [|n IH]; intros cur st err s Hn; [lia|]. cbn [retry_config_from].
  rewrite run_bind. destruct (rec_attempt _ _ _ Hrec st s) as (st' & s' & [E|(e & E & Hlt)]); rewrite E; [by eauto|].
  set (d := scale_duration cur (jitter (h KRandom s').1) 107).
  destruct (IH (next_backoff cur mult maxB) st' (Some (RetryableErr e)) (h (KWait d) (h KRandom s').2).2) as (st2 & s2 & E2).
  { pose proof (rec_wait _ _ _ Hrec d (h KRandom s').2). pose proof (rec_random _ _ _ Hrec s'). lia. }
  exists st2, s2. run_kstep. run_kstep. by rewrite (rec_timer _ _ _ Hrec).
Qed.

(** C23: withRetryConfig gets through an outage: when fewer attempts than its maximum fail
    transiently before the operation succeeds, and timers fire, it returns nil, whatever the
    backoff settings. *)
Theorem withRetryConfig_recovers {St S} (h : handler KSig S) (operation : St → KP (St * option opError)) outage config st s :
  recovers h operation outage → Z.of_nat (outage s) < (retry_settings config).1.1.1 →
  ∃ st' s', run h (withRetryConfig operation config st) s = (Ret (st', Ok tt), s').
Proof.
  intros Hrec Hn. unfold withRetryConfig. destruct (retry_settings config) as [[[max init] maxB] mult]. cbn in Hn.
  apply (retry_config_recovers h operation outage); [done|lia].
Qed.

(** A worker whose connection is refused a number of times. *)
Definition flaky : handler KSig (world * nat) := λ o s,
  match o as o return KResp o * (world * nat) with
  | KExec _ _ _ _ =>
      match s.2 with
      | O => (Executed "SUCCESS" "" None, s)
      | S k => (Executed "" "" (Some (PlainError "connection refused")), (s.1, k))
      end
  | o => ((api o s.1).1, ((api o s.1).2, s.2))
  end.

Definition worker : RsyncDeployment := mkRsyncDeployment "rsync-data" "prod-dr" "rsync-data-0" "data".
Definition an_empty_world : world := mkWorld [] [] [] 1 0.
Definition sample_attempt : string → KP (string * option opError) :=
  rsync_attempt worker (rsync_command default_options 2222 "root@10.0.0.1:/data/" "/data/").

Lemma flaky_recovers : recovers flaky sample_attempt snd.
Proof.
  split; [done|done|done|]. intros st [w [|k]]; [|by eauto 10]. do 2 eexists. left. reflexivity.
Qed.

Lemma attempt_no_wait d cmd st : safe no_wait (rsync_attempt d cmd st) anyr.
Proof. unfold rsync_attempt, exec_in_worker. repeat (safe_step || cbn); done. Qed.

Lemma withRetryConfig_recovers_witness :
  ∃ st' s', run flaky (withRetryConfig sample_attempt None "") (an_empty_world, 4%nat) = (Ret (st', Ok tt), s').
Proof. apply (withRetryConfig_recovers flaky sample_attempt snd); [apply flaky_recovers|vm_compute; reflexivity]. Defined.

Lemma withRetryConfig_default_schedule_witness :
  let tr := run_trace flaky (withRetryConfig sample_attempt None "") (an_empty_world, 2%nat) in
  length (waits tr) = 2%nat ∧
  (∀ k d, waits tr !! k = Some d → 85 * (5 * 2 ^ Z.of_nat k * Second) ≤ 100 * d ≤ 115 * (5 * 2 ^ Z.of_nat k * Second)).
Proof.
  intros tr. split; [vm_compute; reflexivity|].
  refine (proj2 (withRetryConfig_default_schedule sample_attempt "" tr _ _ (run_trace_runs _ _ _) _)).
  - intros st. apply attempt_no_wait.
  - apply fairb_ok. vm_compute. reflexivity.
Defined.

(** ** What performRsync reports *)

(** The order of the phases; Completed and Failed are final. *)
Definition phase_rank (phase : string) : Z :=
  if phase =s? "Initializing" then 1
  else if phase =s? "Syncing" then 2
  else if (phase =s? "Completed") || (phase =s? "Failed") then 3
  else 0.

(** What has been seen of a sync: the phase last sent, whether a transfer finished without
    error, and whether the check that files arrived succeeded. *)
Record seen : Type := mkSeen { seenPhase : string; seenTransferred : bool; seenArrived : bool }.

(** The command of an attempt. *)
Definition is_rsync (cmd : list string) : bool :=
  match cmd with ["sh"; "-c"; script] => HasPrefix script "rsync " | _ => false end.

Lemma is_rsync_command options port source dest : is_rsync (rsync_command options port source dest) = true.
Proof. unfold is_rsync, rsync_command, HasPrefix. cbn. by destruct (Join options " " +:+ _). Qed.

Definition sent_phase (o : Object) : option string := get_key o.(oMeta).(mAnnotations) phase_annotation.

(** Only the claims of the source namespace are written, and each write advances the phase.
    The commands run in the worker are rsync until one attempt succeeds, then the check, and
    more only after the check succeeded. *)
Definition sync_monitor (ns : string) (d : RsyncDeployment) (destInfo : string) (st : seen) (e : event KSig) : option seen :=
  match e with
  | Ev o r =>
      match o as o return KResp o → option seen with
      | KUpdate c gvr n x => λ _,
          match sent_phase x with
          | Some phase =>
              if bool_decide (c = Src ∧ gvr = persistentvolumeclaims ∧ n = ns) && (phase_rank st.(seenPhase) <? phase_rank phase)
              then Some (mkSeen phase st.(seenTransferred) st.(seenArrived)) else None
          | None => None
          end
      | KExec c n pod cmd => λ answer,
          if negb (bool_decide (c = Dst ∧ n = d.(rdNamespace) ∧ pod = d.(rdPodName))) then None
          else if st.(seenArrived) then Some st
          else if st.(seenTransferred) then
            if bool_decide (cmd = verify_command destInfo) then
              Some (mkSeen st.(seenPhase) true
                      match answer with Executed out _ None => Contains out "SUCCESS" | _ => false end)
            else None
          else if is_rsync cmd then
            Some (mkSeen st.(seenPhase)
                    match answer with Executed _ err None => negb (isTransientError None err) | _ => false end false)
          else None
      | KCreate _ _ _ _ | KDelete _ _ _ _ | KDeleteForeground _ _ _ _ | KEvict _ _ _
      | KCommand _ _ | KUpdateMapping _ | KUpdateMappingAt _ _ | KUpdateMappingStatus _
      | KAcquireSlot _ _ | KReleaseSlot _ _ | KFindPVCNode _ _ _ | KHasVolumeAttachments _ _ | KSyncPVC _ => λ _, None
      | _ => λ _, Some st
      end r
  end.

Lemma monitored_kcall {St A} (m : St → event KSig → option St) (o : KOp) (f : KResp o → KP A) st Q :
  (∀ r, match m st (Ev (Sg := KSig) o r) with Some st' => monitored m (f r) st' Q | None => False end) →
  monitored m (kcall o ≫= f) st Q.
Proof. done. Qed.

Lemma monitored_range_each {St A S} (m : St → event KSig → option St) (xs : list A) (s : S) body st (Q : exec S → St → Prop) :
  (∀ x s, monitored m (body x s) st (λ out st', (∃ a, out = Ret a) ∧ st' = st)) →
  (∀ a, Q (Ret a) st) → monitored m (range_each xs s body) st Q.
Proof.
  intros Hb HQ. revert s. induction xs as [|x xs IH]; intros s; [apply HQ|]. cbn [range_each].
  apply monitored_bind. eapply monitored_mono; [apply Hb|]. cbn. intros out st' [[a ->] ->]. apply IH.
Qed.

Section Reports.
Context `{StatusCodec} (p : PVCSyncer) (d : RsyncDeployment) (dsPath : option string).
Local Abbreviation m := (sync_monitor p.(psSourceNamespace) d (dest_info dsPath)).

Lemma status_phase status now a pvc :
  sent_phase (with_annotations (Some (status_annotations status now a)) pvc) = Some status.(ssPhase).
Proof.
  unfold sent_phase, status_annotations. cbn. destruct (0 <? ssProgress status); [|by rewrite lookup_insert_eq].
  rewrite lookup_insert_ne by done. by rewrite lookup_insert_eq.
Qed.

Lemma monitored_update name status st (Q : exec (res unit) → seen → Prop) :
  phase_rank st.(seenPhase) < phase_rank status.(ssPhase) →
  (∀ r phase, phase = st.(seenPhase) ∨ phase = status.(ssPhase) → Q (Ret r) (mkSeen phase st.(seenTransferred) st.(seenArrived))) →
  monitored m (UpdateSyncStatus p.(psSourceNamespace) name status) st Q.
Proof.
  intros Hlt HQ. destruct st as [phase tr ar]. cbn in *. intros [pvc|e]; cbn [monitored]; [|apply HQ; by left].
  intros now. cbn [monitored m sync_monitor]. intros r. rewrite status_phase.
  rewrite bool_decide_eq_true_2 by done. cbn [seenPhase]. rewrite (proj2 (Z.ltb_lt _ _) Hlt). cbn [andb].
  destruct r; apply HQ; by right.
Qed.

(** The parts that follow a success leave what has been seen as it is. *)
Definition keeps {A : Type} (c : KP A) (st : seen) : Prop :=
  monitored m c st (λ out st', (∃ a, out = Ret a) ∧ st' = st).

Lemma monitored_keeps {A B} (c : KP A) (f : A → KP B) st Q :
  keeps c st → (∀ a, monitored m (f a) st Q) → monitored m (c ≫= f) st Q.
Proof.
  intros Hc Hf. apply monitored_bind. eapply monitored_mono; [apply Hc|]. cbn. intros out st' [[a ->] ->]. apply Hf.
Qed.

Lemma exec_keeps cmd st : st.(seenArrived) = true → keeps (exec_in_worker d cmd) st.
Proof.
  intros Ha r. cbn [sync_monitor]. rewrite bool_decide_eq_true_2 by done. cbn [negb]. rewrite Ha.
  destruct r as [e|out err [e|]]; cbn; repeat case_match; cbn; by eauto.
Qed.

Lemma sample_keeps nodeIP mountPath port percent st :
  st.(seenArrived) = true → keeps (performSampleVerification d dsPath nodeIP mountPath port percent) st.
Proof.
  intros Ha. unfold performSampleVerification, keeps. intros now. cbn [sync_monitor].
  apply monitored_keeps; [by apply exec_keeps|]. intros [[out err] [e|]]; [cbn; by eauto|].
  cbv zeta. case_bool_decide; [cbn; by eauto|]. intros l. cbn [sync_monitor].
  apply monitored_bind, monitored_range_each; [|intros [[? ?] ?]; cbn; by eauto].
  intros x [[v ok] e]. unfold verify_file. destruct (x =s? ""); [cbn; by eauto|]. cbv zeta.
  apply monitored_keeps; [by apply exec_keeps|]. intros [[o1 e1] [er|]]; [cbn; by eauto|].
  apply monitored_keeps; [by apply exec_keeps|]. intros [[o2 e2] [er|]]; [cbn; by eauto|].
  destruct (_ =s? _); cbn; by eauto.
Qed.

(** One attempt: it reports no error exactly when the transfer finished. *)
Lemma attempt_seen cmd out phase (Q : exec (string * option opError) → seen → Prop) :
  is_rsync cmd = true →
  (∀ o e, Q (Ret (o, e)) (mkSeen phase match e with None => true | Some _ => false end false)) →
  monitored m (rsync_attempt d cmd out) (mkSeen phase false false) Q.
Proof.
  intros Hcmd HQ. unfold rsync_attempt, exec_in_worker. intros r.
  cbn [sync_monitor seenArrived seenTransferred seenPhase]. rewrite bool_decide_eq_true_2, Hcmd by done. cbn [negb].
  pose proof (λ o e, HQ o (Some e)) as Hs. pose proof (λ o, HQ o None) as Hn. cbn in Hs, Hn.
  destruct r as [e|o e [er|]]; cbn [monitored mret mbind prog_ret prog_bind pbind]; [by apply Hs| |].
  - repeat case_match; by apply Hs.
  - destruct (isTransientError None e); cbn; [by apply Hs|by apply Hn].
Qed.

(** The retries: when they succeed a transfer finished, and otherwise none did. *)
Lemma retries_seen cmd config out phase (Q : exec (string * res unit) → seen → Prop) :
  is_rsync cmd = true →
  (∀ o r, Q (Ret (o, r)) (mkSeen phase match r with Ok _ => true | Err _ => false end false)) →
  monitored m (withRetryConfig (rsync_attempt d cmd) config out) (mkSeen phase false false) Q.
Proof.
  intros Hcmd HQ. unfold withRetryConfig. destruct (retry_settings config) as [[[max init] maxB] mult].
  generalize (@None opError) as err. generalize init as cur. revert out.
  induction (Z.to_nat max) as [|n IH]; intros out cur err; cbn [retry_config_from]; [apply (HQ out (Err _))|].
  apply monitored_bind, attempt_seen; [done|]. intros o [[e|e]|]; cbn iota.
  - intros rnd. cbn [sync_monitor]. intros [|]; cbn [sync_monitor]; [apply IH|apply (HQ o (Err _))].
  - apply (HQ o (Err _)).
  - apply (HQ o (Ok tt)).
Qed.

(** After the check succeeded only the completion is reported. *)
Lemma conclude_seen nodeIP mountPath port verify out phase (Q : exec (res unit) → seen → Prop) :
  phase_rank phase < 3 → (∀ phase', phase' = phase ∨ phase' = "Completed" → Q (Ret (Ok tt)) (mkSeen phase' true true)) →
  monitored m (conclude p d dsPath nodeIP mountPath port verify out) (mkSeen phase true true) Q.
Proof.
  intros Hlt HQ. unfold conclude. apply monitored_keeps.
  { destruct (vcMode verify =s? VerificationModeSample).
    - apply monitored_keeps; [by apply sample_keeps|]. intros a. cbn. by eauto.
    - destruct (vcMode verify =s? VerificationModeFull); [intros now|]; cbn; by eauto. }
  intros v. destruct (ParseRsyncOutput out) as [[b f] ?]. intros t0. cbn [sync_monitor].
  apply monitored_bind. intros t1. cbn [sync_monitor]. intros t2. cbn [sync_monitor].
  apply monitored_update; [done|]. intros r phase' Hp. by apply HQ.
Qed.

(** Reporting a failure. *)
Lemma failed_seen err phase transferred A (r : res A) (Q : exec (res A) → seen → Prop) :
  phase_rank phase < 3 → (∀ phase', phase' = phase ∨ phase' = "Failed" → Q (Ret r) (mkSeen phase' transferred false)) →
  monitored m (_ ← FailedSyncStatus p.(psSourceNamespace) d.(rdPVCName) err; mret r) (mkSeen phase transferred false) Q.
Proof.
  intros Hlt HQ. apply monitored_bind. intros now. cbn [sync_monitor].
  apply monitored_update; [done|]. intros r' phase' Hp. by apply HQ.
Qed.

Lemma getVerificationConfig_keeps name nm st : keeps (getVerificationConfig p name nm) st.
Proof. intros l. cbn [sync_monitor]. intros r. cbn. by eauto. Qed.

(** The check and what follows it. *)
Definition reported (r : res unit) (st : seen) : Prop :=
  (r = Ok tt ↔ st.(seenArrived) = true) ∧ (st.(seenArrived) = true → st.(seenTransferred) = true) ∧
  (st.(seenPhase) = "Completed" → r = Ok tt) ∧ (st.(seenPhase) = "Failed" → r ≠ Ok tt).

Lemma performRsync_monitored nodeIP mountPath :
  monitored m (performRsync p d dsPath nodeIP mountPath) (mkSeen "" false false)
    (λ out st, ∃ r, out = Ret r ∧ reported r st).
Proof.
  unfold performRsync. cbv zeta. apply monitored_bind. intros t0. cbn [sync_monitor].
  apply monitored_update; [done|]. intros r0 ph0 Hp0. cbn iota beta. cbn [ssPhase simple_status seenPhase seenTransferred seenArrived] in *.
  intros t1. cbn [sync_monitor]. intros g. cbn [sync_monitor].
  apply monitored_keeps; [apply getVerificationConfig_keeps|]. intros verify. intros t2. cbn [sync_monitor].
  apply monitored_bind, monitored_update; [by destruct Hp0 as [->| ->]|]. intros r1 ph1 Hp1. cbn iota beta.
  cbn [ssPhase simple_status seenPhase seenTransferred seenArrived] in *.
  assert (Hlt : phase_rank ph1 < 3) by (destruct Hp1 as [->| ->], Hp0 as [->| ->]; done).
  assert (ph1 ≠ "Completed" ∧ ph1 ≠ "Failed") as [Hc Hf] by (destruct Hp1 as [->| ->], Hp0 as [->| ->]; done).
  intros clusters. cbn [sync_monitor]. unfold rsync_and_verify. apply monitored_bind, retries_seen; [apply is_rsync_command|]. intros out [u|err]; cbn iota; cycle 1.
  - intros t3. cbn [sync_monitor]. apply failed_seen; [done|]. intros ph2 Hp2. eexists. split; [done|].
    unfold reported. cbn. destruct Hp2 as [->| ->]; naive_solver.
  - apply monitored_bind. intros answer. cbn [sync_monitor seenArrived seenTransferred seenPhase].
    rewrite !bool_decide_eq_true_2 by done. cbn [negb].
    assert (Hfail : ∀ e, monitored m (_ ← FailedSyncStatus p.(psSourceNamespace) d.(rdPVCName) (Some e); mret (Err e))
                           (mkSeen ph1 true false) (λ out st, ∃ r, out = Ret r ∧ reported r st)).
    { intros e. apply failed_seen; [done|]. intros ph2 Hp2. eexists. split; [done|].
      unfold reported. cbn. destruct Hp2 as [->| ->]; naive_solver. }
    destruct answer as [e|o e [er|]]; cbn [monitored mret mbind prog_ret prog_bind pbind]; [apply Hfail| |].
    + repeat case_match; apply Hfail.
    + destruct (Contains o "SUCCESS"); [|apply Hfail]. apply conclude_seen; [done|]. intros ph2 Hp2.
      eexists. split; [done|]. unfold reported. cbn. destruct Hp2 as [->| ->]; naive_solver.
Qed.

(** C10: performRsync on any execution: its own calls write only to claims of the source
    namespace, the phases they write strictly advance (Initializing, Syncing, then Completed or Failed), it
    runs rsync until one attempt succeeds, then the check that files arrived, and it returns
    nil exactly when both succeeded (a checksum that differs changes neither the result nor
    the phase); Completed is written only for a nil result, Failed only for an error. *)
Theorem performRsync_reports nodeIP mountPath tr out :
  runs (performRsync p d dsPath nodeIP mountPath) tr out →
  ∃ st r, observe m (mkSeen "" false false) tr = Some st ∧ out = Ret r ∧ reported r st.
Proof.
  intros Hr. destruct (monitored_sound _ _ _ _ _ _ (performRsync_monitored nodeIP mountPath) Hr) as (st & Ho & r & -> & Hrep).
  by eauto.
Qed.
End Reports.

(** *** A sync of a corrupted copy *)

#[local] Instance plain_status : StatusCodec := ssPhase.

Definition checked_claim : Object :=
  mkObject (mkGVK "" "" "")
    (mkObjectMeta "data" "prod" "" "1" "" None [] [] 0 [] None (Some {[ "dr-syncer.io/verification-mode" := "sample" ]}))
    (PVCBody (mkPVCSpec ["ReadWriteOnce"] None None "" "pv-1" None None None None) "Bound").

Definition checked_world : world := mkWorld [mkEntry Src persistentvolumeclaims "prod" checked_claim] [] [] 2 (1700000000 * Second).

(** One file, whose checksums differ. *)
Definition corrupt : handler KSig world := λ o w,
  match o as o return KResp o * world with
  | KExec _ _ _ cmd =>
      (Executed (match cmd with
                 | [_; _; script] =>
                     if HasPrefix script "find" then "/data/a" else if HasPrefix script "md5sum" then "aaa"
                     else if HasPrefix script "ssh" then "bbb" else "SUCCESS"
                 | _ => ""
                 end) "" None, w)
  | o => api o w
  end.

Definition syncer_prod : PVCSyncer := mkPVCSyncer Src Dst "prod" "prod-dr" false.
Definition corrupt_sync := performRsync syncer_prod worker None "10.0.0.1" "/var/data".

Lemma performRsync_reports_witness :
  let tr := run_trace corrupt corrupt_sync checked_world in
  (∃ st r, observe (sync_monitor "prod" worker "/data/") (mkSeen "" false false) tr = Some st ∧
           (run corrupt corrupt_sync checked_world).1 = Ret r ∧ reported r st) ∧
  (run corrupt (performSampleVerification worker None "10.0.0.1" "/var/data" 2222 10) checked_world).1 =
    Ret (mkVerificationResult "sample" 1 1 false (1700000000 * Second) "checksum mismatch for file: /data/a", None) ∧
  observe (sync_monitor "prod" worker "/data/") (mkSeen "" false false) tr = Some (mkSeen "Completed" true true).
Proof.
  intros tr. split_and!; [|vm_compute; reflexivity..].
  apply (performRsync_reports syncer_prod worker None "10.0.0.1" "/var/data"), run_trace_runs.
Defined.

(** *** The options of the command *)

Lemma safe_withRetryConfig {St} (P : Op KSig → Prop) (operation : St → KP (St * option opError)) config st :
  (∀ st, safe P (operation st) anyr) → P KRandom → (∀ d, P (KWait d)) → safe P (withRetryConfig operation config st) anyr.
Proof.
  intros Hop Hr Hw. unfold withRetryConfig. destruct (retry_settings config) as [[[max init] maxB] mult].
  generalize (@None opError) as err. generalize init as cur. revert st.
  induction (Z.to_nat max) as [|n IH]; intros st cur err; cbn [retry_config_from]; [done|].
  repeat (apply IH || apply Hop || apply Hr || apply Hw || safe_step).
Qed.

(** Commands of rsync are [cmd]. *)
Definition rsync_is (cmd : list string) : Op KSig → Prop := λ o : KOp,
  match o with KExec _ _ _ c => is_rsync c = true → c = cmd | _ => True end.

Lemma safe_exec cmd d c : (is_rsync c = true → c = cmd) → safe (rsync_is cmd) (exec_in_worker d c) anyr.
Proof. intros Hc. unfold exec_in_worker. by repeat (safe_step || exact Hc). Qed.

Lemma safe_status `{StatusCodec} cmd ns name status : safe (rsync_is cmd) (UpdateSyncStatus ns name status) anyr.
Proof. unfold UpdateSyncStatus. by repeat safe_step. Qed.

Lemma safe_sample cmd d dsPath nodeIP mountPath port percent :
  safe (rsync_is cmd) (performSampleVerification d dsPath nodeIP mountPath port percent) anyr.
Proof.
  unfold performSampleVerification. cbv zeta. safe_step; [done|]. apply safe_bind_any; [by apply safe_exec|].
  intros [[out err] [e|]]; [done|]. case_bool_decide; [done|]. safe_step; [done|].
  apply safe_bind_any; [|by intros [[? ?] ?]]. safe_step. unfold verify_file. destruct s as [[v ok] e].
  repeat (safe_step || (apply safe_exec; done)).
Qed.

(** An error of the mapping leaves the default options. *)
Definition default_command (mode : string) (sshPort : Z) (nodeIP mountPath : string) (dsPath : option string) : list string :=
  rsync_command (default_options ++ (if mode =s? VerificationModeFull then ["--checksum"] else [])) sshPort
    ("root@" +:+ nodeIP +:+ ":" +:+ mountPath +:+ "/") (dest_info dsPath).

Lemma safe_transfer `{StatusCodec} p d dsPath nodeIP mountPath port verify config :
  let cmd := default_command verify.(vcMode) port nodeIP mountPath dsPath in
  safe (rsync_is cmd) (rsync_and_verify p d dsPath nodeIP mountPath port verify cmd config) anyr.
Proof.
  intros cmd. unfold rsync_and_verify. apply safe_bind_any.
  { apply safe_withRetryConfig; [|done..]. intros st. unfold rsync_attempt.
    apply safe_bind_any; [by apply safe_exec|]. intros [[o e] [er|]]; by repeat safe_step. }
  assert (Hf : ∀ err, safe (rsync_is cmd) (FailedSyncStatus p.(psSourceNamespace) d.(rdPVCName) err) anyr).
  { intros err. unfold FailedSyncStatus. safe_step; [done|]. apply safe_status. }
  intros [out [u|err]]; [|repeat (safe_step || exact (Hf _) || done)].
  apply safe_bind_any; [by apply safe_exec|]. intros [[vo ve] [e|]]; [repeat (safe_step || exact (Hf _) || done)|].
  destruct (Contains vo "SUCCESS"); [|repeat (safe_step || exact (Hf _) || done)]. unfold conclude.
  repeat (apply safe_sample || apply safe_status || safe_step || done || unfold CompleteSyncStatusWithVerification).
Qed.

Definition no_exec : Op KSig → Prop := λ o : KOp, match o with KExec _ _ _ _ => False | _ => True end.

Lemma no_exec_rsync cmd tr : Forall (λ e, no_exec (ev_op e)) tr → Forall (λ e, rsync_is cmd (ev_op e)) tr.
Proof. intros H. eapply Forall_impl; [exact H|]. intros [o r] Ho. by destruct o. Qed.

Ltac join_events := repeat first [apply Forall_app; split | apply Forall_cons; split]; auto using no_exec_rsync.

(** A first part whose calls satisfy [P]. *)
Lemma runs_chunk {A B} (P : Op KSig → Prop) (c : KP A) (f : A → KP B) tr out :
  runs (c ≫= f) tr out → safe P c anyr →
  Forall (λ e, P (ev_op e)) tr ∨
  ∃ a t1 t2, tr = (t1 ++ t2)%list ∧ Forall (λ e, P (ev_op e)) t1 ∧ runs (f a) t2 out.
Proof.
  intros Hr Hs. apply runs_bind_inv in Hr as [(a & t1 & t2 & H1 & H2 & ->)|(w & H1 & ->)].
  - right. exists a, t1, t2. split_and!; [done| |done]. by apply (safe_sound _ _ _ _ _ Hs) in H1 as [? _].
  - left. by apply (safe_sound _ _ _ _ _ Hs) in H1 as [? _].
Qed.

(** PerformRsync reads the NamespaceMapping without a namespace.  For a namespaced
    resource such a read fails, and then the rsync options, the bandwidth limit and the
    verification settings of the mapping have no effect: every rsync command has the default
    options, with --checksum only when the cluster or the claim asks for full verification. *)
Theorem performRsync_ignores_mapping `{StatusCodec} p d dsPath nodeIP mountPath tr out :
  runs (performRsync p d dsPath nodeIP mountPath) tr out →
  (∀ name nm, Ev (Sg := KSig) (KGetMappingAt p.(psSourceClient) "" name) (Ok nm) ∉ tr) →
  ∃ mode port, ∀ c ns pod cmd answer,
    Ev (Sg := KSig) (KExec c ns pod cmd) answer ∈ tr → is_rsync cmd = true →
    cmd = default_command mode port nodeIP mountPath dsPath.
Proof.
  intros Hr Hnm. unfold performRsync in Hr. cbv zeta in Hr.
  enough (∃ mode port, Forall (λ e, rsync_is (default_command mode port nodeIP mountPath dsPath) (ev_op e)) tr)
    as (mode & port & Hall).
  { exists mode, port. intros c ns pod cmd a Ha Hc. apply (proj1 (Forall_forall _ _) Hall) in Ha. by apply Ha. }
  apply (runs_chunk no_exec) in Hr as [Hall|(r0 & t0 & t & -> & H0 & Hr)];
    [exists "", 0; by apply no_exec_rsync| |unfold InitSyncStatus, UpdateSyncStatus; by repeat safe_step].
  runs_case Hr. runs_case Hr. destruct a0 as [nm|e].
  { destruct (Hnm (psSourceNamespace p +:+ "-" +:+ psDestinationNamespace p) nm). set_solver. }
  clear Hnm. cbn iota in Hr.
  apply (runs_chunk no_exec) in Hr as [Hall|(verify & t1 & t2 & -> & H1 & Hr)];
    [exists "", 0; by join_events| |unfold getVerificationConfig; by repeat safe_step].
  runs_case Hr.
  apply (runs_chunk no_exec) in Hr as [Hall|(r2 & t3 & t4 & -> & H2 & Hr)];
    [exists "", 0; by join_events| |unfold UpdateSyncStatus; by repeat safe_step].
  runs_case Hr. exists verify.(vcMode), (ssh_port a1).
  apply (safe_sound _ _ _ _ _ (safe_transfer p d dsPath nodeIP mountPath (ssh_port a1) verify None)) in Hr as [Hr _].
  by join_events.
Qed.

Lemma performRsync_ignores_mapping_witness :
  ∃ mode port, ∀ c ns pod cmd answer,
    Ev (Sg := KSig) (KExec c ns pod cmd) answer ∈ run_trace corrupt corrupt_sync checked_world → is_rsync cmd = true →
    cmd = default_command mode port "10.0.0.1" "/var/data" None.
Proof.
  eapply performRsync_ignores_mapping; [apply run_trace_runs|].
  intros name nm Hin. assert (Hall : forallb (λ e : event KSig,
    match e with Ev o r => match o as o return KResp o → bool with
      KGetMappingAt _ _ _ => λ r, match r with Ok _ => false | Err _ => true end | _ => λ _, true end r end)
    (run_trace corrupt corrupt_sync checked_world) = true) by (vm_compute; reflexivity).
  rewrite forallb_forall in Hall. by specialize (Hall _ (proj1 (list_elem_of_In _ _) Hin)).
Defined.

(** *** Samples *)

(** A significand of at most 53 bits is exact at every scale. *)
Lemma r64_exact n e : 0 ≤ n < 2 ^ 53 → 0 ≤ e → r64 (n * 2 ^ e) = n * 2 ^ e.
Proof.
  intros Hn He. pose proof (Z.pow_pos_nonneg 2 e ltac:(lia) He) as Hp.
  unfold r64, r64_pos. rewrite (proj2 (Z.ltb_ge _ _)) by nia.
  destruct (Z.eq_dec n 0) as [->|Hn0]; [by rewrite Z.mul_0_l|].
  assert (Hl : Z.log2 (n * 2 ^ e) = e + Z.log2 n) by (rewrite <- (Z.log2_mul_pow2 n e); [done|lia..]).
  assert (Hs : Z.log2 n < 53) by (apply Z.log2_lt_pow2; lia).
  destruct (Z.leb_spec (Z.log2 (n * 2 ^ e) - 52) 0) as [|Hpos]; [done|].
  set (q := Z.log2 (n * 2 ^ e) - 52) in *. assert (Hq : 0 < q ≤ e) by lia.
  assert (E : n * 2 ^ e = n * 2 ^ (e - q) * 2 ^ q).
  { rewrite <- Z.mul_assoc, <- Z.pow_add_r by lia. do 2 f_equal. lia. }
  pose proof (Z.pow_pos_nonneg 2 q ltac:(lia) ltac:(lia)) as Hpq.
  unfold round_at. rewrite E, Z.div_mul, Z.mod_mul by lia. rewrite (proj2 (Z.ltb_ge _ _)) by lia.
  rewrite (proj2 (Z.eqb_neq _ _)) by lia. done.
Qed.

(** The float64 quotient of a small fraction has the integer part of the exact one. *)
Lemma fdiv131_floor p : 0 ≤ p ≤ 2 ^ 40 → Z.quot (fdiv131 p 100) (2 ^ 131) = p / 100.
Proof.
  intros Hp. unfold fdiv131. set (x := 2 * (p * 2 ^ 130 / 100) + _).
  pose proof (Z.div_mod p 100 ltac:(lia)) as Hd. pose proof (Z.mod_pos_bound p 100 ltac:(lia)) as Hm.
  set (k := p / 100) in *. assert (Hk : 0 ≤ k ≤ 2 ^ 40) by lia.
  pose proof (Z.div_mod (p * 2 ^ 130) 100 ltac:(lia)) as Hx. pose proof (Z.mod_pos_bound (p * 2 ^ 130) 100 ltac:(lia)) as Hxm.
  assert (Hlo : k * 2 ^ 131 ≤ x) by (subst x; destruct (_ =? 0); lia).
  assert (Hhi : x ≤ ((k + 1) * 2 ^ 11 - 1) * 2 ^ 120) by (subst x; destruct (_ =? 0); lia).
  apply r64_mono in Hlo, Hhi. rewrite r64_exact in Hlo, Hhi by lia.
  clearbody k. generalize dependent (r64 x). clear -Hk. intros y Hlo Hhi. rewrite Z.quot_div_nonneg by lia. symmetry.
  apply (Z.div_unique_pos y (2 ^ 131) k (y - k * 2 ^ 131)); lia.
Qed.

(** The sample of a verification is exact in spite of the floating-point arithmetic: of
    the at most 1000 files that are listed, the given percentage rounded down is checked,
    and at least one. *)
Theorem num_samples_exact count samplePercent :
  1 ≤ count ≤ 1000 → 1 ≤ samplePercent ≤ 100 →
  num_samples count samplePercent = Z.max 1 (count * samplePercent / 100) ∧ 1 ≤ num_samples count samplePercent ≤ count.
Proof.
  intros Hc Hs. unfold num_samples. rewrite fdiv131_floor by nia.
  assert (H : count * samplePercent / 100 ≤ count) by (apply Z.div_le_upper_bound; nia).
  destruct (Z.ltb_spec (count * samplePercent / 100) 1); [rewrite (proj2 (Z.ltb_ge count 1)) by lia; lia|].
  rewrite (proj2 (Z.ltb_ge _ _)) by lia. lia.
Qed.

Lemma num_samples_exact_witness : num_samples 29 10 = Z.max 1 (29 * 10 / 100) ∧ 1 ≤ num_samples 29 10 ≤ 29.
Proof. apply num_samples_exact; lia. Defined.
