(* ===== verification/Concurrency.v ===== *)
(** * Concurrency control: global_concurrency.go and pkg/util/workerpool.go

    GlobalConcurrencyManager bounds the PVC syncs that fetched it, over a weighted
    semaphore (golang.org/x/sync/semaphore, an interface here); WorkerPool bounds the
    tasks that run at once, over a buffered channel.  Goroutines are program counters
    of a step relation; a step is one critical section or one channel operation. *)

From S2P Require Import Prelude Errors.

(** ** Counting program counters *)

Definition count {A : Type} (f : A → bool) (l : list A) : Z := Z.of_nat (length (filter (λ x, f x = true) l)).

Definition b2z (b : bool) : Z := if b then 1 else 0.

Lemma count_cons {A} (f : A → bool) x l : count f (x :: l) = b2z (f x) + count f l.
Proof.
  unfold count. rewrite filter_cons. destruct (decide (f x = true)) as [->|E]; [cbn [length b2z]; lia|].
  destruct (f x); [done|]. cbn [b2z]. lia.
Qed.

Lemma count_nonneg {A} (f : A → bool) l : 0 ≤ count f l.
Proof. unfold count. lia. Qed.

(** Moving goroutine [i] from [a] to [b]. *)
Lemma count_insert {A} (f : A → bool) l i a b :
  l !! i = Some a → count f (<[i := b]> l) = count f l - b2z (f a) + b2z (f b).
Proof.
  revert i. induction l as [|x l IH]; intros [|i] H; cbn in H; try done.
  - injection H as ->. change (<[0%nat:=b]> (a :: l)) with (b :: l). rewrite !count_cons. lia.
  - change (<[S i:=b]> (x :: l)) with (x :: <[i:=b]> l). rewrite !count_cons, (IH i H). lia.
Qed.

Lemma count_le {A} (f g : A → bool) l : (∀ x, f x = true → g x = true) → count f l ≤ count g l.
Proof.
  intros H. induction l as [|x l IH]; [done|]. rewrite !count_cons.
  destruct (f x) eqn:E; [rewrite (H x E)|destruct (g x)]; cbn [b2z]; lia.
Qed.

(** The same for the elements of the list only. *)
Lemma count_le_in {A} (f g : A → bool) l : (∀ x, x ∈ l → f x = true → g x = true) → count f l ≤ count g l.
Proof.
  intros H. induction l as [|x l IH]; [done|]. rewrite !count_cons.
  assert (count f l ≤ count g l) by (apply IH; intros y Hy; apply H; by right).
  destruct (f x) eqn:E; [rewrite (H x (list_elem_of_here _ _) E)|destruct (g x)]; cbn [b2z]; lia.
Qed.

Lemma count_zero {A} (f : A → bool) l : (∀ x, x ∈ l → f x = false) → count f l = 0.
Proof.
  intros H. induction l as [|x l IH]; [done|]. rewrite count_cons, (H x) by left.
  rewrite IH; [done|]. intros y Hy. apply H. by right.
Qed.

Lemma count_all {A} (f : A → bool) l : (∀ x, x ∈ l → f x = true) → count f l = Z.of_nat (length l).
Proof.
  intros H. induction l as [|x l IH]; [done|]. rewrite count_cons, (H x) by left. cbn [b2z length].
  rewrite IH; [lia|]. intros y Hy. apply H. by right.
Qed.

Lemma count_pos {A} (f : A → bool) l x : x ∈ l → f x = true → 0 < count f l.
Proof.
  intros Hx Hf. induction Hx as [x l|x y l _ IH]; rewrite count_cons.
  - rewrite Hf. pose proof (count_nonneg f l). cbn [b2z]. lia.
  - specialize (IH Hf). destruct (f y); cbn [b2z]; lia.
Qed.

(** ** golang.org/x/sync/semaphore, with weight 1 *)

(** [sem_try] is the moment Acquire is granted its slot ([None]: it keeps waiting);
    [sem_release] is Release ([None]: it panics). *)
Class Semaphore (S : Type) : Type := {
  sem_new : Z → S;
  sem_try : S → option S;
  sem_release : S → option S;
  sem_held : S → Z;
  sem_size : S → Z
}.

(** What its documentation promises. *)
Class LawfulSemaphore (S : Type) `{Semaphore S} : Prop := {
  new_held : ∀ n, sem_held (sem_new n) = 0;
  new_size : ∀ n, sem_size (sem_new n) = n;
  try_held : ∀ s s', sem_try s = Some s' →
    sem_held s' = sem_held s + 1 ∧ sem_size s' = sem_size s ∧ sem_held s' ≤ sem_size s;
  release_held : ∀ s, 0 < sem_held s →
    ∃ s', sem_release s = Some s' ∧ sem_held s' = sem_held s - 1 ∧ sem_size s' = sem_size s
}.

(** ** GlobalConcurrencyManager *)

Section manager.
Context {S : Type} `{Semaphore S}.

Record GlobalConcurrencyManager : Type := mkManager {
  semaphore : S;
  maxWeight : Z;
  activeCount : Z;
  waitingCount : Z
}.

(** The managers that were ever allocated; the variable globalManager points to the
    last of them, and is nil as long as there is none. *)
#[local] Notation heap := (list GlobalConcurrencyManager).

Definition GetGlobalConcurrencyManager (h : heap) : option nat :=
  match h with [] => None | _ => Some (length h - 1)%nat end.

(** The singleton is replaced when the limit changes; goroutines keep the pointers
    they have. *)
Definition InitGlobalConcurrencyManager (limit : Z) (h : heap) : heap :=
  match last h with
  | Some m => if m.(maxWeight) =? limit then h else (h ++ [mkManager (sem_new limit) limit 0 0])%list
  | None => (h ++ [mkManager (sem_new limit) limit 0 0])%list
  end.

(** The three steps of Acquire and the two of Release. *)
Definition acquire_begin (m : GlobalConcurrencyManager) : GlobalConcurrencyManager :=
  mkManager m.(semaphore) m.(maxWeight) m.(activeCount) (m.(waitingCount) + 1).

Definition acquire_semaphore (m : GlobalConcurrencyManager) : option GlobalConcurrencyManager :=
  (λ s, mkManager s m.(maxWeight) m.(activeCount) m.(waitingCount)) <$> sem_try m.(semaphore).

Definition acquire_end (ok : bool) (m : GlobalConcurrencyManager) : GlobalConcurrencyManager :=
  mkManager m.(semaphore) m.(maxWeight) (if ok then m.(activeCount) + 1 else m.(activeCount)) (m.(waitingCount) - 1).

Definition release_semaphore (m : GlobalConcurrencyManager) : option GlobalConcurrencyManager :=
  (λ s, mkManager s m.(maxWeight) m.(activeCount) m.(waitingCount)) <$> sem_release m.(semaphore).

Definition release_end (m : GlobalConcurrencyManager) : GlobalConcurrencyManager :=
  mkManager m.(semaphore) m.(maxWeight) (m.(activeCount) - 1) m.(waitingCount).

Definition GetStats (m : GlobalConcurrencyManager) : Z * Z * Z := (m.(activeCount), m.(waitingCount), m.(maxWeight)).

(** Where a goroutine that has a manager is: before Acquire, inside it (waiting,
    granted or refused by its context), syncing, inside Release, done with it, or dead
    by a panic of the semaphore. *)
Inductive pc : Type := Outside | Waiting | Granted | Refused | Syncing | Leaving | Left | Crashed.

(** One step of such a goroutine, on the manager it has. *)
Inductive mstep : GlobalConcurrencyManager → pc → GlobalConcurrencyManager → pc → Prop :=
| g_begin m : mstep m Outside (acquire_begin m) Waiting
| g_grant m m' : acquire_semaphore m = Some m' → mstep m Waiting m' Granted
| g_cancel m : mstep m Waiting m Refused
| g_count m : mstep m Granted (acquire_end true m) Syncing
| g_refuse m : mstep m Refused (acquire_end false m) Left
| g_release m m' : release_semaphore m = Some m' → mstep m Syncing m' Leaving
| g_crash m : release_semaphore m = None → mstep m Syncing m Crashed
| g_leave m : mstep m Leaving (release_end m) Left.

(** A goroutine that syncs claims, between two claims ([Idle]), with the manager it
    fetched for the present one, or without one because the singleton was nil. *)
Inductive goroutine : Type := Idle | Under (g : nat) (p : pc) | Unlimited.

Definition fetch (h : heap) : goroutine :=
  match GetGlobalConcurrencyManager h with Some g => Under g Outside | None => Unlimited end.

(** The steps of the controller; a label is the limit of a reconciliation that calls
    InitGlobalConcurrencyManager. *)
Inductive gstep : heap * list goroutine → list Z → heap * list goroutine → Prop :=
| s_init limit h l : gstep (h, l) [limit] (InitGlobalConcurrencyManager limit h, l)
| s_get h l i : l !! i = Some Idle → gstep (h, l) [] (h, <[i := fetch h]> l)
| s_manager h l i g m m' p p' : l !! i = Some (Under g p) → h !! g = Some m → mstep m p m' p' →
    gstep (h, l) [] (<[g := m']> h, <[i := Under g p']> l)
| s_next h l i g : l !! i = Some (Under g Left) → gstep (h, l) [] (h, <[i := Idle]> l)
| s_unlimited h l i : l !! i = Some Unlimited → gstep (h, l) [] (h, <[i := Idle]> l).

(** What the controller can reach from its start with [n] such goroutines, having been
    given [limits] in this order. *)
Inductive controller (n : nat) : list Z → heap * list goroutine → Prop :=
| c_start : controller n [] ([], replicate n Idle)
| c_step limits st ls st' : controller n limits st → gstep st ls st' → controller n (limits ++ ls) st'.

Definition holds_slot (p : pc) : bool := match p with Granted | Syncing => true | _ => false end.
Definition is_waiting (p : pc) : bool := match p with Waiting | Granted | Refused => true | _ => false end.
Definition is_active (p : pc) : bool := match p with Syncing | Leaving => true | _ => false end.
Definition is_syncing (p : pc) : bool := match p with Syncing => true | _ => false end.
Definition is_crashed (p : pc) : bool := match p with Crashed => true | _ => false end.

(** [f] of a goroutine that has manager [g]. *)
Definition under (g : nat) (f : pc → bool) (s : goroutine) : bool :=
  match s with Under g' p => bool_decide (g' = g) && f p | _ => false end.

Definition is_running (s : goroutine) : bool :=
  match s with Under _ p => is_syncing p | Unlimited => true | Idle => false end.

(** The counters of a manager are exact, its semaphore has as many slots taken as
    goroutines hold one, within its size, and no Release on it has panicked. *)
Definition manager_inv (l : list goroutine) (g : nat) (m : GlobalConcurrencyManager) : Prop :=
  sem_size m.(semaphore) = m.(maxWeight) ∧
  sem_held m.(semaphore) = count (under g holds_slot) l ∧ sem_held m.(semaphore) ≤ Z.max 0 m.(maxWeight) ∧
  m.(waitingCount) = count (under g is_waiting) l ∧ m.(activeCount) = count (under g is_active) l ∧
  count (under g is_crashed) l = 0.

Definition heap_inv (limits : list Z) (st : heap * list goroutine) : Prop :=
  let '(h, l) := st in
  (∀ g m, h !! g = Some m → manager_inv l g m) ∧
  (∀ i g p, l !! i = Some (Under g p) → (g < length h)%nat) ∧
  Forall (.∈ limits) (maxWeight <$> h) ∧
  last (maxWeight <$> h) = last limits.

Context `{!LawfulSemaphore S}.

(** A goroutine that moves outside of every manager's code changes no counter. *)
Lemma manager_inv_move l i s s' g m :
  l !! i = Some s → (∀ f, f Outside = false → f Left = false → under g f s = false ∧ under g f s' = false) →
  manager_inv l g m → manager_inv (<[i := s']> l) g m.
Proof.
  intros Hi Hf. assert (Hc : ∀ f, f Outside = false → f Left = false → count (under g f) (<[i := s']> l) = count (under g f) l).
  { intros f H1 H2. rewrite (count_insert _ _ _ _ _ Hi). destruct (Hf f H1 H2) as [-> ->]. lia. }
  unfold manager_inv. by rewrite !Hc.
Qed.

(** A step of a goroutine on its manager keeps the invariant of that manager. *)
Lemma manager_inv_mstep l i g m m' p p' :
  l !! i = Some (Under g p) → mstep m p m' p' → manager_inv l g m →
  manager_inv (<[i := Under g p']> l) g m' ∧ m'.(maxWeight) = m.(maxWeight).
Proof.
  intros Hi Hs (Hsz & Hh & Hle & Hwa & Hac & Hcr).
  pose proof (list_elem_of_lookup_2 _ _ _ Hi) as Hin.
  assert (Hf : ∀ f, under g f (Under g p) = f p ∧ under g f (Under g p') = f p').
  { intros f. cbn. by rewrite bool_decide_eq_true_2. }
  assert (Hc : ∀ f, count (under g f) (<[i := Under g p']> l) = count (under g f) l - b2z (f p) + b2z (f p')).
  { intros f. rewrite (count_insert _ _ _ _ _ Hi). by destruct (Hf f) as [-> ->]. }
  unfold manager_inv. rewrite !Hc. clear Hc.
  destruct Hs as [m|m m' Hg|m|m|m|m m' Hr|m Hr|m];
    cbn [b2z holds_slot is_waiting is_active is_crashed acquire_begin acquire_end release_end semaphore maxWeight activeCount waitingCount];
    try (split_and!; lia).
  - unfold acquire_semaphore in Hg. destruct (sem_try (semaphore m)) as [s'|] eqn:E; [|done].
    injection Hg as <-. cbn. destruct (try_held _ _ E) as (? & ? & ?). split_and!; lia.
  - unfold release_semaphore in Hr. destruct (sem_release (semaphore m)) as [s'|] eqn:E; [|done].
    pose proof (count_pos (under g holds_slot) l _ Hin (proj1 (Hf holds_slot))).
    destruct (release_held (semaphore m)) as (s2 & E2 & ? & ?); [lia|]. rewrite E in E2. injection E2 as <-.
    injection Hr as <-. cbn. split_and!; lia.
  - exfalso. unfold release_semaphore in Hr.
    pose proof (count_pos (under g holds_slot) l _ Hin (proj1 (Hf holds_slot))).
    destruct (release_held (semaphore m)) as (s2 & E2 & _); [lia|]. by rewrite E2 in Hr.
Qed.

(** A new manager starts with no goroutine. *)
Lemma manager_inv_new l limit g :
  (∀ i g' p, l !! i = Some (Under g' p) → (g' < g)%nat) → manager_inv l g (mkManager (sem_new limit) limit 0 0).
Proof.
  intros Hl. assert (Hz : ∀ f, count (under g f) l = 0).
  { intros f. apply count_zero. intros [|g' p|] Hin; [done| |done]. cbn. apply list_elem_of_lookup_1 in Hin as [i Hin%Hl].
    by rewrite bool_decide_eq_false_2 by lia. }
  unfold manager_inv. cbn. rewrite new_size, new_held, !Hz. split_and!; lia.
Qed.

Lemma heap_inv_init limits limit h l :
  heap_inv limits (h, l) → heap_inv (limits ++ [limit]) (InitGlobalConcurrencyManager limit h, l).
Proof.
  intros (Hm & Hl & Hw & Hla).
  assert (Hold : Forall (.∈ (limits ++ [limit])%list) (maxWeight <$> h)).
  { eapply Forall_impl; [exact Hw|]. intros x Hx. apply elem_of_app. by left. }
  assert (Hnew : heap_inv (limits ++ [limit]) ((h ++ [mkManager (sem_new limit) limit 0 0])%list, l)).
  { unfold heap_inv. rewrite fmap_app. change (maxWeight <$> [mkManager (sem_new limit) limit 0 0]) with [limit].
    rewrite !last_snoc. split_and!; [| | |done].
    - intros g m [Hg|[Hge Hg]]%lookup_app_Some; [by apply Hm|].
      apply list_lookup_singleton_Some in Hg as [Hz <-]. replace g with (length h) by lia. by apply manager_inv_new.
    - intros i g p Hi. rewrite length_app. apply Hl in Hi. lia.
    - apply Forall_app. split; [done|]. apply Forall_singleton, elem_of_app. right. by left. }
  unfold InitGlobalConcurrencyManager. destruct (last h) as [m|] eqn:El; [|done].
  destruct (maxWeight m =? limit) eqn:E; [|done]. bool_props. split_and!; [done..|].
  by rewrite last_snoc, fmap_last, El, <- E.
Qed.

(** A goroutine that moves between claims, or fetches a manager. *)
Lemma heap_inv_move limits h l i s s' :
  l !! i = Some s → (∀ g f, f Outside = false → f Left = false → under g f s = false ∧ under g f s' = false) →
  (∀ g p, s' = Under g p → (g < length h)%nat) → heap_inv limits (h, l) → heap_inv limits (h, <[i := s']> l).
Proof.
  intros Hi Hf Hs (Hm & Hl & Hrest). split_and!; [| |apply Hrest..].
  - intros g m Hg. eapply manager_inv_move; [done|by apply Hf|by apply Hm].
  - intros j g p [(<- & E & _)|[_ Hj]]%list_lookup_insert_Some; [by eapply Hs|by eapply Hl].
Qed.

Lemma heap_inv_step limits st ls st' : heap_inv limits st → gstep st ls st' → heap_inv (limits ++ ls) st'.
Proof.
  intros Hinv Hs. destruct Hs as [limit h l|h l i Hi|h l i g m m' p p' Hi Hg Hs|h l i g Hi|h l i Hi];
    [by apply heap_inv_init|rewrite app_nil_r..].
  - eapply heap_inv_move; [done| | |done]; unfold fetch, GetGlobalConcurrencyManager; destruct h as [|m0 h]; [done| |done|].
    + intros g f Ho _. cbn. rewrite Ho. by rewrite andb_false_r.
    + intros g p [= <- _]. cbn. lia.
  - destruct Hinv as (Hm & Hl & Hw & Hla).
    destruct (manager_inv_mstep l i g m m' p p' Hi Hs (Hm g m Hg)) as [Hm' Ew].
    assert (Ef : maxWeight <$> <[g := m']> h = maxWeight <$> h).
    { rewrite list_fmap_insert, Ew. apply list_insert_id. by rewrite list_lookup_fmap, Hg. }
    unfold heap_inv. rewrite Ef, length_insert. split_and!; [| |done..].
    + intros g' m2 [(<- & <- & _)|[Hne Hg']]%list_lookup_insert_Some; [done|].
      eapply manager_inv_move; [done| |by apply Hm]. intros f _ _. cbn. by rewrite bool_decide_eq_false_2.
    + intros j g' p2 [(<- & [= <- _] & _)|[_ Hj]]%list_lookup_insert_Some; [by eapply Hl|by eapply Hl].
  - eapply heap_inv_move; [done| |done|done]. intros g' f _ Hf. cbn. by rewrite Hf, andb_false_r.
  - by eapply heap_inv_move.
Qed.

Lemma c_move n limits st st' : controller n limits st → gstep st [] st' → controller n limits st'.
Proof. intros Hc Hs. rewrite <- (app_nil_r limits). by eapply c_step. Qed.

Lemma c_limit n limits h l limit :
  controller n limits (h, l) → controller n (limits ++ [limit]) (InitGlobalConcurrencyManager limit h, l).
Proof. intros Hc. eapply c_step; [done|constructor]. Qed.

Lemma heap_inv_reachable n limits st : controller n limits st → heap_inv limits st.
Proof.
  induction 1 as [|limits st ls st' _ IH Hs]; [|by eapply heap_inv_step].
  split_and!; [done| |done..]. intros i g p [? _]%lookup_replicate. done.
Qed.
End manager.

Arguments GlobalConcurrencyManager S : clear implicits.

(** The counting semaphore. *)
#[global] Instance counter : Semaphore (Z * Z) := {
  sem_new n := (0, n);
  sem_try s := if s.1 <? s.2 then Some (s.1 + 1, s.2) else None;
  sem_release s := if 0 <? s.1 then Some (s.1 - 1, s.2) else None;
  sem_held s := s.1;
  sem_size s := s.2
}.

#[global] Instance counter_lawful : LawfulSemaphore (Z * Z).
Proof.
  split; cbn; [done..| |].
  - intros [a b] s'. cbn. destruct (a <? b) eqn:E; [|done]. intros [= <-]. cbn. bool_props. lia.
  - intros [a b]. cbn. intros Ha. rewrite (proj2 (Z.ltb_lt 0 a)) by done. eexists. split; [done|]. done.
Qed.

(** C33: however the goroutines of the controller are scheduled and cancelled, and
    however reconciliations change the limit while they run: each manager that was ever
    the global one has one of the configured limits, the present one has the last; at
    most that number of the syncs that fetched it run at the same time, and its
    statistics count exactly its goroutines inside Acquire, and those that sync or are
    inside Release; no Release panics.  So when the running syncs all fetched the
    present manager, at most the last configured number run; those that started under
    an earlier limit, or before any was configured, come on top. *)
Theorem syncs_bounded {S} `{LawfulSemaphore S} n limits (h : list (GlobalConcurrencyManager S)) l :
  controller n limits (h, l) →
  (∀ g m, h !! g = Some m →
    m.(maxWeight) ∈ limits ∧ count (under g is_syncing) l ≤ Z.max 0 m.(maxWeight) ∧
    GetStats m = (count (under g is_active) l, count (under g is_waiting) l, m.(maxWeight))) ∧
  maxWeight <$> last h = last limits ∧ (∀ g, Under g Crashed ∉ l) ∧
  (∀ limit, last limits = Some limit →
    (∀ s, s ∈ l → is_running s = true → ∃ g, GetGlobalConcurrencyManager h = Some g ∧ s = Under g Syncing) →
    count is_running l ≤ Z.max 0 limit).
Proof.
  intros (Hm & Hl & Hw & Hla)%heap_inv_reachable. rewrite fmap_last in Hla.
  assert (Hsy : ∀ g m, h !! g = Some m → count (under g is_syncing) l ≤ Z.max 0 m.(maxWeight)).
  { intros g m (_ & Hh & Hle & _)%Hm. transitivity (count (under g holds_slot) l); [|lia].
    apply count_le. intros [|g' p|]; [done| |done]. cbn. destruct (bool_decide _); [by destruct p|done]. }
  split_and!; [|done| |].
  - intros g m Hg. pose proof (Hm g m Hg) as (_ & _ & _ & Hwa & Hac & _). split_and!; [|by apply Hsy|].
    + rewrite Forall_forall in Hw. apply Hw, list_elem_of_fmap. exists m. split; [done|]. by eapply list_elem_of_lookup_2.
    + unfold GetStats. congruence.
  - intros g Hin. pose proof (list_elem_of_lookup_1 _ _ Hin) as [i Hi]. apply Hl in Hi.
    destruct (lookup_lt_is_Some_2 h g Hi) as [m Hg]. destruct (Hm g m Hg) as (_ & _ & _ & _ & _ & Hcr).
    pose proof (count_pos (under g is_crashed) l _ Hin) as Hp. cbn in Hp. rewrite bool_decide_eq_true_2 in Hp by done.
    specialize (Hp eq_refl). lia.
  - intros limit Elim Hall. rewrite Elim in Hla. destruct (last h) as [m|] eqn:El; [|done]. injection Hla as <-.
    rewrite last_lookup in El. specialize (Hsy _ m El). etrans; [|exact Hsy].
    apply count_le_in. intros s Hin Hs. destruct (Hall s Hin Hs) as (g & Hg & ->). cbn.
    unfold GetGlobalConcurrencyManager in Hg. destruct h; [done|]. injection Hg as <-. rewrite bool_decide_eq_true_2; [done|].
    cbn. lia.
Qed.

Ltac take C i := eapply c_move in C; [|apply (s_get _ _ i); reflexivity]; vm_compute in C.
Ltac advance C i := eapply c_move in C; [|eapply (s_manager _ _ i); [reflexivity|reflexivity|constructor; reflexivity]]; vm_compute in C.

(** The limit is 1, then 2: a sync of the first manager still runs, another goroutine
    is inside its Release, and two syncs run under the second manager. *)
Lemma syncs_bounded_witness :
  let old := mkManager (S := Z * Z) (1, 1) 1 2 0 in
  let new := mkManager (S := Z * Z) (2, 2) 2 2 0 in
  let l := [Under 0 Leaving; Under 0 Syncing; Under 1 Syncing; Under 1 Syncing] in
  controller 4 [1; 1; 2] ([old; new], l) ∧ count is_running l = 3 ∧
  count (under 0 is_syncing) l ≤ Z.max 0 (maxWeight old) ∧ count (under 1 is_syncing) l ≤ Z.max 0 (maxWeight new) ∧
  GetStats old = (2, 0, 1) ∧ GetStats new = (2, 0, 2).
Proof.
  intros old new l.
  assert (Hc : controller 4 [1; 1; 2] ([old; new], l)).
  { pose proof (c_start (S := Z * Z) 4) as C. apply (c_limit _ _ _ _ 1) in C; vm_compute in C. take C 0%nat. take C 1%nat.
    advance C 0%nat. advance C 1%nat. advance C 0%nat. advance C 0%nat. apply (c_limit _ _ _ _ 1) in C; vm_compute in C. advance C 0%nat.
    advance C 1%nat. advance C 1%nat. apply (c_limit _ _ _ _ 2) in C; vm_compute in C. take C 2%nat. take C 3%nat.
    advance C 2%nat. advance C 2%nat. advance C 2%nat. advance C 3%nat. advance C 3%nat. advance C 3%nat. exact C. }
  split; [exact Hc|]. destruct (syncs_bounded (S := Z * Z) 4 [1; 1; 2] [old; new] l Hc) as (Hm & _).
  destruct (Hm 0%nat old eq_refl) as (_ & H0 & G0). destruct (Hm 1%nat new eq_refl) as (_ & H1 & G1).
  split_and!; [vm_compute; reflexivity|exact H0|exact H1|reflexivity|reflexivity].
Defined.

(** ** WorkerPool *)

(** A task of SubmitAndWait: not submitted, running, done with wg.Done but still in
    its slot, gone. *)
Inductive tpc : Type := Queued | Working | Finished | Gone.

(** [slots] elements are in the channel; the caller has submitted [submitted] tasks
    and, once [returned], has left SubmitAndWait. *)
Record WorkerPool : Type := mkPool {
  maxWorkers : Z; slots : Z; wg : Z; submitted : nat; tasks : list tpc; returned : bool
}.

(** NewWorkerPool and the beginning of SubmitAndWait with [n] tasks. *)
Definition NewWorkerPool (maxWorkers : Z) (n : nat) : WorkerPool :=
  mkPool maxWorkers 0 (Z.of_nat n) 0 (replicate n Queued) false.

(** Submit blocks on the full channel; when a task ends its deferred functions run in
    turn; Wait returns when the counter is zero. *)
Inductive pool_step : WorkerPool → WorkerPool → Prop :=
| p_submit p : p.(slots) < p.(maxWorkers) → p.(tasks) !! p.(submitted) = Some Queued →
    pool_step p (mkPool p.(maxWorkers) (p.(slots) + 1) p.(wg) (S p.(submitted))
                   (<[p.(submitted) := Working]> p.(tasks)) p.(returned))
| p_done p i : p.(tasks) !! i = Some Working →
    pool_step p (mkPool p.(maxWorkers) p.(slots) (p.(wg) - 1) p.(submitted) (<[i := Finished]> p.(tasks)) p.(returned))
| p_free p i : p.(tasks) !! i = Some Finished →
    pool_step p (mkPool p.(maxWorkers) (p.(slots) - 1) p.(wg) p.(submitted) (<[i := Gone]> p.(tasks)) p.(returned))
| p_wait p : p.(submitted) = length p.(tasks) → p.(wg) = 0 → p.(returned) = false →
    pool_step p (mkPool p.(maxWorkers) p.(slots) p.(wg) p.(submitted) p.(tasks) true).

Definition in_slot (t : tpc) : bool := match t with Working | Finished => true | _ => false end.
Definition unfinished (t : tpc) : bool := match t with Queued | Working => true | _ => false end.
Definition is_working (t : tpc) : bool := match t with Working => true | _ => false end.

Definition pool_inv (p : WorkerPool) : Prop :=
  p.(slots) = count in_slot p.(tasks) ∧ p.(slots) ≤ Z.max 0 p.(maxWorkers) ∧
  p.(wg) = count unfinished p.(tasks) ∧ (p.(submitted) ≤ length p.(tasks))%nat ∧
  (∀ i, p.(tasks) !! i = Some Queued ↔ (p.(submitted) ≤ i < length p.(tasks))%nat) ∧
  (p.(returned) = true → count unfinished p.(tasks) = 0).

Lemma pool_inv_init k n : pool_inv (NewWorkerPool k n).
Proof.
  unfold pool_inv; cbn. split_and!; [|lia| |lia| |done].
  - symmetry. apply count_zero. intros x [-> _]%elem_of_replicate. done.
  - rewrite count_all; [by rewrite length_replicate|]. intros x [-> _]%elem_of_replicate. done.
  - intros i. rewrite length_replicate, lookup_replicate. split; [intros [_ ?]; lia|intros [_ ?]; done].
Qed.

(** While a task is unfinished the caller waits. *)
Lemma unfinished_waits p i t :
  pool_inv p → p.(tasks) !! i = Some t → unfinished t = true → p.(returned) = false.
Proof.
  intros (_ & _ & _ & _ & _ & Hr) Hi Ht. destruct p.(returned); [|done].
  pose proof (count_pos unfinished p.(tasks) t ltac:(by eapply list_elem_of_lookup_2) Ht). specialize (Hr eq_refl). lia.
Qed.

(** Moving a submitted task on does not change which tasks are queued. *)
Lemma queued_insert (l : list tpc) i t t' j :
  l !! i = Some t → t ≠ Queued → t' ≠ Queued → (<[i := t']> l) !! j = Some Queued ↔ l !! j = Some Queued.
Proof.
  intros Hi Ht Ht'. destruct (decide (j = i)) as [->|Hj]; [|by rewrite list_lookup_insert_ne].
  rewrite list_lookup_insert_eq by (by eapply lookup_lt_Some). rewrite Hi. split; congruence.
Qed.

Lemma pool_inv_step p q : pool_inv p → pool_step p q → pool_inv q.
Proof.
  intros Hinv Hstep. pose proof Hinv as (Hs & Hm & Hw & Hsub & Hq & Hr).
  destruct Hstep as [p Hlt Hi|p i Hi|p i Hi|p Hall Hz Hret];
    unfold pool_inv; cbn [slots maxWorkers wg submitted tasks returned];
    rewrite ?(count_insert _ _ _ _ _ Hi), ?length_insert; cbn [b2z in_slot unfinished].
  - pose proof (lookup_lt_Some _ _ _ Hi). rewrite (unfinished_waits p _ _ Hinv Hi) by done. split_and!; try lia; try done.
    intros j. destruct (decide (j = p.(submitted))) as [->|Hj].
    + rewrite list_lookup_insert_eq by done. split; [done|lia].
    + rewrite list_lookup_insert_ne by done. rewrite Hq. lia.
  - rewrite (unfinished_waits p _ _ Hinv Hi) by done. split_and!; try lia; try done.
    intros j. by rewrite (queued_insert _ _ _ _ _ Hi), Hq.
  - split_and!; try lia; [|intros E; specialize (Hr E); lia].
    intros j. by rewrite (queued_insert _ _ _ _ _ Hi), Hq.
  - split_and!; try done. intros _. lia.
Qed.

Lemma pool_inv_reachable k n p : rtc pool_step (NewWorkerPool k n) p → pool_inv p ∧ p.(maxWorkers) = k ∧ length p.(tasks) = n.
Proof.
  intros Hr. remember (NewWorkerPool k n) as p0 eqn:E0.
  assert (Hi : pool_inv p0 ∧ p0.(maxWorkers) = k ∧ length p0.(tasks) = n).
  { subst. split_and!; [apply pool_inv_init|done|apply length_replicate]. }
  clear E0. induction Hr as [|x y z Hxy _ IH]; [done|]. apply IH. destruct Hi as (Hi & <- & <-).
  split_and!; [by eapply pool_inv_step|by destruct Hxy|]. destruct Hxy; cbn; by rewrite ?length_insert.
Qed.

(** Steps left: each task has three ahead of it when it is queued, and Wait. *)
Definition task_cost (t : tpc) : nat := match t with Queued => 3 | Working => 2 | Finished => 1 | Gone => 0 end.
Definition pool_cost (p : WorkerPool) : nat := sum_list_with task_cost p.(tasks) + (if p.(returned) then 0 else 1).

Lemma cost_insert l i t t' :
  l !! i = Some t → (task_cost t' < task_cost t)%nat →
  (sum_list_with task_cost (<[i := t']> l) < sum_list_with task_cost l)%nat.
Proof.
  revert i. induction l as [|x l IH]; intros [|i] Hi Hc; cbn in Hi; try done.
  - injection Hi as ->. cbn. lia.
  - specialize (IH i Hi Hc). change (<[S i:=t']> (x :: l)) with (x :: <[i:=t']> l). cbn. lia.
Qed.

Lemma pool_step_cost p q : pool_step p q → (pool_cost q < pool_cost p)%nat.
Proof.
  unfold pool_cost. intros [p' Hlt Hi|p' i Hi|p' i Hi|p' Hall Hz Hret]; cbn [tasks returned].
  - pose proof (cost_insert _ _ _ Working Hi ltac:(cbn; lia)). lia.
  - pose proof (cost_insert _ _ _ Finished Hi ltac:(cbn; lia)). lia.
  - pose proof (cost_insert _ _ _ Gone Hi ltac:(cbn; lia)). lia.
  - rewrite Hret. lia.
Qed.

(** A pool with a worker is never stuck before the caller has returned. *)
Lemma pool_progress p : pool_inv p → 0 < p.(maxWorkers) → p.(returned) = false → ∃ q, pool_step p q.
Proof.
  intros (Hs & Hm & Hw & Hsub & Hq & _) Hk Hret.
  destruct (decide (Exists (λ t, in_slot t = true) p.(tasks))) as [Hin|Hno].
  - apply Exists_exists in Hin as (t & Ht & Hb). apply list_elem_of_lookup in Ht as [i Hi].
    destruct t; try done; eexists; [by eapply p_done|by eapply p_free].
  - assert (Hz : count in_slot p.(tasks) = 0).
    { apply count_zero. intros x Hx. destruct (in_slot x) eqn:E; [|done].
      exfalso. apply Hno, Exists_exists. eauto. }
    destruct (decide (p.(submitted) = length p.(tasks))) as [Hall|Hlt].
    + eexists. apply p_wait; [done| |done]. rewrite Hw. apply count_zero. intros x [i Hi]%list_elem_of_lookup.
      destruct x; try done.
      * apply Hq in Hi. lia.
      * exfalso. apply Hno, Exists_exists. exists Working. split; [by eapply list_elem_of_lookup_2|done].
    + eexists. apply p_submit; [lia|]. apply Hq. lia.
Qed.

(** C34: SubmitAndWait over a pool of [k] workers: at most [k] tasks run at the same
    time; it has not returned before every task has run to its end; with at least one
    worker it always can go on until it returns, within [3 n + 1] steps. *)
Theorem SubmitAndWait_correct k n p :
  rtc pool_step (NewWorkerPool k n) p →
  count is_working p.(tasks) ≤ Z.max 0 k ∧
  (p.(returned) = true → ∀ t, t ∈ p.(tasks) → unfinished t = false) ∧
  (0 < k → p.(returned) = false → ∃ q, pool_step p q) ∧
  (∀ q, pool_step p q → (pool_cost q < pool_cost p)%nat) ∧ (pool_cost p ≤ 3 * n + 1)%nat.
Proof.
  intros Hr. destruct (pool_inv_reachable k n p Hr) as (Hinv & <- & <-).
  pose proof Hinv as (Hs & Hm & _ & _ & _ & Hret). split_and!.
  - pose proof (count_le is_working in_slot p.(tasks) ltac:(by intros [])). lia.
  - intros Hd t Ht. specialize (Hret Hd). destruct (unfinished t) eqn:E; [|done].
    pose proof (count_pos unfinished p.(tasks) t Ht E). lia.
  - intros Hk Hd. by apply pool_progress.
  - intros q. apply pool_step_cost.
  - unfold pool_cost. clear. generalize p.(tasks) as l. intros l.
    assert (sum_list_with task_cost l ≤ 3 * length l)%nat; [|destruct (returned p); lia].
    induction l as [|t l IH]; cbn; [lia|]. destruct t; cbn; lia.
Qed.

(** Two tasks, one worker: the second is submitted after the first has left its slot. *)
Lemma SubmitAndWait_correct_witness :
  let p := mkPool 1 1 1 2 [Gone; Working] false in
  count is_working p.(tasks) ≤ Z.max 0 1 ∧ ∃ q, pool_step p q.
Proof.
  assert (Hr : rtc pool_step (NewWorkerPool 1 2) (mkPool 1 1 1 2 [Gone; Working] false)).
  { eapply rtc_l; [apply p_submit; [cbn; lia|reflexivity]|].
    eapply rtc_l; [apply (p_done _ 0); reflexivity|].
    eapply rtc_l; [apply (p_free _ 0); reflexivity|].
    eapply rtc_l; [apply p_submit; [cbn; lia|reflexivity]|]. apply rtc_refl. }
  destruct (SubmitAndWait_correct 1 2 _ Hr) as (H1 & _ & H2 & _). split; [exact H1|].
  apply H2; [lia|reflexivity].
Defined.
