(* ===== verification/Metrics.v ===== *)
(** * Prometheus metrics of a PVC sync: pkg/controller/replication/metrics.go

    The metrics with their labels as finite maps, and the four functions that performRsync
    calls.  A counter adds an integral float64 to an unsigned 64-bit integer and panics on a
    negative one, a gauge is set, a histogram counts an observation in its first bucket that
    is large enough, as the Prometheus client documents.  Speeds and durations are float64
    values at the scale 2^131 of Float.v. *)

From S2P Require Import Prelude GoString Float Duration.

(** [uint64] *)
Definition uint64 (z : Z) : Z := z mod 2 ^ 64.

(** ** The metrics *)

(** Labels namespace, pvc_name and destination_namespace; two metrics have a status as well. *)
Abbreviation Labels := (string * string * string)%type.

Record Histogram : Type := mkHistogram { hCount : Z; hSum : Z; hBuckets : list Z }.

Record Metrics : Type := mkMetrics {
  PVCSyncBytesTransferred : gmap Labels Z;
  PVCSyncFilesTransferred : gmap Labels Z;
  PVCSyncProgress : gmap Labels Z;
  PVCSyncDuration : gmap (Labels * string) Histogram;
  PVCSyncOperations : gmap (Labels * string) Z;
  PVCSyncSpeed : gmap Labels Z
}.

Definition no_metrics : Metrics := mkMetrics ∅ ∅ ∅ ∅ ∅ ∅.

(** [prometheus.ExponentialBuckets(1, 2, 15)], and the bucket of everything *)
Definition duration_buckets : list Z := (λ i, 2 ^ Z.of_nat i * 2 ^ 131) <$> seq 0 15.

Definition bucket_of (v : Z) : nat := length (filter (λ b, b < v) duration_buckets).

Definition empty_histogram : Histogram := mkHistogram 0 0 (replicate 16 0).

Definition observe (v : Z) (h : Histogram) : Histogram :=
  mkHistogram (uint64 (h.(hCount) + 1)) (r64 (h.(hSum) + v)) (alter (λ n, uint64 (n + 1)) (bucket_of v) h.(hBuckets)).

(** [time.Duration.Seconds] *)
Definition Seconds (d : Z) : Z := r64 (r64 (Z.quot d Second) * 2 ^ 131 + fdiv131 (Z.rem d Second) 1000000000).

(** [Counter.Add(float64(n))], with the exact text of its panic *)
Definition add_counter (l : Labels) (n : Z) (c : gmap Labels Z) : exec (gmap Labels Z) :=
  if n <? 0 then Panic "counter cannot decrease in value"
  else Ret (<[l := uint64 (default 0 (c !! l) + r64 n)]> c).

Definition bump {K} `{Countable K} (k : K) (c : gmap K Z) : gmap K Z := <[k := uint64 (default 0 (c !! k) + 1)]> c.

(** ** The functions *)

Definition set_gauges (l : Labels) (progress speed : Z) (m : Metrics) : Metrics :=
  mkMetrics m.(PVCSyncBytesTransferred) m.(PVCSyncFilesTransferred) (<[l := progress]> m.(PVCSyncProgress))
    m.(PVCSyncDuration) m.(PVCSyncOperations) (<[l := speed]> m.(PVCSyncSpeed)).

Definition finish_sync (l : Labels) (status : string) (durationSeconds : Z) (m : Metrics) : Metrics :=
  mkMetrics m.(PVCSyncBytesTransferred) m.(PVCSyncFilesTransferred) m.(PVCSyncProgress)
    (<[(l, status) := observe durationSeconds (default empty_histogram (m.(PVCSyncDuration) !! (l, status)))]> m.(PVCSyncDuration))
    (bump (l, status) m.(PVCSyncOperations)) m.(PVCSyncSpeed).

Definition RecordSyncStart (l : Labels) (m : Metrics) : Metrics := set_gauges l 0 0 m.

(** The numbers of bytes and files are not used. *)
Definition RecordSyncProgress (l : Labels) (bytesTransferred filesTransferred progress speedBytesPerSec : Z) (m : Metrics) : Metrics :=
  set_gauges l (r64 progress) speedBytesPerSec m.

Definition RecordSyncComplete (l : Labels) (bytesTransferred filesTransferred durationSeconds : Z) (success : bool) (m : Metrics)
    : exec Metrics :=
  let status := if success then "success" else "failure" in
  match add_counter l bytesTransferred m.(PVCSyncBytesTransferred) with
  | Panic w => Panic w
  | Ret bytes =>
      match add_counter l filesTransferred m.(PVCSyncFilesTransferred) with
      | Panic w => Panic w
      | Ret files =>
          Ret (finish_sync l status durationSeconds
            (set_gauges l 100 0 (mkMetrics bytes files m.(PVCSyncProgress) m.(PVCSyncDuration) m.(PVCSyncOperations) m.(PVCSyncSpeed))))
      end
  end.

Definition RecordSyncFailure (l : Labels) (durationSeconds : Z) (m : Metrics) : Metrics :=
  finish_sync l "failure" durationSeconds (set_gauges l 0 0 m).

(** ** Histories *)

(** A call of one of the functions. *)
Inductive Recording : Type :=
| Started (l : Labels)
| Progressed (l : Labels) (bytes files progress speed : Z)
| Completed (l : Labels) (bytes files duration : Z) (success : bool)
| Failed (l : Labels) (duration : Z).

Definition record (m : Metrics) (c : Recording) : exec Metrics :=
  match c with
  | Started l => Ret (RecordSyncStart l m)
  | Progressed l b f p s => Ret (RecordSyncProgress l b f p s m)
  | Completed l b f d ok => RecordSyncComplete l b f d ok m
  | Failed l d => Ret (RecordSyncFailure l d m)
  end.

Fixpoint record_all (m : Metrics) (h : list Recording) : exec Metrics :=
  match h with
  | [] => Ret m
  | c :: h => match record m c with Ret m => record_all m h | Panic w => Panic w end
  end.

(** The series a call ends a sync of. *)
Definition ends_sync (c : Recording) : option (Labels * string) :=
  match c with
  | Completed l _ _ _ ok => Some (l, if ok then "success" else "failure")
  | Failed l _ => Some (l, "failure")
  | _ => None
  end.

Definition ended (k : Labels * string) (h : list Recording) : Z := Z.of_nat (length (filter (λ c, ends_sync c = Some k) h)).

Definition in_percent (z : Z) : Prop := 0 ≤ z ≤ 100.

(** rsync's percentages are in range, and its counts are not negative. *)
Definition reported (c : Recording) : Prop :=
  match c with
  | Progressed _ _ _ p _ => in_percent p
  | Completed _ b f _ _ => 0 ≤ b ∧ 0 ≤ f
  | _ => True
  end.

(** ** What the metrics say *)

Record consistent (h : list Recording) (m : Metrics) : Prop := mk_consistent {
  gauge_percent : map_Forall (λ _, in_percent) m.(PVCSyncProgress);
  operations_counted : ∀ k, default 0 (m.(PVCSyncOperations) !! k) = uint64 (ended k h);
  durations_counted : ∀ k, default 0 (hCount <$> m.(PVCSyncDuration) !! k) = uint64 (ended k h);
  sixteen_buckets : map_Forall (λ _ x, length x.(hBuckets) = 16%nat) m.(PVCSyncDuration)
}.

Lemma uint64_succ a : uint64 (uint64 a + 1) = uint64 (a + 1).
Proof. unfold uint64. by rewrite Zplus_mod_idemp_l. Qed.

Lemma ended_snoc k h c : ended k (h ++ [c]) = ended k h + (if bool_decide (ends_sync c = Some k) then 1 else 0).
Proof.
  unfold ended. rewrite filter_app, length_app, filter_cons, filter_nil.
  case_decide as H; [rewrite bool_decide_eq_true_2 by done|rewrite bool_decide_eq_false_2 by done]; cbn; lia.
Qed.

Lemma set_gauges_consistent h c l p s m :
  ends_sync c = None → in_percent p → consistent h m → consistent (h ++ [c]) (set_gauges l p s m).
Proof.
  intros Hc Hp [Hg Ho Hd Hb]. split; cbn; [by apply map_Forall_insert_2| | |done];
    intros k; rewrite ended_snoc, Hc, bool_decide_eq_false_2, Z.add_0_r by done; auto.
Qed.

Lemma finish_consistent h c l status d m :
  ends_sync c = Some (l, status) → consistent h m → consistent (h ++ [c]) (finish_sync l status d m).
Proof.
  intros Hc [Hg Ho Hd Hb]. split; cbn; [done| | |].
  - intros k. rewrite ended_snoc, Hc. unfold bump. destruct (decide (k = (l, status))) as [->|Hk].
    + rewrite lookup_insert, decide_True, bool_decide_eq_true_2 by done. cbn. by rewrite Ho, uint64_succ.
    + rewrite lookup_insert_ne, bool_decide_eq_false_2, Z.add_0_r by congruence. apply Ho.
  - intros k. rewrite ended_snoc, Hc. destruct (decide (k = (l, status))) as [->|Hk].
    + rewrite lookup_insert, decide_True, bool_decide_eq_true_2 by done. cbn. specialize (Hd (l, status)).
      destruct (PVCSyncDuration m !! (l, status)); cbn in *; by rewrite Hd, uint64_succ.
    + rewrite lookup_insert_ne, bool_decide_eq_false_2, Z.add_0_r by congruence. apply Hd.
  - apply map_Forall_insert_2; [|done]. cbn. rewrite length_alter.
    destruct (PVCSyncDuration m !! (l, status)) as [x|] eqn:E; cbn; [by apply (Hb _ _ E)|done].
Qed.

Lemma r64_percent p : in_percent p → in_percent (r64 p).
Proof.
  intros [H0 H1]. unfold r64. destruct (Z.ltb_spec p 0); [lia|]. unfold r64_pos.
  assert (Z.log2 p ≤ Z.log2 100) by (apply Z.log2_le_mono; lia). change (Z.log2 100) with 6 in *.
  destruct (Z.leb_spec (Z.log2 p - 52) 0); unfold in_percent; lia.
Qed.

Lemma record_consistent h m c : reported c → consistent h m → ∃ m', record m c = Ret m' ∧ consistent (h ++ [c]) m'.
Proof.
  intros Hc Hm. destruct c as [l|l b f p s|l b f d ok|l d]; cbn in *; eexists.
  - split; [done|]. apply set_gauges_consistent; [done|unfold in_percent; lia|done].
  - split; [done|]. apply set_gauges_consistent; [done|by apply r64_percent|done].
  - unfold RecordSyncComplete, add_counter. destruct Hc as [Hb Hf].
    apply Z.ltb_ge in Hb as ->. apply Z.ltb_ge in Hf as ->. split; [reflexivity|].
    apply finish_consistent; [done|]. destruct Hm as [Hg Ho Hd Hk]. split; cbn; [|done..].
    apply map_Forall_insert_2; [unfold in_percent; lia|done].
  - split; [reflexivity|]. apply finish_consistent; [done|]. destruct Hm as [Hg Ho Hd Hk].
    split; cbn; [|done..]. apply map_Forall_insert_2; [unfold in_percent; lia|done].
Qed.

Lemma record_all_consistent g h m : Forall reported h → consistent g m →
  ∃ m', record_all m h = Ret m' ∧ consistent (g ++ h) m'.
Proof.
  revert g m. induction h as [|c h IH]; intros g m Hr Hm; cbn.
  - exists m. by rewrite app_nil_r.
  - apply Forall_cons in Hr as [Hc Hr]. destruct (record_consistent g m c Hc Hm) as (m1 & -> & H1).
    destruct (IH _ _ Hr H1) as (m' & -> & H2). exists m'. by rewrite <- (assoc_L (++)) in H2.
Qed.

(** After any history of calls with percentages and counts in range, no call has panicked, the
    progress gauges are percentages, and for every claim and status the operations counter
    and the histogram of durations agree with the number of syncs that ended so. *)
Theorem metrics_consistent h : Forall reported h → ∃ m, record_all no_metrics h = Ret m ∧ consistent h m.
Proof.
  intros Hr. apply (record_all_consistent [] h no_metrics Hr). split; cbn; [apply map_Forall_empty| | |apply map_Forall_empty];
    intros k; by rewrite lookup_empty.
Qed.

(** A sync of a claim that moves 5 MiB in 90.5 s. *)
Example one_sync :
  (λ m, match m with
        | Ret m => Some (m.(PVCSyncProgress) !! ("app", "data", "dr"), m.(PVCSyncBytesTransferred) !! ("app", "data", "dr"),
                         m.(PVCSyncOperations) !! ("app", "data", "dr", "success"),
                         hBuckets <$> m.(PVCSyncDuration) !! ("app", "data", "dr", "success"))
        | Panic _ => None
        end)
    (record_all no_metrics [Started ("app", "data", "dr"); Progressed ("app", "data", "dr") 1024 1 40 (2 ^ 150);
                            Completed ("app", "data", "dr") 5242880 3 (Seconds (90500 * 1000000)) true])
  = Some (Some 100, Some 5242880, Some 1, Some [0; 0; 0; 0; 0; 0; 0; 1; 0; 0; 0; 0; 0; 0; 0; 0]).
Proof. vm_compute. reflexivity. Qed.

(** A negative number of bytes, which an overflow of the sum of ParseRsyncOutput gives, panics. *)
Example negative_bytes : ∃ w, RecordSyncComplete ("app", "data", "dr") (-1) 0 0 true no_metrics = Panic w.
Proof. by eexists. Qed.
