(* ===== verification/ClusterMapping.v ===== *)
(** * The ClusterMapping controller

    pkg/controllers/cluster_mapping_controller.go and cluster_mapping_controller_retry.go:
    the connection state machine of a pair of clusters (Pending, Connecting, Connected,
    Failed), the distribution of the agents' SSH keys and the verification of the
    connections between agents.

    The controller has a signature of calls of its own: the API server it runs against,
    the clusters it builds clients for, commands in pods, the clock, the random source,
    the mutex around status updates and the scheduler of the worker pool.  client-go's
    retry.RetryOnConflict is a parameter ([Retry]) with the law it documents
    ([LawfulRetry]). *)

From Stdlib Require Import Ascii.
From S2P Require Import Prelude GoString Errors Types Duration Kube KubeLogic.

(** ** Calls *)

(** A kubernetes.Interface and a *rest.Config are handles the code only passes on. *)
Definition Client : Type := Z.
Definition Config : Type := Z.

(** The fields of corev1.Pod the controller reads; a container is its name. *)
Record Pod : Type := mkPod {
  pName : string; pNamespace : string; pNodeName : string; pContainers : list string;
  pPodIP : string; pPhase : string
}.

#[global] Instance Pod_eq_dec : EqDecision Pod.
Proof. solve_decision. Defined.

(** The context a command runs under: the one of Reconcile, or with a timeout. *)
Inductive Ctx : Type := Background | WithTimeout (d : Z).

(** A POST to the exec subresource of a pod. *)
Record ExecRequest : Type := mkExecRequest {
  exClient : Client; exNamespace : string; exPod : string; exContainer : string; exCommand : list string
}.

Inductive COp : Type :=
| CNow
| CSleep
| CRand
| CLockStatus
| CUnlockStatus
| CGetClusterMapping (ns name : string)
| CUpdateStatus (m : ClusterMapping)
| CListClusterMappings
| CGetRemoteCluster (ns name : string)
| CGetSecret (ns name : string)
| CRESTConfig (kubeconfig : string)
| CNewForConfig (c : Config)
| CListPods (c : Client) (labelSelector : string)
| CNewSPDYExecutor (cfg : Config) (req : ExecRequest)
| CStream (ctx : Ctx) (cfg : Config) (req : ExecRequest)
| CPick (n : nat).

(** A secret is its Data.  [CStream] gives stdout, stderr and the error; [CRand] the
    numerator of rand.Float64 over 2^53; [CPick] which of [n] goroutines goes on. *)
Definition CResp (o : COp) : Type :=
  match o with
  | CNow => Time
  | CSleep | CLockStatus | CUnlockStatus => unit
  | CRand => Z
  | CGetClusterMapping _ _ => res ClusterMapping
  | CUpdateStatus _ => res ClusterMapping
  | CListClusterMappings => res (list ClusterMapping)
  | CGetRemoteCluster _ _ => res RemoteCluster
  | CGetSecret _ _ => res (gmap string string)
  | CRESTConfig _ => res Config
  | CNewForConfig _ => res Client
  | CListPods _ _ => res (list Pod)
  | CNewSPDYExecutor _ _ => res unit
  | CStream _ _ _ => string * string * option error
  | CPick _ => nat
  end.

Definition CSig : Sig := mkSig COp CResp.
Abbreviation CP := (prog CSig).

Definition ccall (o : COp) : CP (CResp o) := call (Sg := CSig) o.

(** ctrl.Result *)
Record CtrlResult : Type := mkCtrlResult { Requeue : bool; RequeueAfter : Z }.
Definition no_requeue : CtrlResult := mkCtrlResult false 0.

(** ** Status updates (cluster_mapping_controller_retry.go) *)

(** k8s.io/client-go/util/retry: [RetryOnConflict(retry.DefaultRetry, fn)]. *)
Class Retry : Type := RetryOnConflict : CP (res unit) → CP (res unit).

Definition is_conflict (r : res unit) : bool := match r with Ok _ => false | Err e => IsConflict e end.

(** Its documentation: fn is tried until it returns nil or an error that is not a
    conflict, at most [n] times, with a delay in between; the last error is returned. *)
Inductive retried (fn : CP (res unit)) : nat → list (event CSig) → exec (res unit) → Prop :=
| retried_done n tr r : runs fn tr (Ret r) → is_conflict r = false ∨ n = 0%nat → retried fn (S n) tr (Ret r)
| retried_again n tr1 tr2 r out :
    runs fn tr1 (Ret r) → is_conflict r = true → retried fn n tr2 out →
    retried fn (S n) (tr1 ++ Ev (Sg := CSig) CSleep tt :: tr2)%list out
| retried_panic n tr w : runs fn tr (Panic w) → retried fn (S n) tr (Panic w).

(** retry.DefaultRetry has five steps. *)
Class LawfulRetry `{Retry} : Prop :=
  retry_runs : ∀ fn tr out, runs (RetryOnConflict fn) tr out → retried fn 5 tr out.

Section Controller.
Context `{Retry}.

(** One attempt: read the latest version, change it, send it. *)
Definition update_attempt (ns name : string) (updateFn : ClusterMapping → CP ClusterMapping) : CP (res unit) :=
  cm ←? ccall (CGetClusterMapping ns name) onerr id;
  cm ← updateFn cm;
  _ ←? ccall (CUpdateStatus cm) onerr id;
  mret (Ok tt).

Definition updateStatusWithRetry (ns name : string) (updateFn : ClusterMapping → CP ClusterMapping)
    : CP (res unit) :=
  _ ← ccall CLockStatus;
  r ← RetryOnConflict (update_attempt ns name updateFn);
  _ ← ccall CUnlockStatus;
  mret r.

Definition on_status (f : ClusterMappingStatus → ClusterMappingStatus) (cm : ClusterMapping) : ClusterMapping :=
  set_CMStatus (f cm.(CMStatus)) cm.

(** [cm.Status.Phase = phase; cm.Status.Message = message] *)
Definition to_phase (phase message : string) (st : ClusterMappingStatus) : ClusterMappingStatus :=
  set_CMMessage message (set_CMPhase phase st).

Definition count_failure (st : ClusterMappingStatus) : ClusterMappingStatus :=
  set_ConsecutiveFailures (int64 (st.(ConsecutiveFailures) + 1)) st.

(** util.CalculateBackoff draws its jitter only for a positive count. *)
Definition draw_backoff (consecutiveFailures : Z) : CP Z :=
  if consecutiveFailures <=? 0 then mret 0
  else rnd ← ccall CRand; mret (CalculateBackoff consecutiveFailures rnd).

Definition setFailedStatusWithRetry (m : ClusterMapping) (message : string) : CP (CtrlResult * res unit) :=
  r ← updateStatusWithRetry m.(CMNamespace) m.(CMName)
        (λ cm, mret (on_status (λ st, count_failure (to_phase ClusterMappingPhaseFailed message st)) cm));
  match r with
  | Err e => mret (no_requeue, Err e)
  | Ok _ => backoff ← draw_backoff m.(CMStatus).(ConsecutiveFailures); mret (mkCtrlResult false backoff, Ok tt)
  end.

Definition setFailedStatus (m : ClusterMapping) (message : string) : CP (CtrlResult * res unit) :=
  setFailedStatusWithRetry m message.

Definition updateLastAttemptTimeWithRetry (ns name : string) : CP (res unit) :=
  updateStatusWithRetry ns name
    (λ cm, now ← ccall CNow; mret (on_status (set_LastAttemptTime (Some now)) cm)).

(** ** Clusters and their clients *)

Definition getClusters (m : ClusterMapping) : CP (res (RemoteCluster * RemoteCluster)) :=
  sourceCluster ←? ccall (CGetRemoteCluster m.(CMNamespace) m.(CMSpec).(CMSourceCluster))
    onerr wrapf "failed to get source cluster: ";
  targetCluster ←? ccall (CGetRemoteCluster m.(CMNamespace) m.(CMSpec).(TargetCluster))
    onerr wrapf "failed to get target cluster: ";
  mret (Ok (sourceCluster, targetCluster)).

(** [c.Spec.PVCSync == nil || !c.Spec.PVCSync.Enabled], negated. *)
Definition pvc_sync_enabled (c : RemoteCluster) : bool :=
  match c.(PVCSync) with Some spec => spec.(psEnabled) | None => false end.

Definition validateClusters (m : ClusterMapping) : CP (res (RemoteCluster * RemoteCluster)) :=
  sourceCluster ←? ccall (CGetRemoteCluster m.(CMNamespace) m.(CMSpec).(CMSourceCluster))
    onerr wrapf "failed to get source cluster: ";
  targetCluster ←? ccall (CGetRemoteCluster m.(CMNamespace) m.(CMSpec).(TargetCluster))
    onerr wrapf "failed to get target cluster: ";
  if negb (pvc_sync_enabled sourceCluster) then
    mret (Err (PlainError "PVC sync is not enabled on source cluster"))
  else if negb (pvc_sync_enabled targetCluster) then
    mret (Err (PlainError "PVC sync is not enabled on target cluster"))
  else mret (Ok (sourceCluster, targetCluster)).

Definition getClusterClient (c : RemoteCluster) : CP (res (Client * Config)) :=
  let ref := c.(RCKubeconfig) in
  secret ←? ccall (CGetSecret ref.(KCNamespace) ref.(KCName)) onerr wrapf "failed to get kubeconfig secret: ";
  let key := if ref.(KCKey) =s? "" then "kubeconfig" else ref.(KCKey) in
  match secret !! key with
  | None => mret (Err (PlainError ("kubeconfig key " +:+ key +:+ " not found in secret")))
  | Some kubeconfigData =>
      config ←? ccall (CRESTConfig kubeconfigData) onerr wrapf "failed to create rest config: ";
      client ←? ccall (CNewForConfig config) onerr wrapf "failed to create client: ";
      mret (Ok (client, config))
  end.

Definition getClusterClients (source target : RemoteCluster) : CP (res ((Client * Config) * (Client * Config))) :=
  s ←? getClusterClient source onerr wrapf "failed to get source cluster client: ";
  t ←? getClusterClient target onerr wrapf "failed to get target cluster client: ";
  mret (Ok (s, t)).

(** ** Commands in pods *)

Definition exec_request (client : Client) (pod : Pod) (command : string) : ExecRequest :=
  mkExecRequest client pod.(pNamespace) pod.(pName)
    (match pod.(pContainers) with [] => "" | c :: _ => c end) ["/bin/sh"; "-c"; command].

(** stdout, stderr and the error, which is nil in the [None] case. *)
Definition execCommandInPod (ctx : Ctx) (client : Client) (config : Config) (pod : Pod) (command : string)
    : CP (string * string * option error) :=
  let req := exec_request client pod command in
  e ← ccall (CNewSPDYExecutor config req);
  match e with
  | Err err => mret ("", "", Some (wrapf "failed to create SPDY executor: " err))
  | Ok _ =>
      s ← ccall (CStream ctx config req);
      let '(stdout, stderr, err) := s in
      mret (stdout, stderr, wrapf "command execution failed: " <$> err)
  end.

Definition PodRunning : string := "Running".

Definition getAgentPods (client : Client) : CP (res (list Pod)) :=
  pods ←? ccall (CListPods client "app=dr-syncer-agent") onerr wrapf "failed to list agent pods: ";
  mret (Ok (filter (λ p, p.(pPhase) = PodRunning) pods)).

(** ** SSH keys *)

(** The errors of the next two functions are only logged; they are kept as text. *)
Definition exec_failed (prefix : string) (err : error) (stderr : string) : error :=
  PlainError (prefix +:+ Error err +:+ ", stderr: " +:+ stderr).

Definition extractPublicKey (client : Client) (config : Config) (pod : Pod) : CP (res string) :=
  r ← execCommandInPod Background client config pod "cat /etc/ssh/keys/ssh_host_rsa_key.pub";
  match r with
  | (_, stderr, Some err) =>
      mret (Err (exec_failed ("failed to execute command in pod " +:+ pod.(pNamespace) +:+ "/" +:+ pod.(pName) +:+ ": ")
                   err stderr))
  | (stdout, _, None) =>
      let publicKey := TrimSpace stdout in
      if negb (HasPrefix publicKey "ssh-rsa ") then
        mret (Err (PlainError ("invalid public key format: " +:+ publicKey)))
      else mret (Ok publicKey)
  end.

Definition authorized_keys : string := "/home/syncer/.ssh/authorized_keys".

(** [strings.ReplaceAll(key, "'", "'\\''")] between single quotes. *)
Definition quoted (key : string) : string := "'" +:+ ReplaceAll key "'"%char "'\''" +:+ "'".

Definition checkCmd (publicKey : string) : string :=
  "grep -q " +:+ quoted publicKey +:+ " " +:+ authorized_keys +:+ " && echo 'exists' || echo 'not exists'".

Definition appendCmd (publicKey : string) : string :=
  "echo " +:+ quoted publicKey +:+ " >> " +:+ authorized_keys.

Definition addPublicKeyToAuthorizedKeys (client : Client) (config : Config) (pod : Pod) (publicKey : string)
    : CP (res unit) :=
  r ← execCommandInPod Background client config pod (checkCmd publicKey);
  match r with
  | (_, stderr, Some err) => mret (Err (exec_failed "failed to check if key exists: " err stderr))
  | (stdout, _, None) =>
      if TrimSpace stdout =s? "exists" then mret (Ok tt)
      else
        r ← execCommandInPod Background client config pod (appendCmd publicKey);
        match r with
        | (_, stderr, Some err) => mret (Err (exec_failed "failed to add key to authorized_keys: " err stderr))
        | (_, _, None) => mret (Ok tt)
        end
  end.

(** Add a key to every source agent; a failure is logged and the loop goes on. *)
Definition add_to_all (source : Client * Config) (sourcePods : list Pod) (publicKey : string) : CP unit :=
  range_each sourcePods tt (λ sourcePod _,
    _ ← addPublicKeyToAuthorizedKeys source.1 source.2 sourcePod publicKey; mret tt).

Definition distributeSSHKeysFromSecret (m : ClusterMapping) (secretRef : ClusterMappingSSHKeySecretRef)
    (source : Client * Config) : CP (res unit) :=
  let namespace := if secretRef.(SKNamespace) =s? "" then m.(CMNamespace) else secretRef.(SKNamespace) in
  let publicKeyKey := if secretRef.(PublicKeyKey) =s? "" then "id_rsa.pub" else secretRef.(PublicKeyKey) in
  secret ←? ccall (CGetSecret namespace secretRef.(SKName)) onerr wrapf "failed to get SSH key secret: ";
  match secret !! publicKeyKey with
  | None => mret (Err (PlainError ("public key " +:+ publicKeyKey +:+ " not found in secret " +:+ namespace +:+ "/"
                                   +:+ secretRef.(SKName))))
  | Some publicKey =>
      sourcePods ←? getAgentPods source.1 onerr wrapf "failed to get source agent pods: ";
      _ ← add_to_all source sourcePods publicKey;
      mret (Ok tt)
  end.

Definition distributeSSHKeysFromAgents (source target : Client * Config) : CP (res unit) :=
  targetPods ←? getAgentPods target.1 onerr wrapf "failed to get target agent pods: ";
  sourcePods ←? getAgentPods source.1 onerr wrapf "failed to get source agent pods: ";
  _ ← range_each targetPods tt (λ targetPod _,
        k ← extractPublicKey target.1 target.2 targetPod;
        match k with
        | Err _ => mret tt
        | Ok publicKey => add_to_all source sourcePods publicKey
        end);
  mret (Ok tt).

Definition distributeSSHKeys (m : ClusterMapping) (source target : Client * Config) : CP (res unit) :=
  match m.(CMSpec).(SSHKeySecretRef) with
  | Some secretRef => distributeSSHKeysFromSecret m secretRef source
  | None => distributeSSHKeysFromAgents source target
  end.

(** ** verifyConnectivity *)

Definition test_command (targetPodIP : string) : string :=
  "ssh -o StrictHostKeyChecking=no -o ConnectTimeout=5 -p 2222 syncer@" +:+ targetPodIP +:+ " test-connection".

(** Whether the connection works, and the message when it does not; the code's third
    result is always nil. *)
Definition testSSHConnection (ctx : Ctx) (client : Client) (config : Config) (sourcePod : Pod) (targetPodIP : string)
    : CP (bool * string * option error) :=
  r ← execCommandInPod ctx client config sourcePod (test_command targetPodIP);
  match r with
  | (_, stderr, Some _) => mret (false, stderr, None)
  | (stdout, _, None) =>
      if Contains stdout "SSH proxy connection successful" then mret (true, "", None)
      else mret (false, stdout, None)
  end.

(** What the tasks share: the set connectedTargets and the slice connectionDetails. *)
Record Results : Type := mkResults {
  connectedTargets : gset string; connectionDetails : list AgentConnectionDetail
}.

(** A task of one pair of pods: it tests the connection, then records the target under
    the mutex if it is connected, then appends the detail under the mutex. *)
Inductive task_state : Type :=
| Testing
| Recording (d : AgentConnectionDetail)
| Appending (d : AgentConnectionDetail)
| Ended.

Record Task : Type := mkTask { tkTarget : Pod; tkSource : Pod; tkState : task_state }.

Definition detail_of (t : Task) (connected : bool) (errMsg : string) (err : option error) : AgentConnectionDetail :=
  let sourceNode := t.(tkSource).(pNodeName) in
  let targetNode := t.(tkTarget).(pNodeName) in
  match err with
  | Some e => mkAgentConnectionDetail sourceNode targetNode false ("Error testing connection: " +:+ Error e)
  | None =>
      if negb connected then
        mkAgentConnectionDetail sourceNode targetNode false ("Connection failed: " +:+ errMsg)
      else mkAgentConnectionDetail sourceNode targetNode true ""
  end.

Definition set_tkState (st : task_state) (t : Task) : Task := mkTask t.(tkTarget) t.(tkSource) st.

Definition task_step (ctx : Ctx) (target : Client * Config) (t : Task) (r : Results) : CP (Task * Results) :=
  match t.(tkState) with
  | Testing =>
      x ← testSSHConnection ctx target.1 target.2 t.(tkTarget) t.(tkSource).(pPodIP);
      let '(connected, errMsg, err) := x in
      let d := detail_of t connected errMsg err in
      mret (set_tkState (if d.(Connected) then Recording d else Appending d) t, r)
  | Recording d =>
      mret (set_tkState (Appending d) t,
            mkResults ({[ t.(tkTarget).(pName) ]} ∪ r.(connectedTargets)) r.(connectionDetails))
  | Appending d =>
      mret (set_tkState Ended t, mkResults r.(connectedTargets) (r.(connectionDetails) ++ [d])%list)
  | Ended => mret (t, r)
  end.

Definition task_live (t : Task) : bool := match t.(tkState) with Ended => false | _ => true end.

(** The indices of the tasks that have not ended. *)
Definition live_indices (ts : list Task) : list nat :=
  omap (λ i, match ts !! i with Some t => if task_live t then Some i else None | None => None end)
    (seq 0 (length ts)).

(** The tasks in the worker pool: at each step the scheduler picks a task that has not
    ended; [fuel] bounds the steps. *)
Fixpoint run_pool (fuel : nat) (ctx : Ctx) (target : Client * Config) (ts : list Task) (r : Results)
    : CP (list Task * Results) :=
  match fuel with
  | O => mret (ts, r)
  | S fuel' =>
      match live_indices ts with
      | [] => mret (ts, r)
      | live =>
          n ← ccall (CPick (length live));
          match live !! (n mod length live)%nat with
          | None => mret (ts, r)
          | Some i =>
              match ts !! i with
              | None => mret (ts, r)
              | Some t =>
                  x ← task_step ctx target t r;
                  run_pool fuel' ctx target (<[i := x.1]> ts) x.2
              end
          end
      end
  end.

(** A task takes at most three steps. *)
Definition pool_fuel (ts : list Task) : nat := 3 * length ts.

(** Without a pool a task runs to its end before the next one starts. *)
Definition run_task (ctx : Ctx) (target : Client * Config) (t : Task) (r : Results) : CP Results :=
  x ← task_step ctx target t r;
  x ← task_step ctx target x.1 x.2;
  x ← task_step ctx target x.1 x.2;
  mret x.2.

Definition make_tasks (targetPods sourcePods : list Pod) : list Task :=
  targetPods ≫= λ t, (λ s, mkTask t s Testing) <$> sourcePods.

Record ClusterMappingReconciler : Type := mkClusterMappingReconciler { workerPool : bool }.

Definition run_tasks (r : ClusterMappingReconciler) (ctx : Ctx) (target : Client * Config) (ts : list Task)
    : CP Results :=
  if r.(workerPool) then x ← run_pool (pool_fuel ts) ctx target ts (mkResults ∅ []); mret x.2
  else range_each ts (mkResults ∅ []) (run_task ctx target).

Definition verifyConnectivity (r : ClusterMappingReconciler) (m : ClusterMapping) (source : Client)
    (target : Client * Config) : CP (res ConnectionStatus) :=
  targetPods ←? getAgentPods target.1 onerr wrapf "failed to get target agent pods: ";
  sourcePods ←? getAgentPods source onerr wrapf "failed to get source agent pods: ";
  let timeout := match m.(CMSpec).(ConnectivityTimeoutSeconds) with
                 | None => 60 * Second
                 | Some n => n * Second
                 end in
  results ← run_tasks r (WithTimeout timeout) target (make_tasks targetPods sourcePods);
  mret (Ok (mkConnectionStatus (int32 (Z.of_nat (length sourcePods))) (int32 (Z.of_nat (length targetPods)))
              (int32 (Z.of_nat (size results.(connectedTargets)))) results.(connectionDetails))).

(** ** The phases *)

Definition verify_enabled (m : ClusterMapping) : bool := default true m.(CMSpec).(VerifyConnectivity).

(** Phase and message after a verification. *)
Definition all_connected (st : ConnectionStatus) : bool :=
  (st.(ConnectedAgents) =? st.(TotalTargetAgents)) && (0 <? st.(TotalTargetAgents)).

Definition verdict (st : ConnectionStatus) : string * string :=
  if all_connected st then (ClusterMappingPhaseConnected, "All agents connected successfully")
  else (ClusterMappingPhaseFailed,
        "Only " +:+ itoa st.(ConnectedAgents) +:+ "/" +:+ itoa st.(TotalTargetAgents)
        +:+ " agents connected successfully").

(** The update after a verification; [None] leaves the connection status alone. *)
Definition record_verification (st : option ConnectionStatus) (pm : string * string) (cm : ClusterMapping)
    : CP ClusterMapping :=
  now ← ccall CNow;
  mret (on_status (λ s,
    let s := match st with Some c => set_ConnectionStatus_ (Some c) s | None => s end in
    to_phase pm.1 pm.2 (set_LastVerified (Some now) s)) cm).

(** Return [result] after a status update that must succeed. *)
Definition after_update (m : ClusterMapping) (updateFn : ClusterMapping → CP ClusterMapping) (result : CtrlResult)
    : CP (CtrlResult * res unit) :=
  r ← updateStatusWithRetry m.(CMNamespace) m.(CMName) updateFn;
  match r with
  | Err e => mret (no_requeue, Err e)
  | Ok _ => mret (result, Ok tt)
  end.

(** [x, err := c; if err != nil { return r.setFailedStatus(prefix + err) }] *)
Definition orFailed {A : Type} (m : ClusterMapping) (prefix : string) (c : CP (res A))
    (k : A → CP (CtrlResult * res unit)) : CP (CtrlResult * res unit) :=
  r ← c;
  match r with
  | Ok a => k a
  | Err e => setFailedStatus m (prefix +:+ Error e)
  end.

Definition handlePendingPhase (m : ClusterMapping) : CP (CtrlResult * res unit) :=
  orFailed m "Failed to validate clusters: " (validateClusters m) (λ _,
  after_update m
    (λ cm, mret (on_status (to_phase ClusterMappingPhaseConnecting
                              "Starting key distribution and connectivity verification") cm))
    (mkCtrlResult true 0)).

Definition handleConnectingPhase (r : ClusterMappingReconciler) (m : ClusterMapping) : CP (CtrlResult * res unit) :=
  orFailed m "Failed to get clusters: " (getClusters m) (λ cs,
  orFailed m "Failed to get cluster clients: " (getClusterClients cs.1 cs.2) (λ cl,
  orFailed m "Failed to distribute SSH keys: " (distributeSSHKeys m cl.1 cl.2) (λ _,
  if verify_enabled m then
    orFailed m "Failed to verify connectivity: " (verifyConnectivity r m cl.1.1 cl.2) (λ st,
    after_update m (record_verification (Some st) (verdict st))
      (mkCtrlResult false (if all_connected st then Hour else 5 * Minute)))
  else
    after_update m
      (record_verification None
         (ClusterMappingPhaseConnected, "SSH key distribution completed (connectivity verification disabled)"))
      (mkCtrlResult false Hour)))).

(** Whether the last verification is more than an hour old. *)
Definition verification_due (m : ClusterMapping) : CP bool :=
  match m.(CMStatus).(LastVerified) with
  | None => mret true
  | Some t => now ← ccall CNow; mret (Hour <? now - t)
  end.

Definition handleConnectedPhase (r : ClusterMappingReconciler) (m : ClusterMapping) : CP (CtrlResult * res unit) :=
  if verify_enabled m then
    due ← verification_due m;
    if due : bool then
      orFailed m "Failed to get clusters: " (getClusters m) (λ cs,
      orFailed m "Failed to get cluster clients: " (getClusterClients cs.1 cs.2) (λ cl,
      orFailed m "Failed to verify connectivity: " (verifyConnectivity r m cl.1.1 cl.2) (λ st,
      after_update m (record_verification (Some st) (verdict st)) (mkCtrlResult false Hour))))
    else mret (mkCtrlResult false Hour, Ok tt)
  else mret (mkCtrlResult false Hour, Ok tt).

Definition handleFailedPhase (m : ClusterMapping) : CP (CtrlResult * res unit) :=
  after_update m (λ cm, mret (on_status (to_phase ClusterMappingPhasePending "Retrying after failure") cm))
    (mkCtrlResult false (5 * Minute)).

(** ** Reconcile *)

Definition handle_phase (r : ClusterMappingReconciler) (ns name : string) (m : ClusterMapping)
    : CP (CtrlResult * res unit) :=
  let phase := m.(CMStatus).(CMPhase) in
  if phase =s? "" then
    u ← updateStatusWithRetry ns name
          (λ cm, mret (on_status (to_phase ClusterMappingPhasePending "Initializing ClusterMapping") cm));
    match u with
    | Err e => mret (no_requeue, Err e)
    | Ok _ => mret (mkCtrlResult true 0, Ok tt)
    end
  else if phase =s? ClusterMappingPhasePending then handlePendingPhase m
  else if phase =s? ClusterMappingPhaseConnecting then handleConnectingPhase r m
  else if phase =s? ClusterMappingPhaseConnected then handleConnectedPhase r m
  else if phase =s? ClusterMappingPhaseFailed then handleFailedPhase m
  else
    after_update m
      (λ cm, mret (on_status (to_phase ClusterMappingPhasePending "Resetting to Pending phase due to unknown phase") cm))
      (mkCtrlResult true 0).

(** The backoff that is left, when one applies. *)
Definition remaining_backoff (m : ClusterMapping) : CP (option Z) :=
  match m.(CMStatus).(LastAttemptTime) with
  | Some last =>
      if 0 <? m.(CMStatus).(ConsecutiveFailures) then
        backoff ← draw_backoff m.(CMStatus).(ConsecutiveFailures);
        now ← ccall CNow;
        let elapsed := now - last in
        mret (if elapsed <? backoff then Some (backoff - elapsed) else None)
      else mret None
  | None => mret None
  end.

Definition Reconcile (r : ClusterMappingReconciler) (ns name : string) : CP (CtrlResult * res unit) :=
  g ← ccall (CGetClusterMapping ns name);
  match g with
  | Err err => if IsNotFound err then mret (no_requeue, Ok tt) else mret (no_requeue, Err err)
  | Ok m =>
      b ← remaining_backoff m;
      match b with
      | Some rest => mret (mkCtrlResult false rest, Ok tt)
      | None =>
          if default false m.(CMSpec).(CMPaused) then mret (no_requeue, Ok tt)
          else
            _ ← updateLastAttemptTimeWithRetry ns name;
            handle_phase r ns name m
      end
  end.

(** ** Which mappings an event concerns *)

Definition findClusterMappingsForRemoteCluster (c : RemoteCluster) : CP (list (string * string)) :=
  l ← ccall CListClusterMappings;
  match l with
  | Err _ => mret []
  | Ok cms =>
      mret (omap (λ cm,
        if ((cm.(CMSpec).(CMSourceCluster) =s? c.(RCName)) && (cm.(CMNamespace) =s? c.(RCNamespace)))
           || ((cm.(CMSpec).(TargetCluster) =s? c.(RCName)) && (cm.(CMNamespace) =s? c.(RCNamespace)))
        then Some (cm.(CMNamespace), cm.(CMName)) else None) cms)
  end.

Definition findClusterMappingsForSecret (secretNamespace secretName : string) : CP (list (string * string)) :=
  l ← ccall CListClusterMappings;
  match l with
  | Err _ => mret []
  | Ok cms =>
      mret (omap (λ cm,
        match cm.(CMSpec).(SSHKeySecretRef) with
        | None => None
        | Some ref =>
            let ns := if ref.(SKNamespace) =s? "" then cm.(CMNamespace) else ref.(SKNamespace) in
            if (ref.(SKName) =s? secretName) && (ns =s? secretNamespace)
            then Some (cm.(CMNamespace), cm.(CMName)) else None
        end) cms)
  end.

(** clusterMutexes: LoadOrStore of a mutex, here a number, [fresh] being a new one. *)
Definition getClusterMutex (fresh : nat) (clusterName : string) (clusterMutexes : gmap string nat)
    : nat * gmap string nat :=
  match clusterMutexes !! clusterName with
  | Some m => (m, clusterMutexes)
  | None => (fresh, <[clusterName := fresh]> clusterMutexes)
  end.

End Controller.
