(* ===== verification/ClusterMappingProps.v ===== *)
(** * Properties of the ClusterMapping controller

    The phases and what justifies them, the status updates under their mutex, the
    verification of connections under any schedule of the worker pool, the backoff, and
    the quoting of keys in shell commands. *)

From Stdlib Require Import Ascii.
From S2P Require Import Prelude GoString Errors Types Duration Kube KubeLogic ClusterMapping.

(** ** Taking executions apart *)

Ltac cruns H :=
  lazymatch type of H with
  | runs (match ?x with _ => _ end) _ _ => destruct x eqn:?
  | runs (if ?x then _ else _) _ _ => destruct x eqn:?
  | runs (mret _) _ _ => apply runs_ret_inv in H as [? ?]; subst
  | runs (PRet _) _ _ => apply runs_ret_inv in H as [? ?]; subst
  | runs (ccall ?o ≫= _) _ _ =>
      let a := fresh "a" in let t := fresh "t" in
      apply (runs_call_inv (Sg := CSig) o) in H as (a & t & ? & H); subst; cbn beta in H
  | runs (bindE (ccall ?o) _ _) _ _ =>
      let a := fresh "a" in let t := fresh "t" in
      apply (runs_call_inv (Sg := CSig) o) in H as (a & t & ? & H); subst; cbn beta in H
  | runs (ccall ?o) _ _ =>
      let a := fresh "a" in let t := fresh "t" in
      apply (runs_call_inv (Sg := CSig) o) in H as (a & t & ? & H); subst
  | runs (let _ := _ in _) _ _ => cbv zeta in H
  | runs (pbind _ (PRet _)) _ _ => cbn [pbind] in H
  end.

(** ** A retry that satisfies the law *)

Fixpoint retry_from (n : nat) (fn : CP (res unit)) : CP (res unit) :=
  r ← fn;
  if is_conflict r then
    match n with O => mret r | S n' => _ ← ccall CSleep; retry_from n' fn end
  else mret r.

Definition default_retry : Retry := retry_from 4.

Lemma retry_from_retried n fn tr out : runs (retry_from n fn) tr out → retried fn (S n) tr out.
Proof.
  revert tr. induction n as [|n IH]; intros tr Hr;
    apply runs_bind_inv in Hr as [(r & t1 & t2 & H1 & Hr & ->)|(w & H1 & ->)];
    try (by constructor); destruct (is_conflict r) eqn:Hc; cruns Hr; rewrite ?app_nil_r.
  - constructor; [done|by right].
  - constructor; [done|by left].
  - destruct a. eapply retried_again; [done..|by apply IH].
  - constructor; [done|by left].
Qed.

#[global] Instance default_retry_lawful : LawfulRetry (H := default_retry).
Proof. intros fn tr out. apply retry_from_retried. Qed.

(** ** Status writes *)

Definition writes (tr : list (event CSig)) : list ClusterMapping :=
  omap (λ e : event CSig, match (ev_op e : COp) with CUpdateStatus m => Some m | _ => None end) tr.

Lemma writes_app t1 t2 : writes (t1 ++ t2)%list = (writes t1 ++ writes t2)%list.
Proof. apply omap_app. Qed.

(** Neither a status write nor an operation on the mutex. *)
Definition quiet_op (o : COp) : Prop :=
  match o with CUpdateStatus _ | CLockStatus | CUnlockStatus => False | _ => True end.

(** A program without panics whose calls are quiet. *)
Definition quiet {A : Type} (p : CP A) : Prop :=
  ∀ tr out, runs p tr out → Forall (λ e : event CSig, quiet_op (ev_op e)) tr ∧ ∃ a, out = Ret a.

Lemma quiet_writes tr : Forall (λ e : event CSig, quiet_op (ev_op e)) tr → writes tr = [].
Proof.
  induction 1 as [|[o r] tr Ho _ IH]; [done|]. unfold writes in *. cbn in *. rewrite IH. by destruct o.
Qed.

Lemma quiet_ret {A} (a : A) : quiet (mret a).
Proof. intros tr out Hr. cruns Hr. eauto. Qed.

Lemma quiet_call o : quiet_op o → quiet (ccall o).
Proof.
  intros Ho tr out Hr. cruns Hr. cruns Hr. split; [by repeat constructor|by eauto].
Qed.

Lemma quiet_bind {A B} (p : CP A) (f : A → CP B) : quiet p → (∀ a, quiet (f a)) → quiet (p ≫= f).
Proof.
  intros Hp Hf tr out Hr. apply runs_bind_inv in Hr as [(a & t1 & t2 & H1 & H2 & ->)|(w & H1 & ->)].
  - destruct (Hp _ _ H1) as [? _]. destruct (Hf _ _ _ H2). split; [by apply Forall_app|done].
  - by destruct (Hp _ _ H1) as [_ [? ?]].
Qed.

Lemma quiet_bindE {A B} (p : CP (res A)) w (f : A → CP (res B)) : quiet p → (∀ a, quiet (f a)) → quiet (bindE p w f).
Proof. intros Hp Hf. apply quiet_bind; [done|]. intros [a|e]; [apply Hf|apply quiet_ret]. Qed.

Lemma quiet_range {A St} (xs : list A) (s : St) body : (∀ x s, quiet (body x s)) → quiet (range_each xs s body).
Proof.
  intros Hb. revert s. induction xs as [|x xs IH]; intros s; [apply quiet_ret|].
  apply quiet_bind; [apply Hb|apply IH].
Qed.

Ltac quiet_step :=
  lazymatch goal with
  | |- quiet (match ?x with _ => _ end) => destruct x
  | |- quiet (if ?x then _ else _) => destruct x
  | |- quiet (mret _) => apply quiet_ret
  | |- quiet (ccall ?o) => exact (quiet_call o I)
  | |- quiet (bindE _ _ _) => apply quiet_bindE; [|intros ?; cbn beta]
  | |- quiet (range_each _ _ _) => apply quiet_range; intros ? ?; cbn beta
  | |- quiet (_ ≫= _) => apply quiet_bind; [|intros ?; cbn beta]
  | |- quiet (let _ := _ in _) => cbv zeta
  end.

Create HintDb quiet discriminated.
Ltac quiet_auto := repeat (quiet_step || (progress auto with quiet nocore)).

Lemma execCommandInPod_quiet ctx c cfg pod cmd : quiet (execCommandInPod ctx c cfg pod cmd).
Proof. unfold execCommandInPod. quiet_auto. Qed.
#[export] Hint Resolve execCommandInPod_quiet : quiet.

Lemma getAgentPods_quiet c : quiet (getAgentPods c).
Proof. unfold getAgentPods. quiet_auto. Qed.
#[export] Hint Resolve getAgentPods_quiet : quiet.

Lemma add_to_all_quiet s pods key : quiet (add_to_all s pods key).
Proof. unfold add_to_all, addPublicKeyToAuthorizedKeys. quiet_auto. Qed.
#[export] Hint Resolve add_to_all_quiet : quiet.

Lemma distributeSSHKeys_quiet m s t : quiet (distributeSSHKeys m s t).
Proof.
  unfold distributeSSHKeys, distributeSSHKeysFromSecret, distributeSSHKeysFromAgents, extractPublicKey. quiet_auto.
Qed.
#[export] Hint Resolve distributeSSHKeys_quiet : quiet.

Lemma getClusters_quiet m : quiet (getClusters m).
Proof. unfold getClusters. quiet_auto. Qed.
#[export] Hint Resolve getClusters_quiet : quiet.

Lemma validateClusters_quiet m : quiet (validateClusters m).
Proof. unfold validateClusters. quiet_auto. Qed.
#[export] Hint Resolve validateClusters_quiet : quiet.

Lemma getClusterClients_quiet s t : quiet (getClusterClients s t).
Proof. unfold getClusterClients, getClusterClient. quiet_auto. Qed.
#[export] Hint Resolve getClusterClients_quiet : quiet.

Lemma task_step_quiet ctx tgt t r : quiet (task_step ctx tgt t r).
Proof. unfold task_step, testSSHConnection. quiet_auto. Qed.
#[export] Hint Resolve task_step_quiet : quiet.

Lemma run_pool_quiet fuel ctx tgt ts r : quiet (run_pool fuel ctx tgt ts r).
Proof. revert ts r. induction fuel as [|n IH]; intros ts r; cbn [run_pool]; quiet_auto; apply IH. Qed.
#[export] Hint Resolve run_pool_quiet : quiet.

Lemma verifyConnectivity_quiet r m s t : quiet (verifyConnectivity r m s t).
Proof. unfold verifyConnectivity, run_tasks, run_task. quiet_auto. Qed.
#[export] Hint Resolve verifyConnectivity_quiet : quiet.

Lemma draw_backoff_quiet n : quiet (draw_backoff n).
Proof. unfold draw_backoff. quiet_auto. Qed.
#[export] Hint Resolve draw_backoff_quiet : quiet.

Lemma verification_due_quiet m : quiet (verification_due m).
Proof. unfold verification_due. quiet_auto. Qed.
#[export] Hint Resolve verification_due_quiet : quiet.

Lemma remaining_backoff_quiet m : quiet (remaining_backoff m).
Proof. unfold remaining_backoff. quiet_auto. Qed.
#[export] Hint Resolve remaining_backoff_quiet : quiet.

(** ** The mutex *)

(** Status writes happen only while the mutex is held; it is taken when it is free and
    given back by its holder. *)
Definition mutex (locked : bool) (e : event CSig) : option bool :=
  match (ev_op e : COp) with
  | CLockStatus => if locked then None else Some true
  | CUnlockStatus => if locked then Some false else None
  | CUpdateStatus _ => if locked then Some true else None
  | _ => Some locked
  end.

Lemma mutex_quiet b tr : Forall (λ e : event CSig, quiet_op (ev_op e)) tr → observe mutex b tr = Some b.
Proof. induction 1 as [|[o r] tr Ho _ IH]; [done|]. cbn. by destruct o. Qed.

(** What is shown of a part of Reconcile: it does not panic, keeps the mutex protocol,
    writes at most [n] times, and every write is related by [T] to a version read. *)
Definition read_of (ns name : string) (cm : ClusterMapping) : event CSig :=
  Ev (Sg := CSig) (CGetClusterMapping ns name) (Ok cm).

(** [tr] consists of parts without writes and of updates: a read of the mapping, quiet
    calls, and the write of the version read, changed as [T] says. *)
Inductive written (ns name : string) (T : ClusterMapping → ClusterMapping → Prop) : list (event CSig) → Prop :=
| written_quiet tr : writes tr = [] → written ns name T tr
| written_update latest tq new a :
    Forall (λ e : event CSig, quiet_op (ev_op e)) tq → T latest new →
    written ns name T (read_of ns name latest :: tq ++ [Ev (Sg := CSig) (CUpdateStatus new) a])
| written_app t1 t2 : written ns name T t1 → written ns name T t2 → written ns name T (t1 ++ t2)%list.

Lemma written_mono ns name (T T' : ClusterMapping → ClusterMapping → Prop) tr :
  written ns name T tr → (∀ l n, T l n → T' l n) → written ns name T' tr.
Proof.
  induction 1 as [|latest tq new a Hq HT|t1 t2 H1 IH1 H2 IH2]; intros HTT; [by apply written_quiet|..].
  - apply written_update; auto.
  - apply written_app; auto.
Qed.

(** An update function that only computes: it makes quiet calls and changes the version
    it is given as [T] says. *)
Definition changes (f : ClusterMapping → CP ClusterMapping) (T : ClusterMapping → ClusterMapping → Prop) : Prop :=
  ∀ cm, quiet (f cm) ∧ ∀ tr cm', runs (f cm) tr (Ret cm') → T cm cm'.

Section Updates.
Context (ns name : string) (f : ClusterMapping → CP ClusterMapping) (T : ClusterMapping → ClusterMapping → Prop).
Hypothesis f_changes : changes f T.

Lemma update_attempt_runs tr out :
  runs (update_attempt ns name f) tr out →
  (∃ r, out = Ret r ∧ (r = Ok tt → writes tr ≠ [])) ∧ observe mutex true tr = Some true ∧ written ns name T tr ∧
  (length (writes tr) ≤ 1)%nat.
Proof.
  intros Hr. unfold update_attempt in Hr. cruns Hr. destruct a as [cm|e].
  2:{ cruns Hr. split_and!; [by eauto|done|by apply written_quiet|cbn; lia]. }
  destruct (f_changes cm) as [Hq HT].
  apply runs_bind_inv in Hr as [(cm' & t1 & t2 & H1 & Hr & ->)|(w & H1 & ->)].
  2:{ by destruct (Hq _ _ H1) as [_ [? ?]]. }
  destruct (Hq _ _ H1) as [Hq1 _]. pose proof (quiet_writes _ Hq1) as Hw1.
  cruns Hr.
  assert (Ht : t = [] ∧ ∃ r, out = Ret r).
  { destruct a; cruns Hr; eauto. }
  destruct Ht as [-> [r ->]].
  assert (Hw : writes (read_of ns name cm :: t1 ++ [Ev (Sg := CSig) (CUpdateStatus cm') a])%list = [cm']).
  { change (read_of ns name cm :: t1 ++ _)%list with ([read_of ns name cm] ++ t1 ++ [Ev (Sg := CSig) (CUpdateStatus cm') a])%list.
    by rewrite !writes_app, Hw1. }
  unfold read_of in Hw. split_and!.
  - eexists. split; [done|]. rewrite Hw. done.
  - change (Ev (Sg := CSig) (CGetClusterMapping ns name) (Ok cm) :: t1 ++ _)%list
      with ([read_of ns name cm] ++ t1 ++ [Ev (Sg := CSig) (CUpdateStatus cm') a])%list.
    rewrite !observe_app. change (observe mutex true [read_of ns name cm]) with (Some true). cbn [mbind option_bind].
    by rewrite observe_app, (mutex_quiet true t1 Hq1).
  - apply written_update; [done|by eapply HT].
  - rewrite Hw. done.
Qed.

Lemma retried_update n tr out :
  retried (update_attempt ns name f) n tr out →
  (∃ r, out = Ret r ∧ (r = Ok tt → writes tr ≠ [])) ∧ observe mutex true tr = Some true ∧ written ns name T tr ∧
  (length (writes tr) ≤ n)%nat.
Proof.
  induction 1 as [n tr r Hr _|n t1 t2 r out Hr _ _ IH|n tr w Hr].
  - destruct (update_attempt_runs _ _ Hr) as (? & ? & ? & ?). split_and!; [done..|lia].
  - destruct (update_attempt_runs _ _ Hr) as (_ & Hm & Hw & Hl).
    destruct IH as ((r' & -> & Hr') & Hm' & Hw' & Hl').
    change (Ev (Sg := CSig) CSleep tt :: t2) with ([Ev (Sg := CSig) CSleep tt] ++ t2)%list.
    rewrite observe_app, Hm, !writes_app. cbn. split_and!; [|done| |].
    + exists r'. split; [done|]. intros E. specialize (Hr' E). by destruct (writes t1).
    + apply written_app; [done|]. by apply (written_app _ _ _ [_]); [apply written_quiet|].
    + rewrite length_app. lia.
  - by destruct (update_attempt_runs _ _ Hr) as ((? & ? & _) & _).
Qed.

Lemma update_runs `{LawfulRetry} tr out :
  runs (updateStatusWithRetry ns name f) tr out →
  (∃ r, out = Ret r ∧ (r = Ok tt → writes tr ≠ [])) ∧ observe mutex false tr = Some false ∧ written ns name T tr ∧
  (length (writes tr) ≤ 5)%nat.
Proof.
  intros Hr. unfold updateStatusWithRetry in Hr. cruns Hr.
  apply runs_bind_inv in Hr as [(r & t1 & t2 & H1 & Hr & ->)|(w & H1 & ->)];
    apply retry_runs, retried_update in H1 as ((r' & E & Hne) & Hm & Hw & Hl); [|done].
  injection E as <-. cruns Hr. cruns Hr.
  change (Ev (Sg := CSig) CLockStatus a :: t1 ++ [Ev (Sg := CSig) CUnlockStatus a0])%list
    with ([Ev (Sg := CSig) CLockStatus a] ++ t1 ++ [Ev (Sg := CSig) CUnlockStatus a0])%list.
  rewrite observe_app, !writes_app. cbn. rewrite observe_app, Hm. cbn. rewrite app_nil_r. split_and!; [by eauto|done| |done].
  apply (written_app _ _ _ [_]); [by apply written_quiet|]. apply written_app; [done|by apply written_quiet].
Qed.

End Updates.

(** ** The phase machine *)

Definition phases : list string :=
  [""; ClusterMappingPhasePending; ClusterMappingPhaseConnecting; ClusterMappingPhaseConnected; ClusterMappingPhaseFailed].

(** The abstract state machine of a mapping. *)
Inductive phase_step : string → string → Prop :=
| ps_initialize : phase_step "" ClusterMappingPhasePending
| ps_validated : phase_step ClusterMappingPhasePending ClusterMappingPhaseConnecting
| ps_invalid : phase_step ClusterMappingPhasePending ClusterMappingPhaseFailed
| ps_connected : phase_step ClusterMappingPhaseConnecting ClusterMappingPhaseConnected
| ps_unconnected : phase_step ClusterMappingPhaseConnecting ClusterMappingPhaseFailed
| ps_still_connected : phase_step ClusterMappingPhaseConnected ClusterMappingPhaseConnected
| ps_disconnected : phase_step ClusterMappingPhaseConnected ClusterMappingPhaseFailed
| ps_retry : phase_step ClusterMappingPhaseFailed ClusterMappingPhasePending
| ps_unknown p : p ∉ phases → phase_step p ClusterMappingPhasePending.
#[export] Hint Constructors phase_step : drsync.

(** [t] is a contiguous part of [tr]. *)
Definition within (t tr : list (event CSig)) : Prop := ∃ before after, tr = (before ++ t ++ after)%list.

Lemma within_refl t : within t t.
Proof. exists [], []. by rewrite app_nil_r. Qed.
Lemma within_trans t1 t2 t3 : within t1 t2 → within t2 t3 → within t1 t3.
Proof. intros (a & b & ->) (c & d & ->). exists (c ++ a)%list, (b ++ d)%list. by rewrite <- !app_assoc. Qed.

(** The connection status [st] is the result of a verification that is part of [tr]. *)
Definition verified (r : ClusterMappingReconciler) (m : ClusterMapping) (tr : list (event CSig))
    (st : ConnectionStatus) : Prop :=
  ∃ source target trv, runs (verifyConnectivity r m source target) trv (Ret (Ok st)) ∧ within trv tr.

(** A write that moves the mapping on: a step of the machine from the phase that was
    read first; the rest of the object is the latest version; the failure counter stays
    or goes up with a failure; and Connected is written only after a verification that
    found every agent connected, unless verification is disabled. *)
Record moves (r : ClusterMappingReconciler) (first : ClusterMapping) (tr : list (event CSig))
    (latest new : ClusterMapping) : Prop := {
  mv_phase : phase_step first.(CMStatus).(CMPhase) new.(CMStatus).(CMPhase);
  mv_object : set_CMStatus latest.(CMStatus) new = latest;
  mv_attempt : new.(CMStatus).(LastAttemptTime) = latest.(CMStatus).(LastAttemptTime);
  mv_failures : new.(CMStatus).(ConsecutiveFailures) = latest.(CMStatus).(ConsecutiveFailures) ∨
    (new.(CMStatus).(CMPhase) = ClusterMappingPhaseFailed ∧
     new.(CMStatus).(ConsecutiveFailures) = int64 (latest.(CMStatus).(ConsecutiveFailures) + 1));
  mv_connected : new.(CMStatus).(CMPhase) = ClusterMappingPhaseConnected → verify_enabled first = true →
    ∃ st, new.(CMStatus).(ConnectionStatus_) = Some st ∧ all_connected st = true ∧ verified r first tr st
}.

Lemma moves_mono r m tr tr' l n : moves r m tr l n → within tr tr' → moves r m tr' l n.
Proof.
  intros [] Hs. split; auto. intros Hc Hv. destruct (mv_connected0 Hc Hv) as (st & ? & ? & (a & b & tv & ? & Ht)).
  exists st. split_and!; [done..|]. exists a, b, tv. split; [done|by eapply within_trans].
Qed.

Definition stamps (latest new : ClusterMapping) : Prop :=
  ∃ now, new = on_status (set_LastAttemptTime (Some now)) latest.

Definition written_well (ns name : string) (T : list (event CSig) → ClusterMapping → ClusterMapping → Prop) (n : nat)
    (tr : list (event CSig)) (out : exec (CtrlResult * res unit)) : Prop :=
  (∃ x, out = Ret x) ∧ observe mutex false tr = Some false ∧ written ns name (T tr) tr ∧ (length (writes tr) ≤ n)%nat.

Definition does (ns name : string) (p : CP (CtrlResult * res unit))
    (T : list (event CSig) → ClusterMapping → ClusterMapping → Prop) (n : nat) : Prop :=
  ∀ tr out, runs p tr out → written_well ns name T n tr out.

Section Does.
Context (ns name : string).

Lemma does_ret x T n : does ns name (mret x) T n.
Proof. intros tr out Hr. cruns Hr. split_and!; [by eauto|done|by apply written_quiet|cbn; lia]. Qed.

Lemma does_bind {A} (c : CP A) k T n :
  quiet c → (∀ a t1, runs c t1 (Ret a) → does ns name (k a) (λ t, T (t1 ++ t)%list) n) → does ns name (c ≫= k) T n.
Proof.
  intros Hq Hk tr out Hr. apply runs_bind_inv in Hr as [(a & t1 & t2 & H1 & H2 & ->)|(w & H1 & ->)];
    destruct (Hq _ _ H1) as [Hqt Hp]; [|by destruct Hp].
  destruct (Hk a t1 H1 t2 out H2) as (Ho & Hm & Hw & Hl). split_and!; [done| | |].
  - by rewrite observe_app, (mutex_quiet false t1 Hqt).
  - apply written_app; [by apply written_quiet, quiet_writes|done].
  - by rewrite writes_app, quiet_writes.
Qed.

Context `{LawfulRetry}.

Lemma does_update f T (T' : list (event CSig) → ClusterMapping → ClusterMapping → Prop) k :
  changes f T → (∀ tr l n, T l n → T' tr l n) →
  (∀ r : res unit, quiet (k r)) →
  does ns name (updateStatusWithRetry ns name f ≫= k) T' 5.
Proof.
  intros Hf HT Hk tr out Hr. apply runs_bind_inv in Hr as [(a & t1 & t2 & H1 & H2 & ->)|(w & H1 & ->)];
    destruct (update_runs ns name f T Hf _ _ H1) as ((r & E & _) & Hm & Hw & Hl); [|done].
  destruct (Hk a _ _ H2) as [Hq Ho]. split_and!; [done| | |].
  - rewrite observe_app, Hm. by apply mutex_quiet.
  - apply written_app; [by eapply written_mono; [|apply HT]|by apply written_quiet, quiet_writes].
  - by rewrite writes_app, (quiet_writes t2 Hq), app_nil_r.
Qed.

End Does.

(** An update function that sets the status without further calls. *)
Lemma changes_plain f : changes (λ cm, mret (on_status f cm)) (λ l n, n = on_status f l).
Proof. intros cm. split; [apply quiet_ret|]. intros tr cm' Hr. cruns Hr. by simplify_eq. Qed.

Lemma changes_verification st pm :
  changes (record_verification st pm) (λ l n, ∃ now, n = on_status (λ s,
    to_phase pm.1 pm.2 (set_LastVerified (Some now) match st with Some c => set_ConnectionStatus_ (Some c) s | None => s end)) l).
Proof.
  intros cm. split; [unfold record_verification; quiet_auto|]. intros tr cm' Hr.
  unfold record_verification in Hr. cruns Hr. cruns Hr. simplify_eq. eauto.
Qed.

Section Handlers.
Context `{LawfulRetry} (r : ClusterMappingReconciler) (m : ClusterMapping).
Abbreviation does_moves p pre := (does m.(CMNamespace) m.(CMName) p (λ t, moves r m (pre t)) 5).

(** Setting the phase alone, by [to_phase], without reaching Connected. *)
Lemma moves_to_phase phase message tr latest :
  phase_step m.(CMStatus).(CMPhase) phase → phase ≠ ClusterMappingPhaseConnected →
  moves r m tr latest (on_status (to_phase phase message) latest).
Proof. intros Hp Hc. destruct latest as [? ? ? ? []]. split; cbn; auto. by intros. Qed.

Lemma setFailedStatus_does message pre :
  phase_step m.(CMStatus).(CMPhase) ClusterMappingPhaseFailed →
  does_moves (setFailedStatus m message) pre.
Proof.
  intros Hp. unfold setFailedStatus, setFailedStatusWithRetry. apply (does_update _ _ _ _ _ _ (changes_plain _)).
  - intros tr l n ->. destruct l as [? ? ? ? []]. split; cbn; auto. by intros [=].
  - intros []; quiet_auto.
Qed.

Lemma after_update_does f T result pre :
  changes f T → (∀ tr l n, T l n → moves r m (pre tr) l n) → does_moves (after_update m f result) pre.
Proof.
  intros Hf HT. unfold after_update. apply (does_update _ _ _ _ _ _ Hf HT). intros []; quiet_auto.
Qed.

(** A step whose error sets the mapping to Failed. *)
Lemma orFailed_does {A} prefix (c : CP (res A)) k pre :
  phase_step m.(CMStatus).(CMPhase) ClusterMappingPhaseFailed → quiet c →
  (∀ a t1, runs c t1 (Ret (Ok a)) → does_moves (k a) (λ t, pre (t1 ++ t)%list)) →
  does_moves (orFailed m prefix c k) pre.
Proof.
  intros Hp Hq Hk. apply does_bind; [done|]. intros [a|e] t1 Hr; [by apply Hk|].
  apply (setFailedStatus_does _ (λ t, pre (t1 ++ t)%list)); done.
Qed.

(** The write after a verification, from a phase that can become Connected or Failed. *)
Lemma verification_moves st trv tr latest now :
  phase_step m.(CMStatus).(CMPhase) ClusterMappingPhaseConnected →
  phase_step m.(CMStatus).(CMPhase) ClusterMappingPhaseFailed → verified r m trv st → within trv tr →
  moves r m tr latest (on_status (λ s, to_phase (verdict st).1 (verdict st).2
    (set_LastVerified (Some now) (set_ConnectionStatus_ (Some st) s))) latest).
Proof.
  intros Hc Hf (src & tgt & t & Hv & Ht) Hsub. destruct latest as [? ? ? ? []]. unfold verdict.
  destruct (all_connected st) eqn:E; split; cbn; auto.
  - intros _ _. exists st. split_and!; [done..|]. exists src, tgt, t. split; [done|]. by eapply within_trans.
  - by intros [=].
Qed.

Lemma verify_does source target result pre t1 :
  phase_step m.(CMStatus).(CMPhase) ClusterMappingPhaseConnected →
  phase_step m.(CMStatus).(CMPhase) ClusterMappingPhaseFailed →
  (∀ t, pre t = (t1 ++ t)%list) →
  does_moves (orFailed m "Failed to verify connectivity: " (verifyConnectivity r m source target) (λ st,
                after_update m (record_verification (Some st) (verdict st)) (result st))) pre.
Proof.
  intros Hc Hf Hpre. apply orFailed_does; [done|auto with quiet|]. intros st t2 Hv.
  eapply after_update_does; [apply changes_verification|]. intros tr l n [now ->].
  eapply verification_moves; [done..| |]; [exists source, target, t2; split; [done|apply within_refl]|].
  rewrite Hpre. by exists t1, tr.
Qed.

Lemma handlePendingPhase_does : m.(CMStatus).(CMPhase) = ClusterMappingPhasePending →
  does_moves (handlePendingPhase m) (λ t, t).
Proof.
  intros Hp. apply orFailed_does; [rewrite Hp; constructor|auto with quiet|]. intros _ t1 _.
  eapply after_update_does; [apply changes_plain|]. intros tr l n ->. apply moves_to_phase; [rewrite Hp; constructor|done].
Qed.

Lemma handleFailedPhase_does : m.(CMStatus).(CMPhase) = ClusterMappingPhaseFailed →
  does_moves (handleFailedPhase m) (λ t, t).
Proof.
  intros Hp. eapply after_update_does; [apply changes_plain|]. intros tr l n ->.
  apply moves_to_phase; [rewrite Hp; constructor|done].
Qed.

Lemma handleConnectingPhase_does : m.(CMStatus).(CMPhase) = ClusterMappingPhaseConnecting →
  does_moves (handleConnectingPhase r m) (λ t, t).
Proof.
  intros Hp. assert (Hf : phase_step m.(CMStatus).(CMPhase) ClusterMappingPhaseFailed) by (rewrite Hp; constructor).
  assert (Hc : phase_step m.(CMStatus).(CMPhase) ClusterMappingPhaseConnected) by (rewrite Hp; constructor).
  unfold handleConnectingPhase.
  apply orFailed_does; [done|auto with quiet|]. intros cs t1 _.
  apply orFailed_does; [done|auto with quiet|]. intros cl t2 _.
  apply orFailed_does; [done|auto with quiet|]. intros _ t3 _. destruct (verify_enabled m) eqn:Ev.
  - eapply (verify_does _ _ _ _ (t1 ++ t2 ++ t3)); [done..|]. intros t. by rewrite <- !app_assoc.
  - eapply after_update_does; [apply changes_verification|]. intros tr l n [now ->].
    destruct l as [? ? ? ? []]. split; cbn; auto. by rewrite Ev.
Qed.

Lemma handleConnectedPhase_does : m.(CMStatus).(CMPhase) = ClusterMappingPhaseConnected →
  does_moves (handleConnectedPhase r m) (λ t, t).
Proof.
  intros Hp. assert (Hf : phase_step m.(CMStatus).(CMPhase) ClusterMappingPhaseFailed) by (rewrite Hp; constructor).
  assert (Hc : phase_step m.(CMStatus).(CMPhase) ClusterMappingPhaseConnected) by (rewrite Hp; constructor).
  unfold handleConnectedPhase. destruct (verify_enabled m); [|apply does_ret].
  apply does_bind; [auto with quiet|]. intros [] t0 _; [|apply does_ret].
  apply (orFailed_does _ _ _ (λ t, t0 ++ t)%list); [done|auto with quiet|]. intros cs t1 _.
  apply (orFailed_does _ _ _ (λ t, t0 ++ t1 ++ t)%list); [done|auto with quiet|]. intros cl t2 _.
  eapply (verify_does _ _ _ _ (t0 ++ t1 ++ t2)); [done..|]. intros t. by rewrite <- !app_assoc.
Qed.

Lemma handle_phase_does : does_moves (handle_phase r m.(CMNamespace) m.(CMName) m) (λ t, t).
Proof.
  unfold handle_phase. repeat case_match; bool_props.
  - eapply after_update_does; [apply changes_plain|]. intros tr l n ->. apply moves_to_phase; [|done].
    match goal with E : CMPhase _ = _ |- _ => rewrite E end. constructor.
  - by apply handlePendingPhase_does.
  - by apply handleConnectingPhase_does.
  - by apply handleConnectedPhase_does.
  - by apply handleFailedPhase_does.
  - eapply after_update_does; [apply changes_plain|]. intros tr l n ->. apply moves_to_phase; [|done].
    apply ps_unknown. unfold phases. rewrite !elem_of_cons, elem_of_nil. tauto.
Qed.

End Handlers.

(** ** An environment to run the controller in *)

(** Two clusters with one agent each that can reach the other; the state is the stored
    mapping, whose version changes with every update. *)
Definition demo_cluster (name : string) : RemoteCluster :=
  mkRemoteCluster name "dr" "1" (mkKubeconfigSecretRef "kubeconfig" "dr" "") ""
    (Some (mkPVCSyncSpec true None None None None "" None None)) (mkRemoteClusterStatus "" None [] None).

Definition demo_pod : Pod := mkPod "agent-1" "dr-syncer" "node-1" ["agent"] "10.0.0.1" "Running".

Definition demo (reachable : bool) : handler CSig ClusterMapping := λ o s,
  match o as o return CResp o * ClusterMapping with
  | CNow => (1000 * Second, s)
  | CSleep | CLockStatus | CUnlockStatus => (tt, s)
  | CRand => (0, s)
  | CGetClusterMapping _ _ => (Ok s, s)
  | CUpdateStatus m =>
      let s' := mkClusterMapping s.(CMName) s.(CMNamespace) (s.(CMResourceVersion) +:+ "'") s.(CMSpec) m.(CMStatus) in
      (Ok s', s')
  | CListClusterMappings => (Ok [s], s)
  | CGetRemoteCluster _ name => (if reachable then Ok (demo_cluster name) else Err (StatusError NotFound "not found"), s)
  | CGetSecret _ _ => (Ok {[ "kubeconfig" := "config" ]}, s)
  | CRESTConfig _ => (Ok 1, s)
  | CNewForConfig _ => (Ok 1, s)
  | CListPods _ _ => (Ok [demo_pod], s)
  | CNewSPDYExecutor _ _ => (Ok tt, s)
  | CStream _ _ _ => ("ssh-rsa AAAA SSH proxy connection successful", "", None, s)
  | CPick _ => (0%nat, s)
  end.

Definition demo_mapping (phase : string) (failures : Z) (last : option Time) : ClusterMapping :=
  mkClusterMapping "m" "dr" "1" (mkClusterMappingSpec None "a" "b" None None None)
    (mkClusterMappingStatus phase "" None None [] last failures).

Definition demo_run (reachable : bool) (m : ClusterMapping) : exec (CtrlResult * res unit) * ClusterMapping :=
  run (demo reachable) (Reconcile (H := default_retry) (mkClusterMappingReconciler true) "dr" "m") m.

Definition demo_trace (reachable : bool) (m : ClusterMapping) : list (event CSig) :=
  run_trace (demo reachable) (Reconcile (H := default_retry) (mkClusterMappingReconciler true) "dr" "m") m.

Lemma demo_runs reachable m :
  runs (Reconcile (H := default_retry) (mkClusterMappingReconciler true) "dr" "m") (demo_trace reachable m)
    (demo_run reachable m).1.
Proof. apply run_trace_runs. Qed.

(** A mapping is connected after three reconciliations. *)
Example demo_connects :
  (λ x : exec (CtrlResult * res unit) * ClusterMapping, x.2.(CMStatus).(CMPhase)) <$>
  (let s1 := demo_run true (demo_mapping "" 0 None) in
   let s2 := demo_run true s1.2 in let s3 := demo_run true s2.2 in [s1; s2; s3])
  = [ClusterMappingPhasePending; ClusterMappingPhaseConnecting; ClusterMappingPhaseConnected].
Proof. vm_compute. reflexivity. Qed.

(** ** Reconcile *)

Section Reconcile.
Context `{LawfulRetry} (r : ClusterMappingReconciler) (ns name : string).

Lemma changes_stamp : changes (λ cm, now ← ccall CNow; mret (on_status (set_LastAttemptTime (Some now)) cm)) stamps.
Proof.
  intros cm. split; [quiet_auto|]. intros tr cm' Hr. cruns Hr. cruns Hr. simplify_eq. by eexists.
Qed.

(** The two updates of a reconciliation, one after the other. *)
Lemma attempt_does m : m.(CMNamespace) = ns → m.(CMName) = name →
  ∀ tr out, runs (_ ← updateLastAttemptTimeWithRetry ns name; handle_phase r ns name m) tr out →
  written_well ns name (λ t l n, stamps l n ∨ moves r m t l n) 10 tr out.
Proof.
  intros <- <- tr out Hr. apply runs_bind_inv in Hr as [(a & t1 & t2 & H1 & H2 & ->)|(w & H1 & ->)];
    destruct (update_runs _ _ _ _ changes_stamp _ _ H1) as ((x & E & _) & Hm & Hw & Hl); [|done].
  destruct (handle_phase_does r m _ _ H2) as (Ho & Hm' & Hw' & Hl'). split_and!; [done| | |].
  - by rewrite observe_app, Hm.
  - apply written_app; (eapply written_mono; [done|]); [by left|]. intros l n Hmv. right.
    apply (moves_mono r m t2); [done|]. exists t1, []. by rewrite app_nil_r.
  - rewrite writes_app, length_app. lia.
Qed.

Lemma Reconcile_does tr out :
  runs (Reconcile r ns name) tr out →
  ∃ g tr', tr = Ev (Sg := CSig) (CGetClusterMapping ns name) g :: tr' ∧
  match g with
  | Err _ => tr' = []
  | Ok first => first.(CMNamespace) = ns → first.(CMName) = name →
      written_well ns name (λ t l n, stamps l n ∨ moves r first t l n) 10 tr' out
  end.
Proof.
  intros Hr. unfold Reconcile in Hr. cruns Hr. exists a, t. split; [done|].
  destruct a as [m|e]; [|by destruct (IsNotFound e); cruns Hr]. intros Hns Hnm.
  pose proof (does_bind ns name (remaining_backoff m) (λ b, match b with
    | Some rest => mret (mkCtrlResult false rest, Ok tt)
    | None => if default false m.(CMSpec).(CMPaused) then mret (no_requeue, Ok tt)
              else _ ← updateLastAttemptTimeWithRetry ns name; handle_phase r ns name m
    end)) as Hd.
  specialize (Hd (λ t l n, stamps l n ∨ moves r m t l n) 10%nat (remaining_backoff_quiet m)).
  apply Hd in Hr; [done|]. intros [rest|] t1 _; [apply does_ret|].
  destruct (default false m.(CMSpec).(CMPaused)); [apply does_ret|].
  intros tr' out' Hr'. destruct (attempt_does m Hns Hnm _ _ Hr') as (Ho & Hm & Hw & Hl). split_and!; [done..| |done].
  eapply written_mono; [exact Hw|]. intros l n [?|Hmv]; [by left|]. right.
  apply (moves_mono r m tr'); [done|]. exists t1, []. by rewrite app_nil_r.
Qed.


End Reconcile.

Definition mapping_read (e : event CSig) : option ClusterMapping :=
  match e with
  | Ev o r =>
      match o as o return CResp o → option ClusterMapping with
      | CGetClusterMapping _ _ => λ r, match r with Ok m => Some m | Err _ => None end
      | _ => λ _, None
      end r
  end.


(** ** Backoff *)

Lemma read_inj ns name (a b : res ClusterMapping) :
  Ev (Sg := CSig) (CGetClusterMapping ns name) a = Ev (Sg := CSig) (CGetClusterMapping ns name) b → a = b.
Proof.
  intros E. apply (f_equal (λ e : event CSig, match e with
    | Ev o r => (match o as o return CResp o → option (res ClusterMapping) with
                 | CGetClusterMapping _ _ => λ r, Some r | _ => λ _, None end) r end)) in E.
  by injection E.
Qed.

(** A mapping with failures is left alone during its backoff: a reconciliation
    draws the jitter, looks at the clock, and when the last attempt is too recent does
    nothing but ask to be called again when the rest of the backoff is over. *)
Theorem Reconcile_backoff `{Retry} r ns name m last tr out :
  0 < m.(CMStatus).(ConsecutiveFailures) → m.(CMStatus).(LastAttemptTime) = Some last →
  runs (Reconcile r ns name) (read_of ns name m :: tr) out →
  ∃ rnd now tr', tr = Ev (Sg := CSig) CRand rnd :: Ev (Sg := CSig) CNow now :: tr' ∧
    let backoff := CalculateBackoff m.(CMStatus).(ConsecutiveFailures) rnd in
    now - last < backoff → tr' = [] ∧ out = Ret (mkCtrlResult false (backoff - (now - last)), Ok tt).
Proof.
  intros Hf Hl Hr. unfold Reconcile in Hr.
  apply (runs_call_inv (Sg := CSig) (CGetClusterMapping ns name)) in Hr as (g & t & E & Hr).
  pose proof (f_equal (λ l, default (Ev (Sg := CSig) CSleep tt) (head l)) E) as Eg. cbn in Eg. apply read_inj in Eg as <-.
  apply (f_equal tail) in E. cbn in E. subst t. cbn beta iota in Hr.
  unfold remaining_backoff in Hr. rewrite Hl, (proj2 (Z.ltb_lt _ _) Hf) in Hr. unfold draw_backoff in Hr.
  rewrite (proj2 (Z.leb_gt _ _) Hf) in Hr.
  apply (runs_call_inv (Sg := CSig) CRand) in Hr as (rnd & t & -> & Hr).
  apply (runs_call_inv (Sg := CSig) CNow) in Hr as (now & t' & -> & Hr). exists rnd, now, t'. split; [done|].
  cbv zeta. intros Hlt. cbn in Hr. rewrite (proj2 (Z.ltb_lt _ _) Hlt) in Hr. by apply runs_ret_inv in Hr.
Qed.

Lemma Reconcile_backoff_witness :
  ∃ rnd now tr', tail (demo_trace true (demo_mapping ClusterMappingPhasePending 3 (Some (999 * Second)))) =
    Ev (Sg := CSig) CRand rnd :: Ev (Sg := CSig) CNow now :: tr'.
Proof.
  destruct (Reconcile_backoff (H := default_retry) (mkClusterMappingReconciler true) "dr" "m"
    (demo_mapping ClusterMappingPhasePending 3 (Some (999 * Second))) (999 * Second)
    (tail (demo_trace true (demo_mapping ClusterMappingPhasePending 3 (Some (999 * Second)))))
    (demo_run true (demo_mapping ClusterMappingPhasePending 3 (Some (999 * Second)))).1)
    as (rnd & now & tr' & E & _); [reflexivity|reflexivity|apply (demo_runs true)|by exists rnd, now, tr'].
Defined.

(** The server acknowledged a write of [t] that changes the version read as [T] says, and every
    other write of [t] does so too. *)
Definition acknowledged (ns name : string) (T : ClusterMapping → ClusterMapping → Prop) (t : list (event CSig)) : Prop :=
  (∃ latest new stored, read_of ns name latest ∈ t ∧ Ev (Sg := CSig) (CUpdateStatus new) (Ok stored) ∈ t ∧ T latest new) ∧
  written ns name T t.

Lemma update_acknowledged `{LawfulRetry} ns name f T tr :
  changes f T → runs (updateStatusWithRetry ns name f) tr (Ret (Ok tt)) → acknowledged ns name T tr.
Proof.
  intros Hf Hr. split; [|by destruct (update_runs _ _ _ _ Hf _ _ Hr) as (_ & _ & Hw & _)].
  assert (Ha : ∀ t, runs (update_attempt ns name f) t (Ret (Ok tt)) →
    ∃ latest new stored, read_of ns name latest ∈ t ∧ Ev (Sg := CSig) (CUpdateStatus new) (Ok stored) ∈ t ∧ T latest new).
  { intros t Ht. unfold update_attempt in Ht. cruns Ht. destruct a as [cm|e]; [|by cruns Ht].
    apply runs_bind_inv in Ht as [(new & t1 & t2 & H1 & Ht & ->)|(w & _ & [=])].
    apply (proj2 (Hf cm)) in H1. cruns Ht. destruct a as [stored|e]; [|by cruns Ht].
    exists cm, new, stored. split_and!; [left|set_solver|done]. }
  unfold updateStatusWithRetry in Hr. cruns Hr.
  apply runs_bind_inv in Hr as [(r & t1 & t2 & H1 & Hr & ->)|(w & _ & [=])]. cruns Hr. cruns Hr. simplify_eq.
  apply retry_runs in H1. remember (Ret (Ok tt)) as out eqn:Eo.
  assert (Hin : ∃ latest new stored, read_of ns name latest ∈ t1 ∧ Ev (Sg := CSig) (CUpdateStatus new) (Ok stored) ∈ t1 ∧ T latest new).
  { induction H1 as [n tr r Hr _|n ta tb r out Hr _ _ IH|n tr w Hr]; [simplify_eq; by apply Ha| |done].
    destruct (IH Eo Ha) as (lt & nw & sd & G1 & G2 & HT). exists lt, nw, sd. split_and!; [set_solver..|done]. }
  destruct Hin as (lt & nw & sd & G1 & G2 & HT). exists lt, nw, sd. split_and!; [set_solver..|done].
Qed.

(** What setFailedStatus does: it stores Failed and one failure more, but asks for
    the next attempt after the backoff of the counter before the update; after the first
    failure that is no backoff at all, and the mapping is not requeued. *)
Theorem setFailedStatus_stale_backoff `{LawfulRetry} m message tr x :
  runs (setFailedStatus m message) tr (Ret (x, Ok tt)) →
  writes tr ≠ [] ∧
  written m.(CMNamespace) m.(CMName)
    (λ latest new, new.(CMStatus).(CMPhase) = ClusterMappingPhaseFailed ∧
       new.(CMStatus).(ConsecutiveFailures) = int64 (latest.(CMStatus).(ConsecutiveFailures) + 1)) tr ∧
  x.(Requeue) = false ∧ (∃ rnd, x.(RequeueAfter) = CalculateBackoff m.(CMStatus).(ConsecutiveFailures) rnd) ∧
  (m.(CMStatus).(ConsecutiveFailures) = 0 → x = no_requeue).
Proof.
  intros Hr. unfold setFailedStatus, setFailedStatusWithRetry in Hr.
  apply runs_bind_inv in Hr as [(u & t1 & t2 & H1 & Hr & ->)|(w & _ & [=])].
  destruct (update_runs _ _ _ _ (changes_plain _) _ _ H1) as ((u' & [= <-] & Hne) & _ & Hw & _).
  destruct u as [[]|e]; [|by cruns Hr]. specialize (Hne eq_refl).
  assert (Hb : ∃ rnd, x = mkCtrlResult false (CalculateBackoff m.(CMStatus).(ConsecutiveFailures) rnd) ∧ writes t2 = []).
  { unfold draw_backoff in Hr. destruct (_ <=? 0) eqn:E.
    - exists 0. unfold CalculateBackoff. rewrite E. apply runs_ret_inv in Hr as [-> [= ->]]. done.
    - apply (runs_call_inv (Sg := CSig) CRand) in Hr as (rnd & t & -> & Hr). exists rnd.
      apply runs_ret_inv in Hr as [-> [= ->]]. done. }
  destruct Hb as (rnd & -> & Hw2). split_and!; [|..|done|by eauto|].
  - rewrite writes_app. by destruct (writes t1).
  - apply written_app; [|by apply written_quiet]. eapply written_mono; [exact Hw|]. by intros l n ->.
  - by intros ->.
Qed.

Lemma setFailedStatus_stale_backoff_witness :
  let m := demo_mapping ClusterMappingPhasePending 0 None in
  let p := setFailedStatus (H := default_retry) m "no source cluster" in
  writes (run_trace (demo true) p m) ≠ [] ∧ (run (demo true) p m).1 = Ret (no_requeue, Ok tt).
Proof.
  cbv zeta. set (m := demo_mapping _ _ _). set (p := setFailedStatus _ _).
  assert (E : (run (demo true) p m).1 = Ret (no_requeue, Ok tt)) by (vm_compute; reflexivity).
  pose proof (run_trace_runs (demo true) p m) as Hr. rewrite E in Hr. split; [|exact E].
  exact (proj1 (setFailedStatus_stale_backoff (H := default_retry) m "no source cluster" _ _ Hr)).
Defined.

(** ** Keys in shell commands *)

(** How a POSIX shell reads a word: between single quotes every character stands for
    itself; outside, a backslash quotes the next character, and a blank or an operator
    ends the word.  The result is the word and the rest of the line. *)
Definition ends_word (c : ascii) : bool :=
  existsb (Ascii.eqb c) [" "; "009"; "010"; ";"; "&"; "|"; "<"; ">"; "("; ")"]%char.

Fixpoint sh_word (in_quotes : bool) (s : string) : option (string * string) :=
  match s with
  | EmptyString => if in_quotes then None else Some ("", "")
  | String c s' =>
      if in_quotes then
        if Ascii.eqb c "'" then sh_word false s'
        else (λ w, (String c w.1, w.2)) <$> sh_word true s'
      else if Ascii.eqb c "'" then sh_word true s'
      else if Ascii.eqb c "\" then
        match s' with
        | EmptyString => None
        | String d s'' => (λ w, (String d w.1, w.2)) <$> sh_word false s''
        end
      else if ends_word c then Some ("", s)
      else (λ w, (String c w.1, w.2)) <$> sh_word false s'
  end.

Lemma sh_word_quoted key suffix rest :
  sh_word true suffix = Some ("", rest) →
  sh_word true (ReplaceAll key "'"%char "'\''" +:+ suffix) = Some (key, rest).
Proof.
  intros Hs. induction key as [|c key IH]; [exact Hs|]. cbn [ReplaceAll]. destruct (Ascii.eqb c "'") eqn:E.
  - apply Ascii.eqb_eq in E as ->. rewrite sappend_assoc, !sappend_cons, sappend_nil. cbn [sh_word Ascii.eqb Bool.eqb].
    by rewrite IH.
  - rewrite sappend_cons. cbn [sh_word]. by rewrite E, IH.
Qed.

Lemma sh_word_quoted_word key rest : sh_word false (quoted key +:+ " " +:+ rest) = Some (key, " " +:+ rest).
Proof.
  unfold quoted. rewrite !sappend_assoc, sappend_cons, sappend_nil. cbn [sh_word Ascii.eqb Bool.eqb].
  by apply sh_word_quoted.
Qed.

(** A key cannot escape from the commands it is put into: whatever bytes it has,
    the shell reads it back as exactly one word, the pattern of grep and the argument of
    echo, and goes on with the text the code wrote after it. *)
Theorem key_commands_verbatim key :
  (∃ tail, checkCmd key = "grep -q " +:+ tail ∧
     sh_word false tail = Some (key, " " +:+ authorized_keys +:+ " && echo 'exists' || echo 'not exists'")) ∧
  (∃ tail, appendCmd key = "echo " +:+ tail ∧ sh_word false tail = Some (key, " >> " +:+ authorized_keys)).
Proof.
  split; eexists; (split; [reflexivity|]).
  - apply (sh_word_quoted_word key (authorized_keys +:+ " && echo 'exists' || echo 'not exists'")).
  - apply (sh_word_quoted_word key (">> " +:+ authorized_keys)).
Qed.
