(* ===== verification/ConnectivityProps.v ===== *)
(** * verifyConnectivity under any schedule

    The tasks of verifyConnectivity (ClusterMapping.v) run in the worker pool in any
    order and interleaving.  Whatever the schedule, every pair of agents is tested, and
    a target agent is counted exactly when one of its tests succeeded. *)

From S2P Require Import Prelude GoString Errors Types Duration Kube KubeLogic ClusterMapping ClusterMappingProps Concurrency.

(** ** Evidence for a connection *)

(** A command to [req] succeeded in [tr] with the output of a working connection. *)
Definition succeeded (req : ExecRequest) (tr : list (event CSig)) : Prop :=
  ∃ ctx cfg stdout stderr, Ev (Sg := CSig) (CStream ctx cfg req) (stdout, stderr, None) ∈ tr ∧
    Contains stdout "SSH proxy connection successful" = true.

Definition test_request (client : Client) (t : Task) : ExecRequest :=
  exec_request client t.(tkTarget) (test_command t.(tkSource).(pPodIP)).

Lemma succeeded_app req t1 t2 : succeeded req (t1 ++ t2)%list ↔ succeeded req t1 ∨ succeeded req t2.
Proof.
  split.
  - intros (c & g & o & s & [Hin|Hin]%elem_of_app & Hc); [left|right]; by exists c, g, o, s.
  - intros [(c & g & o & s & Hin & Hc)|(c & g & o & s & Hin & Hc)]; exists c, g, o, s; rewrite elem_of_app; auto.
Qed.

Lemma succeeded_nil req : ¬ succeeded req [].
Proof. intros (? & ? & ? & ? & ?%elem_of_nil & _). done. Qed.

(** ** The invariant of the pool *)

Definition pair_of (t : Task) : Pod * Pod := (t.(tkTarget), t.(tkSource)).

Definition recording (t : Task) : Prop := match t.(tkState) with Recording _ => True | _ => False end.

(** - every recorded target has a successful test, and so has a task about to record;
    - every successful test is recorded or about to be;
    - a detail has been appended for every task that has ended. *)
Record pool_ok (client : Client) (ps : list (Pod * Pod)) (tr : list (event CSig)) (ts : list Task) (r : Results) : Prop := {
  po_pairs : pair_of <$> ts = ps;
  po_sound : ∀ x, x ∈ r.(connectedTargets) → ∃ t, t ∈ ts ∧ t.(tkTarget).(pName) = x ∧ succeeded (test_request client t) tr;
  po_recording : ∀ t, t ∈ ts → recording t → succeeded (test_request client t) tr;
  po_complete : ∀ req, succeeded req tr → req.(exPod) ∈ r.(connectedTargets) ∨
    ∃ t, t ∈ ts ∧ recording t ∧ t.(tkTarget).(pName) = req.(exPod);
  po_details : Z.of_nat (length r.(connectionDetails)) + count task_live ts = Z.of_nat (length ts)
}.

(** The steps a task has ahead of it. *)
Definition steps_left (t : Task) : nat :=
  match t.(tkState) with Testing => 3 | Recording _ => 2 | Appending _ => 1 | Ended => 0 end.
Definition pool_left (ts : list Task) : nat := sum_list_with steps_left ts.

(** What one step of a task does: it keeps its pods, gets nearer to its end, and its
    effect is one of the three. *)
Inductive task_effect (client : Client) (t : Task) (r : Results) (tr : list (event CSig)) : Task → Results → Prop :=
| te_connected d :
    t.(tkState) = Testing → succeeded (test_request client t) tr →
    (∀ req, succeeded req tr → req = test_request client t) →
    task_effect client t r tr (set_tkState (Recording d) t) r
| te_failed d :
    t.(tkState) = Testing → (∀ req, ¬ succeeded req tr) → task_effect client t r tr (set_tkState (Appending d) t) r
| te_record d :
    t.(tkState) = Recording d → tr = [] →
    task_effect client t r tr (set_tkState (Appending d) t)
      (mkResults ({[ t.(tkTarget).(pName) ]} ∪ r.(connectedTargets)) r.(connectionDetails))
| te_append d :
    t.(tkState) = Appending d → tr = [] →
    task_effect client t r tr (set_tkState Ended t) (mkResults r.(connectedTargets) (r.(connectionDetails) ++ [d])%list)
| te_none : t.(tkState) = Ended → tr = [] → task_effect client t r tr t r.

Lemma succeeded_two req (e1 : res unit) cfg req' ctx out :
  succeeded req [Ev (Sg := CSig) (CNewSPDYExecutor cfg req') e1; Ev (Sg := CSig) (CStream ctx cfg req') out] ↔
  req = req' ∧ out.2 = None ∧ Contains out.1.1 "SSH proxy connection successful" = true.
Proof.
  unfold succeeded. split.
  - intros (c & g & o & s & Hin & Hc). apply elem_of_cons in Hin as [E|Hin]; [inversion E|].
    apply list_elem_of_singleton in Hin. inversion Hin as [[E1 E2 E3]]. subst. split; [done|].
    apply (f_equal (λ e : event CSig, match e with
             | Ev o r => (match o as o return CResp o → option (string * option error) with
                          | CStream _ _ _ => λ r, Some (r.1.1, r.2) | _ => λ _, None end) r end)) in Hin.
    cbn in Hin. injection Hin as <- <-. done.
  - intros (-> & H1 & H2). destruct out as [[o s] e]. cbn in *. subst. exists ctx, cfg, o, s. split; [by right; left|done].
Qed.

Lemma succeeded_one req (e1 : res unit) cfg req' :
  ¬ succeeded req [Ev (Sg := CSig) (CNewSPDYExecutor cfg req') e1].
Proof. intros (c & g & o & s & E%list_elem_of_singleton & _). inversion E. Qed.

(** A test makes at most one command, to the target of its pair, and reports success
    exactly when that command succeeded with the expected output. *)
Lemma testSSHConnection_runs ctx client cfg pod ip tr x :
  runs (testSSHConnection ctx client cfg pod ip) tr (Ret x) →
  let req := exec_request client pod (test_command ip) in
  x.2 = None ∧
  (x.1.1 = true ∧ succeeded req tr ∧ (∀ req', succeeded req' tr → req' = req) ∨
   x.1.1 = false ∧ ∀ req', ¬ succeeded req' tr).
Proof.
  intros Hr req. unfold testSSHConnection in Hr.
  apply runs_bind_inv in Hr as [(y & t1 & t2 & H1 & H2 & ->)|(w & _ & [=])].
  unfold execCommandInPod in H1. cbv zeta in H1. fold req in H1. cruns H1. destruct a as [[]|e].
  2:{ cruns H1. simplify_eq. cruns H2. simplify_eq. cbn. split; [done|]. right. split; [done|].
      intros req'. apply succeeded_one. }
  cruns H1. destruct a as [[out err] e]. cruns H1. simplify_eq. destruct e as [e|]; cbn in H2; [cruns H2; simplify_eq|].
  - cbn. split; [done|]. right. split; [done|]. intros req' Hs. apply succeeded_two in Hs as (_ & [=] & _).
  - destruct (Contains out _) eqn:Hc; cruns H2; simplify_eq; cbn; (split; [done|]).
    + left. split_and!; [done|by apply succeeded_two|]. intros req' Hs. by apply succeeded_two in Hs as [-> _].
    + right. split; [done|]. intros req' Hs. apply succeeded_two in Hs as (_ & _ & Hs). cbn in Hs. congruence.
Qed.

Lemma task_step_effect ctx target t r tr t' r' :
  runs (task_step ctx target t r) tr (Ret (t', r')) → task_effect target.1 t r tr t' r'.
Proof.
  intros Hr. unfold task_step in Hr. destruct (tkState t) as [|d|d|] eqn:Es.
  2-4: cruns Hr; simplify_eq; by econstructor.
  apply runs_bind_inv in Hr as [([[c msg] e] & t1 & t2 & H1 & H2 & ->)|(w & _ & [=])].
  apply testSSHConnection_runs in H1 as [He Ht]. cbn in He. subst e. cbn in Ht. unfold detail_of in H2.
  destruct Ht as [(-> & Hs & Ho)|(-> & Hn)]; cbn in H2; cruns H2; simplify_eq; rewrite app_nil_r; by constructor.
Qed.

(** ** The invariant is kept *)

Section insert.
Context {A : Type} (l : list A) (i : nat) (a b : A).
Hypothesis Hi : l !! i = Some a.

Lemma insert_elem_new : b ∈ <[i := b]> l.
Proof. apply list_elem_of_lookup. exists i. apply list_lookup_insert_eq. by eapply lookup_lt_Some. Qed.

Lemma insert_elem_inv x : x ∈ <[i := b]> l → x = b ∨ x ∈ l.
Proof.
  intros [j Hj]%list_elem_of_lookup. destruct (decide (j = i)) as [->|Hne].
  - rewrite list_lookup_insert_eq in Hj by (by eapply lookup_lt_Some). left. congruence.
  - rewrite list_lookup_insert_ne in Hj by done. right. by eapply list_elem_of_lookup_2.
Qed.

Lemma insert_elem_old x : x ∈ l → x = a ∨ x ∈ <[i := b]> l.
Proof.
  intros [j Hj]%list_elem_of_lookup. destruct (decide (j = i)) as [->|Hne]; [left; congruence|].
  right. apply list_elem_of_lookup. exists j. by rewrite list_lookup_insert_ne.
Qed.

Lemma insert_fmap_same {B} (f : A → B) : f b = f a → f <$> <[i := b]> l = f <$> l.
Proof. intros E. rewrite list_fmap_insert, E. apply list_insert_id. by rewrite list_lookup_fmap, Hi. Qed.
End insert.

Section step.
Context (client : Client) (ps : list (Pod * Pod)) (ts : list Task) (i : nat) (t : Task) (tr0 : list (event CSig)) (r : Results).
Hypothesis Hi : ts !! i = Some t.
Hypothesis Hok : pool_ok client ps tr0 ts r.

(** A task in [ts] has its successor, with the same pods, in the new list. *)
Lemma successor st x : x ∈ ts → ∃ y, y ∈ <[i := set_tkState st t]> ts ∧ pair_of y = pair_of x.
Proof.
  intros Hx. destruct (insert_elem_old ts i t (set_tkState st t) Hi x Hx) as [->|Hy]; [|by exists x].
  exists (set_tkState st t). split; [by eapply insert_elem_new|done].
Qed.

Lemma same_request x y : pair_of y = pair_of x → test_request client y = test_request client x ∧ tkTarget y = tkTarget x.
Proof. intros [= E1 E2]. unfold test_request. by rewrite E1, E2. Qed.

(** The recorded targets stay justified. *)
Lemma sound_step st tr (names : gset string) :
  (∀ x, x ∈ names → x ∈ r.(connectedTargets) ∨ x = t.(tkTarget).(pName) ∧ succeeded (test_request client t) tr0) →
  ∀ x, x ∈ names → ∃ y, y ∈ <[i := set_tkState st t]> ts ∧ y.(tkTarget).(pName) = x ∧
    succeeded (test_request client y) (tr0 ++ tr).
Proof.
  intros Hn x Hx.
  assert (Hex : ∃ z, z ∈ ts ∧ z.(tkTarget).(pName) = x ∧ succeeded (test_request client z) tr0).
  { destruct (Hn x Hx) as [Hin|[-> Hs]]; [by apply (po_sound _ _ _ _ _ Hok)|].
    exists t. split_and!; [by eapply list_elem_of_lookup_2|done..]. }
  destruct Hex as (z & Hz & <- & Hs). destruct (successor st z Hz) as (y & Hy & E).
  destruct (same_request z y E) as [Er Et]. exists y. rewrite Et, Er, succeeded_app. auto.
Qed.

Lemma recording_step st tr :
  (match st with Recording _ => True | _ => False end → succeeded (test_request client t) tr) →
  ∀ x, x ∈ <[i := set_tkState st t]> ts → recording x → succeeded (test_request client x) (tr0 ++ tr).
Proof.
  intros Hst x Hx Hrec. apply succeeded_app. apply (insert_elem_inv ts i t _ Hi) in Hx as [->|Hx].
  - right. by apply Hst.
  - left. by apply (po_recording _ _ _ _ _ Hok).
Qed.

(** A successful test so far is still recorded or about to be. *)
Lemma complete_old st (names : gset string) req :
  r.(connectedTargets) ⊆ names →
  (recording t → match st with Recording _ => True | _ => False end ∨ t.(tkTarget).(pName) ∈ names) →
  succeeded req tr0 →
  req.(exPod) ∈ names ∨ ∃ y, y ∈ <[i := set_tkState st t]> ts ∧ recording y ∧ y.(tkTarget).(pName) = req.(exPod).
Proof.
  intros Hsub Hst Hs. destruct (po_complete _ _ _ _ _ Hok req Hs) as [Hin|(x & Hx & Hrec & Hn)]; [left; set_solver|].
  destruct (insert_elem_old ts i t (set_tkState st t) Hi x Hx) as [->|Hy]; [|right; by exists x].
  destruct (Hst Hrec) as [Hr|Hin]; [|left; by rewrite <- Hn].
  right. exists (set_tkState st t). split_and!; [by eapply insert_elem_new|done..].
Qed.

Lemma pool_ok_step tr t' r' :
  task_effect client t r tr t' r' → pool_ok client ps (tr0 ++ tr) (<[i := t']> ts) r'.
Proof.
  intros He.
  assert (Hp : pair_of t' = pair_of t) by (by destruct He).
  destruct He as [d Es Hs Honly|d Es Hno|d Es ->|d Es ->|Es ->].
  5:{ rewrite list_insert_id, app_nil_r by done. done. }
  all: split; [by rewrite (insert_fmap_same ts i t _ Hi), (po_pairs _ _ _ _ _ Hok)|..].
  all: try (rewrite (count_insert _ _ _ _ _ Hi), length_insert; unfold task_live at 2 3; cbn [tkState set_tkState];
            rewrite Es; cbn [b2z connectionDetails]; pose proof (po_details _ _ _ _ _ Hok); rewrite ?length_app; cbn; lia).
  all: try (apply sound_step; by auto).
  all: try (apply recording_step; by auto).
  - intros req [Hs'|Hs']%succeeded_app; [apply complete_old; auto|].
    right. rewrite (Honly req Hs'). eexists. split_and!; [by eapply insert_elem_new|done..].
  - intros req [Hs'|Hs']%succeeded_app; [|by destruct (Hno req)].
    apply complete_old; [done| |done]. unfold recording. by rewrite Es.
  - apply sound_step. cbn. intros x [->%elem_of_singleton|Hx]%elem_of_union; [|by left]. right. split; [done|].
    apply (po_recording _ _ _ _ _ Hok); [by eapply list_elem_of_lookup_2|]. unfold recording. by rewrite Es.
  - intros req. rewrite app_nil_r. intros Hs'. apply complete_old; cbn; [set_solver| |done]. right. set_solver.
  - intros req. rewrite app_nil_r. intros Hs'. apply complete_old; [done| |done]. unfold recording. by rewrite Es.
Qed.

Lemma pool_left_step tr t' r' :
  task_effect client t r tr t' r' → task_live t = true → (pool_left (<[i := t']> ts) < pool_left ts)%nat.
Proof.
  intros He Hl.
  assert (Hlt : (steps_left t' < steps_left t)%nat).
  { unfold task_live in Hl. destruct He as [d Es| d Es|d Es|d Es|Es]; unfold steps_left; rewrite Es in *; cbn; done || lia. }
  clear -Hi Hlt. unfold pool_left. revert i Hi. induction ts as [|x l IH]; intros [|j] Hj; cbn in Hj; try done.
  - injection Hj as ->. cbn. lia.
  - specialize (IH j Hj). change (<[S j:=t']> (x :: l)) with (x :: <[j:=t']> l). cbn. lia.
Qed.

End step.

(** ** Running the pool to its end *)

Lemma pool_ok_app client ps tr0 tr ts r :
  (∀ req, ¬ succeeded req tr) → pool_ok client ps tr0 ts r → pool_ok client ps (tr0 ++ tr) ts r.
Proof.
  intros Hn [Hp Hs Hr Hc Hd]. split; [done|..|done].
  - intros x Hx. destruct (Hs x Hx) as (t & Ht & Hx' & Hsuc). exists t. rewrite succeeded_app. auto.
  - intros t Ht Hrec. apply succeeded_app. auto.
  - intros req [Hreq|Hreq]%succeeded_app; [auto|by destruct (Hn req)].
Qed.

Lemma live_indices_spec ts i : i ∈ live_indices ts ↔ ∃ t, ts !! i = Some t ∧ task_live t = true.
Proof.
  unfold live_indices. rewrite list_elem_of_omap. split.
  - intros (j & _ & E). destruct (ts !! j) as [t|] eqn:Et; [|done]. destruct (task_live t) eqn:El; [|done].
    injection E as ->. eauto.
  - intros (t & Et & El). exists i. rewrite Et, El. split; [|done].
    apply elem_of_seq. apply lookup_lt_Some in Et. lia.
Qed.

Lemma no_live ts : live_indices ts = [] → count task_live ts = 0.
Proof.
  intros E. apply count_zero. intros t [i Hi]%list_elem_of_lookup. destruct (task_live t) eqn:El; [|done].
  assert (Hin : i ∈ live_indices ts) by (apply live_indices_spec; eauto). rewrite E in Hin. by apply elem_of_nil in Hin.
Qed.

Lemma left_no_live ts : pool_left ts = 0%nat → live_indices ts = [].
Proof.
  intros E. destruct (live_indices ts) as [|i l] eqn:El; [done|]. exfalso.
  assert (Hin : i ∈ live_indices ts) by (rewrite El; left). apply live_indices_spec in Hin as (t & Hi & Hl).
  unfold pool_left in E. clear El. revert i Hi. induction ts as [|x ts IH]; intros [|i] Hi; cbn in *; [done..| |].
  - injection Hi as ->. unfold steps_left, task_live in *. destruct (tkState t); done || lia.
  - by apply (IH ltac:(lia) i).
Qed.

Lemma pick_not_succeeded n a req : ¬ succeeded req [Ev (Sg := CSig) (CPick n) a].
Proof. intros (c & g & o & s & E%list_elem_of_singleton & _). inversion E. Qed.

Lemma task_step_ok ctx target ps tr0 ts i t r tr out :
  ts !! i = Some t → pool_ok target.1 ps tr0 ts r → runs (task_step ctx target t r) tr out →
  ∃ x, out = Ret x ∧ pool_ok target.1 ps (tr0 ++ tr) (<[i := x.1]> ts) x.2 ∧ task_effect target.1 t r tr x.1 x.2.
Proof.
  intros Hi Hok Hr. destruct (task_step_quiet ctx target t r _ _ Hr) as [_ [[t' r'] ->]].
  pose proof (task_step_effect _ _ _ _ _ _ _ Hr) as He. exists (t', r'). split_and!; [done| |done].
  by apply (pool_ok_step _ _ _ _ t _ r).
Qed.

Lemma run_pool_ok fuel ctx target ps tr0 ts r tr x :
  pool_ok target.1 ps tr0 ts r → (pool_left ts ≤ fuel)%nat →
  runs (run_pool fuel ctx target ts r) tr (Ret x) →
  pool_ok target.1 ps (tr0 ++ tr) x.1 x.2 ∧ count task_live x.1 = 0.
Proof.
  revert tr0 ts r tr. induction fuel as [|fuel IH]; intros tr0 ts r tr Hok Hf Hr; cbn [run_pool] in Hr.
  { cruns Hr. simplify_eq. rewrite app_nil_r. split; [done|]. apply no_live, left_no_live. cbn [fst]. lia. }
  destruct (live_indices ts) as [|i0 live] eqn:El.
  { cruns Hr. simplify_eq. rewrite app_nil_r. split; [done|by apply no_live]. }
  cruns Hr. destruct ((i0 :: live) !! (a mod length (i0 :: live))%nat) as [i|] eqn:Ei.
  2:{ apply lookup_ge_None in Ei. apply Nat.le_ngt in Ei. destruct Ei. by apply Nat.mod_upper_bound. }
  assert (Hin : i ∈ live_indices ts) by (rewrite El; by eapply list_elem_of_lookup_2).
  apply live_indices_spec in Hin as (tk & Ht & Hl). rewrite Ht in Hr.
  rewrite (app_assoc tr0 [_] t : (tr0 ++ Ev (Sg := CSig) (CPick (length (i0 :: live))) a :: t)%list = _).
  apply (pool_ok_app _ _ _ [Ev (Sg := CSig) (CPick (length (i0 :: live))) a]) in Hok;
    [|intros req; apply pick_not_succeeded].
  apply runs_bind_inv in Hr as [(y & t1 & t2 & H1 & Hr & ->)|(w & H1 & [=])].
  destruct (task_step_ok _ _ _ _ _ _ _ _ _ _ Ht Hok H1) as (y' & [= <-] & Hok' & He).
  rewrite app_assoc. eapply IH; [exact Hok'| |exact Hr].
  pose proof (pool_left_step _ _ _ _ r Ht _ _ _ He Hl). lia.
Qed.

(** Without a pool: one task after the other. *)
Lemma run_task_ok ctx target ps tr0 ts i t r tr r' :
  ts !! i = Some t → pool_ok target.1 ps tr0 ts r → runs (run_task ctx target t r) tr (Ret r') →
  ∃ t', pool_ok target.1 ps (tr0 ++ tr) (<[i := t']> ts) r' ∧ task_live t' = false.
Proof.
  intros Hi Hok Hr. assert (Hlt : (i < length ts)%nat) by (by eapply lookup_lt_Some). unfold run_task in Hr.
  apply runs_bind_inv in Hr as [(x & t1 & u1 & H1 & Hr & ->)|(w & _ & [=])].
  apply runs_bind_inv in Hr as [(y & t2 & u2 & H2 & Hr & ->)|(w & _ & [=])].
  apply runs_bind_inv in Hr as [(z & t3 & u3 & H3 & Hr & ->)|(w & _ & [=])]. cruns Hr. simplify_eq.
  destruct (task_step_ok _ _ _ _ _ _ _ _ _ _ Hi Hok H1) as (? & [= <-] & Hok1 & E1).
  destruct (task_step_ok _ _ _ _ _ i _ _ _ _ ltac:(by rewrite list_lookup_insert_eq) Hok1 H2) as (? & [= <-] & Hok2 & E2).
  rewrite list_insert_insert_eq in Hok2.
  destruct (task_step_ok _ _ _ _ _ i _ _ _ _ ltac:(by rewrite list_lookup_insert_eq) Hok2 H3) as (? & [= <-] & Hok3 & E3).
  rewrite list_insert_insert_eq in Hok3. exists z.1. rewrite app_nil_r, !app_assoc. split; [done|].
  unfold task_live. destruct x as [x xr], y as [y yr], z as [z zr]; cbn [fst snd] in *.
  destruct E1, E2; cbn in *; try congruence; destruct E3; cbn in *; congruence || by repeat case_match.
Qed.

Lemma run_sequential_ok ctx target ps rest tr0 ts i r tr r' :
  drop i ts = rest → (∀ j t, ts !! j = Some t → (j < i)%nat → task_live t = false) →
  pool_ok target.1 ps tr0 ts r → runs (range_each rest r (run_task ctx target)) tr (Ret r') →
  ∃ ts', pool_ok target.1 ps (tr0 ++ tr) ts' r' ∧ count task_live ts' = 0.
Proof.
  revert tr0 ts i r tr. induction rest as [|t rest IH]; intros tr0 ts i r tr Hd He Hok Hr; cbn [range_each] in Hr.
  - cruns Hr. simplify_eq. exists ts. rewrite app_nil_r. split; [done|]. apply count_zero.
    intros t [j Hj]%list_elem_of_lookup. apply (He j t Hj). apply lookup_lt_Some in Hj.
    assert (length (drop i ts) = 0%nat) as Hl by (by rewrite Hd). rewrite length_drop in Hl. lia.
  - assert (Hi : ts !! i = Some t) by (rewrite <- (Nat.add_0_r i), <- lookup_drop, Hd; done).
    apply runs_bind_inv in Hr as [(r1 & t1 & t2 & H1 & Hr & ->)|(w & _ & [=])].
    destruct (run_task_ok _ _ _ _ _ _ _ _ _ _ Hi Hok H1) as (t' & Hok' & Hl).
    rewrite app_assoc. apply (IH _ (<[i := t']> ts) (S i) r1); [|..|done|done].
    + rewrite drop_insert_lt by lia. by rewrite <- Nat.add_1_r, <- drop_drop, Hd.
    + intros j u Hj Hji. destruct (decide (j = i)) as [->|Hne].
      * rewrite list_lookup_insert_eq in Hj by (by eapply lookup_lt_Some). congruence.
      * rewrite list_lookup_insert_ne in Hj by done. apply (He j u Hj). lia.
Qed.

Lemma make_tasks_pairs tps sps : pair_of <$> make_tasks tps sps = tps ≫= λ t, (λ s, (t, s)) <$> sps.
Proof.
  unfold make_tasks. induction tps as [|t tps IH]; [done|]. cbn. rewrite fmap_app, IH. f_equal.
  rewrite <- list_fmap_compose. done.
Qed.

Lemma make_tasks_elem tps sps t : t ∈ make_tasks tps sps ↔ tkTarget t ∈ tps ∧ tkSource t ∈ sps ∧ tkState t = Testing.
Proof.
  unfold make_tasks. rewrite list_elem_of_bind. setoid_rewrite list_elem_of_fmap. split.
  - by intros (p & (s & -> & Hs) & Hp).
  - intros (Ht & Hs & E). exists (tkTarget t). split; [|done]. exists (tkSource t). split; [|done].
    destruct t; cbn in *; congruence.
Qed.

Lemma make_tasks_length tps sps : length (make_tasks tps sps) = (length tps * length sps)%nat.
Proof.
  unfold make_tasks. induction tps as [|t tps IH]; [done|]. cbn. by rewrite length_app, length_fmap, IH.
Qed.

Lemma make_tasks_ok client tps sps tr0 :
  (∀ req, ¬ succeeded req tr0) →
  pool_ok client (pair_of <$> make_tasks tps sps) tr0 (make_tasks tps sps) (mkResults ∅ []).
Proof.
  intros Hn. split; [done|..].
  - intros x Hx. cbn in Hx. set_solver.
  - intros t (_ & _ & E)%make_tasks_elem Hrec. unfold recording in Hrec. by rewrite E in Hrec.
  - intros req Hs. by destruct (Hn req).
  - rewrite count_all; [done|]. intros t (_ & _ & E)%make_tasks_elem. unfold task_live. by rewrite E.
Qed.

Lemma pool_left_fuel tps sps : (pool_left (make_tasks tps sps) ≤ pool_fuel (make_tasks tps sps))%nat.
Proof.
  unfold pool_left, pool_fuel. generalize (make_tasks tps sps) as l. intros l. induction l as [|t l IH]; cbn; [lia|].
  assert (steps_left t ≤ 3)%nat by (unfold steps_left; destruct (tkState t); lia). lia.
Qed.

(** When the tasks have ended: the recorded targets are exactly those with a successful
    test, and every pair has its detail. *)
Lemma run_tasks_results r ctx target tps sps tr0 tr results :
  (∀ req, ¬ succeeded req tr0) →
  runs (run_tasks r ctx target (make_tasks tps sps)) tr (Ret results) →
  length results.(connectionDetails) = (length tps * length sps)%nat ∧
  ∀ x, x ∈ results.(connectedTargets) ↔
    ∃ t s, t ∈ tps ∧ s ∈ sps ∧ pName t = x ∧ succeeded (exec_request target.1 t (test_command s.(pPodIP))) (tr0 ++ tr).
Proof.
  intros Hn Hr. pose proof (make_tasks_ok target.1 tps sps tr0 Hn) as Hok.
  assert (He : ∃ ts', pool_ok target.1 (pair_of <$> make_tasks tps sps) (tr0 ++ tr) ts' results ∧ count task_live ts' = 0).
  { unfold run_tasks in Hr. destruct (workerPool r).
    - apply runs_bind_inv in Hr as [(x & t1 & t2 & H1 & Hr & ->)|(w & _ & [=])]. cruns Hr. simplify_eq.
      rewrite app_nil_r. exists x.1. by eapply run_pool_ok; [exact Hok|apply pool_left_fuel|].
    - apply (run_sequential_ok ctx target _ (make_tasks tps sps) tr0 (make_tasks tps sps) 0 (mkResults ∅ [])); done || lia. }
  destruct He as (ts' & [Hp Hs Hrec Hc Hd] & Hl).
  assert (Hlen : length ts' = length (make_tasks tps sps)) by (by rewrite <- (length_fmap pair_of ts'), Hp, length_fmap).
  split; [rewrite make_tasks_length in Hlen; lia|]. intros x. split.
  - intros Hx. destruct (Hs x Hx) as (t & Ht & <- & Hsuc). exists (tkTarget t), (tkSource t).
    assert (Hpt : pair_of t ∈ pair_of <$> make_tasks tps sps) by (rewrite <- Hp; by apply list_elem_of_fmap_2).
    apply list_elem_of_fmap in Hpt as (u & E & (Hu1 & Hu2 & _)%make_tasks_elem). injection E as E1 E2. by split_and!; [rewrite E1|rewrite E2|..].
  - intros (t & s & Ht & Hsp & <- & Hsuc). destruct (Hc _ Hsuc) as [Hin|(u & Hu & Hr' & _)]; [done|].
    assert (Hlive : task_live u = true) by (unfold recording, task_live in *; by destruct (tkState u)).
    pose proof (count_pos task_live ts' u Hu Hlive). lia.
Qed.

(** ** Counting names *)

Lemma size_list_to_set_le (l : list string) : (size (list_to_set l : gset string) ≤ length l)%nat.
Proof.
  induction l as [|x l IH]; [done|]. cbn [list_to_set length].
  pose proof (size_union_alt ({[x]} : gset string) (list_to_set l)). rewrite size_singleton in *.
  pose proof (subseteq_size (list_to_set l ∖ {[x]} : gset string) (list_to_set l) ltac:(set_solver)). lia.
Qed.

Lemma size_list_to_set_NoDup (l : list string) : size (list_to_set l : gset string) = length l → NoDup l.
Proof.
  induction l as [|x l IH]; intros E; [constructor|]. cbn [list_to_set length] in E.
  pose proof (size_list_to_set_le l). destruct (decide (x ∈ l)) as [Hx|Hx].
  - replace ({[x]} ∪ list_to_set l : gset string) with (list_to_set l : gset string) in E by set_solver. lia.
  - constructor; [done|]. apply IH. rewrite size_union in E by set_solver. rewrite size_singleton in E. lia.
Qed.

(** A set of names of [l] as large as [l] is all of them, without duplicates. *)
Lemma all_names {A} (f : A → string) (l : list A) (names : gset string) :
  (∀ x, x ∈ names → x ∈ f <$> l) →
  size names = length l ↔ NoDup (f <$> l) ∧ ∀ a, a ∈ l → f a ∈ names.
Proof.
  intros Hsub. assert (Hs : names ⊆ list_to_set (f <$> l)).
  { intros x Hx. apply elem_of_list_to_set. auto. }
  pose proof (subseteq_size _ _ Hs) as Hle. pose proof (size_list_to_set_le (f <$> l)) as Hle'.
  rewrite length_fmap in Hle'. split.
  - intros E. split; [apply size_list_to_set_NoDup; rewrite length_fmap; lia|]. intros a Ha.
    assert (Heq : names = list_to_set (f <$> l)) by (apply set_eq, set_subseteq_size_equiv; [done|lia]).
    rewrite Heq. apply elem_of_list_to_set. by apply list_elem_of_fmap_2.
  - intros [Hnd Hall]. assert (Heq : names = list_to_set (f <$> l)).
    { apply set_eq. intros x. split; [apply Hs|]. intros (a & -> & Ha)%elem_of_list_to_set%list_elem_of_fmap. auto. }
    rewrite Heq, size_list_to_set by done. apply length_fmap.
Qed.

Lemma NoDup_fmap_eq {A B} (f : A → B) (l : list A) a b : NoDup (f <$> l) → a ∈ l → b ∈ l → f a = f b → a = b.
Proof.
  intros Hnd [i Hi]%list_elem_of_lookup [j Hj]%list_elem_of_lookup E.
  assert (i = j); [|congruence]. eapply NoDup_lookup; [exact Hnd|..]; rewrite list_lookup_fmap, ?Hi, ?Hj; cbn; [done|congruence].
Qed.

(** ** verifyConnectivity *)

(** The agents a cluster listed in [tr]. *)
Definition listed (client : Client) (tr : list (event CSig)) (running : list Pod) : Prop :=
  ∃ pods, Ev (Sg := CSig) (CListPods client "app=dr-syncer-agent") (Ok pods) ∈ tr ∧
    running = filter (λ p, p.(pPhase) = PodRunning) pods.

Lemma getAgentPods_runs client tr x :
  runs (getAgentPods client) tr (Ret x) →
  (∀ req, ¬ succeeded req tr) ∧ ∀ pods, x = Ok pods → listed client tr pods.
Proof.
  intros Hr. unfold getAgentPods in Hr. cruns Hr. split.
  - destruct a; cruns Hr; intros req (c & g & o & s & E%list_elem_of_singleton & _); inversion E.
  - intros pods ->. destruct a as [l|e]; cruns Hr; simplify_eq. exists l. split; [by left|done].
Qed.

Lemma verifyConnectivity_parts r m source target tr st :
  runs (verifyConnectivity r m source target) tr (Ret (Ok st)) →
  ∃ tps sps results, listed target.1 tr tps ∧ listed source tr sps ∧
    st = mkConnectionStatus (int32 (Z.of_nat (length sps))) (int32 (Z.of_nat (length tps)))
           (int32 (Z.of_nat (size results.(connectedTargets)))) results.(connectionDetails) ∧
    length results.(connectionDetails) = (length tps * length sps)%nat ∧
    ∀ x, x ∈ results.(connectedTargets) ↔
      ∃ t s, t ∈ tps ∧ s ∈ sps ∧ pName t = x ∧ succeeded (exec_request target.1 t (test_command s.(pPodIP))) tr.
Proof.
  intros Hr. unfold verifyConnectivity in Hr.
  apply runs_bind_inv in Hr as [([tps|e] & t1 & u1 & H1 & Hr & ->)|(w & _ & [=])]; [|by cruns Hr].
  apply runs_bind_inv in Hr as [([sps|e] & t2 & u2 & H2 & Hr & ->)|(w & _ & [=])]; [|by cruns Hr].
  cbv zeta in Hr. apply runs_bind_inv in Hr as [(results & t3 & u3 & H3 & Hr & ->)|(w & _ & [=])].
  cruns Hr. simplify_eq. rewrite app_nil_r.
  apply getAgentPods_runs in H1 as [Hn1 Hl1]. apply getAgentPods_runs in H2 as [Hn2 Hl2].
  assert (Hn : ∀ req, ¬ succeeded req (t1 ++ t2)) by (intros req [?|?]%succeeded_app; naive_solver).
  destruct (run_tasks_results _ _ _ _ _ (t1 ++ t2) _ _ Hn H3) as [Hlen Hx]. rewrite <- app_assoc in Hx.
  destruct (Hl1 tps eq_refl) as (p1 & Hp1 & E1). destruct (Hl2 sps eq_refl) as (p2 & Hp2 & E2).
  exists tps, sps, results. split_and!; [..|done|done|exact Hx].
  - exists p1. rewrite elem_of_app. auto.
  - exists p2. rewrite !elem_of_app. auto.
Qed.

(** C31: however the scheduler interleaves the tests, verifyConnectivity reports one
    detail for every pair of running agents, and its status counts as connected exactly
    when there is a target agent, the target agents have distinct names, and each of them
    ran a test command that reached a source agent. *)
Theorem verifyConnectivity_correct r m source target tr st :
  runs (verifyConnectivity r m source target) tr (Ret (Ok st)) →
  ∃ tps sps, listed target.1 tr tps ∧ listed source tr sps ∧
    length st.(ConnectionDetails) = (length tps * length sps)%nat ∧
    (Z.of_nat (length tps) < 2 ^ 31 →
     all_connected st = true ↔
       tps ≠ [] ∧ NoDup (pName <$> tps) ∧
       ∀ t, t ∈ tps → ∃ s, s ∈ sps ∧ succeeded (exec_request target.1 t (test_command s.(pPodIP))) tr).
Proof.
  intros Hr. destruct (verifyConnectivity_parts _ _ _ _ _ _ Hr) as (tps & sps & res & Ht & Hs & -> & Hlen & Hx).
  exists tps, sps. split_and!; [done..|]. intros Hmax.
  assert (Hsub : ∀ x, x ∈ res.(connectedTargets) → x ∈ pName <$> tps).
  { intros x (t & s & Hin & _ & <- & _)%Hx. by apply list_elem_of_fmap_2. }
  pose proof (all_names pName tps _ Hsub) as Hall.
  assert (Hle : (size res.(connectedTargets) ≤ length tps)%nat).
  { rewrite <- (length_fmap pName tps). etrans; [|apply size_list_to_set_le]. apply subseteq_size.
    intros x ?%Hsub. by apply elem_of_list_to_set. }
  unfold all_connected. cbn [ConnectedAgents TotalTargetAgents].
  rewrite !int32_id by (unfold in_int32; lia). rewrite andb_true_iff, Z.eqb_eq, Z.ltb_lt. split.
  - intros [E Hpos]. destruct (proj1 Hall ltac:(lia)) as [Hnd Hin]. split_and!; [by intros ->|done|].
    intros t Ht'. destruct (proj1 (Hx _) (Hin t Ht')) as (t' & s & Ht1 & Hs1 & E1 & Hsuc).
    rewrite (NoDup_fmap_eq _ _ _ _ Hnd Ht' Ht1 (eq_sym E1)). eauto.
  - intros (Hne & Hnd & Hc). split; [|destruct tps; cbn; [done|lia]]. f_equal. apply Hall. split; [done|].
    intros t Ht'. apply Hx. destruct (Hc t Ht') as (s & Hs' & Hsuc). by exists t, s.
Qed.

Lemma verifyConnectivity_correct_witness :
  let p := verifyConnectivity (mkClusterMappingReconciler true) (demo_mapping "" 0 None) 1 (1, 1) in
  let tr := run_trace (demo true) p (demo_mapping "" 0 None) in
  ∃ tps sps, listed 1 tr tps ∧ listed 1 tr sps ∧ (length tps * length sps)%nat = 1%nat.
Proof.
  cbv zeta. set (p := verifyConnectivity _ _ _ _).
  assert (Hr : runs p (run_trace (demo true) p (demo_mapping "" 0 None))
    (Ret (Ok (mkConnectionStatus 1 1 1 [mkAgentConnectionDetail "node-1" "node-1" true ""])))).
  { pose proof (run_trace_runs (demo true) p (demo_mapping "" 0 None)) as H.
    assert (E : (run (demo true) p (demo_mapping "" 0 None)).1 =
      Ret (Ok (mkConnectionStatus 1 1 1 [mkAgentConnectionDetail "node-1" "node-1" true ""]))) by (vm_compute; reflexivity).
    by rewrite E in H. }
  destruct (verifyConnectivity_correct (mkClusterMappingReconciler true) (demo_mapping "" 0 None) 1 (1, 1) _ _ Hr) as (tps & sps & H1 & H2 & H3 & _).
  exists tps, sps. split_and!; [exact H1|exact H2|]. cbn in H3. congruence.
Defined.
