(* ===== verification/Agent.v ===== *)
(** * The calls of the RemoteCluster controller, and its SSH keys

    The signature of calls that the RemoteCluster controller, the PVC sync manager, the
    deployer of the agent and the key manager share, and pkg/agent/ssh/keys.go.

    A [Server] is the API server a client talks to: the one the controller runs against, or
    the one a configuration leads to.  Cryptography is a call that answers a key pair. *)

From S2P Require Import Prelude Errors Types Kube KubeLogic.

(** ** Objects *)

Inductive Server : Type := ControllerCluster | ServerOf (config : string).

#[global] Instance Server_eq_dec : EqDecision Server.
Proof. solve_decision. Defined.

(** corev1.Secret *)
Record Secret : Type := mkSecret {
  sName : string;
  sNamespace : string;
  sVersion : string;
  sLabels : option (gmap string string);
  sType : string;
  sData : gmap string string;
  sAnnotations : option (gmap string string)
}.

#[global] Instance Secret_eq_dec : EqDecision Secret.
Proof. solve_decision. Defined.

(** Objects of which the deployer sets the labels and, for roles, the content. *)
Inductive PlainKind : Type := NamespaceKind | ServiceAccountKind | ClusterRoleKind | ClusterRoleBindingKind.

#[global] Instance PlainKind_eq_dec : EqDecision PlainKind.
Proof. solve_decision. Defined.

Record PolicyRule : Type := mkPolicyRule { prGroups : list string; prResources : list string; prVerbs : list string }.

Inductive PlainBody : Type :=
| NoBody
| RoleRules (rules : list PolicyRule)
| RoleBinding (subjectKind subjectName subjectNamespace roleGroup roleKind roleName : string).

Record Plain : Type := mkPlain {
  poKind : PlainKind;
  poName : string;
  poNamespace : string;
  poVersion : string;
  poLabels : gmap string string;
  poBody : PlainBody
}.

Inductive EnvSource : Type :=
| FieldRef (path : string)
| ResourceFieldRef (resource : string)
| ConfigMapKeyRef (name key : string)
| SecretKeyRef (name key : string)
| OtherSource.

Record EnvVar : Type := mkEnvVar { evName : string; evValue : string; evFrom : option EnvSource }.

Inductive VolumeSource : Type :=
| HostPath (path type : string)
| SecretVolume (name : string) (optional : bool) (defaultMode : Z)
| OtherVolume (payload : Payload).

Record Volume : Type := mkVolume { vName : string; vSource : VolumeSource }.

#[global] Instance VolumeSource_eq_dec : EqDecision VolumeSource.
Proof. solve_decision. Defined.
#[global] Instance Volume_eq_dec : EqDecision Volume.
Proof. solve_decision. Defined.

Record VolumeMount : Type := mkVolumeMount { vmName : string; vmPath : string; vmSubPath : string; vmReadOnly : bool }.

Record Toleration : Type := mkToleration {
  tolKey : string; tolOperator : string; tolValue : string; tolEffect : string; tolSeconds : option Z
}.

Record AgentContainer : Type := mkAgentContainer {
  acName : string;
  acImage : string;
  acPullPolicy : string;
  acPrivileged : option bool;
  acPort : Z;
  acMounts : list VolumeMount;
  acEnv : list EnvVar;
  acProbePort : Z;
  acResources : option (gmap string string * gmap string string)
}.

Record AgentPodSpec : Type := mkAgentPodSpec {
  apServiceAccount : string;
  apHostNetwork : bool;
  apContainers : list AgentContainer;
  apVolumes : list Volume;
  apNodeSelector : option (gmap string string);
  apTolerations : list Toleration;
  apPriorityClassName : string
}.

Record DaemonSet : Type := mkDaemonSet {
  dsName : string;
  dsNamespace : string;
  dsVersion : string;
  dsLabels : gmap string string;
  dsSelector : gmap string string;
  dsTemplateLabels : gmap string string;
  dsAnnotations : gmap string string;
  dsPod : AgentPodSpec;
  dsDesiredNumberScheduled : Z;
  dsNumberReady : Z
}.

(** ** Calls *)

(** [MClientset] is what getRemoteClient does with the data of a kubeconfig (temporary file,
    BuildConfigFromFlags, NewForConfig); [MLoadConfig] is clientcmd.Load, ClientConfig, the
    choice of the CA and kubernetes.NewForConfig; [MNewClient] is client.New. *)
Inductive MOp : Type :=
| MNow
| MSleep
| MGetenv (name : string)
| MParseStandard (schedule : string)
| MGetCluster (ns name : string)
| MUpdateClusterStatus (rc : RemoteCluster)
| MListClusters
| MGetSecret (s : Server) (ns name : string)
| MCreateSecret (s : Server) (x : Secret)
| MUpdateSecret (s : Server) (x : Secret)
| MDeleteSecret (s : Server) (ns name : string)
| MGenerateKey
| MClientset (kubeconfig : string)
| MCreateNamespace (s : Server) (labels : gmap string string)
| MLoadConfig (kubeconfig : string)
| MListNamespaces (config : string)
| MNewClient (config : string)
| MInitGlobalConcurrencyManager (limit : Z)
| MGetPlain (s : Server) (k : PlainKind) (ns name : string)
| MCreatePlain (s : Server) (x : Plain)
| MUpdatePlain (s : Server) (x : Plain)
| MDeletePlain (s : Server) (k : PlainKind) (ns name : string)
| MGetDaemonSet (s : Server) (ns name : string)
| MCreateDaemonSet (s : Server) (x : DaemonSet)
| MUpdateDaemonSet (s : Server) (x : DaemonSet)
| MDeleteDaemonSet (s : Server) (ns name : string)
| MLease (s : Server) (ns name identity : string).

Definition MResp (o : MOp) : Type :=
  match o with
  | MNow => Time
  | MSleep => unit
  | MGetenv _ => string
  | MParseStandard _ => res unit
  | MGetCluster _ _ => res RemoteCluster
  | MUpdateClusterStatus _ => res RemoteCluster
  | MListClusters => res (list RemoteCluster)
  | MGetSecret _ _ _ => res Secret
  | MCreateSecret _ _ => res unit
  | MUpdateSecret _ _ => res unit
  | MDeleteSecret _ _ _ => res unit
  | MGenerateKey => res (string * string)
  | MClientset _ => res string
  | MCreateNamespace _ _ => res unit
  | MLoadConfig _ => res string
  | MListNamespaces _ => res unit
  | MNewClient _ => res unit
  | MInitGlobalConcurrencyManager _ => unit
  | MGetPlain _ _ _ _ => res Plain
  | MCreatePlain _ _ => res unit
  | MUpdatePlain _ _ => res unit
  | MDeletePlain _ _ _ _ => res unit
  | MGetDaemonSet _ _ _ => res DaemonSet
  | MCreateDaemonSet _ _ => res unit
  | MUpdateDaemonSet _ _ => res unit
  | MDeleteDaemonSet _ _ _ => res unit
  | MLease _ _ _ _ => res unit
  end.

Definition MSig : Sig := mkSig MOp MResp.
Abbreviation MP := (prog MSig).

Definition mcall (o : MOp) : MP (MResp o) := call (Sg := MSig) o.

Definition merrorf {A : Type} (msg : string) : MP (res A) := mret (Err (PlainError msg)).

(** [client.IgnoreNotFound(err)] *)
Definition IgnoreNotFound (r : res unit) : res unit :=
  match r with Ok _ => Ok tt | Err e => if IsNotFound e then Ok tt else Err e end.

(** ** pkg/agent/ssh/keys.go *)

Definition privateKeyKey : string := "ssh-private-key".
Definition publicKeyKey : string := "ssh-public-key".
Definition authorizedKeys : string := "authorized_keys".
Definition id_rsa : string := "id_rsa".
Definition id_rsa_pub : string := "id_rsa.pub".
Definition hostRsaKey : string := "ssh_host_rsa_key".
Definition hostRsaKeyPub : string := "ssh_host_rsa_key.pub".
Definition hostEcdsaKey : string := "ssh_host_ecdsa_key".
Definition hostEcdsaKeyPub : string := "ssh_host_ecdsa_key.pub".
Definition hostEd25519Key : string := "ssh_host_ed25519_key".
Definition hostEd25519KeyPub : string := "ssh_host_ed25519_key.pub".

Definition agentNamespace : string := "dr-syncer".
Definition no_ssh : string := "PVCSync SSH configuration not found".

(** [rc.Spec.PVCSync.SSH], nil when PVCSync is. *)
Definition ssh_of (rc : RemoteCluster) : option PVCSyncSSH := rc.(PVCSync) ≫= psSSH.

(** The secret of the agent's keys: the reference, or the default. *)
Definition key_secret (ssh : PVCSyncSSH) : string * string :=
  match ssh.(sshKeySecretRef) with
  | Some ref => (ref.(skName), ref.(skNamespace))
  | None => ("pvc-syncer-agent-keys", agentNamespace)
  end.

Definition managed_labels (name cluster : string) : gmap string string :=
  <["app.kubernetes.io/name" := name]> (<["app.kubernetes.io/part-of" := "dr-syncer"]>
  (<["app.kubernetes.io/managed-by" := "dr-syncer-controller"]> {["dr-syncer.io/remote-cluster" := cluster]})).

Definition client_keys (privateKey publicKey : string) : gmap string string :=
  <[privateKeyKey := privateKey]> (<[id_rsa := privateKey]> (<[publicKeyKey := publicKey]>
  (<[id_rsa_pub := publicKey]> {[authorizedKeys := publicKey]}))).

(** One RSA key serves as all three host keys. *)
Definition host_keys (privateKey publicKey : string) : gmap string string :=
  <[hostRsaKey := privateKey]> (<[hostRsaKeyPub := publicKey]> (<[hostEcdsaKey := privateKey]>
  (<[hostEcdsaKeyPub := publicKey]> (<[hostEd25519Key := privateKey]> {[hostEd25519KeyPub := publicKey]})))).

(** Read a secret, or create it and read it back. *)
Definition get_or_create (client : Server) (ns name what : string) (generate : MP (res Secret)) : MP (res Secret) :=
  r ← mcall (MGetSecret client ns name);
  match r with
  | Ok existing => mret (Ok existing)
  | Err err =>
      if IsNotFound err then
        secret ←? generate onerr id;
        _ ←? mcall (MCreateSecret client secret) onerr (plainf ("failed to create " +:+ what +:+ "SSH key secret: "));
        mcall (MGetSecret client ns name) ≫= λ c,
          mret (match c with Ok s => Ok s | Err e => Err (plainf ("failed to get created " +:+ what +:+ "SSH key secret: ") e) end)
      else mret (Err (plainf ("failed to check if " +:+ (if what =s? "" then "" else "rsync key ") +:+ "secret exists: ") err))
  end.

Definition generate_agent_secret (rc : RemoteCluster) (ns name : string) : MP (res Secret) :=
  '(privateKey, publicKey) ←? mcall MGenerateKey onerr (plainf "failed to generate client key pair: ");
  '(hostPrivate, hostPublic) ←? mcall MGenerateKey onerr (plainf "failed to generate host keys: ");
  mret (Ok (mkSecret name ns "" (Some (managed_labels "pvc-syncer-agent" rc.(RCName))) "Opaque"
              (host_keys hostPrivate hostPublic ∪ client_keys privateKey publicKey) None)).

Definition EnsureKeys (client : Server) (rc : RemoteCluster) : MP (res Secret) :=
  match ssh_of rc with
  | None => merrorf no_ssh
  | Some ssh =>
      let '(name, ns) := key_secret ssh in
      get_or_create client ns name "" (generate_agent_secret rc ns name)
  end.

Definition controller_secret (rc : RemoteCluster) : string := "dr-syncer-sshkey-" +:+ rc.(RCName).

Definition DeleteKeys (client : Server) (rc : RemoteCluster) : MP (res unit) :=
  match ssh_of rc with
  | None => mret (Ok tt)
  | Some ssh =>
      let '(name, ns) := key_secret ssh in
      r ← mcall (MDeleteSecret client ns name);
      match IgnoreNotFound r with
      | Err e => mret (Err (plainf "failed to delete main SSH key secret: " e))
      | Ok _ => _ ← mcall (MDeleteSecret client agentNamespace (controller_secret rc)); mret (Ok tt)
      end
  end.

Definition RotateKeys (client : Server) (rc : RemoteCluster) : MP (res Secret) :=
  _ ←? DeleteKeys client rc onerr (plainf "failed to delete existing keys: ");
  EnsureKeys client rc ≫= λ r,
    mret (match r with Ok s => Ok s | Err e => Err (plainf "failed to create new keys: " e) end).

(** Create the secret at the target, or give an existing one its data and labels. *)
Definition push_secret (target : Server) (ns name check : string) (secret : Secret) : MP (res unit) :=
  r ← mcall (MGetSecret target ns name);
  match r with
  | Ok remote =>
      mcall (MUpdateSecret target
        (mkSecret remote.(sName) remote.(sNamespace) remote.(sVersion) secret.(sLabels) remote.(sType) secret.(sData) remote.(sAnnotations)))
  | Err err =>
      if IsNotFound err then
        mcall (MCreateSecret target (mkSecret name ns "" secret.(sLabels) secret.(sType) secret.(sData) None))
      else mret (Err (plainf check err))
  end.

Definition PushKeysToRemoteCluster (rc : RemoteCluster) (remoteClient : Server) (secret : Secret) : MP (res unit) :=
  match ssh_of rc with
  | None => merrorf no_ssh
  | Some _ =>
      push_secret remoteClient secret.(sNamespace) secret.(sName) "failed to check if secret exists in remote cluster: " secret
  end.

(** [if v, ok := data[k]; ok { m[k] = v }] *)
Definition copy_key (data : gmap string string) (k : string) (m : gmap string string) : gmap string string :=
  match data !! k with Some v => <[k := v]> m | None => m end.

(** What of a key secret is kept in the controller cluster. *)
Definition public_keys (data : gmap string string) : gmap string string :=
  let m :=
    match data !! publicKeyKey with
    | Some k => {[publicKeyKey := k]}
    | None =>
        match data !! id_rsa_pub with
        | Some k => <[publicKeyKey := k]> {[id_rsa_pub := k]}
        | None => ∅
        end
    end in
  copy_key data hostEd25519KeyPub (copy_key data hostEcdsaKeyPub (copy_key data hostRsaKeyPub (copy_key data authorizedKeys m))).

Definition EnsureKeysInControllerCluster (client : Server) (rc : RemoteCluster) (secret : Secret) : MP (res unit) :=
  match ssh_of rc with
  | None => merrorf no_ssh
  | Some _ =>
      let name := controller_secret rc in
      r ← mcall (MGetSecret client agentNamespace name);
      match r with
      | Ok existing =>
          _ ←? mcall (MUpdateSecret client
                 (mkSecret existing.(sName) existing.(sNamespace) existing.(sVersion) secret.(sLabels) existing.(sType)
                    (public_keys secret.(sData)) existing.(sAnnotations)))
            onerr (plainf "failed to update secret in controller cluster: ");
          mret (Ok tt)
      | Err err =>
          if IsNotFound err then
            _ ←? mcall (MCreateSecret client
                   (mkSecret name agentNamespace ""
                      (Some (<["dr-syncer.io/public-keys" := "true"]> (managed_labels "pvc-syncer-agent" rc.(RCName))))
                      "Opaque" (public_keys secret.(sData)) None))
              onerr (plainf "failed to create secret in controller cluster: ");
            mret (Ok tt)
          else mret (Err (plainf "failed to check if secret exists in controller cluster: " err))
      end
  end.

Definition rsync_secret (rc : RemoteCluster) : string := "dr-syncer-rsync-keys-" +:+ rc.(RCName).

Definition EnsureRsyncKeys (client : Server) (rc : RemoteCluster) (namespace : string) : MP (res Secret) :=
  get_or_create client namespace (rsync_secret rc) "rsync "
    ('(privateKey, publicKey) ←? mcall MGenerateKey onerr (plainf "failed to generate rsync key pair: ");
     mret (Ok (mkSecret (rsync_secret rc) namespace ""
                 (Some (<["dr-syncer.io/key-type" := "rsync"]> (managed_labels "dr-syncer-rsync" rc.(RCName))))
                 "Opaque" (client_keys privateKey publicKey) None))).

Definition PushRsyncKeysToCluster (targetClient : Server) (secret : Secret) (targetNamespace : string) : MP (res unit) :=
  push_secret targetClient targetNamespace secret.(sName) "failed to check if rsync key secret exists in target cluster: " secret.

Definition DeleteRsyncKeys (client : Server) (rc : RemoteCluster) (namespace : string) : MP (res unit) :=
  r ← mcall (MDeleteSecret client namespace (rsync_secret rc));
  mret (match IgnoreNotFound r with Ok _ => Ok tt | Err e => Err (plainf "failed to delete rsync SSH key secret: " e) end).
