(* ===== verification/Deployer.v ===== *)
(** * The deployer of the agent: pkg/agent/deploy/deploy.go

    Namespace, service account, roles and the DaemonSet of the agent, created or brought up
    to date, and removed again.  resource.MustParse is a parameter ([Quantities]); it
    panics for a text that is not a quantity. *)

From S2P Require Import Prelude GoString Errors Types Kube KubeLogic Agent.

Definition agentName : string := "dr-syncer-agent".

Definition agent_labels : gmap string string :=
  <["app.kubernetes.io/name" := agentName]> (<["app.kubernetes.io/part-of" := "dr-syncer"]>
  {["app.kubernetes.io/managed-by" := "dr-syncer-controller"]}).

(** resource.ParseQuantity: the canonical form of a quantity. *)
Class Quantities : Type := ParseQuantity : string → option string.

Section Deployer.
Context `{Quantities}.
Variable client : Server.

(** Create the object, or give the existing one its labels and content. *)
Definition apply_plain (x : Plain) : MP (res unit) :=
  r ← mcall (MGetPlain client x.(poKind) x.(poNamespace) x.(poName));
  match r with
  | Err err => if IsNotFound err then mcall (MCreatePlain client x) else mret (Err err)
  | Ok existing =>
      mcall (MUpdatePlain client
        (mkPlain existing.(poKind) existing.(poName) existing.(poNamespace) existing.(poVersion) x.(poLabels)
           (match x.(poBody) with NoBody => existing.(poBody) | b => b end)))
  end.

Definition createOrUpdateNamespace : MP (res unit) :=
  apply_plain (mkPlain NamespaceKind agentNamespace "" "" agent_labels NoBody).

Definition createOrUpdateServiceAccount : MP (res unit) :=
  apply_plain (mkPlain ServiceAccountKind agentName agentNamespace "" agent_labels NoBody).

Definition agent_rules : list PolicyRule :=
  [mkPolicyRule [""] ["persistentvolumes"; "persistentvolumeclaims"; "pods"; "nodes"] ["get"; "list"; "watch"]].

Definition createOrUpdateRBAC : MP (res unit) :=
  _ ←? apply_plain (mkPlain ClusterRoleKind agentName "" "" agent_labels (RoleRules agent_rules)) onerr id;
  apply_plain (mkPlain ClusterRoleBindingKind agentName "" "" agent_labels
    (RoleBinding "ServiceAccount" agentName agentNamespace "rbac.authorization.k8s.io" "ClusterRole" agentName)).

(** ** The DaemonSet *)

(** [for k, v := range extra { m[k] = v }] *)
Definition add_all (extra : option (gmap string string)) (m : gmap string string) : gmap string string :=
  match extra with Some e => e ∪ m | None => m end.

Definition daemonset_labels (rc : RemoteCluster) (d : option PVCSyncDeployment) : gmap string string :=
  add_all (d ≫= pdLabels) (<["app" := agentName]> (<["dr-syncer.io/remote-cluster" := rc.(RCName)]> agent_labels)).

Definition daemonset_annotations (d : option PVCSyncDeployment) : gmap string string :=
  add_all (d ≫= pdAnnotations) {["dr-syncer.io/ssh-key-version" := "1"]}.

Definition secret_volume (name secret : string) (optional : bool) : Volume := mkVolume name (SecretVolume secret optional 420).

Definition agent_volumes (secretName rsyncKeys : string) (hasAuthorized hasRsync : bool) : list Volume :=
  ([mkVolume "kubelet" (HostPath "/var/lib/kubelet" "Directory"); secret_volume "ssh-keys" secretName false] ++
   (if hasAuthorized then [secret_volume "authorized-keys" "dr-syncer-authorized-keys" true] else []) ++
   (if hasRsync then [secret_volume "rsync-authorized-keys" rsyncKeys true] else []))%list.

Definition agent_mounts (hasAuthorized hasRsync : bool) : list VolumeMount :=
  ([mkVolumeMount "kubelet" "/var/lib/kubelet" "" false; mkVolumeMount "ssh-keys" "/etc/ssh/keys" "" true] ++
   (if hasAuthorized then [mkVolumeMount "authorized-keys" "/etc/ssh/keys/authorized_keys" "authorized_keys" true] else []) ++
   (if hasRsync then [mkVolumeMount "rsync-authorized-keys" "/etc/ssh/keys/rsync_authorized_keys" "authorized_keys" true]
    else []))%list.

Definition extra_env (x : ExtraEnvVar) : EnvVar := mkEnvVar x.(xeName) x.(xeValue) (FieldRef <$> x.(xeFieldPath)).

Definition agent_env (port : Z) (d : option PVCSyncDeployment) : list EnvVar :=
  ([mkEnvVar "SSH_PORT" (itoa port) None; mkEnvVar "NODE_NAME" "" (Some (FieldRef "spec.nodeName"))] ++
   match d with Some d => extra_env <$> d.(pdExtraEnv) | None => [] end)%list.

Definition toleration (m : gmap string string) : Toleration :=
  let get k := default "" (m !! k) in
  mkToleration (get "key") (get "operator") (get "value") (get "effect") (m !! "tolerationSeconds" ≫= λ s, ParseInt s 64).

(** [resource.MustParse] on every entry. *)
Definition must_parse (m : option (gmap string string)) : option (gmap string string) :=
  match m with
  | None => Some ∅
  | Some m =>
      if bool_decide (map_Forall (λ _ q, is_Some (ParseQuantity q)) m) then Some (omap ParseQuantity m) else None
  end.

Definition agent_resources (d : option PVCSyncDeployment) : MP (option (gmap string string * gmap string string)) :=
  match d with
  | Some d =>
      if d.(pdHasResources) then
        match must_parse d.(pdLimits), must_parse d.(pdRequests) with
        | Some limits, Some requests => mret (Some (limits, requests))
        | _, _ => panic "cannot parse quantity"
        end
      else mret None
  | None => mret None
  end.

(** The port, the image and the secret of the specification and the environment. *)
Definition agent_port (spec : PVCSyncSpec) : Z :=
  match spec.(psSSH) with Some ssh => if 0 <? ssh.(sshPort) then ssh.(sshPort) else 2222 | None => 2222 end.

Definition or_else (preferred fallback : string) : string := if preferred =s? "" then fallback else preferred.

Definition agent_secret (spec : PVCSyncSpec) : string :=
  match spec.(psSSH) ≫= sshKeySecretRef with Some ref => ref.(skName) | None => "pvc-syncer-agent-keys" end.

Definition exists_ok {A : Type} (r : res A) : bool := match r with Ok _ => true | Err _ => false end.

(** The DaemonSet the specification asks for. *)
Definition desired_daemonset (rc : RemoteCluster) (spec : PVCSyncSpec) (image : PVCSyncImage) (envRepo envTag : string)
    (hasAuthorized hasRsync : bool) (resources : option (gmap string string * gmap string string)) : DaemonSet :=
  let d := spec.(psDeployment) in
  let port := agent_port spec in
  let labels := daemonset_labels rc d in
  let container :=
    mkAgentContainer "agent" (or_else envRepo image.(imRepository) +:+ ":" +:+ or_else envTag image.(imTag))
      (or_else image.(imPullPolicy) "IfNotPresent") (Some (default true (d ≫= pdPrivileged))) port
      (agent_mounts hasAuthorized hasRsync) (agent_env port d) port resources in
  mkDaemonSet agentName agentNamespace "" labels {["app" := agentName]} labels (daemonset_annotations d)
    (mkAgentPodSpec agentName (default true (d ≫= pdHostNetwork)) [container]
       (agent_volumes (agent_secret spec) ("dr-syncer-rsync-keys-" +:+ rc.(RCName)) hasAuthorized hasRsync)
       (d ≫= pdNodeSelector) (match d ≫= pdTolerations with Some l => toleration <$> l | None => [] end)
       (match d with Some d => d.(pdPriorityClassName) | None => "" end)) 0 0.

Definition env_text (s : EnvSource) : option string :=
  match s with
  | FieldRef path => Some ("fieldRef:" +:+ path)
  | ResourceFieldRef r => Some ("resourceFieldRef:" +:+ r)
  | ConfigMapKeyRef n k => Some ("configMapKeyRef:" +:+ n +:+ ":" +:+ k)
  | SecretKeyRef n k => Some ("secretKeyRef:" +:+ n +:+ ":" +:+ k)
  | OtherSource => None
  end.

Definition convertEnvToMap (envVars : list EnvVar) : gmap string string :=
  foldl (λ m env,
    if negb (env.(evValue) =s? "") then <[env.(evName) := env.(evValue)]> m
    else match env.(evFrom) ≫= env_text with Some t => <[env.(evName) := t]> m | None => m end) ∅ envVars.

(** [len(map1) == len(map2)] and every entry of [map1] is in [map2]. *)
Definition areEnvMapsEqual (map1 map2 : gmap string string) : bool :=
  (size map1 =? size map2)%nat && bool_decide (map_Forall (λ k v, map2 !! k = Some v) map1).

Definition first_container (ds : DaemonSet) : option AgentContainer := head ds.(dsPod).(apContainers).

(** Which differences lead to an update. *)
Definition needsUpdate (existing ds : DaemonSet) : bool :=
  negb (length existing.(dsPod).(apContainers) =? length ds.(dsPod).(apContainers))%nat ||
  match first_container existing, first_container ds with
  | Some a, Some b => negb (a.(acImage) =s? b.(acImage)) || negb (areEnvMapsEqual (convertEnvToMap a.(acEnv)) (convertEnvToMap b.(acEnv)))
  | _, _ => false
  end ||
  negb (bool_decide (existing.(dsAnnotations) = ds.(dsAnnotations))) ||
  negb (bool_decide (existing.(dsPod).(apVolumes) = ds.(dsPod).(apVolumes))).

(** [existing.Spec = ds.Spec; existing.Labels = ds.Labels] *)
Definition with_spec (ds existing : DaemonSet) : DaemonSet :=
  mkDaemonSet existing.(dsName) existing.(dsNamespace) existing.(dsVersion) ds.(dsLabels) ds.(dsSelector) ds.(dsTemplateLabels)
    ds.(dsAnnotations) ds.(dsPod) existing.(dsDesiredNumberScheduled) existing.(dsNumberReady).

Definition createOrUpdateDaemonSet (rc : RemoteCluster) : MP (res unit) :=
  match rc.(PVCSync) with
  | Some spec =>
      match spec.(psImage) with
      | Some image =>
          envRepo ← mcall (MGetenv "AGENT_IMAGE_REPOSITORY");
          envTag ← mcall (MGetenv "AGENT_IMAGE_TAG");
          authorized ← mcall (MGetSecret client agentNamespace "dr-syncer-authorized-keys");
          rsyncKeys ← mcall (MGetSecret client agentNamespace ("dr-syncer-rsync-keys-" +:+ rc.(RCName)));
          resources ← agent_resources spec.(psDeployment);
          let ds := desired_daemonset rc spec image envRepo envTag (exists_ok authorized) (exists_ok rsyncKeys) resources in
          r ← mcall (MGetDaemonSet client agentNamespace agentName);
          match r with
          | Err err => if IsNotFound err then mcall (MCreateDaemonSet client ds) else mret (Err err)
          | Ok existing =>
              if needsUpdate existing ds then mcall (MUpdateDaemonSet client (with_spec ds existing)) else mret (Ok tt)
          end
      | None => merrorf "PVCSync or Image configuration not found"
      end
  | None => merrorf "PVCSync or Image configuration not found"
  end.

(** ** Status, deployment and cleanup *)

Definition set_pvc_status (st : option PVCSyncStatus) (rc : RemoteCluster) : RemoteCluster :=
  let s := rc.(RCStatus) in
  mkRemoteCluster rc.(RCName) rc.(RCNamespace) rc.(RCResourceVersion) rc.(RCKubeconfig) rc.(RCDefaultSchedule) rc.(PVCSync)
    (mkRemoteClusterStatus s.(rsHealth) s.(rsLastSyncTime) s.(rsConditions) st).

(** A PVCSyncStatus with only its phase set. *)
Definition new_status (phase : string) : PVCSyncStatus := mkPVCSyncStatus phase None None None 0 "".

Definition set_phase (phase : string) (st : PVCSyncStatus) : PVCSyncStatus :=
  mkPVCSyncStatus phase st.(pstAgentStatus) st.(pstLastSuccessfulSync) st.(pstLastDeploymentTime) st.(pstFailedSyncs) st.(pstMessage).
Definition set_message (msg : string) (st : PVCSyncStatus) : PVCSyncStatus :=
  mkPVCSyncStatus st.(pstPhase) st.(pstAgentStatus) st.(pstLastSuccessfulSync) st.(pstLastDeploymentTime) st.(pstFailedSyncs) msg.
Definition set_agents (ready total : Z) (st : PVCSyncStatus) : PVCSyncStatus :=
  let nodes := match st.(pstAgentStatus) with Some a => a.(asNodeStatuses) | None => Some ∅ end in
  mkPVCSyncStatus st.(pstPhase) (Some (mkPVCSyncAgentStatus ready total nodes)) st.(pstLastSuccessfulSync)
    st.(pstLastDeploymentTime) st.(pstFailedSyncs) st.(pstMessage).
Definition set_deployed (t : Time) (st : PVCSyncStatus) : PVCSyncStatus :=
  mkPVCSyncStatus st.(pstPhase) st.(pstAgentStatus) st.(pstLastSuccessfulSync) (Some t) st.(pstFailedSyncs) st.(pstMessage).

Definition updateAgentStatus (rc : RemoteCluster) : MP (res unit * RemoteCluster) :=
  r ← mcall (MGetDaemonSet client agentNamespace agentName);
  match r with
  | Err e => mret (if IsNotFound e then Ok tt else Err e, rc)
  | Ok ds =>
      let st := default (new_status "Deploying") rc.(RCStatus).(rsPVCSync) in
      let phase :=
        if ds.(dsNumberReady) =? 0 then "Deploying"
        else if ds.(dsNumberReady) <? ds.(dsDesiredNumberScheduled) then "PartiallyReady"
        else "Ready" in
      mret (Ok tt, set_pvc_status (Some (set_phase phase (set_agents ds.(dsNumberReady) ds.(dsDesiredNumberScheduled) st))) rc)
  end.

(** The steps in order; the first error is returned. *)
Definition Deploy (rc : RemoteCluster) : MP (res unit * RemoteCluster) :=
  r ← (_ ←? createOrUpdateNamespace onerr (plainf "failed to create/update namespace: ");
       _ ←? createOrUpdateServiceAccount onerr (plainf "failed to create/update service account: ");
       _ ←? createOrUpdateRBAC onerr (plainf "failed to create/update RBAC: ");
       _ ←? createOrUpdateDaemonSet rc onerr (plainf "failed to create/update daemonset: ");
       mret (Ok tt));
  match r with
  | Err e => mret (Err e, rc)
  | Ok _ =>
      u ← updateAgentStatus rc;
      match u with
      | (Err e, rc) => mret (Err (plainf "failed to update agent status: " e), rc)
      | (Ok _, rc) => mret (Ok tt, rc)
      end
  end.

Definition deleteDaemonSet : MP (res unit) :=
  r ← mcall (MDeleteDaemonSet client agentNamespace agentName); mret (IgnoreNotFound r).

Definition delete_plain (k : PlainKind) (ns : string) : MP (res unit) :=
  r ← mcall (MDeletePlain client k ns agentName); mret (IgnoreNotFound r).

Definition deleteRBAC : MP (res unit) :=
  _ ←? delete_plain ClusterRoleBindingKind "" onerr id;
  delete_plain ClusterRoleKind "".

Definition deleteServiceAccount : MP (res unit) := delete_plain ServiceAccountKind agentNamespace.

Definition Cleanup : MP (res unit) :=
  _ ←? deleteDaemonSet onerr (plainf "failed to delete daemonset: ");
  _ ←? deleteRBAC onerr (plainf "failed to delete RBAC: ");
  _ ←? deleteServiceAccount onerr (plainf "failed to delete service account: ");
  mret (Ok tt).
End Deployer.
