(* ===== verification/RemoteCluster.v ===== *)
(** * The RemoteCluster controller and the PVC sync manager

    pkg/controllers/cluster_controller.go, pkg/controller/remotecluster/controller.go and
    pkg/controller/remotecluster/pvc_sync.go: validation of a remote cluster and its
    conditions, and the deployment of the agent with its keys.  wait.ExponentialBackoff of
    apimachinery is a parameter ([Backoff]) with the law it documents. *)

From S2P Require Import Prelude GoString Errors Types Lock Kube KubeLogic Agent Deployer.

(** k8s.io/apimachinery/pkg/util/wait: [ExponentialBackoff] with ten steps. *)
Class Backoff : Type := ExponentialBackoff : MP (res bool) → MP (res unit).

(** Its documentation: the condition is tried until it is true or returns an error, at most
    [n] times with a delay in between; then the wait times out. *)
Inductive polled (cond : MP (res bool)) : nat → list (event MSig) → exec (res unit) → Prop :=
| polled_true n tr : runs cond tr (Ret (Ok true)) → polled cond (S n) tr (Ret (Ok tt))
| polled_error n tr e : runs cond tr (Ret (Err e)) → polled cond (S n) tr (Ret (Err e))
| polled_again n tr1 tr2 out :
    runs cond tr1 (Ret (Ok false)) → polled cond n tr2 out →
    polled cond (S n) (tr1 ++ Ev (Sg := MSig) MSleep tt :: tr2)%list out
| polled_timeout tr e : runs cond tr (Ret (Ok false)) → polled cond 1 tr (Ret (Err e))
| polled_panic n tr w : runs cond tr (Panic w) → polled cond (S n) tr (Panic w).

Class LawfulBackoff `{Backoff} : Prop :=
  backoff_runs : ∀ cond tr out, runs (ExponentialBackoff cond) tr out → polled cond 10 tr out.

(** ** pvc_sync.go *)

Definition DefaultSyncPeriod : Z := 60 * Minute.

Record PVCSyncManager : Type := mkPVCSyncManager { remoteClient : Server; controllerClient : Server }.

(** [rc.Spec.PVCSync != nil && rc.Spec.PVCSync.Enabled] *)
Definition sync_enabled (rc : RemoteCluster) : option PVCSyncSpec :=
  match rc.(PVCSync) with Some spec => if spec.(psEnabled) then Some spec else None | None => None end.

Definition on_pvc_status (f : PVCSyncStatus → PVCSyncStatus) (rc : RemoteCluster) : RemoteCluster :=
  set_pvc_status (f <$> rc.(RCStatus).(rsPVCSync)) rc.

(** [Phase = "Failed"; Message = prefix + err; return err] *)
Definition failed {A : Type} (prefix : string) (e : error) (rc : RemoteCluster) : MP (res A * RemoteCluster) :=
  mret (Err e, on_pvc_status (λ st, set_message (prefix +:+ Error e) (set_phase "Failed" st)) rc).

(** Continue with the value of a step, or record its failure. *)
Definition step {A B : Type} (c : MP (res A)) (prefix : string) (rc : RemoteCluster)
    (k : A → MP (res B * RemoteCluster)) : MP (res B * RemoteCluster) :=
  r ← c; match r with Ok a => k a | Err e => failed prefix e rc end.

Section Manager.
Context `{Quantities} `{Backoff}.
Variable p : PVCSyncManager.

Definition getRemoteClient (rc : RemoteCluster) : MP (res Server) :=
  secret ←? mcall (MGetSecret p.(controllerClient) agentNamespace rc.(RCKubeconfig).(KCName))
    onerr (plainf "failed to get kubeconfig secret: ");
  match secret.(sData) !! "kubeconfig" with
  | None => merrorf ("kubeconfig not found in secret " +:+ agentNamespace +:+ "/" +:+ rc.(RCKubeconfig).(KCName))
  | Some data => config ←? mcall (MClientset data) onerr id; mret (Ok (ServerOf config))
  end.

Definition namespace_labels : gmap string string :=
  <["app.kubernetes.io/name" := "dr-syncer"]> (<["app.kubernetes.io/part-of" := "dr-syncer"]>
  {["app.kubernetes.io/managed-by" := "dr-syncer-controller"]}).

Definition ensureDrSyncerNamespace (remote : Server) : MP (res unit) :=
  r ← mcall (MCreateNamespace remote namespace_labels);
  mret (match r with
        | Ok _ => Ok tt
        | Err e => if IsAlreadyExists e then Ok tt else Err (wrapf "failed to create dr-syncer namespace: " e)
        end).

Definition has_key (data : gmap string string) (k1 k2 : string) : bool :=
  bool_decide (is_Some (data !! k1)) || bool_decide (is_Some (data !! k2)).

(** One look at the secrets of both clusters. *)
Definition keys_available (rc : RemoteCluster) (secretName : string) : MP (res bool) :=
  r ← mcall (MGetSecret p.(remoteClient) agentNamespace secretName);
  match r with
  | Err e => mret (if IsNotFound e then Ok false else Err e)
  | Ok secret =>
      if negb (has_key secret.(sData) privateKeyKey id_rsa) then mret (Ok false)
      else if negb (has_key secret.(sData) publicKeyKey id_rsa_pub) then mret (Ok false)
      else
        r ← mcall (MGetSecret p.(controllerClient) agentNamespace (controller_secret rc));
        match r with
        | Err e => mret (if IsNotFound e then Ok false else Err e)
        | Ok c => mret (Ok (has_key c.(sData) publicKeyKey id_rsa_pub))
        end
  end.

Definition waitForKeySecret (rc : RemoteCluster) : MP (res unit) :=
  match rc.(PVCSync) ≫= psSSH with
  | None => merrorf no_ssh
  | Some ssh =>
      _ ←? ExponentialBackoff (keys_available rc (key_secret ssh).1) onerr (plainf "timed out waiting for SSH key secrets: ");
      mret (Ok tt)
  end.

Definition cleanupPVCSync (rc : RemoteCluster) : MP (res unit * RemoteCluster) :=
  r ← (_ ←? DeleteKeys p.(controllerClient) rc onerr (plainf "failed to delete SSH keys: ");
       _ ← DeleteRsyncKeys p.(controllerClient) rc agentNamespace;
       g ← mcall (MGetSecret p.(remoteClient) agentNamespace (rsync_secret rc));
       _ ← match g with
           | Ok s => _ ← mcall (MDeleteSecret p.(remoteClient) s.(sNamespace) s.(sName)); mret tt
           | Err _ => mret tt
           end;
       _ ←? Cleanup p.(remoteClient) onerr (plainf "failed to clean up agent components: ");
       mret (Ok tt));
  match r with
  | Err e => mret (Err e, rc)
  | Ok _ => mret (Ok tt, set_pvc_status None rc)
  end.

(** Disabled: clean up what a former deployment left. *)
Definition when_disabled (rc : RemoteCluster) : MP (res unit * RemoteCluster) :=
  match rc.(RCStatus).(rsPVCSync) with
  | Some st => if st.(pstPhase) =s? "" then mret (Ok tt, rc) else cleanupPVCSync rc
  | None => mret (Ok tt, rc)
  end.

Definition initialized (rc : RemoteCluster) : RemoteCluster :=
  match rc.(RCStatus).(rsPVCSync) with Some _ => rc | None => set_pvc_status (Some (new_status "Initializing")) rc end.

(** The phase and message of the DaemonSet's counts. *)
Definition agent_phase (ds : DaemonSet) (st : PVCSyncStatus) : PVCSyncStatus :=
  let st := set_agents ds.(dsNumberReady) ds.(dsDesiredNumberScheduled) st in
  if 0 <? ds.(dsNumberReady) then set_message "PVC sync agent is running" (set_phase "Running" st)
  else if 0 <? ds.(dsDesiredNumberScheduled) then
    set_message ("PVC sync agent is degraded: 0/" +:+ itoa ds.(dsDesiredNumberScheduled) +:+ " pods ready") (set_phase "Degraded" st)
  else set_message "PVC sync agent deployed successfully" (set_phase "Running" st).

(** [if AgentStatus == nil { AgentStatus = &PVCSyncAgentStatus{NodeStatuses: make(...)} }] *)
Definition with_agents (st : PVCSyncStatus) : PVCSyncStatus :=
  match st.(pstAgentStatus) with Some _ => st | None => set_agents 0 0 st end.

(** Keys, waiting, the agent and its status: what Reconcile and ForceSync have in common. *)
Definition deploy_agent (rc : RemoteCluster) : MP (res unit * RemoteCluster) :=
  step (EnsureKeys p.(controllerClient) rc) "Failed to ensure SSH keys: " rc (λ secret,
  step (PushKeysToRemoteCluster rc p.(remoteClient) secret) "Failed to push SSH keys to remote cluster: " rc (λ _,
  step (EnsureKeysInControllerCluster p.(controllerClient) rc secret)
    "Failed to store public SSH keys in controller cluster: " rc (λ _,
  r ← EnsureRsyncKeys p.(controllerClient) rc agentNamespace;
  _ ← match r with
      | Ok rsyncSecret => PushRsyncKeysToCluster p.(remoteClient) rsyncSecret agentNamespace
      | Err e => mret (Err e)
      end;
  step (waitForKeySecret rc) "Failed to wait for SSH key secret: " rc (λ _,
  d ← Deploy p.(remoteClient) rc;
  match d with
  | (Err e, rc) => failed "Failed to deploy agent: " e rc
  | (Ok _, rc) =>
      let rc := on_pvc_status with_agents rc in
      g ← mcall (MGetDaemonSet p.(remoteClient) agentNamespace agentName);
      let rc := on_pvc_status (match g with
                               | Ok ds => agent_phase ds
                               | Err _ => λ st, set_message "PVC sync agent deployed successfully" (set_phase "Running" st)
                               end) rc in
      now ← mcall MNow;
      mret (Ok tt, on_pvc_status (set_deployed now) rc)
  end)))).

Definition ForceSync (rc : RemoteCluster) : MP (res unit * RemoteCluster) :=
  match sync_enabled rc with
  | None => when_disabled rc
  | Some _ =>
      let rc := initialized rc in
      step (getRemoteClient rc) "Failed to get remote client: " rc (λ remote,
      step (ensureDrSyncerNamespace remote) "Failed to ensure dr-syncer namespace: " rc (λ _, deploy_agent rc))
  end.

Definition agentsRunning (rc : RemoteCluster) : bool :=
  match rc.(RCStatus).(rsPVCSync) with
  | Some st =>
      match st.(pstAgentStatus) with
      | Some a => (0 <? a.(asReadyNodes)) && (st.(pstPhase) =s? "Running")
      | None => false
      end
  | None => false
  end.

Definition last_deployment (rc : RemoteCluster) : option Time := rc.(RCStatus).(rsPVCSync) ≫= pstLastDeploymentTime.

(** The second [time.Since] is of the log message; it dereferences LastDeploymentTime. *)
Definition ReconcilePVCSync (rc : RemoteCluster) : MP (res unit * RemoteCluster) :=
  match sync_enabled rc with
  | None => when_disabled rc
  | Some _ =>
      let rc := initialized rc in
      step (getRemoteClient rc) "Failed to get remote client: " rc (λ remote,
      step (ensureDrSyncerNamespace remote) "Failed to ensure dr-syncer namespace: " rc (λ _,
      if agentsRunning rc then
        match last_deployment rc with
        | Some t =>
            now ← mcall MNow;
            if Since now t <? DefaultSyncPeriod then mret (Ok tt, rc)
            else _ ← mcall MNow; deploy_agent rc
        | None => panic "invalid memory address or nil pointer dereference"
        end
      else deploy_agent rc))
  end.

Definition RotateSSHKeys (rc : RemoteCluster) : MP (res unit * RemoteCluster) :=
  match sync_enabled rc with
  | None => mret (Ok tt, rc)
  | Some _ =>
      r ← (secret ←? RotateKeys p.(controllerClient) rc onerr (plainf "failed to rotate SSH keys: ");
           _ ←? PushKeysToRemoteCluster rc p.(remoteClient) secret onerr (plainf "failed to push rotated SSH keys to remote cluster: ");
           _ ←? EnsureKeysInControllerCluster p.(controllerClient) rc secret
             onerr (plainf "failed to store public SSH keys in controller cluster: ");
           mret (Ok tt));
      match r with
      | Err e => mret (Err e, rc)
      | Ok _ =>
          d ← Deploy p.(remoteClient) rc;
          match d with
          | (Err e, rc) => mret (Err (plainf "failed to redeploy agent after key rotation: " e), rc)
          | (Ok _, rc) =>
              match rc.(RCStatus).(rsPVCSync) with
              | Some _ =>
                  now ← mcall MNow;
                  mret (Ok tt, on_pvc_status (λ st, set_deployed now (set_message "SSH keys rotated, agent pods restarting" st)) rc)
              | None => mret (Ok tt, rc)
              end
          end
      end
  end.
End Manager.

Section Controllers.
Context `{Quantities} `{Backoff}.

(** [NewPVCSyncManager(client, client)]: both clients are the controller's. *)
Definition own_manager : PVCSyncManager := mkPVCSyncManager ControllerCluster ControllerCluster.

Definition SyncAllAgents : MP (res unit) :=
  l ←? mcall MListClusters onerr (plainf "failed to list RemoteClusters: ");
  _ ← range_each l tt (λ rc _,
        match sync_enabled rc with
        | None => mret tt
        | Some _ => _ ← ForceSync own_manager rc; mret tt
        end);
  mret (Ok tt).

(** ** pkg/controller/remotecluster/controller.go *)

Definition set_Health (h : string) (rc : RemoteCluster) : RemoteCluster :=
  let s := rc.(RCStatus) in
  mkRemoteCluster rc.(RCName) rc.(RCNamespace) rc.(RCResourceVersion) rc.(RCKubeconfig) rc.(RCDefaultSchedule) rc.(PVCSync)
    (mkRemoteClusterStatus h s.(rsLastSyncTime) s.(rsConditions) s.(rsPVCSync)).

Definition ReconcileHealth (ns name : string) : MP (res unit) :=
  r ← mcall (MGetCluster ns name);
  match r with
  | Err e => mret (if IsNotFound e then Ok tt else Err e)
  | Ok rc =>
      let rc := if rc.(RCStatus).(rsHealth) =s? "" then set_Health "Unknown" rc else rc in
      m ← ReconcilePVCSync own_manager rc;
      let '(result, rc) := m in
      _ ←? mcall (MUpdateClusterStatus (set_Health (match result with Ok _ => "Healthy" | Err _ => "Unhealthy" end) rc))
        onerr (plainf "failed to update status: ");
      mret result
  end.

(** ** pkg/controllers/cluster_controller.go *)

Definition set_conditions (l : list Condition) (rc : RemoteCluster) : RemoteCluster :=
  let s := rc.(RCStatus) in
  mkRemoteCluster rc.(RCName) rc.(RCNamespace) rc.(RCResourceVersion) rc.(RCKubeconfig) rc.(RCDefaultSchedule) rc.(PVCSync)
    (mkRemoteClusterStatus s.(rsHealth) s.(rsLastSyncTime) l s.(rsPVCSync)).

(** Update the first condition of the type, or append it. *)
Fixpoint set_condition (now : Time) (type status reason message : string) (l : list Condition) : list Condition :=
  match l with
  | [] => [mkCondition type status 0 now reason message]
  | c :: rest =>
      if c.(CType) =s? type then
        (if negb (c.(CStatus) =s? status) || negb (c.(CReason) =s? reason) || negb (c.(CMessage) =s? message)
         then mkCondition c.(CType) status c.(CObservedGeneration) now reason message else c) :: rest
      else c :: set_condition now type status reason message rest
  end.

Definition setRemoteClusterCondition (rc : RemoteCluster) (type status reason message : string) : MP RemoteCluster :=
  now ← mcall MNow;
  mret (set_conditions (set_condition now type status reason message rc.(RCStatus).(rsConditions)) rc).

(** [latest.Status = cluster.Status] *)
Definition with_status (st : RemoteClusterStatus) (rc : RemoteCluster) : RemoteCluster :=
  mkRemoteCluster rc.(RCName) rc.(RCNamespace) rc.(RCResourceVersion) rc.(RCKubeconfig) rc.(RCDefaultSchedule) rc.(PVCSync) st.

(** The result of a reconciliation: requeue at once, requeue after a while, and an error. *)
Record Outcome : Type := mkOutcome { requeue : bool; requeueAfter : Z; outcomeErr : option error }.

(** Read the latest version and give it the status; [err] is reported when that worked. *)
Definition store_on_latest (ns name : string) (rc : RemoteCluster) (err : error) : MP Outcome :=
  r ← mcall (MGetCluster ns name);
  match r with
  | Err e => mret (mkOutcome false 0 (Some e))
  | Ok latest =>
      u ← mcall (MUpdateClusterStatus (with_status rc.(RCStatus) latest));
      match u with
      | Err e => if IsConflict e then mret (mkOutcome true 0 None) else mret (mkOutcome false 0 (Some e))
      | Ok _ => mret (mkOutcome false Minute (Some err))
      end
  end.

(** Set a condition to False and store it without a new read; the result of the update is ignored. *)
Definition reject (rc : RemoteCluster) (type reason : string) (err : error) : MP Outcome :=
  rc ← setRemoteClusterCondition rc type "False" reason (Error err);
  _ ← mcall (MUpdateClusterStatus rc);
  mret (mkOutcome false Minute (Some err)).

Definition ready_condition (rc : RemoteCluster) : string * string * string :=
  match rc.(RCStatus).(rsPVCSync) ≫= pstAgentStatus with
  | Some a =>
      if (a.(asReadyNodes) =? 0) && (0 <? a.(asTotalNodes)) then ("False", "NoReadyAgents", "No agent nodes are ready")
      else if a.(asReadyNodes) <? a.(asTotalNodes) then
        ("False", "PartiallyReady", itoa a.(asReadyNodes) +:+ "/" +:+ itoa a.(asTotalNodes) +:+ " agent nodes are ready")
      else ("True", "ReconciliationSuccessful", "PVC sync agent deployed successfully")
  | None => ("True", "ReconciliationSuccessful", "PVC sync agent deployed successfully")
  end.

Definition GetGlobalConcurrencyLimit (spec : PVCSyncSpec) : Z := default 4 spec.(psGlobalConcurrencyLimit).

(** The last part: the status of the connection goes to the latest version, then the agent. *)
Definition finish (ns name config : string) (cluster : RemoteCluster) : MP Outcome :=
  r ← mcall (MGetCluster ns name);
  match r with
  | Err e => mret (mkOutcome false 0 (Some e))
  | Ok latest =>
      let latest := with_status cluster.(RCStatus) latest in
      n ← mcall (MNewClient config);
      match n with
      | Err e => reject latest "KubeconfigValid" "InvalidKubeconfig" e
      | Ok _ =>
          m ← ReconcilePVCSync (mkPVCSyncManager (ServerOf config) ControllerCluster) latest;
          latest ←
            match m with
            | (Err e, latest) => setRemoteClusterCondition latest "PVCSyncReady" "False" "ReconciliationFailed" (Error e)
            | (Ok _, latest) =>
                _ ← match latest.(PVCSync) with
                    | Some spec => mcall (MInitGlobalConcurrencyManager (GetGlobalConcurrencyLimit spec))
                    | None => mret tt
                    end;
                let '(status, reason, message) := ready_condition latest in
                setRemoteClusterCondition latest "PVCSyncReady" status reason message
            end;
          u ← mcall (MUpdateClusterStatus latest);
          match u with
          | Err e => if IsConflict e then mret (mkOutcome true 0 None) else mret (mkOutcome false 0 (Some e))
          | Ok _ => mret (mkOutcome false DefaultSyncPeriod None)
          end
      end
  end.

Definition set_LastSyncTime (t : Time) (rc : RemoteCluster) : RemoteCluster :=
  let s := rc.(RCStatus) in with_status (mkRemoteClusterStatus s.(rsHealth) (Some t) s.(rsConditions) s.(rsPVCSync)) rc.

(** The kubeconfig: secret, key, configuration, connection. *)
Definition connect (ns name : string) (cluster : RemoteCluster) : MP Outcome :=
  let ref := cluster.(RCKubeconfig) in
  r ← mcall (MGetSecret ControllerCluster ref.(KCNamespace) ref.(KCName));
  match r with
  | Err e =>
      cluster ← setRemoteClusterCondition cluster "KubeconfigAvailable" "False" "KubeconfigSecretNotFound" (Error e);
      store_on_latest ns name cluster e
  | Ok secret =>
      let key := if ref.(KCKey) =s? "" then "kubeconfig" else ref.(KCKey) in
      match secret.(sData) !! key with
      | None => reject cluster "KubeconfigAvailable" "KubeconfigKeyNotFound" (PlainError ("kubeconfig key " +:+ key +:+ " not found in secret"))
      | Some data =>
          c ← mcall (MLoadConfig data);
          match c with
          | Err e => reject cluster "KubeconfigValid" "InvalidKubeconfig" e
          | Ok config =>
              l ← mcall (MListNamespaces config);
              match l with
              | Err e => reject cluster "ClusterAvailable" "ConnectionFailed" e
              | Ok _ =>
                  cluster ← setRemoteClusterCondition cluster "KubeconfigAvailable" "True" "KubeconfigFound"
                              ("Kubeconfig secret is available for cluster " +:+ cluster.(RCName));
                  cluster ← setRemoteClusterCondition cluster "KubeconfigValid" "True" "KubeconfigValidated"
                              ("Kubeconfig is valid for cluster " +:+ cluster.(RCName));
                  cluster ← setRemoteClusterCondition cluster "ClusterAvailable" "True" "ConnectionSuccessful"
                              ("Successfully connected to cluster " +:+ cluster.(RCName));
                  now ← mcall MNow;
                  finish ns name config (set_LastSyncTime now cluster)
              end
          end
      end
  end.

Definition ReconcileCluster (ns name : string) : MP Outcome :=
  r ← mcall (MGetCluster ns name);
  match r with
  | Err e => mret (mkOutcome false 0 (if IsNotFound e then None else Some e))
  | Ok cluster =>
      if cluster.(RCDefaultSchedule) =s? "" then connect ns name cluster
      else
        s ← mcall (MParseStandard cluster.(RCDefaultSchedule));
        match s with
        | Err e =>
            cluster ← setRemoteClusterCondition cluster "ScheduleValid" "False" "InvalidSchedule" (Error e);
            store_on_latest ns name cluster e
        | Ok _ =>
            cluster ← setRemoteClusterCondition cluster "ScheduleValid" "True" "ScheduleValidated" "Default schedule is valid";
            connect ns name cluster
        end
  end.

Definition findRemoteClustersForSecret (ns name : string) : MP (list (string * string)) :=
  l ← mcall MListClusters;
  mret (match l with
        | Err _ => []
        | Ok clusters =>
            (λ rc, (rc.(RCNamespace), rc.(RCName))) <$>
              filter (λ rc, (rc.(RCKubeconfig).(KCNamespace) =s? ns) && (rc.(RCKubeconfig).(KCName) =s? name) = true) clusters
        end).
End Controllers.
