(* ===== verification/RemoteClusterProps.v ===== *)
(** * Theorems about remote clusters

    What a reconciliation of the PVC sync leaves in the status, when it touches the
    clusters, what of the keys it stores where, and the conditions of a RemoteCluster. *)

From S2P Require Import Prelude GoString Errors Types Lock Kube KubeLogic Agent Deployer RemoteCluster.

(** ** Executions of programs over these calls *)

(** Every execution of [c] ends with an outcome in [Q]. *)
Definition ends {A : Type} (c : MP A) (Q : exec A → Prop) : Prop := ∀ tr out, runs c tr out → Q out.

Lemma ends_ret {A} (a : A) Q : Q (Ret a) → ends (mret a) Q.
Proof. intros H tr out Hr. by apply runs_ret_inv in Hr as [_ ->]. Qed.

Lemma ends_bind {A B} (c : MP A) (f : A → MP B) (R : A → Prop) Q :
  ends c (λ out, match out with Ret a => R a | Panic w => Q (Panic w) end) → (∀ a, R a → ends (f a) Q) → ends (c ≫= f) Q.
Proof.
  intros Hc Hf tr out Hr. apply runs_bind_inv in Hr as [(a & t1 & t2 & H1 & H2 & ->)|(w & H1 & ->)].
  - apply (Hf a (Hc _ _ H1) _ _ H2).
  - apply (Hc _ _ H1).
Qed.

Lemma ends_call_bind {A} (o : MOp) (f : MResp o → MP A) Q : (∀ r, ends (f r) Q) → ends (mcall o ≫= f) Q.
Proof. intros Hf tr out Hr. apply (runs_call_inv (Sg := MSig) o) in Hr as (r & t & _ & Hr). by apply (Hf r t). Qed.

Lemma ends_call (o : MOp) (Q : exec (MResp o) → Prop) : (∀ r, Q (Ret r)) → ends (mcall o) Q.
Proof.
  intros HQ tr out Hr. apply (runs_call_inv (Sg := MSig) o) in Hr as (r & t & _ & Hr). apply runs_ret_inv in Hr as [_ ->]. apply HQ.
Qed.

Lemma ends_mono {A} (c : MP A) (Q Q' : exec A → Prop) : ends c Q → (∀ out, Q out → Q' out) → ends c Q'.
Proof. intros H HQ tr out Hr. by apply HQ, (H tr). Qed.

(** No panic. *)
Definition quiet {A : Type} (c : MP A) : Prop := ends c (λ out, ∃ a, out = Ret a).

Lemma no_panic_ret {A} (a : A) : quiet (mret a).
Proof. apply ends_ret. by eauto. Qed.

Lemma no_panic_call (o : MOp) : quiet (mcall o).
Proof. apply (ends_call o). by eauto. Qed.

Lemma no_panic_bind {A B} (c : MP A) (f : A → MP B) : quiet c → (∀ a, quiet (f a)) → quiet (c ≫= f).
Proof.
  intros Hc Hf. apply (ends_bind _ _ (λ _, True)); [|by intros a _; apply Hf].
  eapply ends_mono; [apply Hc|]. intros out [a ->]. done.
Qed.

Lemma no_panic_bindE {A B} (c : MP (res A)) w (k : A → MP (res B)) : quiet c → (∀ a, quiet (k a)) → quiet (bindE c w k).
Proof. intros Hc Hk. apply no_panic_bind; [done|]. intros [a|e]; [apply Hk|]. apply ends_ret. by eauto. Qed.

(** After a part that does not panic. *)
Lemma ends_quiet {A B} (c : MP A) (f : A → MP B) Q : quiet c → (∀ a, ends (f a) Q) → ends (c ≫= f) Q.
Proof.
  intros Hc Hf. apply (ends_bind _ _ (λ _, True)); [|by intros a _; apply Hf].
  eapply ends_mono; [apply Hc|]. intros out [a ->]. done.
Qed.

Ltac quiet_solve :=
  repeat lazymatch goal with
  | |- quiet (match ?x with _ => _ end) => destruct x
  | |- quiet (if ?x then _ else _) => destruct x
  | |- quiet (mret _) => apply no_panic_ret
  | |- quiet (merrorf _) => apply no_panic_ret
  | |- quiet (mcall ?o) => exact (no_panic_call o)
  | |- quiet (bindE _ _ _) => apply no_panic_bindE; [|intros ?]
  | |- quiet (_ ≫= _) => apply no_panic_bind; [|intros ?]
  | |- quiet (let _ := _ in _) => cbv zeta
  end.

Section Quiet.
Context `{Quantities}.

Lemma EnsureKeys_quiet c rc : quiet (EnsureKeys c rc).
Proof. unfold EnsureKeys, get_or_create, generate_agent_secret. quiet_solve. Qed.

Lemma push_quiet target ns name check s : quiet (push_secret target ns name check s).
Proof. unfold push_secret. quiet_solve. Qed.

Lemma PushKeys_quiet rc c s : quiet (PushKeysToRemoteCluster rc c s).
Proof. unfold PushKeysToRemoteCluster. destruct (ssh_of rc); [apply push_quiet|quiet_solve]. Qed.

Lemma EnsureKeysInControllerCluster_quiet c rc s : quiet (EnsureKeysInControllerCluster c rc s).
Proof. unfold EnsureKeysInControllerCluster. quiet_solve. Qed.

Lemma EnsureRsyncKeys_quiet c rc ns : quiet (EnsureRsyncKeys c rc ns).
Proof. unfold EnsureRsyncKeys, get_or_create. quiet_solve. Qed.

Lemma apply_plain_quiet c x : quiet (apply_plain c x).
Proof. unfold apply_plain. quiet_solve. Qed.

(** The quantities of the deployment options can be parsed. *)
Definition quantities_ok (d : option PVCSyncDeployment) : Prop :=
  match d with
  | Some d => d.(pdHasResources) = true → must_parse d.(pdLimits) ≠ None ∧ must_parse d.(pdRequests) ≠ None
  | None => True
  end.

Definition cluster_ok (rc : RemoteCluster) : Prop := ∀ spec, rc.(PVCSync) = Some spec → quantities_ok spec.(psDeployment).

Lemma createOrUpdateDaemonSet_quiet c rc : cluster_ok rc → quiet (createOrUpdateDaemonSet c rc).
Proof.
  intros Hok. unfold createOrUpdateDaemonSet. destruct (PVCSync rc) as [spec|] eqn:E; [|quiet_solve].
  destruct (psImage spec); [|quiet_solve]. specialize (Hok spec E).
  assert (Hq : quiet (agent_resources (psDeployment spec))).
  { unfold agent_resources, quantities_ok in *. destruct (psDeployment spec) as [d|]; [|quiet_solve].
    destruct (pdHasResources d); [|quiet_solve]. destruct (Hok eq_refl) as [Hl Hr].
    destruct (must_parse (pdLimits d)); [|done]. destruct (must_parse (pdRequests d)); [|done]. quiet_solve. }
  do 4 (apply no_panic_bind; [quiet_solve|intros ?]). apply no_panic_bind; [done|intros ?]. quiet_solve.
Qed.
End Quiet.

(** ** The status after a reconciliation *)

Lemma set_pvc_status_twice st st' rc : set_pvc_status st (set_pvc_status st' rc) = set_pvc_status st rc.
Proof. done. Qed.

Lemma set_pvc_status_id rc : set_pvc_status rc.(RCStatus).(rsPVCSync) rc = rc.
Proof. by destruct rc as [? ? ? ? ? ? []]. Qed.

Lemma on_pvc_status_some f st rc : on_pvc_status f (set_pvc_status (Some st) rc) = set_pvc_status (Some (f st)) rc.
Proof. done. Qed.

(** A status that says the agent runs says when it was deployed. *)
Definition running_deployed (rc : RemoteCluster) : Prop :=
  ∀ st, rc.(RCStatus).(rsPVCSync) = Some st → st.(pstPhase) = "Running" → st.(pstLastDeploymentTime) ≠ None.

(** What the reconciliation of an enabled PVC sync leaves: the agent running or degraded
    since a known time, or the failure that is returned. *)
Definition settled (r : res unit) (st : PVCSyncStatus) : Prop :=
  match r with
  | Ok _ => (st.(pstPhase) = "Running" ∨ st.(pstPhase) = "Degraded") ∧ st.(pstLastDeploymentTime) ≠ None
  | Err e => st.(pstPhase) = "Failed" ∧ ∃ prefix, st.(pstMessage) = prefix +:+ Error e
  end.

Definition settles (rc : RemoteCluster) (out : exec (res unit * RemoteCluster)) : Prop :=
  ∃ r st, out = Ret (r, set_pvc_status (Some st) rc) ∧ settled r st.

Section Settles.
Context `{Quantities} `{LawfulBackoff}.
Variable (p : PVCSyncManager) (rc : RemoteCluster).
Hypothesis Hok : cluster_ok rc.

Lemma failed_settles prefix e st : ends (failed prefix e (set_pvc_status (Some st) rc)) (settles rc).
Proof. apply ends_ret. eexists _, _. split; [done|]. cbn. by eauto. Qed.

Lemma step_settles {A} (c : MP (res A)) prefix st (k : A → MP (res unit * RemoteCluster)) :
  quiet c → (∀ a, ends (k a) (settles rc)) → ends (step c prefix (set_pvc_status (Some st) rc) k) (settles rc).
Proof. intros Hc Hk. apply ends_quiet; [done|]. intros [a|e]; [apply Hk|apply failed_settles]. Qed.

Lemma waitForKeySecret_quiet rc' : quiet (waitForKeySecret p rc').
Proof.
  unfold waitForKeySecret. destruct (PVCSync rc' ≫= psSSH) as [ssh|]; [|quiet_solve].
  apply no_panic_bindE; [|intros ?; quiet_solve]. intros tr out Hr. apply backoff_runs in Hr.
  assert (Hc : quiet (keys_available p rc' (key_secret ssh).1)) by (unfold keys_available; quiet_solve).
  induction Hr as [| | |tr e|n tr w Hw]; [by eauto..|]. by apply Hc in Hw as [a [=]].
Qed.

Lemma Deploy_ends c st :
  ends (Deploy c (set_pvc_status (Some st) rc)) (λ out, ∃ r st', out = Ret (r, set_pvc_status (Some st') rc)).
Proof.
  unfold Deploy. apply ends_quiet.
  { repeat (apply no_panic_bindE; [|intros ?]); try apply apply_plain_quiet; [|quiet_solve].
    apply createOrUpdateDaemonSet_quiet. exact Hok. }
  intros [u|e]; [|apply ends_ret; by eauto]. unfold updateAgentStatus. apply (ends_bind _ _
    (λ x, ∃ r st', x = (r, set_pvc_status (Some st') rc))).
  - apply ends_call_bind. intros [ds|e]; [|destruct (IsNotFound e)]; apply ends_ret; by eauto.
  - intros x (r & st' & ->). destruct r; apply ends_ret; by eauto.
Qed.

Lemma deploy_agent_settles st : ends (deploy_agent p (set_pvc_status (Some st) rc)) (settles rc).
Proof.
  unfold deploy_agent. apply step_settles; [apply EnsureKeys_quiet|]. intros secret.
  apply step_settles; [apply PushKeys_quiet|]. intros _.
  apply step_settles; [apply EnsureKeysInControllerCluster_quiet|]. intros _.
  apply ends_quiet; [apply EnsureRsyncKeys_quiet|]. intros r.
  apply ends_quiet; [destruct r; [apply push_quiet|quiet_solve]|]. intros _.
  apply step_settles; [apply waitForKeySecret_quiet|]. intros _.
  apply (ends_bind _ _ (λ x, ∃ r st', x = (r, set_pvc_status (Some st') rc))).
  { eapply ends_mono; [apply Deploy_ends|]. intros out (r' & st' & ->). by eauto. }
  intros x (r' & st' & ->). destruct r'; [|apply failed_settles]. cbv zeta. apply ends_call_bind. intros g.
  apply ends_call_bind. intros now. apply ends_ret. eexists _, _. split; [done|]. cbn. split; [|done].
  destruct g as [ds|e]; cbn; [|by left]. unfold agent_phase. do 2 (case_match; cbn; [by auto|]). by auto.
Qed.
End Settles.

(** ** Reconciliation of the PVC sync *)

Section Manager.
Context `{Quantities} `{LawfulBackoff}.

Lemma initialized_some rc : ∃ st, initialized rc = set_pvc_status (Some st) rc ∧
  (rc.(RCStatus).(rsPVCSync) = Some st ∨ st = new_status "Initializing").
Proof.
  unfold initialized. destruct (rsPVCSync (RCStatus rc)) as [st|] eqn:E; [|by eauto].
  exists st. rewrite <- E, set_pvc_status_id. by auto.
Qed.

Lemma settled_running r st rc : settled r st → running_deployed (set_pvc_status (Some st) rc).
Proof. intros Hs st' [= <-] Hp. destruct r; cbn in Hs; [by destruct Hs|]. rewrite Hp in Hs. by destruct Hs. Qed.

Lemma Cleanup_quiet c : quiet (Cleanup c).
Proof. unfold Cleanup, deleteDaemonSet, deleteRBAC, deleteServiceAccount, delete_plain. quiet_solve. Qed.

Lemma cleanup_ends p rc :
  ends (cleanupPVCSync p rc) (λ out, out = Ret (Ok tt, set_pvc_status None rc) ∨ ∃ e, out = Ret (Err e, rc)).
Proof.
  unfold cleanupPVCSync. apply ends_quiet; [|intros [u|e]; apply ends_ret; by eauto].
  apply no_panic_bindE; [unfold DeleteKeys; quiet_solve|intros _].
  apply no_panic_bind; [unfold DeleteRsyncKeys; quiet_solve|intros _]. apply no_panic_bind; [quiet_solve|intros g].
  apply no_panic_bind; [destruct g; quiet_solve|intros _]. apply no_panic_bindE; [apply Cleanup_quiet|intros _; quiet_solve].
Qed.

(** C15: from a status in which a running agent has a deployment time (which holds at first),
    and with quantities that parse, a reconciliation of the PVC sync never panics, keeps
    that invariant and changes nothing of the cluster but the PVC sync status.  Of an enabled
    cluster it leaves the agent Running or Degraded with its deployment time when it returns
    nil, and the phase Failed with the error in the message when it returns an error; of a
    disabled one no status, or one that never had a phase, when it returns nil. *)
Theorem ReconcilePVCSync_outcome p rc tr out :
  cluster_ok rc → running_deployed rc → runs (ReconcilePVCSync p rc) tr out →
  ∃ r st, out = Ret (r, set_pvc_status st rc) ∧ running_deployed (set_pvc_status st rc) ∧
    match sync_enabled rc with
    | Some _ => ∃ st', st = Some st' ∧ settled r st'
    | None => r = Ok tt → st = None ∨ ∃ st', st = Some st' ∧ st'.(pstPhase) = ""
    end.
Proof.
  intros Hok Hrun Hr. revert tr out Hr. change (ends (ReconcilePVCSync p rc) (λ out, ∃ r st, out = Ret (r, set_pvc_status st rc) ∧
    running_deployed (set_pvc_status st rc) ∧
    match sync_enabled rc with
    | Some _ => ∃ st', st = Some st' ∧ settled r st'
    | None => r = Ok tt → st = None ∨ ∃ st', st = Some st' ∧ st'.(pstPhase) = ""
    end)).
  unfold ReconcilePVCSync. destruct (sync_enabled rc) as [spec|] eqn:Hen.
  - apply (ends_mono _ (settles rc)).
    2: { intros o (r & st & -> & Hs). exists r, (Some st). split; [done|]. split; [by apply (settled_running r)|by eauto]. }
    destruct (initialized_some rc) as (st & -> & Hst). cbv zeta.
    apply step_settles; [unfold getRemoteClient; quiet_solve|]. intros remote.
    apply step_settles; [unfold ensureDrSyncerNamespace; quiet_solve|]. intros _.
    destruct (agentsRunning (set_pvc_status (Some st) rc)) eqn:Hag; [|by apply deploy_agent_settles].
    assert (Hp : pstPhase st = "Running").
    { unfold agentsRunning in Hag. cbn in Hag. destruct (pstAgentStatus st); [|done]. bool_props. done. }
    destruct (last_deployment (set_pvc_status (Some st) rc)) as [t|] eqn:Ht.
    + apply ends_call_bind. intros now. destruct (Since now t <? DefaultSyncPeriod).
      * apply ends_ret. exists (Ok tt), st. split; [done|]. cbn. cbn in Ht. rewrite Ht. by auto.
      * apply ends_call_bind. intros _. by apply deploy_agent_settles.
    + cbn in Ht. exfalso. destruct Hst as [E| ->]; [by apply (Hrun st E Hp)|done].
  - unfold when_disabled.
    assert (Hsame : ends (mret (Ok tt, rc) : MP (res unit * RemoteCluster)) (λ out, out = Ret (Ok tt, rc))) by by apply ends_ret.
    destruct (rsPVCSync (RCStatus rc)) as [st|] eqn:E; [destruct (pstPhase st =s? "") eqn:Ep|].
    + eapply ends_mono; [exact Hsame|]. intros o ->. bool_props. exists (Ok tt), (Some st).
      rewrite <- E, set_pvc_status_id. split_and!; [done..|]. rewrite E. by eauto.
    + eapply ends_mono; [apply cleanup_ends|]. intros o [->|[e ->]].
      * exists (Ok tt), None. split_and!; [done|by intros ? [=]|by left].
      * exists (Err e), (Some st). rewrite <- E, set_pvc_status_id. split_and!; [done..|]. done.
    + eapply ends_mono; [exact Hsame|]. intros o ->. exists (Ok tt), None. rewrite <- E, set_pvc_status_id.
      split_and!; [done..|]. rewrite E. by left.
Qed.
End Manager.

(** *** A concrete backoff and a cluster on which everything works *)

Fixpoint poll_steps (n : nat) (cond : MP (res bool)) : MP (res unit) :=
  r ← cond;
  match r with
  | Err e => mret (Err e)
  | Ok true => mret (Ok tt)
  | Ok false =>
      match n with
      | O => mret (Err (PlainError "timed out waiting for the condition"))
      | S n' => _ ← mcall MSleep; poll_steps n' cond
      end
  end.

#[local] Instance ten_steps : Backoff := poll_steps 9.

Lemma poll_steps_polled n cond tr out : runs (poll_steps n cond) tr out → polled cond (S n) tr out.
Proof.
  revert tr. induction n as [|n IH]; intros tr Hr; cbn [poll_steps] in Hr;
    (apply runs_bind_inv in Hr as [(r & t1 & t2 & H1 & H2 & ->)|(w & H1 & ->)]; [|by apply polled_panic]);
    (destruct r as [[|]|e]; [apply runs_ret_inv in H2 as [-> ->]; rewrite app_nil_r; by constructor| |
                             apply runs_ret_inv in H2 as [-> ->]; rewrite app_nil_r; by constructor]).
  - apply runs_ret_inv in H2 as [-> ->]. rewrite app_nil_r. by apply polled_timeout.
  - apply (runs_call_inv (Sg := MSig) MSleep) in H2 as ([] & t & -> & H2). apply polled_again; [done|]. by apply IH.
Qed.

#[local] Instance ten_steps_lawful : LawfulBackoff.
Proof. intros cond tr out Hr. by apply poll_steps_polled. Qed.

#[local] Instance any_quantity : Quantities := Some.

Definition edge_spec : PVCSyncSpec :=
  mkPVCSyncSpec true (Some (mkPVCSyncImage "agent" "v1" "")) (Some (mkPVCSyncSSH 0 None)) None None "" None None.

Definition edge_cluster (spec : PVCSyncSpec) (st : option PVCSyncStatus) : RemoteCluster :=
  mkRemoteCluster "edge" "dr-syncer" "7" (mkKubeconfigSecretRef "edge-kubeconfig" "dr-syncer" "") "0 3 * * *" (Some spec)
    (mkRemoteClusterStatus "" None [] st).

Definition full_secret (ns name : string) : Secret :=
  mkSecret name ns "3" None "Opaque" (<["kubeconfig" := "edge-config"]> (client_keys "private" "public")) None.

(** Every call succeeds; three of four agents are ready. *)
Definition all_good (spec : PVCSyncSpec) (st : option PVCSyncStatus) : handler MSig unit := λ o u,
  (match o as o return MResp o with
   | MNow => 1700000000 * Second
   | MSleep => tt
   | MGetenv _ => ""
   | MParseStandard _ => Ok tt
   | MGetCluster _ _ => Ok (edge_cluster spec st)
   | MUpdateClusterStatus rc => Ok rc
   | MListClusters => Ok [edge_cluster spec st]
   | MGetSecret _ ns name => Ok (full_secret ns name)
   | MCreateSecret _ _ => Ok tt
   | MUpdateSecret _ _ => Ok tt
   | MDeleteSecret _ _ _ => Ok tt
   | MGenerateKey => Ok ("private", "public")
   | MClientset c => Ok c
   | MCreateNamespace _ _ => Ok tt
   | MLoadConfig c => Ok c
   | MListNamespaces _ => Ok tt
   | MNewClient _ => Ok tt
   | MInitGlobalConcurrencyManager _ => tt
   | MGetPlain _ k ns name => Ok (mkPlain k name ns "2" ∅ NoBody)
   | MCreatePlain _ _ => Ok tt
   | MUpdatePlain _ _ => Ok tt
   | MDeletePlain _ _ _ _ => Ok tt
   | MGetDaemonSet _ ns name => Ok (mkDaemonSet name ns "5" ∅ ∅ ∅ ∅ (mkAgentPodSpec "" true [] [] None [] "") 4 3)
   | MCreateDaemonSet _ _ => Ok tt
   | MUpdateDaemonSet _ _ => Ok tt
   | MDeleteDaemonSet _ _ _ => Ok tt
   | MLease _ _ _ _ => Ok tt
   end, u).

Definition edge_manager : PVCSyncManager := mkPVCSyncManager (ServerOf "edge-config") ControllerCluster.

Lemma ReconcilePVCSync_outcome_witness :
  let rc := edge_cluster edge_spec None in
  let out := (run (all_good edge_spec None) (ReconcilePVCSync edge_manager rc) tt).1 in
  (∃ r st, out = Ret (r, set_pvc_status st rc) ∧ running_deployed (set_pvc_status st rc) ∧
     ∃ st', st = Some st' ∧ settled r st') ∧
  out = Ret (Ok tt, set_pvc_status (Some (mkPVCSyncStatus "Running" (Some (mkPVCSyncAgentStatus 3 4 (Some ∅))) None
                                      (Some (1700000000 * Second)) 0 "PVC sync agent is running")) rc).
Proof.
  intros rc out. split; [|vm_compute; reflexivity].
  apply (ReconcilePVCSync_outcome edge_manager rc (run_trace (all_good edge_spec None) (ReconcilePVCSync edge_manager rc) tt) out);
    [|by intros st [=]|apply run_trace_runs].
  intros spec [= <-]. done.
Defined.

(** ** Which calls are made *)

(** Anything may be returned. *)
Abbreviation calls P c := (safe P c (λ _, True)).

Lemma calls_bind {A B} (P : Op MSig → Prop) (c : MP A) (k : A → MP B) : calls P c → (∀ a, calls P (k a)) → calls P (c ≫= k).
Proof. intros Hc Hk. apply (safe_bind _ _ _ (λ _, True)); auto. Qed.

Lemma calls_bindE {A B} (P : Op MSig → Prop) (c : MP (res A)) w (k : A → MP (res B)) :
  calls P c → (∀ a, calls P (k a)) → calls P (bindE c w k).
Proof. intros Hc Hk. apply calls_bind; [done|]. by intros [a|e]; [apply Hk|]. Qed.

Lemma calls_step {A B} (P : Op MSig → Prop) (c : MP (res A)) prefix rc (k : A → MP (res B * RemoteCluster)) :
  calls P c → (∀ a, calls P (k a)) → calls P (step c prefix rc k).
Proof. intros Hc Hk. apply calls_bind; [done|]. by intros [a|e]; [apply Hk|]. Qed.

Lemma calls_call (P : Op MSig → Prop) (o : MOp) : P o → calls P (mcall o).
Proof. done. Qed.

Lemma MResp_inhabited (o : Op MSig) : ∃ r : Resp MSig o, True.
Proof. by exists (all_good edge_spec None o tt).1. Qed.

Ltac calls_solve tac :=
  repeat first
  [ progress (cbv zeta)
  | lazymatch goal with
    | |- safe _ (match ?x with _ => _ end) _ => destruct x
    | |- safe _ (if ?x then _ else _) _ => destruct x
    | |- safe _ (mret _) _ => exact I
    | |- safe _ (merrorf _) _ => exact I
    | |- safe _ (panic _) _ => exact I
    | |- safe _ (failed _ _ _) _ => exact I
    | |- safe _ (mcall ?o) _ => apply (calls_call _ o)
    | |- safe _ (step _ _ _ _) _ => apply calls_step; [|intros ?]
    | |- safe _ (bindE _ _ _) _ => apply calls_bindE; [|intros ?]
    | |- safe _ (mbind _ _) _ => apply calls_bind; [|intros ?]
    | |- safe _ (range_each _ _ _) _ => apply safe_range_each; [exact I|intros ? ? ? ?]
    end
  | tac ].

Section Calls.
Context `{Quantities} `{LawfulBackoff} (P : Op MSig → Prop).
Variable p : PVCSyncManager.

Lemma calls_wait rc :
  P MSleep → (∀ ns name, P (MGetSecret p.(remoteClient) ns name)) → (∀ ns name, P (MGetSecret p.(controllerClient) ns name)) →
  calls P (waitForKeySecret p rc).
Proof.
  intros Hs Hg Hg'. unfold waitForKeySecret. destruct (PVCSync rc ≫= psSSH) as [ssh|]; [|done].
  apply calls_bindE; [|done]. apply safe_of_runs; [exact MResp_inhabited|].
  assert (Hc : calls P (keys_available p rc (key_secret ssh).1)) by (unfold keys_available; calls_solve ltac:(first [apply Hg | apply Hg'])).
  intros tr out Hr. apply backoff_runs in Hr.
  induction Hr as [n tr Hr|n tr e Hr|n t1 t2 out Hr _ IH|tr e Hr|n tr w Hr]; apply (safe_sound _ _ _ _ _ Hc) in Hr as [Hr _]; try done.
  apply Forall_app. split; [done|]. by constructor.
Qed.
End Calls.

(** Nothing is created or updated. *)
Definition removes_only : Op MSig → Prop := λ o : MOp,
  match o with
  | MCreateSecret _ _ | MUpdateSecret _ _ | MCreateNamespace _ _ | MCreatePlain _ _ | MUpdatePlain _ _
  | MCreateDaemonSet _ _ | MUpdateDaemonSet _ _ | MGenerateKey | MUpdateClusterStatus _ => False
  | _ => True
  end.

(** Nothing is written but the namespace. *)
Definition namespace_only : Op MSig → Prop := λ o : MOp,
  match o with
  | MCreateSecret _ _ | MUpdateSecret _ _ | MDeleteSecret _ _ _ | MCreatePlain _ _ | MUpdatePlain _ _ | MDeletePlain _ _ _ _
  | MCreateDaemonSet _ _ | MUpdateDaemonSet _ _ | MDeleteDaemonSet _ _ _ | MGenerateKey | MUpdateClusterStatus _ => False
  | _ => True
  end.

Section Rests.
Context `{Quantities} `{Backoff}.

Lemma when_disabled_calls p rc : calls removes_only (when_disabled p rc).
Proof.
  unfold when_disabled, cleanupPVCSync, DeleteKeys, DeleteRsyncKeys, Cleanup, deleteDaemonSet, deleteRBAC, deleteServiceAccount,
    delete_plain. calls_solve ltac:(exact I).
Qed.

(** The PVC sync manager leaves a cluster alone when it should: for a cluster whose PVC
    sync is disabled it creates and updates nothing, on any execution; and while agents run
    and the last deployment is less than an hour old, it touches no key and no part of the
    agent, only the namespace. *)
Theorem ReconcilePVCSync_rests p rc tr out :
  runs (ReconcilePVCSync p rc) tr out →
  (sync_enabled rc = None → Forall (λ e, removes_only (ev_op e)) tr) ∧
  (∀ t, agentsRunning rc = true → last_deployment rc = Some t → sync_enabled rc ≠ None →
     (∀ now, Ev (Sg := MSig) MNow now ∈ tr → Since now t < DefaultSyncPeriod) →
     Forall (λ e, namespace_only (ev_op e)) tr).
Proof.
  intros Hr. split.
  - intros Hen. unfold ReconcilePVCSync in Hr. rewrite Hen in Hr.
    by apply (safe_sound _ _ _ _ _ (when_disabled_calls p rc)) in Hr as [? _].
  - intros t Hag Ht Hen Hnow. unfold ReconcilePVCSync in Hr. destruct (sync_enabled rc); [|done].
    assert (Hinit : initialized rc = rc).
    { unfold initialized, agentsRunning in *. by destruct (rsPVCSync (RCStatus rc)). }
    rewrite Hinit, Hag, Ht in Hr. cbv zeta in Hr.
    assert (Hc1 : calls namespace_only (getRemoteClient p rc)) by (unfold getRemoteClient; calls_solve ltac:(exact I)).
    unfold step at 1 in Hr. apply runs_bind_inv in Hr as [(r1 & t1 & t2 & H1 & Hr & ->)|(w & H1 & ->)];
      [|by apply (safe_sound _ _ _ _ _ Hc1) in H1 as [? _]].
    apply (safe_sound _ _ _ _ _ Hc1) in H1 as [H1 _]. apply Forall_app. split; [done|].
    destruct r1 as [remote|e]; [|apply runs_ret_inv in Hr as [-> _]; by constructor].
    assert (Hc2 : calls namespace_only (ensureDrSyncerNamespace remote)) by (unfold ensureDrSyncerNamespace; calls_solve ltac:(exact I)).
    unfold step in Hr. apply runs_bind_inv in Hr as [(r2 & t3 & t4 & H2 & Hr & ->)|(w & H2 & ->)];
      [|by apply (safe_sound _ _ _ _ _ Hc2) in H2 as [? _]].
    apply (safe_sound _ _ _ _ _ Hc2) in H2 as [H2 _]. apply Forall_app. split; [done|].
    destruct r2 as [u|e]; [|apply runs_ret_inv in Hr as [-> _]; by constructor].
    apply (runs_call_inv (Sg := MSig) MNow) in Hr as (now & t5 & -> & Hr). constructor; [done|].
    rewrite (proj2 (Z.ltb_lt _ _)) in Hr by (apply Hnow; set_solver). apply runs_ret_inv in Hr as [-> _]. by constructor.
Qed.
End Rests.

Definition running_status : PVCSyncStatus :=
  mkPVCSyncStatus "Running" (Some (mkPVCSyncAgentStatus 3 4 None)) None (Some (1700000000 * Second - 10 * Minute)) 0 "".

Lemma ReconcilePVCSync_rests_witness :
  let rc := edge_cluster edge_spec (Some running_status) in
  Forall (λ e, namespace_only (ev_op e))
    (run_trace (all_good edge_spec None) (ReconcilePVCSync edge_manager rc) tt).
Proof.
  intros rc. refine (proj2 (ReconcilePVCSync_rests edge_manager rc _ _ (run_trace_runs _ _ tt)) (1700000000 * Second - 10 * Minute) _ _ _ _);
    [done..|].
  intros now Hin. assert (Hall : forallb (λ e : event MSig, match e with Ev o r => match o as o return MResp o → bool with
    MNow => λ t, t =? 1700000000 * Second | _ => λ _, true end r end)
    (run_trace (all_good edge_spec None) (ReconcilePVCSync edge_manager rc) tt) = true) by (vm_compute; reflexivity).
  rewrite forallb_forall in Hall. specialize (Hall _ (proj1 (list_elem_of_In _ _) Hin)). cbn in Hall. bool_props. by subst.
Defined.

(** ** Keys *)

Definition public_names : list string :=
  [publicKeyKey; id_rsa_pub; authorizedKeys; hostRsaKeyPub; hostEcdsaKeyPub; hostEd25519KeyPub].

(** Every entry has a public name and is an entry of [data] with a public name. *)
Definition public_part (data m : gmap string string) : Prop :=
  ∀ k v, m !! k = Some v → k ∈ public_names ∧ ∃ k', k' ∈ public_names ∧ data !! k' = Some v.

Lemma copy_key_public data k m : k ∈ public_names → public_part data m → public_part data (copy_key data k m).
Proof.
  intros Hk Hm. unfold copy_key. destruct (data !! k) as [v|] eqn:E; [|done]. intros k' v'.
  rewrite lookup_insert_Some. intros [[<- <-]|[_ H]]; [by eauto|by apply Hm].
Qed.

Lemma public_keys_public data : public_part data (public_keys data).
Proof.
  unfold public_keys. cbv zeta. do 4 (apply copy_key_public; [unfold public_names; set_solver|]).
  destruct (data !! publicKeyKey) as [v|] eqn:E1; [|destruct (data !! id_rsa_pub) as [v|] eqn:E2]; intros k' v'.
  - rewrite lookup_singleton_Some. intros [<- <-]. split; [unfold public_names; set_solver|].
    exists publicKeyKey. split; [unfold public_names; set_solver|done].
  - rewrite lookup_insert_Some, lookup_singleton_Some. intros Hk. split; [unfold public_names; set_solver|].
    exists id_rsa_pub. split; [unfold public_names; set_solver|]. by destruct Hk as [[_ <-]|[_ [_ <-]]].
  - by rewrite lookup_empty.
Qed.

(** A write of keys: to the controller's secret of the cluster, public parts only. *)
Definition stores_public (client : Server) (rc : RemoteCluster) (secret : Secret) : Op MSig → Prop := λ o : MOp,
  match o with
  | MCreateSecret c x => c = client ∧ x.(sName) = controller_secret rc ∧ public_part secret.(sData) x.(sData)
  | MUpdateSecret c x => c = client ∧ public_part secret.(sData) x.(sData)
  | MDeleteSecret _ _ _ | MCreatePlain _ _ | MUpdatePlain _ _ | MCreateDaemonSet _ _ | MUpdateDaemonSet _ _ => False
  | _ => True
  end.

(** C28: EnsureKeysInControllerCluster stores public keys only: on every execution each secret it
    writes, in the controller cluster, has entries with the names of public keys only, and
    their contents are entries of the given secret that have such names; no private key
    of the secret is copied. *)
Theorem EnsureKeysInControllerCluster_public client rc secret tr out :
  runs (EnsureKeysInControllerCluster client rc secret) tr out →
  Forall (λ e, stores_public client rc secret (ev_op e)) tr.
Proof.
  intros Hr. assert (Hc : calls (stores_public client rc secret) (EnsureKeysInControllerCluster client rc secret)).
  { unfold EnsureKeysInControllerCluster. calls_solve ltac:(cbn; auto using public_keys_public). }
  by apply (safe_sound _ _ _ _ _ Hc) in Hr as [? _].
Qed.

Lemma EnsureKeysInControllerCluster_public_witness :
  let secret := full_secret "dr-syncer" "pvc-syncer-agent-keys" in
  let rc := edge_cluster edge_spec None in
  Forall (λ e, stores_public ControllerCluster rc secret (ev_op e))
    (run_trace (all_good edge_spec None) (EnsureKeysInControllerCluster ControllerCluster rc secret) tt) ∧
  public_keys secret.(sData) = {[publicKeyKey := "public"; authorizedKeys := "public"]}.
Proof.
  intros secret rc. split; [|vm_compute; reflexivity]. eapply EnsureKeysInControllerCluster_public, run_trace_runs.
Defined.

(** ** SyncAllAgents *)

(** Everything but the namespace goes to the controller's own cluster. *)
Definition own_cluster : Op MSig → Prop := λ o : MOp,
  match o with
  | MGetSecret s _ _ | MCreateSecret s _ | MUpdateSecret s _ | MDeleteSecret s _ _ | MGetPlain s _ _ _ | MCreatePlain s _
  | MUpdatePlain s _ | MDeletePlain s _ _ _ | MGetDaemonSet s _ _ | MCreateDaemonSet s _ | MUpdateDaemonSet s _
  | MDeleteDaemonSet s _ _ | MLease s _ _ _ => s = ControllerCluster
  | _ => True
  end.

Section Own.
Context `{Quantities} `{LawfulBackoff}.

Lemma deploy_agent_own rc : calls own_cluster (deploy_agent own_manager rc).
Proof.
  unfold deploy_agent, EnsureKeys, EnsureRsyncKeys, get_or_create, generate_agent_secret, PushKeysToRemoteCluster,
    PushRsyncKeysToCluster, push_secret, EnsureKeysInControllerCluster, Deploy, createOrUpdateNamespace,
    createOrUpdateServiceAccount, createOrUpdateRBAC, apply_plain, createOrUpdateDaemonSet, agent_resources, updateAgentStatus.
  calls_solve ltac:(first [by apply calls_wait | done]).
Qed.

(** The initial sync of all agents deploys nothing remotely: the manager it builds has the
    controller's client in the place of the remote one, so on every execution the keys and
    the agent of every RemoteCluster are written to the controller's own cluster. *)
Theorem SyncAllAgents_own_cluster tr out : runs SyncAllAgents tr out → Forall (λ e, own_cluster (ev_op e)) tr.
Proof.
  intros Hr. assert (Hc : calls own_cluster SyncAllAgents).
  { unfold SyncAllAgents, ForceSync, getRemoteClient, ensureDrSyncerNamespace, when_disabled, cleanupPVCSync, DeleteKeys,
      DeleteRsyncKeys, Cleanup, deleteDaemonSet, deleteRBAC, deleteServiceAccount, delete_plain.
    calls_solve ltac:(first [apply deploy_agent_own | done]). }
  by apply (safe_sound _ _ _ _ _ Hc) in Hr as [? _].
Qed.
End Own.

Lemma SyncAllAgents_own_cluster_witness :
  Forall (λ e, own_cluster (ev_op e)) (run_trace (all_good edge_spec None) SyncAllAgents tt) ∧
  existsb (λ e : event MSig, match (ev_op e : MOp) with MUpdateDaemonSet ControllerCluster _ => true | _ => false end)
    (run_trace (all_good edge_spec None) SyncAllAgents tt) = true.
Proof. split; [eapply SyncAllAgents_own_cluster, run_trace_runs|vm_compute; reflexivity]. Defined.
