(* ===== verification/ClusterConditions.v ===== *)
(** * The conditions of a RemoteCluster, and when the agent's DaemonSet changes

    What the RemoteCluster controller writes to the status of a cluster, as a monitor of its
    calls, and which differences lead the deployer to update the DaemonSet. *)

From S2P Require Import Prelude GoString Errors Types Lock Kube KubeLogic Agent Deployer RemoteCluster RemoteClusterProps.

#[local] Existing Instance ten_steps.
#[local] Existing Instance ten_steps_lawful.
#[local] Existing Instance any_quantity.

(** ** Conditions *)

(** One condition per type, each with a status of the API. *)
Definition conditions_ok (l : list Condition) : Prop :=
  NoDup (CType <$> l) ∧ Forall (λ c, c.(CStatus) ∈ ["True"; "False"; "Unknown"]) l.

#[global] Instance conditions_ok_dec l : Decision (conditions_ok l).
Proof. unfold conditions_ok. apply _. Defined.

Lemma set_condition_type now type status reason message l t :
  t ∈ CType <$> set_condition now type status reason message l → t = type ∨ t ∈ CType <$> l.
Proof.
  induction l as [|c l IH]; cbn; [set_solver|].
  destruct (CType c =s? type) eqn:E; [destruct (_ || _)|]; cbn; set_solver.
Qed.

Lemma set_condition_ok now type status reason message l :
  status ∈ ["True"; "False"; "Unknown"] → conditions_ok l → conditions_ok (set_condition now type status reason message l).
Proof.
  intros Hs [Hd Hf]. induction l as [|c l IH]; cbn.
  - split; [apply NoDup_singleton|by constructor; [|constructor]].
  - cbn in Hd. apply NoDup_cons in Hd as [Hn Hd]. apply Forall_cons in Hf as [Hc Hf].
    destruct (CType c =s? type) eqn:E; bool_props.
    + destruct (_ || _); (split; [apply NoDup_cons; by split|by constructor]).
    + destruct (IH Hd Hf) as [Hd' Hf']. split; [|by constructor]. cbn. apply NoDup_cons. split; [|done].
      intros Hin. by apply set_condition_type in Hin as [?|?].
Qed.

(** ** The monitor *)

#[global] Instance PVCSyncImage_eq_dec : EqDecision PVCSyncImage.
Proof. solve_decision. Defined.
#[global] Instance AgentKeySecretRef_eq_dec : EqDecision AgentKeySecretRef.
Proof. solve_decision. Defined.
#[global] Instance PVCSyncSSH_eq_dec : EqDecision PVCSyncSSH.
Proof. solve_decision. Defined.
#[global] Instance ExtraEnvVar_eq_dec : EqDecision ExtraEnvVar.
Proof. solve_decision. Defined.
#[global] Instance PVCSyncDeployment_eq_dec : EqDecision PVCSyncDeployment.
Proof. solve_decision. Defined.
#[global] Instance HealthCheckConfig_eq_dec : EqDecision HealthCheckConfig.
Proof. solve_decision. Defined.
#[global] Instance PVCSyncSpec_eq_dec : EqDecision PVCSyncSpec.
Proof. solve_decision. Defined.
#[global] Instance SSHConnectionStatus_eq_dec : EqDecision SSHConnectionStatus.
Proof. solve_decision. Defined.
#[global] Instance PodStatus_eq_dec : EqDecision PodStatus.
Proof. solve_decision. Defined.
#[global] Instance PVCSyncNodeStatus_eq_dec : EqDecision PVCSyncNodeStatus.
Proof. solve_decision. Defined.
#[global] Instance PVCSyncAgentStatus_eq_dec : EqDecision PVCSyncAgentStatus.
Proof. solve_decision. Defined.
#[global] Instance PVCSyncStatus_eq_dec : EqDecision PVCSyncStatus.
Proof. solve_decision. Defined.
#[global] Instance Condition_eq_dec : EqDecision Condition.
Proof. solve_decision. Defined.
#[global] Instance RemoteClusterStatus_eq_dec : EqDecision RemoteClusterStatus.
Proof. solve_decision. Defined.
#[global] Instance KubeconfigSecretRef_eq_dec : EqDecision KubeconfigSecretRef.
Proof. solve_decision. Defined.
#[global] Instance RemoteCluster_eq_dec : EqDecision RemoteCluster.
Proof. solve_decision. Defined.

Definition rc_conditions (rc : RemoteCluster) : list Condition := rc.(RCStatus).(rsConditions).

(** The same version of the same object, with the same specification. *)
Definition same_object (rc rc' : RemoteCluster) : Prop := rc = with_status rc.(RCStatus) rc'.

(** A status may be stored on a version that was read in this execution, and has well-formed
    conditions when everything that was read had. *)
Definition storable (reads : list RemoteCluster) (rc : RemoteCluster) : Prop :=
  Exists (same_object rc) reads ∧ (Forall (λ x, conditions_ok (rc_conditions x)) reads → conditions_ok (rc_conditions rc)).

#[global] Instance same_object_dec rc rc' : Decision (same_object rc rc').
Proof. unfold same_object. apply _. Defined.
#[global] Instance storable_dec reads rc : Decision (storable reads rc).
Proof. unfold storable. apply _. Defined.

(** Its state is what was read of the cluster; an update that is not [storable] is an error. *)
Definition cluster_monitor (ns name : string) (reads : list RemoteCluster) (e : event MSig) : option (list RemoteCluster) :=
  match e with
  | Ev o r =>
      match o as o return MResp o → option (list RemoteCluster) with
      | MGetCluster ns' name' => λ r,
          if decide (ns' = ns ∧ name' = name) then Some (match r with Ok rc => rc :: reads | Err _ => reads end) else None
      | MUpdateClusterStatus rc => λ _, if decide (storable reads rc) then Some reads else None
      | _ => λ _, Some reads
      end r
  end.

(** Calls the monitor does not look at. *)
Definition off_cluster : Op MSig → Prop := λ o : MOp,
  match o with MGetCluster _ _ | MUpdateClusterStatus _ => False | _ => True end.

Lemma monitored_off_cluster {A} ns name (c : MP A) reads Q :
  safe off_cluster c Q →
  monitored (cluster_monitor ns name) c reads (λ out st, st = reads ∧ match out with Ret a => Q a | Panic _ => True end).
Proof.
  induction c as [a|w|o k IH]; cbn; [done|done|]. intros [Ho Hk] r. specialize (IH r (Hk r)).
  by destruct o.
Qed.

(** ** The reconciliation of the PVC sync *)

(** A result that changed nothing of the cluster but its PVC sync status. *)
Definition keeps (rc : RemoteCluster) (x : res unit * RemoteCluster) : Prop := ∃ st, x.2 = set_pvc_status st rc.

Lemma keeps_ret rc r rc' : (∃ st, rc' = set_pvc_status st rc) → safe off_cluster (mret (r, rc') : MP (res unit * RemoteCluster)) (keeps rc).
Proof. done. Qed.

Lemma keeps_on rc f st : ∃ st', on_pvc_status f (set_pvc_status st rc) = set_pvc_status st' rc.
Proof. by eexists. Qed.

Lemma keeps_bind {A} rc (c : MP A) (k : A → MP (res unit * RemoteCluster)) :
  calls off_cluster c → (∀ a, safe off_cluster (k a) (keeps rc)) → safe off_cluster (c ≫= k) (keeps rc).
Proof. intros Hc Hk. apply (safe_bind _ _ _ (λ _, True)); auto. Qed.

Lemma keeps_step {A} rc (c : MP (res A)) prefix st (k : A → MP (res unit * RemoteCluster)) :
  calls off_cluster c → (∀ a, safe off_cluster (k a) (keeps rc)) →
  safe off_cluster (step c prefix (set_pvc_status st rc) k) (keeps rc).
Proof. intros Hc Hk. apply keeps_bind; [done|]. intros [a|e]; [apply Hk|apply keeps_ret, keeps_on]. Qed.

Section Keeps.
Context `{Quantities} `{LawfulBackoff}.
Variable p : PVCSyncManager.

Lemma Deploy_keeps c rc st : safe off_cluster (Deploy c (set_pvc_status st rc)) (keeps rc).
Proof.
  unfold Deploy. apply keeps_bind.
  { unfold createOrUpdateNamespace, createOrUpdateServiceAccount, createOrUpdateRBAC, apply_plain, createOrUpdateDaemonSet,
      agent_resources. calls_solve ltac:(exact I). }
  intros [u|e]; [|apply keeps_ret; by eexists]. unfold updateAgentStatus.
  apply (safe_bind _ _ _ (keeps rc)).
  - apply keeps_bind; [done|]. intros [ds|e]; apply keeps_ret; by eexists.
  - intros [[u'|e] rc'] Hk; apply keeps_ret, Hk.
Qed.

Lemma deploy_agent_keeps rc st : safe off_cluster (deploy_agent p (set_pvc_status st rc)) (keeps rc).
Proof.
  unfold deploy_agent. repeat (apply keeps_step; [|intros ?]).
  1-3: unfold EnsureKeys, get_or_create, generate_agent_secret, PushKeysToRemoteCluster, push_secret, EnsureKeysInControllerCluster;
    calls_solve ltac:(exact I).
  apply keeps_bind; [unfold EnsureRsyncKeys, get_or_create; calls_solve ltac:(exact I)|intros r].
  apply keeps_bind; [unfold PushRsyncKeysToCluster, push_secret; calls_solve ltac:(exact I)|intros _].
  apply keeps_step; [by apply calls_wait|intros _].
  apply (safe_bind _ _ _ (keeps rc)); [apply Deploy_keeps|].
  intros [[u|e] rc'] [st' E]; cbn in E; subst rc'; [|apply keeps_ret, keeps_on]. cbv zeta.
  apply keeps_bind; [done|intros g]. apply keeps_bind; [done|intros now]. apply keeps_ret. by eexists.
Qed.

Lemma ReconcilePVCSync_keeps rc : safe off_cluster (ReconcilePVCSync p rc) (keeps rc).
Proof.
  unfold ReconcilePVCSync. destruct (sync_enabled rc) as [spec|].
  - destruct (initialized_some rc) as (st & -> & _). cbv zeta.
    apply keeps_step; [unfold getRemoteClient; calls_solve ltac:(exact I)|intros remote].
    apply keeps_step; [unfold ensureDrSyncerNamespace; calls_solve ltac:(exact I)|intros _].
    destruct (agentsRunning _); [|apply deploy_agent_keeps]. destruct (last_deployment _); [|exact I].
    apply keeps_bind; [done|intros now]. destruct (_ <? _); [apply keeps_ret; by eexists|].
    apply keeps_bind; [done|intros _]. apply deploy_agent_keeps.
  - assert (Hsame : ∃ st, rc = set_pvc_status st rc) by (exists (rsPVCSync (RCStatus rc)); by rewrite set_pvc_status_id).
    unfold when_disabled. destruct (rsPVCSync (RCStatus rc)) as [st|]; [|by apply keeps_ret].
    destruct (_ =s? _); [by apply keeps_ret|]. unfold cleanupPVCSync.
    apply keeps_bind; [|intros [u|e]; apply keeps_ret; [by eexists|done]].
    unfold DeleteKeys, DeleteRsyncKeys, Cleanup, deleteDaemonSet, deleteRBAC, deleteServiceAccount, delete_plain.
    calls_solve ltac:(exact I).
Qed.
End Keeps.

(** ** The status that is stored *)

Lemma storable_read reads rc : storable (rc :: reads) rc.
Proof. split; [constructor; by destruct rc|]. intros Hf. by apply Forall_cons in Hf as [? _]. Qed.

Lemma storable_more reads rc rc' : storable reads rc → storable (rc' :: reads) rc.
Proof. intros [He Hf]. split; [by apply Exists_cons_tl|]. intros Hc. apply Forall_cons in Hc as [_ Hc]. by apply Hf. Qed.

Lemma storable_latest reads rc latest : storable reads rc → storable (latest :: reads) (with_status rc.(RCStatus) latest).
Proof. intros H. split; [by constructor|]. exact (proj2 (storable_more _ _ latest H)). Qed.

(** A changed status whose conditions are still well formed. *)
Lemma storable_change reads rc st :
  storable reads rc → (conditions_ok (rc_conditions rc) → conditions_ok st.(rsConditions)) → storable reads (with_status st rc).
Proof.
  intros [He Hf] Hst. split; [|by intros Hc; apply Hst, Hf].
  apply Exists_exists in He as (x & Hx & E). apply Exists_exists. exists x. split; [done|].
  unfold same_object in *. by rewrite E.
Qed.

Lemma storable_condition reads rc now type status reason message :
  status ∈ ["True"; "False"; "Unknown"] → storable reads rc →
  storable reads (set_conditions (set_condition now type status reason message rc.(RCStatus).(rsConditions)) rc).
Proof. intros Hs H. apply (storable_change _ _ (mkRemoteClusterStatus _ _ _ _)); [done|]. by apply set_condition_ok. Qed.

Lemma storable_pvc reads rc st : storable reads rc → storable reads (set_pvc_status st rc).
Proof. intros H. by apply (storable_change _ _ (mkRemoteClusterStatus _ _ _ _)). Qed.

Section Stored.
Context `{Quantities} `{LawfulBackoff} (ns name : string).

(** Every execution of the program from these reads is accepted. *)
Definition stored {A : Type} (c : MP A) (reads : list RemoteCluster) : Prop :=
  monitored (cluster_monitor ns name) c reads (λ _ _, True).

Lemma stored_off {A B} (c : MP A) (k : A → MP B) (Q : A → Prop) reads :
  safe off_cluster c Q → (∀ a, Q a → stored (k a) reads) → stored (c ≫= k) reads.
Proof.
  intros Hc Hk. apply monitored_bind. eapply monitored_mono; [by apply (monitored_off_cluster ns name), Hc|].
  intros out st [-> Ha]. destruct out; [by apply Hk|done].
Qed.

Lemma stored_call {B} (o : MOp) (k : MResp o → MP B) reads : off_cluster o → (∀ r, stored (k r) reads) → stored (mcall o ≫= k) reads.
Proof. intros Ho Hk. apply (stored_off _ _ (λ _, True)); [done|]. by intros a _. Qed.

Lemma stored_get {B} (k : res RemoteCluster → MP B) reads :
  (∀ rc, stored (k (Ok rc)) (rc :: reads)) → (∀ e, stored (k (Err e)) reads) → stored (mcall (MGetCluster ns name) ≫= k) reads.
Proof. intros Hk He r. cbn. rewrite decide_True by done. destruct r; [apply Hk|apply He]. Qed.

Lemma stored_update {B} rc (k : res RemoteCluster → MP B) reads :
  storable reads rc → (∀ r, stored (k r) reads) → stored (mcall (MUpdateClusterStatus rc) ≫= k) reads.
Proof. intros Hs Hk r. cbn. rewrite decide_True by done. apply Hk. Qed.

Lemma stored_condition {B} rc type status reason message (k : RemoteCluster → MP B) reads :
  status ∈ ["True"; "False"; "Unknown"] → storable reads rc → (∀ rc', storable reads rc' → stored (k rc') reads) →
  stored (setRemoteClusterCondition rc type status reason message ≫= k) reads.
Proof. intros Hs Hrc Hk. apply (stored_call MNow); [done|]. intros now. by apply Hk, storable_condition. Qed.

Lemma store_on_latest_stored rc e reads : storable reads rc → stored (store_on_latest ns name rc e) reads.
Proof.
  intros Hs. apply stored_get; [|done]. intros latest. apply stored_update; [by apply storable_latest|].
  by intros [?|?]; [|destruct (IsConflict _)].
Qed.

Lemma reject_stored rc type reason e reads : storable reads rc → stored (reject rc type reason e) reads.
Proof.
  intros Hs. apply stored_condition; [set_solver|done|]. intros rc' Hs'. by apply stored_update.
Qed.

Lemma ready_condition_status rc : (ready_condition rc).1.1 ∈ ["True"; "False"; "Unknown"].
Proof. unfold ready_condition. repeat case_match; cbn; set_solver. Qed.

Lemma finish_stored config rc reads : storable reads rc → stored (finish ns name config rc) reads.
Proof.
  intros Hs. apply stored_get; [|done]. intros latest. cbv zeta. apply (storable_latest _ _ latest) in Hs.
  apply (stored_call (MNewClient config)); [done|]. intros [u|e]; [|by apply reject_stored].
  eapply stored_off; [apply ReconcilePVCSync_keeps|]. intros [r rc'] [st E]. cbn in E. subst rc'.
  apply (storable_pvc _ _ st) in Hs. set (rc' := set_pvc_status st _) in *. clearbody rc'.
  assert (Hend : ∀ x, storable (latest :: reads) x → stored (u ← mcall (MUpdateClusterStatus x);
    match u with
    | Err e => if IsConflict e then mret (mkOutcome true 0 None) else mret (mkOutcome false 0 (Some e))
    | Ok _ => mret (mkOutcome false DefaultSyncPeriod None)
    end) (latest :: reads)).
  { intros x Hx. apply stored_update; [done|]. by intros [?|e]; [|destruct (IsConflict e)]. }
  destruct r as [u'|e]; [|apply stored_condition; [set_solver|done|exact Hend]].
  pose proof (ready_condition_status rc') as Hst. destruct (ready_condition rc') as [[status reason] message]. cbn in Hst.
  destruct (PVCSync rc'); [intros []|]; by apply stored_condition.
Qed.

Lemma connect_stored rc reads : storable reads rc → stored (connect ns name rc) reads.
Proof.
  intros Hs. unfold connect. cbv zeta. apply (stored_call (MGetSecret _ _ _)); [done|]. intros [secret|e].
  2: { apply stored_condition; [set_solver|done|]. intros rc' Hs'. by apply store_on_latest_stored. }
  destruct (sData secret !! _) as [data|]; [|by apply reject_stored].
  apply (stored_call (MLoadConfig data)); [done|]. intros [config|e]; [|by apply reject_stored].
  apply (stored_call (MListNamespaces config)); [done|]. intros [u|e]; [|by apply reject_stored].
  apply stored_condition; [set_solver|done|]. intros rc1 Hs1. apply stored_condition; [set_solver|done|]. intros rc2 Hs2.
  apply stored_condition; [set_solver|done|]. intros rc3 Hs3. apply (stored_call MNow); [done|]. intros now.
  apply finish_stored. by apply storable_change.
Qed.

(** C16: what the RemoteCluster controller stores: on every execution of Reconcile each status
    update goes to a version of the cluster that this execution read, leaves its
    specification alone, and carries at most one condition per type, with statuses of the
    API, whenever the versions that were read did. *)
Theorem ReconcileCluster_conditions tr out :
  runs (ReconcileCluster ns name) tr out → ∃ reads, observe (cluster_monitor ns name) [] tr = Some reads.
Proof.
  intros Hr. enough (Hm : stored (ReconcileCluster ns name) []).
  { destruct (monitored_sound _ _ _ _ _ _ Hm Hr) as (st & Ho & _). by eauto. }
  unfold ReconcileCluster. apply stored_get; [|done]. intros rc. pose proof (storable_read [] rc) as Hs.
  destruct (_ =s? _); [by apply connect_stored|]. apply (stored_call (MParseStandard _)); [done|].
  intros [u|e]; (apply stored_condition; [set_solver|done|]); intros rc' Hs'; [by apply connect_stored|by apply store_on_latest_stored].
Qed.
End Stored.

Lemma ReconcileCluster_conditions_witness :
  let tr := run_trace (all_good edge_spec None) (ReconcileCluster "dr-syncer" "edge") tt in
  (∃ reads, observe (cluster_monitor "dr-syncer" "edge") [] tr = Some reads) ∧
  existsb (λ e : event MSig, match (ev_op e : MOp) with
    MUpdateClusterStatus rc => (length (rc_conditions rc) =? 5)%nat && bool_decide (conditions_ok (rc_conditions rc)) | _ => false end) tr = true.
Proof.
  split; [|vm_compute; reflexivity].
  eapply ReconcileCluster_conditions, run_trace_runs.
Defined.

(** ** Updates of the DaemonSet *)

Lemma areEnvMapsEqual_spec m1 m2 : areEnvMapsEqual m1 m2 = true ↔ m1 = m2.
Proof.
  unfold areEnvMapsEqual. rewrite andb_true_iff, Nat.eqb_eq, bool_decide_eq_true. split.
  - intros [Hs Hf]. assert (Hsub : m1 ⊆ m2) by (apply map_subseteq_spec; intros k v Hk; by apply Hf).
    apply map_subseteq_size_eq; [done|lia].
  - intros ->. split; [done|]. by intros k v Hk.
Qed.

(** What the deployer compares of a DaemonSet. *)
Definition compared (ds : DaemonSet) : nat * option (string * gmap string string) * gmap string string * list Volume :=
  (length ds.(dsPod).(apContainers), (λ a, (a.(acImage), convertEnvToMap a.(acEnv))) <$> first_container ds,
   ds.(dsAnnotations), ds.(dsPod).(apVolumes)).

Lemma needsUpdate_compared existing ds : needsUpdate existing ds = false ↔ compared existing = compared ds.
Proof.
  unfold needsUpdate, compared, first_container. rewrite !orb_false_iff, !negb_false_iff, !bool_decide_eq_true, Nat.eqb_eq.
  destruct (apContainers (dsPod existing)) as [|a la], (apContainers (dsPod ds)) as [|b lb]; cbn [head length fmap option_fmap option_map];
    rewrite ?orb_false_iff, ?negb_false_iff, ?areEnvMapsEqual_spec, ?String.eqb_eq;
    (split; [intros [[[H1 H2] H3] H4]; try done; try destruct H2; congruence|intros Heq; injection Heq; intros; split_and!; congruence]).
Qed.

Lemma compared_with_spec ds existing : compared (with_spec ds existing) = compared ds.
Proof. done. Qed.

(** The DaemonSet an answer to a read carries, and what a write sends. *)
Definition read_daemonset (e : event MSig) : option DaemonSet :=
  match e with
  | Ev o r =>
      match o as o return MResp o → option DaemonSet with
      | MGetDaemonSet _ _ _ => λ r, match r with Ok ds => Some ds | Err _ => None end
      | _ => λ _, None
      end r
  end.

Definition sent_daemonset (e : event MSig) : option DaemonSet :=
  match (ev_op e : MOp) with MCreateDaemonSet _ ds | MUpdateDaemonSet _ ds => Some ds | _ => None end.

Definition writes_daemonset (e : event MSig) : bool :=
  match (ev_op e : MOp) with MCreateDaemonSet _ _ | MUpdateDaemonSet _ _ | MDeleteDaemonSet _ _ _ => true | _ => false end.

(** What an execution that returns nil leaves in the cluster as far as it knows: what it sent, or
    else what it read. *)
Definition left_daemonset (tr : list (event MSig)) : option DaemonSet :=
  match omap sent_daemonset tr with
  | ds :: _ => Some ds
  | [] => head (omap read_daemonset tr)
  end.

(** What the deployment is configured with: the image in the environment, and which of the
    secrets with keys exist. *)
Definition configuration (e : event MSig) : option (string + bool) :=
  match e with
  | Ev o r =>
      match o as o return MResp o → option (string + bool) with
      | MGetenv _ => λ r, Some (inl r)
      | MGetSecret _ _ _ => λ r, Some (inr (exists_ok r))
      | _ => λ _, None
      end r
  end.

Section Converges.
Context `{Quantities} (client : Server) (rc : RemoteCluster).

(** The DaemonSet that is asked for; [None] when there is none. *)
Definition wanted (envRepo envTag : string) (authorized rsyncKeys : bool) : option DaemonSet :=
  spec ← rc.(PVCSync); image ← spec.(psImage);
  match agent_resources spec.(psDeployment) with
  | PRet resources => Some (desired_daemonset rc spec image envRepo envTag authorized rsyncKeys resources)
  | _ => None
  end.

(** The calls after the configuration was read. *)
Inductive daemonset_shape (ds : DaemonSet) : list (event MSig) → exec (res unit) → Prop :=
| shape_agrees x :
    compared x = compared ds →
    daemonset_shape ds [Ev (Sg := MSig) (MGetDaemonSet client agentNamespace agentName) (Ok x)] (Ret (Ok tt))
| shape_unreadable err :
    IsNotFound err = false →
    daemonset_shape ds [Ev (Sg := MSig) (MGetDaemonSet client agentNamespace agentName) (Err err)] (Ret (Err err))
| shape_created err (a : res unit) :
    IsNotFound err = true →
    daemonset_shape ds [Ev (Sg := MSig) (MGetDaemonSet client agentNamespace agentName) (Err err);
                        Ev (Sg := MSig) (MCreateDaemonSet client ds) a] (Ret a)
| shape_updated x (a : res unit) :
    compared x ≠ compared ds →
    daemonset_shape ds [Ev (Sg := MSig) (MGetDaemonSet client agentNamespace agentName) (Ok x);
                        Ev (Sg := MSig) (MUpdateDaemonSet client (with_spec ds x)) a] (Ret a).

Lemma agent_resources_runs d t out :
  runs (agent_resources d) t out →
  t = [] ∧ match agent_resources d with PRet x => out = Ret x | _ => ∃ w, out = Panic w end.
Proof.
  unfold agent_resources. destruct d as [d|]; [|by intros [-> ->]%runs_ret_inv].
  destruct (pdHasResources d); [|by intros [-> ->]%runs_ret_inv].
  destruct (must_parse (pdLimits d)), (must_parse (pdRequests d)); [by intros [-> ->]%runs_ret_inv| | |];
    (intros [-> ->]%runs_panic_inv; split; [done|by eexists]).
Qed.

Lemma createOrUpdateDaemonSet_shape tr out :
  runs (createOrUpdateDaemonSet client rc) tr out →
  (omap read_daemonset tr = [] ∧ out ≠ Ret (Ok tt)) ∨
  ∃ envRepo envTag authorized rsyncKeys ds rest,
    tr = Ev (Sg := MSig) (MGetenv "AGENT_IMAGE_REPOSITORY") envRepo :: Ev (Sg := MSig) (MGetenv "AGENT_IMAGE_TAG") envTag ::
         Ev (Sg := MSig) (MGetSecret client agentNamespace "dr-syncer-authorized-keys") authorized ::
         Ev (Sg := MSig) (MGetSecret client agentNamespace ("dr-syncer-rsync-keys-" +:+ rc.(RCName))) rsyncKeys :: rest ∧
    wanted envRepo envTag (exists_ok authorized) (exists_ok rsyncKeys) = Some ds ∧ daemonset_shape ds rest out.
Proof.
  intros Hr. unfold createOrUpdateDaemonSet in Hr. destruct (PVCSync rc) as [spec|] eqn:Hspec; [|left; by apply runs_ret_inv in Hr as [-> ->]].
  destruct (psImage spec) as [image|] eqn:Himage; [|left; by apply runs_ret_inv in Hr as [-> ->]].
  apply (runs_call_inv (Sg := MSig) (MGetenv _)) in Hr as (envRepo & t1 & -> & Hr).
  apply (runs_call_inv (Sg := MSig) (MGetenv _)) in Hr as (envTag & t2 & -> & Hr).
  apply (runs_call_inv (Sg := MSig) (MGetSecret _ _ _)) in Hr as (authorized & t3 & -> & Hr).
  apply (runs_call_inv (Sg := MSig) (MGetSecret _ _ _)) in Hr as (rsyncKeys & t4 & -> & Hr).
  assert (Hres : ∀ t o, runs (agent_resources (psDeployment spec)) t o →
    t = [] ∧ match agent_resources (psDeployment spec) with PRet x => o = Ret x | _ => ∃ w, o = Panic w end) by apply agent_resources_runs.
  apply runs_bind_inv in Hr as [(resources & t5 & t6 & H5 & Hr & ->)|(w & H5 & ->)].
  2: { left. apply Hres in H5 as [-> _]. done. }
  apply Hres in H5 as [-> H5]. destruct (agent_resources (psDeployment spec)) as [x|w|] eqn:Ha;
    [injection H5 as <-|by destruct H5|by destruct H5]. right.
  set (ds := desired_daemonset rc spec image envRepo envTag (exists_ok authorized) (exists_ok rsyncKeys) resources) in Hr.
  exists envRepo, envTag, authorized, rsyncKeys, ds, t6. split; [done|]. split.
  { unfold wanted. rewrite Hspec. cbn [mbind option_bind]. rewrite Himage. cbn [mbind option_bind]. by rewrite Ha. }
  apply (runs_call_inv (Sg := MSig) (MGetDaemonSet _ _ _)) in Hr as (r & t & -> & Hr). destruct r as [x|err].
  - destruct (needsUpdate x ds) eqn:En.
    + apply (runs_call_inv (Sg := MSig) (MUpdateDaemonSet _ _)) in Hr as (a & t' & -> & Hr). apply runs_ret_inv in Hr as [-> ->].
      apply shape_updated. intros Hc. apply needsUpdate_compared in Hc. congruence.
    + apply runs_ret_inv in Hr as [-> ->]. apply shape_agrees. by apply needsUpdate_compared.
  - destruct (IsNotFound err) eqn:En.
    + apply (runs_call_inv (Sg := MSig) (MCreateDaemonSet _ _)) in Hr as (a & t' & -> & Hr). apply runs_ret_inv in Hr as [-> ->].
      by apply shape_created.
    + apply runs_ret_inv in Hr as [-> ->]. by apply shape_unreadable.
Qed.

(** What a successful execution leaves agrees with what is wanted. *)
Lemma left_agrees ds rest : daemonset_shape ds rest (Ret (Ok tt)) → ∃ left, left_daemonset rest = Some left ∧ compared left = compared ds.
Proof.
  inversion 1; subst; [by exists x|by exists ds|]. exists (with_spec ds x). split; [done|apply compared_with_spec].
Qed.

End Converges.

Definition good_answers (o : MOp) : MResp o := (all_good edge_spec None o tt).1.

(** A node selector that is added later is not deployed. *)
Definition edge_with_selector : RemoteCluster :=
  edge_cluster (mkPVCSyncSpec true (Some (mkPVCSyncImage "agent" "v1" "")) (Some (mkPVCSyncSSH 0 None)) None
    (Some (mkPVCSyncDeployment None (Some {["disk" := "ssd"]}) None None None false None None "" None [])) "" None None) None.

(** A server that keeps the agent's DaemonSet as it is sent. *)
Definition keeps_daemonset : handler MSig (option DaemonSet) := λ o s,
  match o as o return MResp o * option DaemonSet with
  | MGetDaemonSet _ _ _ => (match s with Some ds => Ok ds | None => Err (StatusError NotFound "daemonset not found") end, s)
  | MCreateDaemonSet _ ds | MUpdateDaemonSet _ ds => (Ok tt, Some ds)
  | o => (good_answers o, s)
  end.

