(* ===== verification/RsyncPod.v ===== *)
(** * Rsync pods: pkg/agent/rsyncpod/deployment.go and the commands run in them

    The deployment that runs rsync in the destination cluster: its creation, the wait for
    its pod, its removal; the choice of a configuration for a command in a pod by
    rsyncpod.ExecuteCommandInPod and by executeCommandInPod of pvc_sync.go; and
    ssh_connectivity.go.

    wait.PollUntilContextCancel is a parameter ([Poller]) with the law it documents; the
    wire form of a pod template and the decoding of a deployment's status are parameters
    too ([DeploymentCodec]).  What rand.String returned is an argument. *)

From S2P Require Import Prelude GoString Errors Types Kube KubeLogic Lock RsyncExec.
From Stdlib Require Import Ascii.

(** ** Polling *)

(** [PollUntilContextCancel] with [immediate], under a timeout: the condition gives a value
    ([true], with what it assigned) or not yet. *)
Class Poller : Type := PollUntilContextCancel : ∀ {A : Type}, Z → Z → KP (option A) → KP (res A).

(** Its documentation: the condition is tried at once and then every interval, until it is
    true or the context is done, before or during a wait. *)
Inductive polls {A : Type} (interval : Z) (cond : KP (option A)) : list (event KSig) → exec (res A) → Prop :=
| polls_true tr a : runs cond tr (Ret (Some a)) → polls interval cond tr (Ret (Ok a))
| polls_again tr1 tr2 out :
    runs cond tr1 (Ret None) → polls interval cond tr2 out →
    polls interval cond (tr1 ++ Ev (Sg := KSig) (KWait interval) true :: tr2)%list out
| polls_done tr w e :
    runs cond tr (Ret None) → (w = [] ∨ w = [Ev (Sg := KSig) (KWait interval) false]) →
    polls interval cond (tr ++ w)%list (Ret (Err e))
| polls_panic tr w : runs cond tr (Panic w) → polls interval cond tr (Panic w).

Class LawfulPoller `{Poller} : Prop :=
  poller_runs : ∀ A timeout interval (cond : KP (option A)) tr out,
    runs (PollUntilContextCancel timeout interval cond) tr out → polls interval cond tr out.

(** ** Names *)

(** The three cases of the assignment to [result] at index [i]. *)
Definition replace_at (result : string) (i : nat) : string :=
  if (i =? 0)%nat then "-" +:+ String.substring 1 (String.length result - 1) result
  else if (i =? String.length result - 1)%nat then String.substring 0 i result +:+ "-"
  else String.substring 0 i result +:+ "-" +:+ String.substring (S i) (String.length result - S i) result.

(** The inner loop, from [i] with [n] bytes left; the length stays. *)
Fixpoint replace_from (n i : nat) (char : ascii) (result : string) : string :=
  match n with
  | O => result
  | S n' =>
      replace_from n' (S i) char
        (match String.get i result with
         | Some c => if Ascii.eqb c char then replace_at result i else result
         | None => result
         end)
  end.

Definition invalidChars : list ascii := ["/"; "."; ":"; "~"]%char.

Definition sanitizeNameForLabel (name : string) : string :=
  let result := foldl (λ result char, replace_from (String.length result) 0 char result) name invalidChars in
  if (63 <? String.length result)%nat then String.substring 0 63 result else result.

(** ** The deployment *)

Record RsyncPodOptions : Type := mkRsyncPodOptions {
  roNamespace : string;
  roPVCName : string;
  roNodeName : string;
  roType : string;
  roSyncID : string;
  roReplicationName : string;
  roCachedKeySecretName : string
}.

Inductive TemplateVolume : Type :=
| ClaimVolume (claim : string)
| KeyVolume (secret : string) (mode : Z) (items : list (string * string)).

(** A corev1.PodTemplateSpec with one container; a mount is a name, a path and whether it
    is read-only. *)
Record PodTemplate : Type := mkPodTemplate {
  ptLabels : gmap string string;
  ptImage : string;
  ptCommand : list string;
  ptMounts : list (string * string * bool);
  ptLimits : gmap string string;
  ptRequests : gmap string string;
  ptPrivileged : option bool;
  ptCapabilities : list string;
  ptRunAsUser : option Z;
  ptEnv : list (string * string);
  ptVolumes : list (string * TemplateVolume);
  ptNodeName : string;
  ptRestartPolicy : string
}.

Class DeploymentCodec : Type := {
  EncodeTemplate : PodTemplate → Payload;
  AvailableReplicas : Payload → Z
}.

Definition rsync_image : string := "supporttools/dr-syncer-rsync:latest".
Definition rsync_wait : list string := ["/bin/sh"; "-c"; "sleep infinity"].

Definition pod_selector (opts : RsyncPodOptions) : gmap string string :=
  <["app.kubernetes.io/name" := "dr-syncer-rsync"]> (<["app.kubernetes.io/instance" := opts.(roSyncID)]>
  {["dr-syncer.io/pvc-name" := sanitizeNameForLabel opts.(roPVCName)]}).

Definition rsync_labels (opts : RsyncPodOptions) : gmap string string :=
  <["app.kubernetes.io/name" := "dr-syncer-rsync"]> (<["app.kubernetes.io/instance" := opts.(roSyncID)]>
  (<["app.kubernetes.io/component" := opts.(roType)]> (<["app.kubernetes.io/managed-by" := "dr-syncer"]>
  (<["dr-syncer.io/sync-id" := opts.(roSyncID)]> (<["dr-syncer.io/replication" := opts.(roReplicationName)]>
  {["dr-syncer.io/pvc-name" := sanitizeNameForLabel opts.(roPVCName)]}))))).

Definition rsync_template (opts : RsyncPodOptions) : PodTemplate :=
  let cached := negb (opts.(roCachedKeySecretName) =s? "") in
  mkPodTemplate (rsync_labels opts) rsync_image rsync_wait
    ([("data", "/data", false)] ++ (if cached then [("ssh-keys", "/root/.ssh", true)] else []))%list
    (<["cpu" := "2"]> {["memory" := "2Gi"]}) (<["cpu" := "500m"]> {["memory" := "512Mi"]})
    (Some false) ["SYS_RESOURCE"] (Some 0) [("RSYNC_MAX_THREADS", "8"); ("RSYNC_IO_PRIORITY", "4")]
    ([("data", ClaimVolume opts.(roPVCName))] ++
     (if cached then [("ssh-keys", KeyVolume opts.(roCachedKeySecretName) 384 [("id_rsa", "id_rsa")])] else []))%list
    opts.(roNodeName) "Always".

(** An appsv1.Deployment with one replica. *)
Definition deployment_object `{DeploymentCodec} (name namespace : string) (labels selector : gmap string string)
    (template : PodTemplate) : Object :=
  mkObject (mkGVK "" "" "") (mkObjectMeta name namespace "" "" "" None [] [] 0 [] (Some labels) None)
    (DeploymentBody (mkDeploymentSpec (Some 1) (Some (Some selector, "")) (EncodeTemplate template) "" 0 None false None) "").

(** What is kept of a deployment that was created. *)
Record RsyncPod : Type := mkRsyncPod {
  rpName : string;
  rpNamespace : string;
  rpPodName : string;
  rpPVCName : string;
  rpSyncID : string;
  rpHasCachedKeys : bool
}.

Section Deployments.
Context `{DeploymentCodec} `{Poller}.

(** [ns], [name] until it is gone. *)
Definition wait_deleted (interval : Z) (ns name : string) : KP (res unit) :=
  PollUntilContextCancel (2 * Minute) interval
    (r ← kcall (KGet Dst deployments ns name);
     mret (match r with Err e => if IsNotFound e then Some tt else None | Ok _ => None end)).

Definition waitForDeploymentDeletion : string → string → KP (res unit) := wait_deleted (2 * Second).

(** A deployment of that name is deleted, and waited for, before a new one is created. *)
Definition delete_existing (interval : Z) (ns name : string) : KP (res unit) :=
  r ← kcall (KGet Dst deployments ns name);
  match r with
  | Ok _ =>
      d ← kcall (KDeleteForeground Dst deployments ns name);
      match d with
      | Err e =>
          if IsNotFound e then
            _ ←? wait_deleted interval ns name onerr (plainf "timeout waiting for deployment deletion: "); mret (Ok tt)
          else mret (Err (plainf "failed to delete existing deployment: " e))
      | Ok _ => _ ←? wait_deleted interval ns name onerr (plainf "timeout waiting for deployment deletion: "); mret (Ok tt)
      end
  | Err e => if IsNotFound e then mret (Ok tt) else mret (Err (plainf "failed to check for existing deployment: " e))
  end.

Definition CreateRsyncDeployment (opts : RsyncPodOptions) (syncHash : string) : KP (res RsyncPod) :=
  let name := "dr-syncer-" +:+ sanitizeNameForLabel opts.(roPVCName) +:+ "-" +:+ syncHash in
  _ ←? delete_existing (2 * Second) opts.(roNamespace) name onerr id;
  created ←? kcall (KCreate Dst deployments opts.(roNamespace)
               (deployment_object name opts.(roNamespace) (rsync_labels opts) (pod_selector opts) (rsync_template opts)))
    onerr (plainf "failed to create rsync deployment: ");
  mret (Ok (mkRsyncPod (GetName created) (GetNamespace created) "" opts.(roPVCName) opts.(roSyncID)
              (negb (opts.(roCachedKeySecretName) =s? "")))).

(** The labels of a deployment's selector. *)
Definition selector_of (o : Object) : option (gmap string string) :=
  match o.(oBody) with DeploymentBody s _ => s.(dSelector) ≫= fst | _ => None end.

Definition available (o : Object) : Z :=
  match o.(oBody) with DeploymentBody _ status => AvailableReplicas status | _ => 0 end.

Definition is_running (pod : Object) : bool :=
  match pod.(oBody) with PodBody f => f.(podPhase) =s? "Running" | _ => false end.

(** One look at the deployment and its pods: the name of a running pod.  Without a selector
    (an API server gives every deployment one) the list call is refused. *)
Definition running_pod (ns name : string) : KP (option string) :=
  r ← kcall (KGet Dst deployments ns name);
  match r with
  | Err _ => mret None
  | Ok deployment =>
      if available deployment =? 0 then mret None
      else
        match selector_of deployment with
        | None => mret None
        | Some selector =>
            l ← kcall (KList Dst pods ns (Some selector));
            match l with
            | Err _ => mret None
            | Ok items => mret (GetName <$> List.find is_running items)
            end
        end
  end.

Definition WaitForPodReady (d : RsyncPod) (timeout : Z) : KP (res RsyncPod) :=
  podName ←? PollUntilContextCancel timeout (5 * Second) (running_pod d.(rpNamespace) d.(rpName))
    onerr (plainf ("timeout waiting for rsync deployment " +:+ d.(rpNamespace) +:+ "/" +:+ d.(rpName) +:+ " to be ready: "));
  mret (Ok (mkRsyncPod d.(rpName) d.(rpNamespace) podName d.(rpPVCName) d.(rpSyncID) d.(rpHasCachedKeys))).

(** Delete and wait; a wait that ends with the context is only logged. *)
Definition delete_deployment (interval : Z) (ns name : string) : KP (res unit) :=
  r ← kcall (KDeleteForeground Dst deployments ns name);
  match r with
  | Err e => mret (if IsNotFound e then Ok tt else Err (plainf "failed to delete rsync deployment: " e))
  | Ok _ => _ ← wait_deleted interval ns name; mret (Ok tt)
  end.

Definition Cleanup (d : RsyncPod) : KP (res unit) := delete_deployment (2 * Second) d.(rpNamespace) d.(rpName).

Definition existing_selector (pvcName : string) : gmap string string :=
  <["app.kubernetes.io/name" := "dr-syncer-rsync"]> {["dr-syncer.io/pvc-name" := sanitizeNameForLabel pvcName]}.

Definition CleanupExistingDeployments (namespace pvcName : string) : KP (res unit) :=
  items ←? kcall (KList Dst deployments namespace (Some (existing_selector pvcName)))
    onerr (plainf "failed to list existing deployments: ");
  _ ← range_each items tt (λ deployment _,
        _ ← kcall (KDeleteForeground Dst deployments namespace (GetName deployment));
        _ ← waitForDeploymentDeletion namespace (GetName deployment);
        mret tt);
  mret (Ok tt).
End Deployments.

(** ** Commands in pods *)

(** A key of a context is a type and a value; keys of different types differ. *)
Definition CtxKey : Type := string * string.

Definition ctx_K8sConfigKey : CtxKey := ("contextkeys.ContextKey", "k8s-config").
Definition ctx_SyncerKey : CtxKey := ("contextkeys.ContextKey", "pvcsync").
(** The keys of package replication. *)
Definition k8sConfigKey : CtxKey := ("replication.configContextKey", "k8s-config").
Definition syncerKey : CtxKey := ("replication.syncerContextKey", "pvcsync").

(** What a PVCSyncer in a context provides: the hosts of its clients, its configurations
    (None is nil) and its namespaces. *)
Record SyncerValue : Type := mkSyncerValue {
  svSourceHost : string;
  svDestHost : string;
  svSourceConfig : option string;
  svDestConfig : option string;
  svSourceNamespace : string;
  svDestNamespace : string
}.

Inductive CtxValue : Type :=
| ConfigValue (config : option string)
| SyncerInContext (s : SyncerValue)
| OtherValue.

Abbreviation Ctx := (gmap CtxKey CtxValue).

(** [config.Host] of a log message dereferences the configuration. *)
Definition logged (config : option string) : KP (option string) :=
  match config with Some c => mret (Some c) | None => panic "invalid memory address or nil pointer dereference" end.

(** [v.( *rest.Config)], and the log message. *)
Definition assert_config (v : CtxValue) : KP (option string) :=
  match v with ConfigValue c => logged c | _ => panic "interface conversion" end.

Fixpoint first_value (ctx : Ctx) (keys : list CtxKey) : option CtxValue :=
  match keys with
  | [] => None
  | k :: rest => match ctx !! k with Some v => Some v | None => first_value ctx rest end
  end.

(** The configuration of the cluster whose host the client has, or [otherwise]. *)
Definition match_hosts (s : SyncerValue) (clientHost : string) (otherwise : KP (option string)) : KP (option string) :=
  if clientHost =s? s.(svSourceHost) then logged s.(svSourceConfig)
  else if clientHost =s? s.(svDestHost) then logged s.(svDestConfig)
  else otherwise.

(** The choice of rsyncpod.ExecuteCommandInPod. *)
Definition rsyncpod_config (ctx : Ctx) (clientHost : string) (explicitConfig : option string) : KP (option string) :=
  let config := match ctx !! ctx_K8sConfigKey with Some (ConfigValue c) => c | _ => None end in
  config ← match ctx !! ctx_K8sConfigKey with Some v => assert_config v | None => mret config end;
  config ← match config with
           | Some _ => mret config
           | None =>
               match first_value ctx [("string", "k8s-config"); ctx_K8sConfigKey] with
               | Some v => assert_config v
               | None => mret None
               end
           end;
  config ← match config with
           | Some _ => mret config
           | None =>
               match first_value ctx [ctx_SyncerKey; ("string", "pvcsync")] with
               | Some (SyncerInContext s) =>
                   match_hosts s clientHost
                     (mret (match s.(svDestConfig) with Some c => Some c | None => s.(svSourceConfig) end))
               | _ => mret None
               end
           end;
  mret (match explicitConfig with Some c => Some c | None => config end).

(** The choice of executeCommandInPod in package replication. *)
Definition replication_config (ctx : Ctx) (clientHost namespace : string) : KP (option string) :=
  config ← match ctx !! k8sConfigKey with Some v => assert_config v | None => mret None end;
  match config with
  | Some _ => mret config
  | None =>
      match ctx !! syncerKey with
      | Some (SyncerInContext s) =>
          match_hosts s clientHost
            (let usingNamespace := if Contains namespace "/" then default "" (head (Split namespace "/"%char)) else namespace in
             if negb (s.(svSourceNamespace) =s? "") && HasPrefix usingNamespace s.(svSourceNamespace) then logged s.(svSourceConfig)
             else if negb (s.(svDestNamespace) =s? "") then logged s.(svDestConfig)
             else mret None)
      | _ => mret None
      end
  end.

(** The command itself: output, standard error, and the error with its kind. *)
Definition stream (c : Cluster) (ns pod : string) (command : list string) : KP (string * string * option opError) :=
  r ← kcall (KExec c ns pod command);
  match r with
  | NoExecutor e => mret ("", "", Some (RetryableErr (plainf "failed to create SPDY executor: " e)))
  | Executed out err None => mret (out, err, None)
  | Executed out err (Some e) =>
      let text := Error e in
      if Contains text "connection refused" || Contains text "connection reset" || Contains text "broken pipe" then
        mret (out, err, Some (RetryableErr (plainf "transient error: " e)))
      else mret (out, err, Some (OtherErr (PlainError ("failed to execute command: " +:+ text +:+ ", stderr: " +:+ err))))
  end.

(** [host] gives the host of the client of a cluster. *)
Section Commands.
Variable (host : Cluster → string) (ctx : Ctx).

Definition ExecuteCommandInPod (client : option Cluster) (ns pod : string) (command : list string) (explicitConfig : option string)
    : KP (string * string * option opError) :=
  match client with
  | None => mret ("", "", Some (OtherErr (PlainError "kubernetes client is nil")))
  | Some c =>
      config ← rsyncpod_config ctx (host c) explicitConfig;
      match config with
      | None => mret ("", "", Some (OtherErr (PlainError ("no REST config found in context or provided explicitly for client " +:+ host c))))
      | Some _ => stream c ns pod command
      end
  end.

Definition executeCommandInPod (client : option Cluster) (ns pod : string) (command : list string)
    : KP (string * string * option opError) :=
  match client with
  | None => mret ("", "", Some (OtherErr (PlainError "kubernetes client is nil")))
  | Some c =>
      config ← replication_config ctx (host c) ns;
      match config with
      | None => mret ("", "", Some (OtherErr (PlainError ("no REST config found in context for client " +:+ host c))))
      | Some _ => stream c ns pod command
      end
  end.

Definition no_pod : string := "no pod found for deployment, ensure WaitForPodReady was called".
Definition keygen_command : list string := ["sh"; "-c"; "mkdir -p /root/.ssh && ssh-keygen -t rsa -N '' -f /root/.ssh/id_rsa"].
Definition pubkey_command : list string := ["cat"; "/root/.ssh/id_rsa.pub"].

Definition GenerateSSHKeys (d : RsyncPod) (explicitConfig : option string) : KP (res unit) :=
  if d.(rpPodName) =s? "" then errorf no_pod
  else if d.(rpHasCachedKeys) then mret (Ok tt)
  else
    r ← ExecuteCommandInPod (Some Dst) d.(rpNamespace) d.(rpPodName) keygen_command explicitConfig;
    match r with
    | (_, _, Some e) => mret (Err (plainf "failed to generate SSH keys: " (op_error e)))
    | (_, _, None) => mret (Ok tt)
    end.

Definition GetPublicKey (d : RsyncPod) (explicitConfig : option string) : KP (res string) :=
  if d.(rpPodName) =s? "" then errorf no_pod
  else
    r ← ExecuteCommandInPod (Some Dst) d.(rpNamespace) d.(rpPodName) pubkey_command explicitConfig;
    match r with
    | (_, _, Some e) => mret (Err (plainf "failed to get public key: " (op_error e)))
    | (stdout, _, None) => mret (Ok stdout)
    end.

(** ssh_connectivity.go; [destConfig] is the syncer's DestinationConfig. *)
Definition TestSSHConnectivity (d : RsyncPod) (targetIP : string) (targetPort : Z) (destConfig explicitConfig : option string)
    : KP (res unit) :=
  let sshTestCmd := "ssh -o StrictHostKeyChecking=no -p " +:+ itoa targetPort +:+ " root@" +:+ targetIP +:+
                    " echo SSH_CONNECTION_SUCCESSFUL" in
  let configToUse := match explicitConfig with Some c => Some c | None => destConfig end in
  r ← ExecuteCommandInPod (Some Dst) d.(rpNamespace) d.(rpPodName) ["/bin/sh"; "-c"; sshTestCmd] configToUse;
  match r with
  | (_, stderr, Some e) => errorf ("SSH connectivity test failed: " +:+ Error (op_error e) +:+ ", stderr: " +:+ stderr)
  | (stdout, stderr, None) =>
      if stdout =s? "SSH_CONNECTION_SUCCESSFUL" +:+ String "010" "" then mret (Ok tt)
      else errorf ("SSH connectivity test response incorrect: stdout: " +:+ stdout +:+ ", stderr: " +:+ stderr)
  end.

(** pvc_sync.go *)
Definition RunSSHCommand (d : RsyncPod) (agentIP : string) (port : Z) (command : string) : KP (res string) :=
  let sshCommand := "ssh -o StrictHostKeyChecking=no -o UserKnownHostsFile=/dev/null -i /root/.ssh/id_rsa -p " +:+ itoa port +:+
                    " root@" +:+ agentIP +:+ " '" +:+ command +:+ "'" in
  r ← ExecuteCommandInPod (Some Dst) d.(rpNamespace) d.(rpPodName) ["sh"; "-c"; sshCommand] None;
  match r with
  | (_, _, Some e) => mret (Err (plainf "failed to execute SSH command: " (op_error e)))
  | (stdout, _, None) => mret (Ok stdout)
  end.
End Commands.
