(* ===== verification/Workflow.v ===== *)
(** * The rsync workflow: rsync_workflow.go, sync_pvc.go, sync_replication.go

    The orchestration of one PVC sync: lock, rsync pod, keys, transfer, cleanup,
    unlock, with every early return and the deferred recovery from panics.  The
    steps themselves (AcquirePVCLock, FindPVCNode, performRsync, the rsyncpod
    package ...) are calls of a signature of their own; each of them may return an
    error or panic.  Link.v replaces the calls by the programs that model the steps.
    What rand.String returned is an argument; log output, the messages of events and
    the duration are left out. *)

From S2P Require Import Prelude Errors Types Kube KubeLogic Rfc3339 RsyncPod.

(** rsyncpod.RsyncDeployment and rsyncpod.RsyncDaemonSetPod: the pod that runs rsync;
    [wDestinationPath] is set for a DaemonSet pod, with the placeholder pod its cleanup
    function deletes, if it has one. *)
Record worker : Type := mkWorker {
  wName : string; wNamespace : string; wPodName : string; wPVCName : string; wSyncID : string;
  HasCachedKeys : bool; wDestinationPath : option (string * option (string * string))
}.

Inductive ROp : Type :=
| RSetNamespaces (src dst : string)
| REvent (ns pvc reason : string)
| RAcquirePVCLock (ns pvc : string)
| RReleasePVCLock (ns pvc : string)
| RNewManager
| RCleanupExistingDeployments (ns pvc : string)
| RGetSecret (ns name : string)
| RCreateRsyncDeployment (opts : RsyncPodOptions)
| RWaitForPodReady (w : worker) (timeout : Z)
| RGenerateSSHKeys (w : worker) (explicit : bool)
| RGetPublicKey (w : worker) (explicit : bool)
| RHasVolumeAttachments (ns pvc : string)
| RFindPVCNode (c : Cluster) (ns pvc : string)
| RFindAgentPod (node : string)
| RFindPVCMountPath (ns pvc : string) (agent : Object)
| RPushPublicKeyToAgent (agent : Object) (key trackingInfo : string)
| RTestSSHConnectivity (w : worker) (ip : string) (port : Z)
| RPerformRsync (w : worker) (ip path : string)
| RUpdateSourcePVCAnnotations (ns pvc : string)
| RCleanup (w : worker)
| RDeployDaemonSet
| RGetDaemonSet (ns name : string)
| RListDaemonSetPods (ns : string)
| RFindPodOnNode (node : string)
| RResolveDestinationPath (node ns pvc : string)
| RValidatePVCSync (srcPVC srcNS dstPVC dstNS : string)
| RNow
| RCompletePVCSync (mapping : NamespaceMapping) (syncID : string)
| RScheduleNextPVCSync (mapping : NamespaceMapping)
| RGetPVCsToSync (srcNS dstNS : string) (selector : gmap string string).

(** What a step returns when it does not panic.  WaitForPodReady sets the name of the pod;
    RGetDaemonSet gives the number of ready pods, RListDaemonSetPods phase and node of each
    pod, RFindPodOnNode namespace and name, RResolveDestinationPath the path and the pod of
    its cleanup function.  [explicit]: the destination's configuration is given. *)
Definition RVal (o : ROp) : Type :=
  match o with
  | RAcquirePVCLock _ _ => res bool
  | RCreateRsyncDeployment _ | RWaitForPodReady _ _ => res worker
  | RGetPublicKey _ _ | RFindPVCNode _ _ _ | RFindPVCMountPath _ _ _ => res string
  | RResolveDestinationPath _ _ _ => res (string * option (string * string))
  | RHasVolumeAttachments _ _ => res bool
  | RFindAgentPod _ => res (Object * string)
  | RFindPodOnNode _ => res (string * string)
  | RGetDaemonSet _ _ => res Z
  | RListDaemonSetPods _ => res (list (string * string))
  | RGetPVCsToSync _ _ _ => res (list string)
  | RNow => Time
  | RSetNamespaces _ _ | REvent _ _ _ => unit
  | _ => res unit
  end.

Definition RSig : Sig := mkSig ROp (λ o, exec (RVal o)).
Abbreviation RP := (prog RSig).

(** A step that panics unwinds the caller. *)
Definition rcall (o : ROp) : RP (RVal o) :=
  r ← call (Sg := RSig) o; match r with Ret v => mret v | Panic w => PPanic w end.

(** ** defer *)

(** [p] with its panic as a value. *)
Fixpoint attempt {Sg : Sig} {A : Type} (p : prog Sg A) : prog Sg (exec A) :=
  match p with
  | PRet a => PRet (Ret a)
  | PPanic w => PRet (Panic w)
  | PCall o k => PCall o (λ r, attempt (k r))
  end.

(** A part of a function body: it returns from the function or goes on. *)
Inductive next (A : Type) : Type :=
| Return (r : res unit)
| Continue (a : A).
Arguments Return {A} r.
Arguments Continue {A} a.

(** Run a part of the body under [defer func() { if r := recover(); r != nil { handler } }()]:
    after a panic the handler runs and the function returns its zero value, a nil error. *)
Definition guarded {A : Type} (handler : RP unit) (p : RP (next A)) (k : A → RP (res unit)) : RP (res unit) :=
  r ← attempt p;
  match r with
  | Ret (Return r) => mret r
  | Ret (Continue a) => k a
  | Panic _ => _ ← handler; mret (Ok tt)
  end.

(** A deferred function without recover: it runs in any case, then a panic goes on. *)
Definition deferred {A : Type} (cleanup : RP unit) (p : RP A) : RP A :=
  r ← attempt p; _ ← cleanup; match r with Ret a => mret a | Panic w => PPanic w end.

(** [x, err := c; if err != nil { fail err }], inside a part of the body. *)
Definition step {A B : Type} (c : RP (res A)) (fail : error → RP (next B)) (k : A → RP (next B)) : RP (next B) :=
  r ← c; match r with Ok a => k a | Err e => fail e end.

Notation "x ←! c 'failing' f ; k" := (step c f (λ x, k))
  (at level 20, c at level 100, f at level 100, k at level 200, only parsing) : go_scope.

(** ** Pieces *)

Definition record_event (ns pvc reason : string) : RP unit := rcall (REvent ns pvc reason).

(** Cleanup and release only log their errors. *)
Definition cleanupResources (w : worker) : RP unit := _ ← rcall (RCleanup w); mret tt.
Definition release (ns pvc : string) : RP unit := _ ← rcall (RReleasePVCLock ns pvc); mret tt.

(** The recovery: clean the pod up if there is one, release the lock if it is ours. *)
Definition on_panic (ns pvc : string) (lockAcquired : bool) (pod : option worker) : RP unit :=
  _ ← match pod with Some w => cleanupResources w | None => mret tt end;
  if lockAcquired then release ns pvc else mret tt.

(** An early return that releases the lock, [fail_release], and one that cleans the
    pod up first, [fail_clean]. *)
Definition fail_release {A : Type} (ns pvc prefix : string) (e : error) : RP (next A) :=
  _ ← release ns pvc; mret (Return (Err (plainf prefix e))).

Definition fail_clean {A : Type} (ns pvc : string) (w : worker) (prefix : string) (e : error) : RP (next A) :=
  _ ← cleanupResources w; fail_release ns pvc prefix e.

(** ** deployRsyncPod *)

Definition RsyncKeySecretPrefix : string := "dr-syncer-rsync-keys-".
Definition GetRsyncKeySecretName (remoteClusterName : string) : string :=
  RsyncKeySecretPrefix +:+ remoteClusterName.

Definition rsync_pod_options (ns pvc syncID cached : string) : RsyncPodOptions :=
  mkRsyncPodOptions ns pvc "" "destination" syncID ("pvc-sync-" +:+ ns +:+ "-" +:+ pvc) cached.

Definition deployRsyncPod (remote ns pvc syncID : string) : RP (res worker) :=
  _ ←? rcall RNewManager onerr plainf "failed to create rsync manager: ";
  cached ← (if negb (remote =s? "") then
              r ← rcall (RGetSecret ns (GetRsyncKeySecretName remote));
              mret match r with Ok _ => GetRsyncKeySecretName remote | Err _ => "" end
            else mret "");
  w ←? rcall (RCreateRsyncDeployment (rsync_pod_options ns pvc syncID cached))
    onerr plainf "failed to create rsync deployment: ";
  w ←? rcall (RWaitForPodReady w (5 * Minute))
    onerr plainf "timeout waiting for rsync deployment to be ready: ";
  mret (Ok w).

Definition generateSSHKeys (w : worker) : RP (res unit) :=
  _ ←? rcall (RGenerateSSHKeys w true) onerr plainf "failed to generate SSH keys: "; mret (Ok tt).

Definition getPublicKey (w : worker) : RP (res string) :=
  k ←? rcall (RGetPublicKey w true) onerr plainf "failed to get public key: "; mret (Ok k).

(** ** RsyncWorkflow *)

(** Steps 11 to 13: the annotations, the cleanup, the release. *)
Definition conclude_step (srcNS srcPVC : string) (w : worker) : RP (next Empty_set) :=
  _ ←! rcall (RUpdateSourcePVCAnnotations srcNS srcPVC)
    failing fail_clean srcNS srcPVC w "failed to update source PVC annotations: ";
  _ ← cleanupResources w;
  _ ← release srcNS srcPVC;
  _ ← record_event srcNS srcPVC "LockReleased";
  _ ← record_event srcNS srcPVC "SyncCompleted";
  mret (Return (Ok tt)).

(** Steps 9 and 10: the SSH test and rsync. *)
Definition rsync_step (srcNS srcPVC : string) (w : worker) (nodeIP mountPath : string) : RP (next Empty_set) :=
  _ ←! rcall (RTestSSHConnectivity w nodeIP 2222)
    failing fail_clean srcNS srcPVC w "failed to test SSH connectivity: ";
  _ ← record_event srcNS srcPVC "SSHConnected";
  _ ←! rcall (RPerformRsync w nodeIP mountPath)
    failing (λ e, _ ← record_event srcNS srcPVC "SyncFailed"; fail_clean srcNS srcPVC w "failed to perform rsync: " e);
  conclude_step srcNS srcPVC w.

(** Steps 5 to 8: node, agent and mount path of the source claim; [push] is step 8. *)
Definition locate_step (srcNS srcPVC : string) (w : worker) (push : Object → RP (res unit)) : RP (next Empty_set) :=
  let fail prefix := fail_clean srcNS srcPVC w prefix in
  sourceNode ←! rcall (RFindPVCNode Src srcNS srcPVC)
    failing fail "failed to find node where source PVC is mounted: ";
  agent ←! rcall (RFindAgentPod sourceNode)
    failing fail ("failed to find DR-Syncer-Agent on node " +:+ sourceNode +:+ ": ");
  mountPath ←! rcall (RFindPVCMountPath srcNS srcPVC agent.1)
    failing fail "failed to find mount path for PVC: ";
  _ ←! push agent.1 failing fail "failed to push public key to agent pod: ";
  rsync_step srcNS srcPVC w agent.2 mountPath.

(** Steps 4 to 13, the same in both workflows. *)
Definition transfer (srcNS srcPVC : string) (w : worker) (push : Object → RP (res unit)) : RP (next Empty_set) :=
  mounted ←! rcall (RHasVolumeAttachments srcNS srcPVC)
    failing fail_clean srcNS srcPVC w "failed to check if source PVC is mounted: ";
  if negb mounted then
    _ ← record_event srcNS srcPVC "SyncSkipped";
    _ ← cleanupResources w; _ ← release srcNS srcPVC; mret (Return (Ok tt))
  else locate_step srcNS srcPVC w push.

(** Step 0, the same in both workflows. *)
Definition acquire_step (srcNS srcPVC : string) : RP (next unit) :=
  acquired ←! rcall (RAcquirePVCLock srcNS srcPVC)
    failing (λ e, mret (Return (Err (plainf "failed to check lock on source PVC: " e))));
  if negb acquired then _ ← record_event srcNS srcPVC "SyncSkipped"; mret (Return (Ok tt))
  else mret (Continue tt).

(** Step 1: the rsync deployment of this sync. *)
Definition deploy_step (remote srcNS srcPVC dstNS dstPVC syncID : string) : RP (next worker) :=
  _ ←! rcall RNewManager failing fail_release srcNS srcPVC "failed to create rsync manager: ";
  _ ← rcall (RCleanupExistingDeployments dstNS dstPVC);
  _ ← record_event srcNS srcPVC "LockAcquired";
  w ←! deployRsyncPod remote dstNS dstPVC syncID
    failing (λ e, _ ← record_event srcNS srcPVC "SyncFailed";
                  fail_release srcNS srcPVC "failed to deploy rsync pod in destination cluster: " e);
  mret (Continue w).

(** Steps 2 to 13 with the deployment [w]. *)
Definition sync_step (srcNS srcPVC dstNS pushID : string) (w : worker) : RP (next Empty_set) :=
  _ ← record_event srcNS srcPVC "RsyncPodDeployed";
  if w.(HasCachedKeys) then transfer srcNS srcPVC w (λ _, mret (Ok tt))
  else
    _ ←! generateSSHKeys w failing fail_clean srcNS srcPVC w "failed to generate SSH keys: ";
    publicKey ←! getPublicKey w failing fail_clean srcNS srcPVC w "failed to get public key: ";
    transfer srcNS srcPVC w (λ agent,
      rcall (RPushPublicKeyToAgent agent publicKey ("dr-syncer-rsync-" +:+ dstNS +:+ "-" +:+ pushID))).

(** The last part always returns. *)
Definition finish (e : Empty_set) : RP (res unit) := match e with end.

(** [syncID] and [pushID] are what rand.String(8) gives for the deployment and for the key. *)
Definition RsyncWorkflow (remote srcNS srcPVC dstNS dstPVC syncID pushID : string) : RP (res unit) :=
  _ ← record_event srcNS srcPVC "SyncStarted";
  _ ← rcall (RSetNamespaces srcNS dstNS);
  guarded (on_panic srcNS srcPVC false None) (acquire_step srcNS srcPVC) (λ _,
  guarded (on_panic srcNS srcPVC true None) (deploy_step remote srcNS srcPVC dstNS dstPVC syncID) (λ w,
  guarded (on_panic srcNS srcPVC true (Some w)) (sync_step srcNS srcPVC dstNS pushID w) finish)).

(** ** RsyncWorkflowWithDaemonSet *)

(** [p.RsyncDaemonSet]: namespace and name. *)
Definition DaemonSetRef : Type := string * string.

Definition findRsyncDaemonSetPod (ds : option DaemonSetRef) (dstNS dstPVC : string) : RP (res worker) :=
  match ds with
  | None => mret (Err (PlainError "RsyncDaemonSet is not initialized"))
  | Some (dsNamespace, dsName) =>
      found ← rcall (RFindPVCNode Dst dstNS dstPVC);
      destNode ←? match found with
                  | Ok node => mret (Ok node)
                  | Err _ =>
                      ready ←? rcall (RGetDaemonSet dsNamespace dsName) onerr wrapf "failed to get rsync DaemonSet: ";
                      if ready =? 0 then mret (Err (PlainError "no ready rsync DaemonSet pods available"))
                      else
                        pods ←? rcall (RListDaemonSetPods dsNamespace) onerr wrapf "failed to list rsync DaemonSet pods: ";
                        match List.find (λ pod, pod.1 =s? "Running") pods with
                        | Some (_, node) =>
                            if node =s? "" then mret (Err (PlainError "no running rsync DaemonSet pods found"))
                            else mret (Ok node)
                        | None => mret (Err (PlainError "no running rsync DaemonSet pods found"))
                        end
                  end onerr (λ e, e);
      pod ←? rcall (RFindPodOnNode destNode) onerr wrapf ("failed to find DaemonSet pod on node " +:+ destNode +:+ ": ");
      destPath ←? rcall (RResolveDestinationPath destNode dstNS dstPVC)
        onerr wrapf ("failed to resolve destination path for PVC " +:+ dstNS +:+ "/" +:+ dstPVC +:+ ": ");
      mret (Ok (mkWorker "dr-syncer-rsync" pod.1 pod.2 dstPVC "" true (Some destPath)))
  end.

Definition daemonset_step (ds : option DaemonSetRef) (srcNS srcPVC dstNS dstPVC : string) : RP (next worker) :=
  _ ← record_event srcNS srcPVC "LockAcquired";
  match ds with
  | None =>
      _ ← release srcNS srcPVC;
      mret (Return (Err (PlainError "RsyncDaemonSet is not initialized, cannot use DaemonSet mode")))
  | Some _ =>
      _ ←! rcall RDeployDaemonSet
        failing (λ e, _ ← record_event srcNS srcPVC "SyncFailed";
                      fail_release srcNS srcPVC "failed to deploy rsync DaemonSet: " e);
      w ←! findRsyncDaemonSetPod ds dstNS dstPVC
        failing (λ e, _ ← record_event srcNS srcPVC "SyncFailed";
                      fail_release srcNS srcPVC "failed to find DaemonSet pod: " e);
      mret (Continue w)
  end.

(** Steps 2 to 13 with a pod of the pool, whose keys are mounted. *)
Definition daemonset_sync (srcNS srcPVC : string) (w : worker) : RP (next Empty_set) :=
  transfer srcNS srcPVC w (λ _, mret (Ok tt)).

Definition RsyncWorkflowWithDaemonSet (ds : option DaemonSetRef) (srcNS srcPVC dstNS dstPVC : string) : RP (res unit) :=
  _ ← record_event srcNS srcPVC "SyncStarted";
  _ ← rcall (RSetNamespaces srcNS dstNS);
  guarded (on_panic srcNS srcPVC false None) (acquire_step srcNS srcPVC) (λ _,
  guarded (on_panic srcNS srcPVC true None) (daemonset_step ds srcNS srcPVC dstNS dstPVC) (λ w,
  guarded (on_panic srcNS srcPVC true (Some w)) (daemonset_sync srcNS srcPVC w) finish)).

(** ** SyncReplication (sync_replication.go): no lock, the deployment is cleaned up by a
    deferred function *)

Definition SyncReplication (srcNS dstNS pvc syncID : string) : RP (res unit) :=
  hasAttachments ←? rcall (RHasVolumeAttachments srcNS pvc)
    onerr plainf "failed to check if source PVC has attachments: ";
  if negb hasAttachments then mret (Ok tt) else
  nodeName ←? rcall (RFindPVCNode Src srcNS pvc)
    onerr plainf "failed to find node where source PVC is mounted: ";
  agent ←? rcall (RFindAgentPod nodeName) onerr plainf "failed to find DR-Syncer-Agent on node: ";
  mountPath ←? rcall (RFindPVCMountPath srcNS pvc agent.1)
    onerr plainf "failed to find mount path for source PVC: ";
  _ ←? rcall RNewManager onerr plainf "failed to create rsync manager: ";
  w ←? rcall (RCreateRsyncDeployment (mkRsyncPodOptions dstNS pvc "" "destination" syncID pvc ""))
    onerr plainf "failed to create rsync deployment on destination cluster: ";
  deferred (cleanupResources w) (
    w ←? rcall (RWaitForPodReady w (5 * Minute)) onerr plainf "rsync deployment failed to become ready: ";
    _ ←? rcall (RGenerateSSHKeys w false) onerr plainf "failed to generate SSH keys in rsync pod: ";
    publicKey ←? rcall (RGetPublicKey w false) onerr plainf "failed to get public SSH key from rsync pod: ";
    _ ←? rcall (RPushPublicKeyToAgent agent.1 publicKey ("dr-syncer-" +:+ syncID))
      onerr plainf "failed to push public SSH key to agent pod: ";
    _ ←? rcall (RPerformRsync w agent.2 mountPath) onerr plainf "rsync command failed: ";
    _ ← rcall (RSetNamespaces srcNS dstNS);
    _ ←? rcall (RUpdateSourcePVCAnnotations srcNS pvc) onerr plainf "failed to update source PVC annotations: ";
    mret (Ok tt)).

(** ** SyncPVC, SyncPVCs (sync_pvc.go) and SyncPVCWithNamespaceMapping *)

(** After the workflow: the status of the mapping, and its next sync when it is
    scheduled; errors are logged. *)
Definition complete_mapping (mapping : NamespaceMapping) (syncID : string) : RP unit :=
  _ ← rcall (RCompletePVCSync mapping syncID);
  if bool_decide (mapping.(Spec).(ReplicationMode) = ScheduledMode)
  then _ ← rcall (RScheduleNextPVCSync mapping); mret tt
  else mret tt.

Definition SyncPVC (remote ns name destNS syncID pushID : string) (mapping : option NamespaceMapping) : RP (res unit) :=
  _ ←? rcall (RValidatePVCSync name ns name destNS) onerr plainf "validation failed: ";
  _ ←? RsyncWorkflow remote ns name destNS name syncID pushID onerr plainf "rsync workflow failed: ";
  _ ← match mapping with
      | Some m => now ← rcall RNow; complete_mapping m (ns +:+ "-" +:+ name +:+ "-" +:+ FormatCompact now)
      | None => mret tt
      end;
  mret (Ok tt).

(** [ids] gives the two random identifiers of a claim's sync. *)
Definition SyncPVCs (remote srcNS dstNS : string) (selector : gmap string string) (ids : string → string * string)
    (mapping : option NamespaceMapping) : RP (res unit) :=
  _ ← rcall (RSetNamespaces srcNS dstNS);
  pvcNames ←? rcall (RGetPVCsToSync srcNS dstNS selector) onerr plainf "failed to get PVCs to sync: ";
  _ ← range_each pvcNames tt (λ name _, _ ← SyncPVC remote srcNS name dstNS (ids name).1 (ids name).2 mapping; mret tt);
  mret (Ok tt).

Definition SyncPVCWithNamespaceMapping (remote syncID pushID : string) (mapping : NamespaceMapping) (opts : PVCSyncOptions)
    : RP (res unit) :=
  let srcNS := opts.(optSourceNamespace) in
  let dstNS := opts.(optDestinationNamespace) in
  let srcPVC := GetName opts.(optSourcePVC) in
  let dstPVC := GetName opts.(optDestinationPVC) in
  _ ← rcall (RSetNamespaces srcNS dstNS);
  hasMounts ←? rcall (RHasVolumeAttachments srcNS srcPVC)
    onerr plainf "failed to check if source PVC is mounted: ";
  if negb hasMounts then mret (Ok tt) else
  _ ←? rcall (RValidatePVCSync srcPVC srcNS dstPVC dstNS) onerr plainf "validation failed: ";
  _ ←? RsyncWorkflow remote srcNS srcPVC dstNS dstPVC syncID pushID onerr plainf "rsync workflow failed: ";
  _ ← complete_mapping mapping (srcNS +:+ "-" +:+ srcPVC +:+ "-" +:+ dstNS);
  mret (Ok tt).
