(* ===== verification/RsyncController.v ===== *)
(** * The rsync controller: rsync_deployment_controller.go

    RsyncController.SyncReplication: find the node, the agent and the mount path of a source
    claim, deploy an rsync pod beside the destination claim, exchange keys, transfer, and
    clean up on every way out.  It is composed of the programs of Helpers and RsyncPod.
    rand.Intn is an argument. *)

From S2P Require Import Prelude GoString Errors Types Kube KubeLogic Lock Helpers RsyncExec RsyncPod.

(** [defer cleanup()]: run when the rest of the function returns or panics. *)
Fixpoint with_deferred {Sg : Sig} {A : Type} (cleanup : prog Sg unit) (body : prog Sg A) : prog Sg A :=
  match body with
  | PRet a => _ ← cleanup; mret a
  | PPanic w => _ ← cleanup; panic w
  | PCall o k => PCall o (λ r, with_deferred cleanup (k r))
  end.

(** ** Nodes *)

(** A node for every attachment of the volume, with repetitions. *)
Definition attachment_nodes (volume : string) (items : list Object) : list string :=
  omap (λ va, match va.(oBody) with
              | VolumeAttachmentBody node (Some pv) _ _ => if pv =s? volume then Some node else None
              | _ => None
              end) items.

(** A node for every volume of the claim in a running pod with a node. *)
Definition claim_nodes (pvcName : string) (items : list Object) : list string :=
  items ≫= λ pod,
    match pod.(oBody) with
    | PodBody f =>
        omap (λ v, if mounts pvcName v && (negb (f.(podNodeName) =s? "") && (f.(podPhase) =s? "Running"))
                   then Some f.(podNodeName) else None) f.(podClaims)
    | _ => []
    end.

Definition findPVCNodes (namespace pvcName : string) : KP (res (list string)) :=
  pvc ←? kcall (KGet Src persistentvolumeclaims namespace pvcName) onerr (plainf "failed to get PVC: ");
  attachments ←? kcall (KList Src volumeattachments "" None) onerr (plainf "failed to list volume attachments: ");
  match attachment_nodes (volume_name pvc) attachments with
  | [] =>
      podList ←? kcall (KList Src pods namespace None) onerr (plainf "failed to list pods: ");
      mret (Ok (foldl add_node [] (claim_nodes pvcName podList)))
  | ns => mret (Ok (foldl add_node [] ns))
  end.

(** [intn n] is rand.Intn(n). *)
Definition selectRandomNode (intn : nat → nat) (nodes : list string) : KP string :=
  match nodes with
  | [n] => mret n
  | _ =>
      _ ← kcall KNow;
      match nodes !! intn (length nodes) with
      | Some n => mret n
      | None => panic "index out of range"
      end
  end.

(** ** The deployment *)

Definition sync_selector (pvcName syncID : string) : gmap string string :=
  <["app.kubernetes.io/name" := "dr-syncer-rsync"]> (<["dr-syncer.io/sync-id" := syncID]> {["dr-syncer.io/pvc-name" := pvcName]}).

Definition sync_labels (pvcName syncID : string) : gmap string string :=
  <["app.kubernetes.io/managed-by" := "dr-syncer-controller"]> (sync_selector pvcName syncID).

Definition sync_template (pvcName syncID : string) : PodTemplate :=
  mkPodTemplate (sync_labels pvcName syncID) rsync_image rsync_wait [("data", "/data", false)] ∅ ∅ None [] None []
    [("data", ClaimVolume pvcName)] "" "".

Section Controller.
Context `{CacheCodec} `{DeploymentCodec} `{Poller}.
Variable (host : Cluster → string) (ctx : Ctx) (intn : nat → nat).

Definition deployRsyncDeployment (namespace pvcName syncID : string) : KP (res Object) :=
  let name := "dr-syncer-rsync-" +:+ pvcName +:+ "-" +:+ syncID in
  _ ←? delete_existing (5 * Second) namespace name onerr id;
  created ←? kcall (KCreate Dst deployments namespace
               (deployment_object name namespace (sync_labels pvcName syncID) (sync_selector pvcName syncID)
                  (sync_template pvcName syncID)))
    onerr (plainf "failed to create rsync deployment: ");
  mret (Ok created).

Definition waitForRsyncPodReady (deployment : Object) (timeout : Z) : KP (res string) :=
  podName ←? PollUntilContextCancel timeout (5 * Second) (running_pod (GetNamespace deployment) (GetName deployment))
    onerr (plainf "failed to wait for pod to be ready: ");
  if podName =s? "" then
    errorf ("no running pod found for deployment " +:+ GetNamespace deployment +:+ "/" +:+ GetName deployment)
  else mret (Ok podName).

(** Run a command in the rsync pod; an error is reported with a prefix. *)
Definition in_pod (ns pod : string) (command : list string) (prefix : string) : KP (res (string * string)) :=
  r ← executeCommandInPod host ctx (Some Dst) ns pod command;
  match r with
  | (_, _, Some e) => mret (Err (plainf prefix (op_error e)))
  | (stdout, stderr, None) => mret (Ok (stdout, stderr))
  end.

Definition generateSSHKeysInPod (ns pod : string) : KP (res unit) :=
  _ ←? in_pod ns pod keygen_command "failed to generate SSH keys: " onerr id; mret (Ok tt).

Definition getPublicKeyFromPod (ns pod : string) : KP (res string) :=
  out ←? in_pod ns pod pubkey_command "failed to get public key: " onerr id;
  let publicKey := TrimSpace out.1 in
  if publicKey =s? "" then errorf "empty public key returned" else mret (Ok publicKey).

Definition ssh_options : string := "-o StrictHostKeyChecking=no -o UserKnownHostsFile=/dev/null -i /root/.ssh/id_rsa -p ".

Definition testSSHConnectivity (ns pod agentIP : string) (port : Z) : KP (res unit) :=
  let sshCommand := "ssh " +:+ ssh_options +:+ itoa port +:+ " root@" +:+ agentIP +:+ " 'echo SSH connectivity test'" in
  _ ←? in_pod ns pod ["sh"; "-c"; sshCommand] "SSH connectivity test failed: " onerr id; mret (Ok tt).

Definition transfer_command (agentIP mountPath : string) : list string :=
  ["sh"; "-c"; "rsync --archive --verbose --delete --human-readable -e 'ssh " +:+ ssh_options +:+ "2222' root@" +:+ agentIP +:+ ":" +:+
   mountPath +:+ "/ /data/ | tee /var/log/rsync.log"].

Definition performTransfer (ns pod agentIP mountPath : string) : KP (res unit) :=
  out ←? in_pod ns pod (transfer_command agentIP mountPath) "rsync command failed: " onerr id;
  if Contains out.2 "rsync error" then errorf ("rsync error: " +:+ out.2) else mret (Ok tt).

Definition cleanupRsyncDeployment (deployment : Object) : KP (res unit) :=
  delete_deployment (5 * Second) (GetNamespace deployment) (GetName deployment).

(** ** SyncReplication *)

(** Steps 7 to 13: what runs while the deployment exists. *)
Definition replicate (sourceNS destNS pvcName syncID : string) (deployment agentPod : Object) (agentIP mountPath : string)
    : KP (res unit) :=
  let ns := GetNamespace deployment in
  rsyncPod ←? waitForRsyncPodReady deployment (5 * Minute) onerr (plainf "rsync pod failed to become ready: ");
  _ ←? generateSSHKeysInPod ns rsyncPod onerr (plainf "failed to generate SSH keys in rsync pod: ");
  publicKey ←? getPublicKeyFromPod ns rsyncPod onerr (plainf "failed to get public SSH key from rsync pod: ");
  _ ←? PushPublicKeyToAgent agentPod publicKey ("dr-syncer-" +:+ syncID)
    onerr (plainf "failed to push public SSH key to agent pod: ");
  _ ←? testSSHConnectivity ns rsyncPod agentIP 2222 onerr (plainf "SSH connectivity test failed: ");
  _ ←? performTransfer ns rsyncPod agentIP mountPath onerr (plainf "rsync command failed: ");
  _ ←? UpdateSourcePVCAnnotations destNS sourceNS pvcName onerr (plainf "failed to update source PVC annotations: ");
  mret (Ok tt).

Definition SyncReplication (sourceNS destNS pvcName syncID : string) : KP (res unit) :=
  hasAttachments ←? HasVolumeAttachments Src sourceNS pvcName onerr (plainf "failed to check if source PVC has attachments: ");
  if negb hasAttachments then mret (Ok tt)
  else
    nodes ←? findPVCNodes sourceNS pvcName onerr (plainf "failed to find nodes where source PVC is mounted: ");
    match nodes with
    | [] => errorf "no nodes found with mounted PVC"
    | _ =>
        selectedNode ← selectRandomNode intn nodes;
        agent ←? FindAgentPod selectedNode onerr (plainf "failed to find DR-Syncer-Agent on node: ");
        mountPath ←? FindPVCMountPath sourceNS pvcName agent.1 onerr (plainf "failed to find mount path for source PVC: ");
        deployment ←? deployRsyncDeployment destNS pvcName syncID onerr (plainf "failed to deploy rsync deployment: ");
        with_deferred (_ ← cleanupRsyncDeployment deployment; mret tt)
          (replicate sourceNS destNS pvcName syncID deployment agent.1 agent.2 mountPath)
    end.
End Controller.
