(* ===== verification/RsyncPodProps.v ===== *)
(** * Theorems about rsync pods and the rsync controller

    Names used in labels, the choice of a configuration, and RsyncController.SyncReplication:
    what it creates it deletes again, and what it can do with the contexts it is given. *)

From S2P Require Import Prelude GoString Errors Types Kube KubeLogic Duration Lock Helpers RsyncExec RsyncPod RsyncController.
From Stdlib Require Import Ascii.

(** ** Names in labels *)

Lemma length_smap f s : String.length (smap f s) = String.length s.
Proof. induction s as [|c s IH]; cbn; [done|by rewrite IH]. Qed.

Lemma substring_all s : String.substring 0 (String.length s) s = s.
Proof. induction s as [|c s IH]; cbn; [done|by rewrite IH]. Qed.

Lemma substring_prefix p s : String.substring 0 (String.length p) (p +:+ s) = p.
Proof. induction p as [|c p IH]; [by destruct s|]. rewrite sappend_cons. cbn. by rewrite IH. Qed.

Lemma substring_suffix p s n : String.substring (String.length p) n (p +:+ s) = String.substring 0 n s.
Proof. induction p as [|c p IH]; [done|]. rewrite sappend_cons. exact IH. Qed.

Lemma get_after p c s : String.get (String.length p) (p +:+ String c s) = Some c.
Proof. induction p as [|d p IH]; [done|]. rewrite sappend_cons. exact IH. Qed.

(** Replacing the byte after the prefix [p]. *)
Lemma replace_at_split p c s : replace_at (p +:+ String c s) (String.length p) = p +:+ String "-" s.
Proof.
  unfold replace_at. rewrite slength_app. cbn [String.length]. destruct (Nat.eqb_spec (String.length p) 0) as [Hp|Hp].
  - destruct p; [|done]. change (String "-" (String.substring 0 (String.length s - 0) s) = String "-" s).
    by rewrite Nat.sub_0_r, substring_all.
  - rewrite substring_prefix. destruct (Nat.eqb_spec (String.length p) (String.length p + S (String.length s) - 1)) as [Hs|Hs].
    + assert (s = "") as -> by (destruct s; [done|cbn in Hs; lia]). done.
    + replace (String.length p + S (String.length s) - S (String.length p))%nat with (String.length s) by lia.
      replace (p +:+ String c s) with ((p +:+ String c "") +:+ s) by (by rewrite sappend_assoc).
      replace (S (String.length p)) with (String.length (p +:+ String c "")) by (rewrite slength_app; cbn; lia).
      by rewrite substring_suffix, substring_all.
Qed.

Definition replaced (char c : ascii) : ascii := if Ascii.eqb c char then "-"%char else c.

Lemma replace_from_spec char s p : replace_from (String.length s) (String.length p) char (p +:+ s) = p +:+ smap (replaced char) s.
Proof.
  revert p. induction s as [|c s IH]; intros p; cbn [String.length replace_from smap]; [done|].
  rewrite get_after. unfold replaced at 1. destruct (Ascii.eqb c char).
  - rewrite replace_at_split. specialize (IH (p +:+ "-")). rewrite slength_app in IH. cbn in IH. rewrite Nat.add_1_r in IH.
    by rewrite !sappend_assoc in IH.
  - specialize (IH (p +:+ String c "")). rewrite slength_app in IH. cbn in IH. rewrite Nat.add_1_r in IH.
    by rewrite !sappend_assoc in IH.
Qed.

Lemma smap_compose f g s : smap f (smap g s) = smap (f ∘ g) s.
Proof. induction s as [|c s IH]; cbn; [done|by rewrite IH]. Qed.

Lemma smap_ext f g s : (∀ c, f c = g c) → smap f s = smap g s.
Proof. intros H. induction s as [|c s IH]; cbn; [done|by rewrite H, IH]. Qed.

(** The bytes that may not be in a label become dashes. *)
Definition label_char (c : ascii) : ascii := if existsb (Ascii.eqb c) invalidChars then "-"%char else c.

(** sanitizeNameForLabel, with its loops that cut and join the name, replaces exactly the
    bytes slash, dot, colon and tilde by dashes and keeps the first 63 bytes. *)
Lemma sanitizeNameForLabel_spec name : sanitizeNameForLabel name = String.substring 0 63 (smap label_char name).
Proof.
  unfold sanitizeNameForLabel, invalidChars. cbn [foldl].
  assert (Hr : ∀ s c, replace_from (String.length s) 0 c s = smap (replaced c) s) by (intros s c; exact (replace_from_spec c s "")).
  rewrite !Hr, !smap_compose. cbv zeta.
  rewrite (smap_ext _ label_char) by (intros c; by destruct c as [[] [] [] [] [] [] [] []]).
  destruct (Nat.ltb_spec 63 (String.length (smap label_char name))) as [Hl|Hl]; [done|].
  generalize dependent (smap label_char name). intros s. generalize 63%nat. clear.
  induction s as [|c s IH]; intros n Hl; [by destruct n|]. destruct n; cbn in *; [lia|]. f_equal. apply IH. lia.
Qed.

(** The selector of the cleanup matches what is deployed for claims with the same label. *)
Lemma existing_selector_matches pvcName opts :
  existing_selector pvcName ⊆ rsync_labels opts ↔ sanitizeNameForLabel pvcName = sanitizeNameForLabel opts.(roPVCName).
Proof.
  rewrite map_subseteq_spec. unfold existing_selector, rsync_labels. split.
  - intros Hs. specialize (Hs "dr-syncer.io/pvc-name" (sanitizeNameForLabel pvcName)).
    rewrite !lookup_insert_ne, !lookup_singleton_eq in Hs by done. specialize (Hs eq_refl). by injection Hs.
  - intros -> k v Hk. rewrite lookup_insert_Some, lookup_singleton_Some in Hk.
    destruct Hk as [[<- <-]|[Hk [<- <-]]]; [by rewrite lookup_insert_eq|]. by rewrite !lookup_insert_ne, lookup_singleton_eq.
Qed.

(** The selector of a deployment matches its own pods. *)
Lemma pod_selector_matches opts : pod_selector opts ⊆ ptLabels (rsync_template opts).
Proof.
  apply map_subseteq_spec. intros k v Hk. cbn. unfold pod_selector, rsync_labels in *.
  rewrite !lookup_insert_Some, lookup_singleton_Some in Hk. destruct Hk as [[<- <-]|[H1 [[<- <-]|[H2 [<- <-]]]]]; repeat (rewrite lookup_insert_ne by done);
    by rewrite ?lookup_insert_eq, ?lookup_singleton_eq.
Qed.

(** CleanupExistingDeployments looks for a claim's rsync deployments by its label, and so
    finds everything CreateRsyncDeployment deploys for it, in a pod its own selector matches,
    and nothing of a claim whose label differs; but claims whose names differ only in dots
    and dashes, or after 63 bytes, share their label and each other's deployments. *)
Theorem CleanupExistingDeployments_finds pvcName opts :
  pod_selector opts ⊆ ptLabels (rsync_template opts) ∧
  (existing_selector pvcName ⊆ rsync_labels opts ↔
   String.substring 0 63 (smap label_char pvcName) = String.substring 0 63 (smap label_char opts.(roPVCName))).
Proof. split; [apply pod_selector_matches|]. by rewrite <- !sanitizeNameForLabel_spec, existing_selector_matches. Qed.

Example claims_share_deployments : existing_selector "db.data" = existing_selector "db-data".
Proof. reflexivity. Qed.

(** ** Parts of a program that are given by their executions *)

(** A poll under an invariant of its rounds; the condition that holds ends in [Q]. *)
Lemma monitored_poll {St A} `{LawfulPoller} (m : St → event KSig → option St) timeout interval (cond : KP (option A))
    (I : St → Prop) (Q : exec (res A) → St → Prop) st :
  I st →
  (∀ s, I s → monitored m cond s (λ out s', match out with
     | Ret (Some a) => Q (Ret (Ok a)) s' | Ret None => I s' | Panic w => Q (Panic w) s' end)) →
  (∀ s b, I s → ∃ s', m s (Ev (Sg := KSig) (KWait interval) b) = Some s' ∧ I s') →
  (∀ s e, I s → Q (Ret (Err e)) s) →
  monitored m (PollUntilContextCancel timeout interval cond) st Q.
Proof.
  intros HI Hc Hw HQ. apply monitored_of_runs; [exact KResp_inhabited|]. intros tr out Hr. apply poller_runs in Hr. revert st HI.
  induction Hr as [tr a Hr|t1 t2 out Hr _ IH|tr w e Hr Hw'|tr w Hr]; intros st HI;
    destruct (monitored_sound _ _ _ _ _ _ (Hc st HI) Hr) as (s1 & Ho & Hs).
  - by eauto.
  - rewrite observe_app, Ho. cbn [mbind option_bind observe]. destruct (Hw s1 true Hs) as (s2 & -> & H2). by apply IH.
  - rewrite observe_app, Ho. cbn [mbind option_bind]. destruct Hw' as [->| ->]; cbn [observe]; [by eauto|].
    destruct (Hw s1 false Hs) as (s2 & -> & H2). by eauto.
  - by eauto.
Qed.

Lemma monitored_deferred {St A} (m : St → event KSig → option St) (cleanup : KP unit) (body : KP A) st Q :
  monitored m body st (λ out s, monitored m cleanup s (λ o s', match o with Ret _ => Q out s' | Panic w => Q (Panic w) s' end)) →
  monitored m (with_deferred cleanup body) st Q.
Proof.
  revert st. induction body as [a|w|o k IH]; intros st Hb; cbn in *.
  - apply monitored_bind. eapply monitored_mono; [exact Hb|]. by intros [] s'.
  - apply monitored_bind. eapply monitored_mono; [exact Hb|]. by intros [] s'.
  - intros r. specialize (Hb r). destruct (m st (Ev (Sg := KSig) o r)); [|done]. by apply IH.
Qed.

(** ** What SyncReplication leaves behind *)

(** The deployment of a sync: none was created, the creation was refused, it exists under the
    namespace and name the server answered, or its deletion was called and answered [r]. *)
Inductive stage : Type :=
| NotYet
| Refused
| Exists (created : string * string)
| Deleted (created : string * string) (r : res unit).

(** [syGone]: the last read of the deployment answered that there is none. *)
Record sync_state : Type := mkSyncState { syGone : bool; syStage : stage }.

(** Where commands of the destination cluster may run. *)
Definition exec_ns (st : stage) : option string := match st with Exists created => Some created.1 | _ => None end.

(** One deployment, [name] in [destNS], is created at most once and only after a read of that
    name answered that there is none; before, only that name may be deleted, and afterwards
    only what was created, once; commands of the destination cluster run only in its namespace
    and while it exists; nothing else is written but claims of [sourceNS]. *)
Definition replication_monitor (sourceNS destNS name : string) (st : sync_state) (e : event KSig) : option sync_state :=
  match e with
  | Ev o r =>
      match o as o return KResp o → option sync_state with
      | KGet c g n x => λ r,
          if bool_decide ((c, g, n, x) = (Dst, deployments, destNS, name)) then
            Some (mkSyncState (match r with Ok _ => false | Err e => IsNotFound e end) st.(syStage))
          else Some st
      | KCreate c g ns x => λ r,
          match st.(syStage) with
          | NotYet =>
              if st.(syGone) && bool_decide ((c, g, ns, GetName x) = (Dst, deployments, destNS, name)) then
                Some (mkSyncState false (match r with Ok created => Exists (GetNamespace created, GetName created) | Err _ => Refused end))
              else None
          | _ => None
          end
      | KDeleteForeground c g ns x => λ r,
          match st.(syStage) with
          | NotYet => if bool_decide ((c, g, ns, x) = (Dst, deployments, destNS, name)) then Some (mkSyncState false NotYet) else None
          | Exists created =>
              if bool_decide ((c, g, ns, x) = (Dst, deployments, created.1, created.2)) then Some (mkSyncState false (Deleted created r)) else None
          | _ => None
          end
      | KExec c ns _ _ => λ _,
          if bool_decide (c = Src ∨ exec_ns st.(syStage) = Some ns) then Some st else None
      | KUpdate c g ns _ => λ _,
          if bool_decide (c = Src ∧ g = persistentvolumeclaims ∧ ns = sourceNS) then Some st else None
      | KDelete _ _ _ _ | KEvict _ _ _ | KCommand _ _ | KUpdateMappingAt _ _ | KUpdateMappingStatus _ | KUpdateMapping _ => λ _, None
      | _ => λ _, Some st
      end r
  end.

(** Nothing exists whose deletion was not called. *)
Definition cleaned (st : stage) : Prop := ∀ created, st ≠ Exists created.

(** Calls that leave the deployment alone. *)
Definition aside (sourceNS : string) (st : stage) : Op KSig → Prop := λ o : KOp,
  match o with
  | KCreate _ _ _ _ | KDeleteForeground _ _ _ _ | KDelete _ _ _ _ | KEvict _ _ _ | KCommand _ _ | KUpdateMappingAt _ _
  | KUpdateMappingStatus _ | KUpdateMapping _ => False
  | KExec c ns _ _ => c = Src ∨ exec_ns st = Some ns
  | KUpdate c g ns _ => c = Src ∧ g = persistentvolumeclaims ∧ ns = sourceNS
  | _ => True
  end.

Ltac aside_solve := repeat safe_step; cbn; auto.

Section Sync.
Context `{CacheCodec} `{DeploymentCodec} `{LawfulPoller}.
Variable (host : Cluster → string) (ctx : Ctx) (intn : nat → nat) (sourceNS destNS name : string).
Local Abbreviation m := (replication_monitor sourceNS destNS name).

Lemma aside_step st o r : aside sourceNS st.(syStage) o → ∃ st', m st (Ev o r) = Some st' ∧ st'.(syStage) = st.(syStage).
Proof.
  destruct o; cbn; intros Ho; try done; try (by eauto); try (rewrite bool_decide_eq_true_2 by done; by eauto).
  case_bool_decide; by eauto.
Qed.

(** A part that makes only such calls. *)
Lemma monitored_aside {A} (c : KP A) st Q :
  safe (aside sourceNS st.(syStage)) c Q →
  monitored m c st (λ out st', st'.(syStage) = st.(syStage) ∧ match out with Ret a => Q a | Panic _ => True end).
Proof.
  revert st. induction c as [a|w|o k IH]; intros st; cbn [safe monitored]; [done|done|]. intros [Ho Hk] r.
  destruct (aside_step st o r Ho) as (st' & -> & E). rewrite <- E. apply IH. rewrite E. apply Hk.
Qed.

(** The rest follows for any state with the same pending deployment. *)
Lemma aside_bind {A B} (c : KP A) (k : A → KP B) st Q :
  safe (aside sourceNS st.(syStage)) c anyr →
  (∀ a st', st'.(syStage) = st.(syStage) → monitored m (k a) st' Q) →
  (∀ w st', st'.(syStage) = st.(syStage) → Q (Panic w) st') →
  monitored m (c ≫= k) st Q.
Proof.
  intros Hc Hk Hp. apply monitored_bind. eapply monitored_mono; [by apply monitored_aside|].
  intros out st' [E _]. destruct out; [by apply Hk|by apply Hp].
Qed.
Lemma poll_safe {A} (P : Op KSig → Prop) timeout interval (cond : KP (option A)) :
  (∀ d, P (KWait d)) → safe P cond anyr → safe P (PollUntilContextCancel timeout interval cond) anyr.
Proof.
  intros Hw Hc. apply safe_of_runs; [exact KResp_inhabited|]. intros tr out Hr. apply poller_runs in Hr.
  induction Hr as [tr a Hr|t1 t2 out Hr _ IH|tr w e Hr Hw'|tr w Hr]; apply (safe_sound _ _ _ _ _ Hc) in Hr as [Hr _]; [done| | |done];
    (apply Forall_app; split; [done|]); [by constructor; [apply Hw|]|].
  destruct Hw' as [->| ->]; [constructor|]. by constructor; [apply Hw|].
Qed.

Lemma running_pod_aside p ns x : safe (aside sourceNS p) (running_pod ns x) anyr.
Proof. unfold running_pod. repeat safe_step; done. Qed.

Lemma wait_deleted_aside p i ns x : safe (aside sourceNS p) (wait_deleted i ns x) anyr.
Proof. apply poll_safe; [done|]. repeat safe_step; done. Qed.

Lemma stream_aside p ns pod command :
  exec_ns p = Some ns → safe (aside sourceNS p) (stream Dst ns pod command) anyr.
Proof. intros Hp. unfold stream. repeat safe_step; try done. by right. Qed.

Lemma in_pod_aside p ns pod command prefix :
  exec_ns p = Some ns → safe (aside sourceNS p) (in_pod host ctx ns pod command prefix) anyr.
Proof.
  intros Hp. unfold in_pod, executeCommandInPod, replication_config, match_hosts, assert_config, logged.
  repeat first [ lazymatch goal with |- safe _ (stream _ _ _ _) _ => by apply stream_aside end | safe_step ].
Qed.

Lemma replicate_aside pvcName syncID deployment agentPod agentIP mountPath p :
  exec_ns p = Some (GetNamespace deployment) →
  safe (aside sourceNS p) (replicate host ctx sourceNS destNS pvcName syncID deployment agentPod agentIP mountPath) anyr.
Proof.
  intros Hp. unfold replicate, waitForRsyncPodReady, generateSSHKeysInPod, getPublicKeyFromPod, testSSHConnectivity, performTransfer,
    PushPublicKeyToAgent, execCommandOnPod, UpdateSourcePVCAnnotations.
  repeat first
  [ lazymatch goal with
    | |- safe _ (in_pod _ _ _ _ _ _) _ => by apply in_pod_aside
    | |- safe _ (PollUntilContextCancel _ _ _) _ => apply poll_safe; [done|apply running_pod_aside]
    end
  | safe_step ]; cbn; auto.
Qed.
Lemma first_path_aside p agentPod commands : safe (aside sourceNS p) (first_path agentPod commands) anyr.
Proof.
  induction commands as [|cmd rest IH]; cbn [first_path]; [done|]. apply safe_bind_any.
  - unfold execCommandOnPod. aside_solve.
  - intros r. cbv zeta. destruct (_ =s? _); [exact IH|done].
Qed.

Lemma FindPVCMountPath_aside p pvcName agentPod : safe (aside sourceNS p) (FindPVCMountPath sourceNS pvcName agentPod) anyr.
Proof.
  unfold FindPVCMountPath, getMountPathFromCache, saveMountPathToCache.
  repeat first [ lazymatch goal with |- safe _ (first_path _ _) _ => apply first_path_aside end | safe_step ]; cbn; auto.
Qed.

Lemma aside_bindE {A B} (c : KP (res A)) w (k : A → KP (res B)) st :
  safe (aside sourceNS st.(syStage)) c anyr → st.(syStage) = NotYet →
  (∀ a st', st'.(syStage) = NotYet → monitored m (k a) st' (λ _ s, cleaned s.(syStage))) →
  monitored m (bindE c w k) st (λ _ s, cleaned s.(syStage)).
Proof.
  intros Hc Hp Hk. apply aside_bind; [done| |by intros ? ? ->; rewrite Hp].
  intros [a|e] st' E; [apply Hk|cbn]; by rewrite E, Hp.
Qed.

(** After [delete_existing] returned nil, the last read of the name found no deployment. *)
Lemma delete_existing_gone i st : st.(syStage) = NotYet →
  monitored m (delete_existing i destNS name) st (λ out st', st'.(syStage) = NotYet ∧ (out = Ret (Ok tt) → st'.(syGone) = true)).
Proof.
  intros Hp. unfold delete_existing.
  assert (Hwait : ∀ s, s.(syStage) = NotYet →
    monitored m (_ ←? wait_deleted i destNS name onerr (plainf "timeout waiting for deployment deletion: "); mret (Ok tt)) s
      (λ out st', st'.(syStage) = NotYet ∧ (out = Ret (Ok tt) → st'.(syGone) = true))).
  { intros s Hs. apply monitored_bind. apply (monitored_poll _ _ _ _ (λ s, s.(syStage) = NotYet)); [done| | |].
    - intros s1 Hs1 r. cbn. rewrite bool_decide_eq_true_2 by done. destruct r as [o|e]; cbn; [done|].
      destruct (IsNotFound e) eqn:E; cbn; [done|done].
    - intros s1 b Hs1. by exists s1.
    - by intros s1 e Hs1. }
  intros r. cbn. rewrite bool_decide_eq_true_2 by done. destruct r as [o|e]; cbn.
  - rewrite Hp. intros d. rewrite bool_decide_eq_true_2 by done. destruct d as [u|e]; [by apply Hwait|].
    destruct (IsNotFound e); [by apply Hwait|done].
  - destruct (IsNotFound e); cbn; done.
Qed.

Lemma deployRsyncDeployment_creates pvcName syncID st :
  st.(syStage) = NotYet → name = "dr-syncer-rsync-" +:+ pvcName +:+ "-" +:+ syncID →
  monitored m (deployRsyncDeployment destNS pvcName syncID) st (λ out st',
    match out with
    | Ret (Ok created) => st'.(syStage) = Exists (GetNamespace created, GetName created)
    | _ => cleaned st'.(syStage)
    end).
Proof.
  intros Hp Hn. unfold deployRsyncDeployment. rewrite <- Hn. apply monitored_bind. eapply monitored_mono; [by apply delete_existing_gone|].
  intros out st' [Hp' Hg]. destruct out as [[[]|e]|w]; [|cbn; by rewrite Hp'..]. cbn. intros r.
  rewrite Hp', Hg, bool_decide_eq_true_2 by done. by destruct r.
Qed.

Lemma cleanup_deletes deployment st Q :
  st.(syStage) = Exists (GetNamespace deployment, GetName deployment) →
  (∀ o st', cleaned st'.(syStage) → Q o st') →
  monitored m (_ ← cleanupRsyncDeployment deployment; mret tt) st Q.
Proof.
  intros Hp HQ. unfold cleanupRsyncDeployment, delete_deployment. intros r. cbn. rewrite Hp, bool_decide_eq_true_2 by done.
  apply monitored_bind. destruct r as [u|e]; [|by apply HQ].
  apply aside_bind; [apply wait_deleted_aside|by intros ? st' Hs; cbn; apply HQ; rewrite Hs|by intros ? st' Hs; apply HQ; rewrite Hs].
Qed.

(** C17: on every execution, also when a step panics, RsyncController.SyncReplication
    creates at most one deployment, the one named after the claim and the sync in the
    destination namespace, and only after a read of that name answered that there is none;
    the deletion of what was created is called before it is done, once, and what the server
    answers to it is kept; commands of the destination cluster run only in its namespace
    while it exists, and otherwise nothing is updated but claims of the source namespace. *)
Theorem SyncReplication_cleans_deployment pvcName syncID tr out :
  name = "dr-syncer-rsync-" +:+ pvcName +:+ "-" +:+ syncID →
  runs (SyncReplication host ctx intn sourceNS destNS pvcName syncID) tr out →
  ∃ st, observe (replication_monitor sourceNS destNS name) (mkSyncState false NotYet) tr = Some st ∧ cleaned st.(syStage).
Proof.
  intros Hn Hr. refine (monitored_sound m _ _ (λ _ st, cleaned st.(syStage)) _ _ _ Hr). clear Hr.
  unfold SyncReplication. apply aside_bindE; [unfold HasVolumeAttachments; aside_solve|done|].
  intros [] st1 Hp1; [|cbn; by rewrite Hp1]. cbn [negb]. apply aside_bindE; [unfold findPVCNodes; aside_solve|done|].
  intros nodes st2 Hp2. destruct nodes as [|n nodes]; [cbn; by rewrite Hp2|].
  apply aside_bind; [unfold selectRandomNode; aside_solve| |by intros ? ? ->; rewrite Hp2]. intros node st3 Hp3. rewrite Hp2 in Hp3.
  apply aside_bindE; [unfold FindAgentPod; aside_solve|done|]. intros agent st4 Hp4.
  apply aside_bindE; [|done|].
  { apply FindPVCMountPath_aside. }
  intros mountPath st5 Hp5. apply monitored_bind. eapply monitored_mono; [by apply deployRsyncDeployment_creates|].
  intros o st6 Hp6. destruct o as [[deployment|e]|w]; [|exact Hp6..]. apply monitored_deferred.
  eapply monitored_mono; [apply monitored_aside, replicate_aside; by rewrite Hp6|]. intros o st7 [Hp7 _].
  apply cleanup_deletes; [by rewrite Hp7|]. by intros [].
Qed.
End Sync.

(** ** Without the package's own context values *)

(** No command runs in the destination cluster; the state is whether something was created. *)
Definition bare_monitor (created : bool) (e : event KSig) : option bool :=
  match (ev_op e : KOp) with
  | KExec Dst _ _ _ => None
  | KCreate _ _ _ _ => Some true
  | _ => Some created
  end.

Definition no_effect : Op KSig → Prop := λ o : KOp,
  match o with KExec Dst _ _ _ | KCreate _ _ _ _ => False | _ => True end.

Lemma bare_quiet {A} (c : KP A) b Q :
  safe no_effect c Q → monitored bare_monitor c b (λ out b', b' = b ∧ match out with Ret a => Q a | Panic _ => True end).
Proof.
  induction c as [a|w|o k IH]; cbn [safe monitored]; [done|done|]. intros [Ho Hk] r. specialize (IH r (Hk r)).
  destruct o; try exact IH; [done|]. destruct c; [exact IH|done|exact IH].
Qed.

Section Bare.
Context `{CacheCodec} `{DeploymentCodec} `{LawfulPoller}.
Variable (host : Cluster → string) (ctx : Ctx) (intn : nat → nat).
Hypothesis (Hconfig : ctx !! k8sConfigKey = None) (Hsyncer : ctx !! syncerKey = None).

(** A result is nil only when nothing was created. *)
Definition idle (out : exec (res unit)) (created : bool) : Prop := out = Ret (Ok tt) → created = false.

Lemma in_pod_fails ns pod command prefix : ∃ e, in_pod host ctx ns pod command prefix = mret (Err e).
Proof. unfold in_pod, executeCommandInPod, replication_config. rewrite Hconfig, Hsyncer. by eexists. Qed.

Lemma bare_bindE {A} (c : KP (res A)) w (k : A → KP (res unit)) b :
  safe no_effect c anyr → (∀ a, monitored bare_monitor (k a) b idle) → monitored bare_monitor (bindE c w k) b idle.
Proof.
  intros Hc Hk. apply monitored_bind. eapply monitored_mono; [by apply bare_quiet|].
  intros out b' [-> _]. destruct out as [[a|e]|w']; [apply Hk|done..].
Qed.

(** With a deployment there is always an error. *)
Lemma replicate_fails sourceNS destNS pvcName syncID deployment agentPod agentIP mountPath b :
  monitored bare_monitor (replicate host ctx sourceNS destNS pvcName syncID deployment agentPod agentIP mountPath) b
    (λ out b', b' = b ∧ out ≠ Ret (Ok tt)).
Proof.
  unfold replicate. cbv zeta. apply monitored_bind. eapply monitored_mono.
  { apply bare_quiet. unfold waitForRsyncPodReady. apply safe_bindE_any; [|intros ?; repeat safe_step].
    apply poll_safe; [done|]. unfold running_pod. repeat safe_step; done. }
  intros out b' [-> _]. destruct out as [[pod|e]|w]; [|done..]. unfold generateSSHKeysInPod.
  destruct (in_pod_fails (GetNamespace deployment) pod keygen_command "failed to generate SSH keys: ") as [e ->]. done.
Qed.

Lemma cleanup_no_effect deployment : safe no_effect (_ ← cleanupRsyncDeployment deployment; mret tt) anyr.
Proof.
  unfold cleanupRsyncDeployment, delete_deployment, wait_deleted.
  repeat first [ lazymatch goal with |- safe _ (PollUntilContextCancel _ _ _) _ => apply poll_safe; [done|] end | safe_step ]; done.
Qed.
Lemma FindPVCMountPath_no_effect ns pvcName agentPod : safe no_effect (FindPVCMountPath ns pvcName agentPod) anyr.
Proof.
  apply (safe_mono (aside ns NotYet) _ _ anyr); [apply FindPVCMountPath_aside| |done].
  intros o Ho. destruct o; try done. destruct c; [done|by destruct Ho|done].
Qed.

Lemma deploy_watched destNS pvcName syncID b :
  monitored bare_monitor (deployRsyncDeployment destNS pvcName syncID) b (λ _ _, True).
Proof.
  unfold deployRsyncDeployment. apply monitored_bind. eapply monitored_mono.
  { apply bare_quiet. unfold delete_existing, wait_deleted.
    instantiate (1 := anyr).
    repeat first [ lazymatch goal with |- safe _ (PollUntilContextCancel _ _ _) _ => apply poll_safe; [done|] end | safe_step ]; done. }
  intros out b' [-> _]. destruct out as [[u|e]|w]; [|done..]. intros r. cbn. by destruct r.
Qed.

(** C37: RsyncController needs a configuration or a syncer under the package's own context
    keys, which neither ReplicatePVC nor its callers put there.  Without them no execution of
    SyncReplication runs a command in the destination cluster, so it never transfers
    anything, and it returns nil only when it deployed nothing. *)
Theorem SyncReplication_bare_context sourceNS destNS pvcName syncID tr out :
  runs (SyncReplication host ctx intn sourceNS destNS pvcName syncID) tr out →
  ∃ created, observe bare_monitor false tr = Some created ∧ (out = Ret (Ok tt) → created = false).
Proof.
  intros Hr. refine (monitored_sound bare_monitor _ _ idle _ _ _ Hr). clear Hr. unfold SyncReplication.
  apply bare_bindE; [unfold HasVolumeAttachments; repeat safe_step; done|]. intros [|]; [|done]. cbn [negb].
  apply bare_bindE; [unfold findPVCNodes; repeat safe_step; done|]. intros nodes. destruct nodes as [|n nodes]; [done|].
  apply monitored_bind. eapply monitored_mono.
  { apply bare_quiet. unfold selectRandomNode. instantiate (1 := anyr). repeat safe_step; done. }
  intros o b [-> _]. destruct o as [node|w]; [|done].
  apply bare_bindE; [unfold FindAgentPod; repeat safe_step; done|]. intros agent.
  apply bare_bindE; [apply FindPVCMountPath_no_effect|]. intros mountPath.
  apply monitored_bind. eapply monitored_mono; [apply deploy_watched|]. intros o b _. destruct o as [[deployment|e]|w]; [|done..].
  apply monitored_deferred. eapply monitored_mono; [apply replicate_fails|]. intros o b' [-> Ho].
  eapply monitored_mono; [apply bare_quiet, cleanup_no_effect|]. intros [] b' _; [by intros E|done].
Qed.
End Bare.

(** ** A pair of clusters on which everything works *)

Fixpoint poll_rounds {A : Type} (n : nat) (interval : Z) (cond : KP (option A)) : KP (res A) :=
  r ← cond;
  match r, n with
  | Some a, _ => mret (Ok a)
  | None, O => errorf "context deadline exceeded"
  | None, S n' =>
      fired ← kcall (KWait interval);
      if fired : bool then poll_rounds n' interval cond else errorf "context canceled"
  end.

#[local] Instance rounds_poller : Poller := λ A timeout interval cond, poll_rounds (Z.to_nat (timeout / interval)) interval cond.

Lemma poll_rounds_polls {A} n interval (cond : KP (option A)) tr out :
  runs (poll_rounds n interval cond) tr out → polls interval cond tr out.
Proof.
  revert tr. induction n as [|n IH]; intros tr Hr; cbn [poll_rounds] in Hr;
    (apply runs_bind_inv in Hr as [(r & t1 & t2 & Hc & Hr & ->)|(w & Hc & ->)]; [|by apply polls_panic]);
    (destruct r as [a|]; [apply runs_ret_inv in Hr as [-> ->]; rewrite app_nil_r; by apply polls_true|]).
  - apply runs_ret_inv in Hr as [-> ->]. by apply (polls_done _ _ _ []); [|left].
  - apply (runs_call_inv (Sg := KSig) (KWait interval)) in Hr as (b & t & -> & Hr). destruct b.
    + apply polls_again; [done|by apply IH].
    + apply runs_ret_inv in Hr as [-> ->]. by apply (polls_done _ _ _ [_]); [|right].
Qed.

#[local] Instance rounds_lawful : LawfulPoller.
Proof. intros A timeout interval cond tr out Hr. by eapply poll_rounds_polls. Qed.

#[local] Instance no_cache : CacheCodec := { Marshal _ := "cache"; Unmarshal _ := None }.
#[local] Instance any_template : DeploymentCodec := { EncodeTemplate t := t.(ptImage); AvailableReplicas _ := 1 }.

Definition refused (o : KOp) : KResp o.
Proof.
  destruct o; cbn;
    solve [exact (Err (PlainError "refused")) | exact 0 | exact tt | exact true | exact [] | exact ("", None)
          | exact (NoExecutor (PlainError "refused"))].
Defined.

Definition named (name ns : string) (body : Body) : Object :=
  mkObject (mkGVK "" "" "") (mkObjectMeta name ns "" "1" "" None [] [] 0 [] None None) body.

(** The state is whether the rsync deployment exists. *)
Definition at_work : handler KSig bool := λ o deployed,
  match o as o return KResp o * bool with
  | KGet Src g ns name =>
      (Ok (if bool_decide (g = nodes) then named name ns (NodeBody [("InternalIP", "10.0.0.7")] "" "")
           else if bool_decide (g = persistentvolumes) then named name ns (PVBody "" "Bound" "")
           else named name ns (PVCBody (mkPVCSpec ["ReadWriteOnce"] None None "" "pv-1" None None None None) "Bound")), deployed)
  | KGet Dst _ ns name =>
      (if deployed : bool then Ok (deployment_object name ns ∅ {["app" := "rsync"]} (sync_template "data" "1"))
       else Err (StatusError NotFound "no such deployment"), deployed)
  | KList Src g ns selector =>
      (Ok (if bool_decide (g = pods) then [named "web-0" "app" (PodBody (mkPodFields [Some "data"] "node-1" "Running" "" ""))] else []), deployed)
  | KList Dst _ ns _ => (Ok [named "rsync-0" ns (PodBody (mkPodFields [Some "data"] "node-9" "Running" "" ""))], deployed)
  | KCreate _ _ _ x => (Ok x, true)
  | KUpdate _ _ _ x => (Ok x, deployed)
  | KDeleteForeground _ _ _ _ => (Ok tt, false)
  | KExec _ _ _ _ => (Executed "/mnt/pv-1" "" None, deployed)
  | o => (refused o, deployed)
  end.

Definition syncer_context : Ctx :=
  {[syncerKey := SyncerInContext (mkSyncerValue "src.example" "dst.example" (Some "src") (Some "dst") "app" "app-dr")]}.
Definition client_host (c : Cluster) : string := match c with Src => "src.example" | Dst => "dst.example" | Ctl => "ctl.example" end.

Definition is_transfer (e : event KSig) : bool :=
  match (ev_op e : KOp) with KExec Dst _ _ cmd => bool_decide (cmd = transfer_command "10.0.0.7" "/mnt/pv-1") | _ => false end.

(** With a syncer in the context the claim is transferred and the deployment removed. *)
Lemma SyncReplication_cleans_deployment_witness :
  let c := SyncReplication client_host syncer_context (λ _, 0%nat) "app" "app-dr" "data" "20240101" in
  (∃ st, observe (replication_monitor "app" "app-dr" "dr-syncer-rsync-data-20240101") (mkSyncState false NotYet) (run_trace at_work c false)
           = Some st ∧ cleaned st.(syStage)) ∧
  run at_work c false = (Ret (Ok tt), false) ∧ existsb is_transfer (run_trace at_work c false) = true.
Proof.
  intros c. split; [|split; vm_compute; reflexivity]. eapply (SyncReplication_cleans_deployment client_host syncer_context (λ _, 0%nat) "app" "app-dr" "dr-syncer-rsync-data-20240101" "data" "20240101");
    [reflexivity|apply run_trace_runs].
Defined.

(** Without one, the same clusters give an error after the deployment was made. *)
Lemma SyncReplication_bare_context_witness :
  let c := SyncReplication client_host ∅ (λ _, 0%nat) "app" "app-dr" "data" "20240101" in
  (∃ created, observe bare_monitor false (run_trace at_work c false) = Some created ∧
     ((run at_work c false).1 = Ret (Ok tt) → created = false)) ∧
  (run at_work c false).1 = Ret (Err (PlainError
    "failed to generate SSH keys in rsync pod: failed to generate SSH keys: no REST config found in context for client dst.example")).
Proof.
  intros c. split; [|vm_compute; reflexivity].
  apply (SyncReplication_bare_context client_host ∅ (λ _, 0%nat) (lookup_empty _) (lookup_empty _) "app" "app-dr" "data" "20240101"), run_trace_runs.
Defined.
