(* ===== verification/WorkflowProps.v ===== *)
(** * Properties of the rsync workflow

    Every execution, whatever the steps answer and wherever they panic, follows the
    locking protocol; what a successful result means; what is left behind. *)

From S2P Require Import Prelude Errors Types Kube KubeLogic RsyncPod Workflow.

(** ** The protocol *)

#[global] Instance worker_eq_dec : EqDecision worker.
Proof. solve_decision. Defined.

(** The lock of the claim: not acquired, held, or its release was called and answered [r];
    the release of a claim whose update the API server refuses leaves the lock there. *)
Inductive lock_state : Type := Unlocked | Held | Returned (r : res unit).

(** The pod a sync brings up: the rsync deployment that became ready, or the pod of the
    pool for which a destination path was resolved. *)
Definition brought : Type := worker + (string * option (string * string)).

Definition is_pod (p : brought) (w : worker) : bool :=
  match p with
  | inl w' => bool_decide (w = w')
  | inr path => bool_decide (w.(wDestinationPath) = Some path)
  end.

(** There is none, it is up, or its cleanup was called and answered [r]. *)
Inductive pod_state : Type := NoPod | Up (p : brought) | Cleaned (p : brought) (r : res unit).

Record pstate : Type := mkPState { pLock : lock_state; pPod : pod_state }.

Definition idle : pstate := mkPState Unlocked NoPod.

Definition held (st : pstate) : bool := match st.(pLock) with Held => true | _ => false end.
Definition acquired (st : pstate) : bool := match st.(pLock) with Unlocked => false | _ => true end.
Definition no_pod (st : pstate) : bool := match st.(pPod) with NoPod => true | _ => false end.
Definition pod_up (st : pstate) : bool := match st.(pPod) with Up _ => true | _ => false end.
Definition up (st : pstate) (w : worker) : bool := match st.(pPod) with Up p => is_pod p w | _ => false end.

(** What each step requires, and what it changes; a step that panics changes nothing.
    - the lock is acquired once; it is released only after it was acquired and after the
      cleanup of the pod that is up was called;
    - the clusters are touched only while the lock is held;
    - one pod is brought up; keys, SSH test and rsync are for this pod while it is up, and
      it is the only pod that is cleaned up. *)
Definition protocol (ns pvc : string) (st : pstate) (e : event RSig) : option pstate :=
  match e with
  | Ev o r =>
      match o as o return exec (RVal o) → option pstate with
      | RSetNamespaces _ _ | REvent _ _ _ | RNow => λ _, Some st
      | RAcquirePVCLock n p => λ r,
          if acquired st || negb ((n =s? ns) && (p =s? pvc)) then None
          else match r with Ret (Ok true) => Some (mkPState Held st.(pPod)) | _ => Some st end
      | RReleasePVCLock n p => λ r,
          if negb (acquired st) || pod_up st || negb ((n =s? ns) && (p =s? pvc)) then None
          else match r with Ret a => Some (mkPState (Returned a) st.(pPod)) | Panic _ => Some st end
      | RWaitForPodReady _ _ => λ r,
          if negb (held st && no_pod st) then None
          else match r with Ret (Ok w) => Some (mkPState Held (Up (inl w))) | _ => Some st end
      | RResolveDestinationPath _ _ _ => λ r,
          if negb (held st && no_pod st) then None
          else match r with Ret (Ok path) => Some (mkPState Held (Up (inr path))) | _ => Some st end
      | RCleanup w => λ r,
          match st.(pPod) with
          | Up p | Cleaned p _ =>
              if acquired st && is_pod p w
              then match r with Ret a => Some (mkPState st.(pLock) (Cleaned p a)) | Panic _ => Some st end
              else None
          | NoPod => None
          end
      | RGenerateSSHKeys w _ | RGetPublicKey w _ | RTestSSHConnectivity w _ _ | RPerformRsync w _ _ => λ _,
          if held st && up st w then Some st else None
      | _ => λ _, if held st then Some st else None
      end r
  end.

(** The lock is not held without a release having been called, and no pod is up without
    a cleanup having been called. *)
Definition settled (st : pstate) : Prop := st.(pLock) ≠ Held ∧ pod_up st = false.

(** ** Rules for the pieces *)

Lemma monitored_rcall {St A} (m : St → event RSig → option St) (o : ROp) (f : RVal o → RP A) st Q :
  (∀ v, match m st (Ev (Sg := RSig) o (Ret v)) with Some st' => monitored m (f v) st' Q | None => False end) →
  (∀ w, match m st (Ev (Sg := RSig) o (Panic w)) with Some st' => Q (Panic w) st' | None => False end) →
  monitored m (rcall o ≫= f) st Q.
Proof. intros Hv Hw [v|w]; [exact (Hv v)|exact (Hw w)]. Qed.

Lemma monitored_attempt {Sg : Sig} {St A} (m : St → event Sg → option St) (p : prog Sg A) st Q :
  monitored m p st (λ out st', Q (Ret out) st') → monitored m (attempt p) st Q.
Proof.
  revert st. induction p as [a|w|o k IH]; intros st H; cbn in *; [done..|].
  intros r. specialize (H r). destruct (m st (Ev o r)); [|done]. by apply IH.
Qed.

Lemma monitored_guarded {St A} (m : St → event RSig → option St) h (p : RP (next A)) k st Q :
  monitored m p st (λ out st',
    match out with
    | Ret (Return r) => Q (Ret r) st'
    | Ret (Continue a) => monitored m (k a) st' Q
    | Panic _ => monitored m (_ ← h; mret (Ok tt)) st' Q
    end) →
  monitored m (guarded h p k) st Q.
Proof.
  intros H. apply monitored_bind, monitored_attempt. eapply monitored_mono; [exact H|].
  by intros [[r|a]|w] st'.
Qed.

(** One step at a time. *)
Ltac mstep :=
  lazymatch goal with
  | |- monitored _ (rcall _ ≫= _) _ _ => apply monitored_rcall; intros ?; cbn
  | |- monitored _ (_ ≫= _) _ _ => apply monitored_bind
  | |- monitored _ (mret _) _ _ => cbn
  | |- monitored _ (match ?x with _ => _ end) _ _ => destruct x
  end.

Section protocol.
Context (ns pvc : string).
Let P := protocol ns pvc.

Lemma own_claim : (ns =s? ns) && (pvc =s? pvc) = true.
Proof. by rewrite !String.eqb_refl. Qed.

(** Of the part before there is a pod: it returns with nothing left behind, goes on with
    the lock and the pod, or panics without a pod. *)
Definition deploy_ends (out : exec (next worker)) (st : pstate) : Prop :=
  match out with
  | Ret (Return _) => settled st
  | Ret (Continue w) => ∃ p, is_pod p w = true ∧ st = mkPState Held (Up p)
  | Panic _ => acquired st = true ∧ no_pod st = true
  end.

(** Of the part with the pod [p]. *)
Definition sync_ends {A} (p : brought) (out : exec (next A)) (st : pstate) : Prop :=
  match out with
  | Ret (Return _) => settled st
  | Ret (Continue _) => False
  | Panic _ => acquired st = true ∧ (st.(pPod) = Up p ∨ ∃ a, st.(pPod) = Cleaned p a)
  end.

Definition ends_settled (out : exec (res unit)) (st : pstate) : Prop :=
  ∀ r, out = Ret r → settled st.

Lemma release_settles {A} (f : unit → RP A) st Q :
  acquired st = true → pod_up st = false →
  (∀ a, monitored P (f tt) (mkPState (Returned a) st.(pPod)) Q) →
  (∀ w, Q (Panic w) st) → monitored P (release ns pvc ≫= f) st Q.
Proof.
  intros Ha Hp Hf Hw. apply monitored_bind. apply monitored_rcall; cbn; rewrite Ha, Hp, own_claim; cbn; auto.
Qed.

Lemma fail_release_ends prefix e :
  monitored P (fail_release (A := worker) ns pvc prefix e) (mkPState Held NoPod) deploy_ends.
Proof. by apply release_settles. Qed.

Lemma event_ends {A} n p reason (f : unit → RP A) st Q :
  monitored P (f tt) st Q → (∀ w, Q (Panic w) st) → monitored P (record_event n p reason ≫= f) st Q.
Proof. intros Hf Hw. apply monitored_rcall; [by intros []|by auto]. Qed.

(** A step of the body whose failure is handled. *)
Lemma step_ends {A B} (c : RP (res A)) fail (k : A → RP (next B)) st Q :
  monitored P c st (λ out st', match out with
                               | Ret (Ok a) => monitored P (k a) st' Q
                               | Ret (Err e) => monitored P (fail e) st' Q
                               | Panic w => Q (Panic w) st'
                               end) →
  monitored P (step c fail k) st Q.
Proof. intros H. apply monitored_bind. eapply monitored_mono; [exact H|]. by intros [[a|e]|w]. Qed.

(** A step that leaves the protocol state alone. *)
Lemma monitored_rcall_quiet (o : ROp) st Q :
  (∀ r, P st (Ev (Sg := RSig) o r) = Some st) → (∀ v, Q (Ret v) st) → (∀ w, Q (Panic w) st) →
  monitored P (rcall o) st Q.
Proof. intros Ho Hv Hw r. rewrite Ho. destruct r; cbn; auto. Qed.

(** ** The part with the pod *)

Section with_pod.
Context (p : brought) (w : worker) (Hpw : is_pod p w = true).

Lemma cleanup_settles {A} (f : unit → RP A) st Q :
  acquired st = true → (st.(pPod) = Up p ∨ ∃ a, st.(pPod) = Cleaned p a) →
  (∀ a, monitored P (f tt) (mkPState st.(pLock) (Cleaned p a)) Q) →
  (∀ why, Q (Panic why) st) → monitored P (cleanupResources w ≫= f) st Q.
Proof.
  intros Ha Hp Hf Hw. apply monitored_bind.
  apply monitored_rcall; destruct st as [l q]; cbn in *;
    (destruct Hp as [-> | [a ->]]; rewrite Ha, Hpw; cbn; auto).
Qed.

Lemma fail_clean_ends {A} prefix e :
  monitored P (fail_clean (A := A) ns pvc w prefix e) (mkPState Held (Up p)) (sync_ends p).
Proof.
  apply cleanup_settles; [done|by left| |by split; [|left]].
  intros a. apply release_settles; [done..|]. split; [done|]. right. by exists a.
Qed.

Lemma panic_ends {A} why : sync_ends (A := A) p (Panic why) (mkPState Held (Up p)).
Proof. split; [done|by left]. Qed.

Lemma quiet_with_pod (o : ROp) :
  match o with
  | RGenerateSSHKeys w' _ | RGetPublicKey w' _ | RTestSSHConnectivity w' _ _ | RPerformRsync w' _ _ => w' = w
  | RAcquirePVCLock _ _ | RReleasePVCLock _ _ | RWaitForPodReady _ _ | RResolveDestinationPath _ _ _ | RCleanup _ => False
  | _ => True
  end →
  ∀ r, P (mkPState Held (Up p)) (Ev (Sg := RSig) o r) = Some (mkPState Held (Up p)).
Proof. destruct o; intros H r; try done; subst; cbn; by rewrite Hpw. Qed.

(** A step with the pod. *)
Ltac pod_step :=
  apply step_ends, monitored_rcall_quiet; [by apply quiet_with_pod| |by intros; apply panic_ends].
Ltac pod_event := apply event_ends; [|by intros; apply panic_ends].

Lemma conclude_step_ends : monitored P (conclude_step ns pvc w) (mkPState Held (Up p)) (sync_ends p).
Proof.
  pod_step. intros [[]|e]; [|by apply fail_clean_ends].
  apply cleanup_settles; [done|by left| |intros; apply panic_ends].
  intros a. assert (Hpanic : ∀ l why, l ≠ Unlocked → sync_ends (A := Empty_set) p (Panic why) (mkPState l (Cleaned p a))).
  { intros [] why Hl; try done; (split; [done|right; by exists a]). }
  apply release_settles; [done..| |by intros; apply Hpanic]. intros b.
  apply event_ends; [|by intros; apply Hpanic]. by apply event_ends; [|intros; apply Hpanic].
Qed.

Lemma rsync_step_ends ip path : monitored P (rsync_step ns pvc w ip path) (mkPState Held (Up p)) (sync_ends p).
Proof.
  pod_step. intros [[]|e]; [|by apply fail_clean_ends]. pod_event.
  pod_step. intros [[]|e]; [apply conclude_step_ends|]. pod_event. by apply fail_clean_ends.
Qed.

Lemma transfer_ends push :
  (∀ a, monitored P (push a) (mkPState Held (Up p)) (λ _ st, st = mkPState Held (Up p))) →
  monitored P (transfer ns pvc w push) (mkPState Held (Up p)) (sync_ends p).
Proof.
  intros Hpush. pod_step. intros [[]|e]; [..|by apply fail_clean_ends]; cbn [negb].
  2: { pod_event. apply cleanup_settles; [done|by left| |intros; apply panic_ends].
       intros a. apply release_settles; [done..|]. split; [done|right; by exists a]. }
  pod_step. intros [node|e]; [|by apply fail_clean_ends].
  pod_step. intros [agent|e]; [|by apply fail_clean_ends].
  pod_step. intros [path|e]; [|by apply fail_clean_ends].
  apply step_ends. eapply monitored_mono; [apply Hpush|].
  intros [[[]|e]|why] st ->; [apply rsync_step_ends|by apply fail_clean_ends|apply panic_ends].
Qed.

Lemma sync_step_ends dns pushID : monitored P (sync_step ns pvc dns pushID w) (mkPState Held (Up p)) (sync_ends p).
Proof.
  pod_event. destruct (HasCachedKeys w); [by apply transfer_ends|].
  apply step_ends. apply monitored_bind, monitored_rcall_quiet; [by apply quiet_with_pod|intros [[]|e]|intros; apply panic_ends];
    [|by apply fail_clean_ends].
  apply step_ends. apply monitored_bind, monitored_rcall_quiet; [by apply quiet_with_pod|intros [key|e]|intros; apply panic_ends];
    [|by apply fail_clean_ends].
  apply transfer_ends. intros a. by apply monitored_rcall_quiet.
Qed.

(** The recovery leaves nothing behind, unless it panics itself. *)
Lemma on_panic_pod_settles st :
  acquired st = true → (st.(pPod) = Up p ∨ ∃ a, st.(pPod) = Cleaned p a) →
  monitored P (_ ← on_panic ns pvc true (Some w); mret (Ok tt)) st ends_settled.
Proof.
  intros Ha Hl. apply monitored_bind. unfold on_panic. apply cleanup_settles; [done..| |done].
  intros a. unfold release. apply monitored_rcall; cbn; destruct st as [[] q]; try done; cbn; rewrite own_claim; cbn;
    [by intros ? ? [= <-]..|done|done].
Qed.
End with_pod.

Lemma on_panic_settles st :
  acquired st = true → no_pod st = true →
  monitored P (_ ← on_panic ns pvc true None; mret (Ok tt)) st ends_settled.
Proof.
  intros Ha Hl. apply monitored_bind. unfold on_panic. cbn.
  unfold release. apply (monitored_rcall P (RReleasePVCLock ns pvc)); destruct st as [[] []]; try done; cbn; rewrite own_claim; cbn;
    [by intros ? ? [= <-]..|done|done].
Qed.

(** ** The part that brings the pod up *)

(** The state stays, or the last step brings the pod up. *)
Definition deploys (out : exec (res worker)) (st : pstate) : Prop :=
  match out with
  | Ret (Ok w) => ∃ p, is_pod p w = true ∧ st = mkPState Held (Up p)
  | Ret (Err _) | Panic _ => st = mkPState Held NoPod
  end.

Lemma deployRsyncPod_deploys remote dns dpvc syncID :
  monitored P (deployRsyncPod remote dns dpvc syncID) (mkPState Held NoPod) deploys.
Proof.
  unfold deployRsyncPod, bindE. apply monitored_rcall; [intros [[]|e]|done]; [|done].
  apply monitored_bind.
  assert (Hrest : ∀ cached, monitored P
    (r ← rcall (RCreateRsyncDeployment (rsync_pod_options dns dpvc syncID cached));
     match r with
     | Ok w => r0 ← rcall (RWaitForPodReady w (5 * Minute));
               match r0 with
               | Ok w => mret (Ok w)
               | Err e => mret (Err (plainf "timeout waiting for rsync deployment to be ready: " e))
               end
     | Err e => mret (Err (plainf "failed to create rsync deployment: " e))
     end) (mkPState Held NoPod) deploys).
  { intros cached. apply monitored_rcall; [intros [w|e]|done]; [|done].
    apply monitored_rcall; [intros [w'|e]|done]; [|done].
    exists (inl w'). by split; [apply bool_decide_eq_true|]. }
  destruct (negb _); [|apply Hrest]. apply monitored_rcall; [|done]. intros [[]|e]; apply Hrest.
Qed.

(** What follows a part that deploys. *)
Lemma deployed_ends (c : RP (res worker)) prefix :
  monitored P c (mkPState Held NoPod) deploys →
  monitored P (step c (λ e, _ ← record_event ns pvc "SyncFailed"; fail_release ns pvc prefix e) (λ w, mret (Continue w)))
    (mkPState Held NoPod) deploy_ends.
Proof.
  intros Hc. apply step_ends. eapply monitored_mono; [exact Hc|]. intros [[w|e]|why] st; cbn [deploys].
  - intros H. exact H.
  - intros ->. apply event_ends; [apply fail_release_ends|done].
  - by intros ->.
Qed.

Lemma deploy_step_ends remote dns dpvc syncID :
  monitored P (deploy_step remote ns pvc dns dpvc syncID) (mkPState Held NoPod) deploy_ends.
Proof.
  apply step_ends, monitored_rcall_quiet; [done|intros [[]|e]|done]; [|apply fail_release_ends].
  apply monitored_rcall; [intros ?|done]. apply event_ends; [|done].
  apply deployed_ends, deployRsyncPod_deploys.
Qed.

Lemma findRsyncDaemonSetPod_deploys ds dns dpvc :
  monitored P (findRsyncDaemonSetPod ds dns dpvc) (mkPState Held NoPod) deploys.
Proof.
  destruct ds as [[dsns dsname]|]; [|done]. unfold findRsyncDaemonSetPod, bindE.
  apply monitored_rcall; [|done]. intros found. apply monitored_bind.
  eapply (monitored_mono _ _ _ (λ _ st, st = mkPState Held NoPod)).
  { destruct found as [node|e]; [done|]. apply monitored_rcall; [|done].
    intros [ready|er]; [|done]. cbn [P protocol held pLock]. destruct (ready =? 0); [done|].
    apply monitored_rcall; [|done]. intros [pods|er]; [|done]. cbn [P protocol held pLock].
    destruct (List.find _ pods) as [[? node]|]; [|done]. by destruct (node =s? ""). }
  intros [[node|er]|why] st ->; [|done..].
  apply monitored_rcall; [intros [pod|er]|done]; [|done].
  apply monitored_rcall; [intros [path|er]|done]; [|done].
  exists (inr path). by split; [apply bool_decide_eq_true|].
Qed.

Lemma daemonset_step_ends ds dns dpvc :
  monitored P (daemonset_step ds ns pvc dns dpvc) (mkPState Held NoPod) deploy_ends.
Proof.
  apply event_ends; [|done]. destruct ds as [ds|]; [|by apply release_settles].
  apply step_ends, monitored_rcall_quiet; [done|intros [[]|e]|done].
  2: { apply event_ends; [apply fail_release_ends|done]. }
  apply deployed_ends, findRsyncDaemonSetPod_deploys.
Qed.

Lemma acquire_step_ends :
  monitored P (acquire_step ns pvc) idle (λ out st,
    match out with Ret (Continue _) => st = mkPState Held NoPod | _ => st = idle end).
Proof.
  apply step_ends. intros [[[]|e]|why]; cbn; rewrite own_claim; cbn; [done| |done..].
  by intros [[]|].
Qed.

(** Both workflows: the lock, a part [deploy] that brings a pod up, a part [sync]. *)
Lemma workflow_settles dns (deploy : RP (next worker)) (sync : worker → RP (next Empty_set)) :
  monitored P deploy (mkPState Held NoPod) deploy_ends →
  (∀ p w, is_pod p w = true → monitored P (sync w) (mkPState Held (Up p)) (sync_ends p)) →
  monitored P (
    _ ← record_event ns pvc "SyncStarted";
    _ ← rcall (RSetNamespaces ns dns);
    guarded (on_panic ns pvc false None) (acquire_step ns pvc) (λ _,
    guarded (on_panic ns pvc true None) deploy (λ w,
    guarded (on_panic ns pvc true (Some w)) (sync w) finish))) idle ends_settled.
Proof.
  intros Hd Hs. apply event_ends; [|done]. apply monitored_rcall; [intros []|done].
  apply monitored_guarded. eapply monitored_mono; [apply acquire_step_ends|].
  intros [[r|[]]|why] st ->; [by intros ? [= <-]| |by intros ? [= <-]].
  apply monitored_guarded. eapply monitored_mono; [exact Hd|]. intros [[r|w]|why] st; cbn [deploy_ends].
  - by intros ? ? [= <-].
  - intros (p & Hp & ->). apply monitored_guarded. eapply monitored_mono; [apply (Hs p w Hp)|].
    intros [[r|[]]|why] st'; cbn [sync_ends].
    + by intros ? ? [= <-].
    + intros [Ha Hl]. by apply (on_panic_pod_settles p).
  - intros [Ha Hl]. by apply on_panic_settles.
Qed.
End protocol.

(** C4: every execution of RsyncWorkflow, whatever each step answers and wherever one
    panics, follows the locking protocol (the lock is acquired first and once, the
    clusters are touched only while it is held, keys, SSH test and rsync are for the pod
    of this sync while it is up, and the lock is released only after the cleanup of that
    pod was called), and when the workflow returns, with or without an error, the release
    of the lock it acquired has been called, and so has the cleanup of the rsync pod that
    became ready.  The state keeps what these two calls answered: a release or a cleanup
    that returned an error is only logged. *)
Theorem RsyncWorkflow_settles remote srcNS srcPVC dstNS dstPVC syncID pushID tr out :
  runs (RsyncWorkflow remote srcNS srcPVC dstNS dstPVC syncID pushID) tr out →
  ∃ st, observe (protocol srcNS srcPVC) idle tr = Some st ∧ ∀ r, out = Ret r → settled st.
Proof.
  apply (monitored_sound _ _ _ ends_settled), workflow_settles; [apply deploy_step_ends|]. intros p w Hp. by apply (sync_step_ends _ _ p w Hp).
Qed.

(** The same for the workflow over the DaemonSet pool. *)
Theorem RsyncWorkflowWithDaemonSet_settles ds srcNS srcPVC dstNS dstPVC tr out :
  runs (RsyncWorkflowWithDaemonSet ds srcNS srcPVC dstNS dstPVC) tr out →
  ∃ st, observe (protocol srcNS srcPVC) idle tr = Some st ∧ ∀ r, out = Ret r → settled st.
Proof.
  apply (monitored_sound _ _ _ ends_settled), workflow_settles; [apply daemonset_step_ends|]. intros p w Hp.
  by apply (transfer_ends _ _ p).
Qed.

(** An execution for the witnesses: every step answers [o ↦ r], the worker is [pod]. *)
Definition pod : worker := mkWorker "rsync" "app" "rsync-0" "data" "id" false None.

Definition agent : Object :=
  mkObject (mkGVK "" "" "") (mkObjectMeta "agent-1" "dr-syncer" "" "" "" None [] [] 0 [] None None) (UnstructuredBody "" "").

(** Every step succeeds. *)
Definition all_ok : handler RSig unit := λ o s,
  (match o as o return exec (RVal o) with
   | RAcquirePVCLock _ _ => Ret (Ok true)
   | RCreateRsyncDeployment _ | RWaitForPodReady _ _ => Ret (Ok pod)
   | RGetPublicKey _ _ => Ret (Ok "ssh-rsa AAAA")
   | RFindPVCNode _ _ _ => Ret (Ok "node-1")
   | RFindPVCMountPath _ _ _ => Ret (Ok "/var/lib/kubelet/pods/1/volumes/data/mount")
   | RResolveDestinationPath _ _ _ => Ret (Ok ("/var/lib/kubelet/pods/2/volumes/data/mount", None))
   | RHasVolumeAttachments _ _ => Ret (Ok true)
   | RFindAgentPod _ => Ret (Ok (agent, "10.0.0.1"))
   | RFindPodOnNode _ => Ret (Ok ("dr-syncer", "rsync-ds-1"))
   | RGetDaemonSet _ _ => Ret (Ok 1)
   | RListDaemonSetPods _ => Ret (Ok [("Running", "node-1")])
   | RGetPVCsToSync _ _ _ => Ret (Ok ["data"])
   | RSetNamespaces _ _ | REvent _ _ _ => Ret tt
   | RNow => Ret 0
   | _ => Ret (Ok tt)
   end, s).

(** Every step succeeds but the ones [bad] picks, which panic. *)
Definition panics (bad : ROp → bool) : handler RSig unit := λ o s,
  if bad o then (Panic "runtime error", s) else all_ok o s.

Definition is_rsync (o : ROp) : bool := match o with RPerformRsync _ _ _ => true | _ => false end.

(** rsync panics: the recovery cleans up and releases. *)
Lemma RsyncWorkflow_settles_witness :
  ∃ st, observe (protocol "app" "data") idle
          (run_trace (panics is_rsync) (RsyncWorkflow "east" "app" "data" "app-dr" "data" "id" "key") tt) = Some st ∧ settled st.
Proof.
  destruct (RsyncWorkflow_settles "east" "app" "data" "app-dr" "data" "id" "key"
    (run_trace (panics is_rsync) (RsyncWorkflow "east" "app" "data" "app-dr" "data" "id" "key") tt)
    (run (panics is_rsync) (RsyncWorkflow "east" "app" "data" "app-dr" "data" "id" "key") tt).1
    (run_trace_runs _ _ _)) as (st & Ho & Hs).
  exists st. split; [exact Ho|]. apply (Hs (Ok tt)). vm_compute. reflexivity.
Defined.

Lemma RsyncWorkflowWithDaemonSet_settles_witness :
  ∃ st, observe (protocol "app" "data") idle
          (run_trace (panics is_rsync) (RsyncWorkflowWithDaemonSet (Some ("dr", "ds")) "app" "data" "app-dr" "data") tt)
        = Some st ∧ settled st.
Proof.
  destruct (RsyncWorkflowWithDaemonSet_settles (Some ("dr", "ds")) "app" "data" "app-dr" "data"
    (run_trace (panics is_rsync) (RsyncWorkflowWithDaemonSet (Some ("dr", "ds")) "app" "data" "app-dr" "data") tt)
    (run (panics is_rsync) (RsyncWorkflowWithDaemonSet (Some ("dr", "ds")) "app" "data" "app-dr" "data") tt).1
    (run_trace_runs _ _ _)) as (st & Ho & Hs).
  exists st. split; [exact Ho|]. apply (Hs (Ok tt)). vm_compute. reflexivity.
Defined.

(** ** What the result means *)

(** What an execution has seen: rsync and the annotation update succeeded, the sync
    was skipped (lock refused or claim not mounted), some step panicked. *)
Record facts : Type := mkFacts { fSynced : bool; fUpdated : bool; fSkipped : bool; fPanicked : bool }.

Definition fact_of (e : event RSig) : facts :=
  match e with
  | Ev o r =>
      match o as o return exec (RVal o) → facts with
      | RPerformRsync _ _ _ => λ r,
          match r with Ret (Ok _) => mkFacts true false false false | Ret _ => mkFacts false false false false
                     | Panic _ => mkFacts false false false true end
      | RUpdateSourcePVCAnnotations _ _ => λ r,
          match r with Ret (Ok _) => mkFacts false true false false | Ret _ => mkFacts false false false false
                     | Panic _ => mkFacts false false false true end
      | RAcquirePVCLock _ _ => λ r,
          match r with Ret (Ok false) => mkFacts false false true false | Ret _ => mkFacts false false false false
                     | Panic _ => mkFacts false false false true end
      | RHasVolumeAttachments _ _ => λ r,
          match r with Ret (Ok false) => mkFacts false false true false | Ret _ => mkFacts false false false false
                     | Panic _ => mkFacts false false false true end
      | _ => λ r, match r with Ret _ => mkFacts false false false false | Panic _ => mkFacts false false false true end
      end r
  end.

Definition fact_or (a b : facts) : facts :=
  mkFacts (a.(fSynced) || b.(fSynced)) (a.(fUpdated) || b.(fUpdated))
    (a.(fSkipped) || b.(fSkipped)) (a.(fPanicked) || b.(fPanicked)).

Definition no_facts : facts := mkFacts false false false false.
Definition facts_of (tr : list (event RSig)) : facts := fold_left (λ f e, fact_or f (fact_of e)) tr no_facts.

(** The monitor that collects them. *)
Definition note (f : facts) (e : event RSig) : option facts := Some (fact_or f (fact_of e)).

Lemma observe_note tr f : observe note f tr = Some (fold_left (λ f e, fact_or f (fact_of e)) tr f).
Proof. revert f. induction tr as [|e tr IH]; intros f; [done|]. apply IH. Qed.

Definition explains (f : facts) : bool :=
  (f.(fSynced) && f.(fUpdated)) || f.(fSkipped) || f.(fPanicked).

(** A nil error has an explanation. *)
Definition explained (out : exec (res unit)) (f : facts) : Prop := out = Ret (Ok tt) → explains f = true.

Ltac explore :=
  repeat (cbn;
    first
      [ done
      | match goal with
        | |- ∀ _, _ => intro
        | b : bool |- _ => destruct b
        | |- monitored _ (match ?x with _ => _ end) _ _ => destruct x
        | |- monitored _ (pbind _ (match ?x with _ => _ end)) _ _ => destruct x
        | |- context [match ?x with _ => _ end] => destruct x
        end ]).

Lemma RsyncWorkflow_explained remote srcNS srcPVC dstNS dstPVC syncID pushID :
  monitored note (RsyncWorkflow remote srcNS srcPVC dstNS dstPVC syncID pushID) no_facts explained.
Proof. explore. Qed.

(** A nil error of RsyncWorkflow means that the data was transferred and the source
    claim annotated, or that the sync was skipped, or that a step panicked: the
    recovery swallows the panic and reports success. *)
Theorem RsyncWorkflow_success remote srcNS srcPVC dstNS dstPVC syncID pushID tr :
  runs (RsyncWorkflow remote srcNS srcPVC dstNS dstPVC syncID pushID) tr (Ret (Ok tt)) → explains (facts_of tr) = true.
Proof.
  intros Hr. destruct (monitored_sound _ _ _ _ _ _ (RsyncWorkflow_explained remote srcNS srcPVC dstNS dstPVC syncID pushID) Hr)
    as (f & Hf & He).
  rewrite observe_note in Hf. injection Hf as <-. by apply He.
Qed.

Lemma RsyncWorkflow_success_witness :
  explains (facts_of (run_trace all_ok (RsyncWorkflow "east" "app" "data" "app-dr" "data" "id" "key") tt)) = true.
Proof.
  apply (RsyncWorkflow_success "east" "app" "data" "app-dr" "data" "id" "key"), (run_trace_runs all_ok
    (RsyncWorkflow "east" "app" "data" "app-dr" "data" "id" "key") tt).
Defined.

(** When rsync itself panics, RsyncWorkflow returns a nil error although nothing
    was transferred. *)
Theorem RsyncWorkflow_panic_is_success remote srcNS srcPVC dstNS dstPVC syncID pushID :
  let h := panics is_rsync in
  (run h (RsyncWorkflow remote srcNS srcPVC dstNS dstPVC syncID pushID) tt).1 = Ret (Ok tt) ∧
  (facts_of (run_trace h (RsyncWorkflow remote srcNS srcPVC dstNS dstPVC syncID pushID) tt)).(fSynced) = false.
Proof. cbn. destruct (negb (remote =s? "")); cbn; done. Qed.


(** ** Rsync deployments *)

(** The rsync deployment that was created and for which no cleanup was tried since. *)
Definition pending_step (p : option worker) (e : event RSig) : option worker :=
  match e with
  | Ev o r =>
      match o as o return exec (RVal o) → option worker with
      | RCreateRsyncDeployment _ => λ r, match r with Ret (Ok w) => Some w | _ => p end
      | RCleanup w => λ _, if bool_decide (p = Some w) then None else p
      | _ => λ _, p
      end r
  end.

Definition pending (tr : list (event RSig)) : option worker := fold_left pending_step tr None.

Lemma observe_pending tr p : observe (λ p e, Some (pending_step p e)) p tr = Some (fold_left pending_step tr p).
Proof. revert p. induction tr as [|e tr IH]; intros p; [done|]. apply IH. Qed.

Lemma SyncReplication_monitored srcNS dstNS pvc syncID :
  monitored (λ p e, Some (pending_step p e)) (SyncReplication srcNS dstNS pvc syncID) None (λ _ p, p = None).
Proof.
  assert (Hb : ∀ w : worker, bool_decide (Some w = Some w) = true) by (intros; by apply bool_decide_eq_true).
  repeat (cbn -[bool_decide]; rewrite ?Hb;
    first
      [ done
      | match goal with
        | |- ∀ _, _ => intro
        | b : bool |- _ => destruct b
        | |- context [match ?x with _ => _ end] => destruct x
        end ]).
Qed.

(** However SyncReplication ends, by a nil error, an error or a panic, a cleanup of
    the rsync deployment it created has been tried. *)
Theorem SyncReplication_cleans_up srcNS dstNS pvc syncID tr out :
  runs (SyncReplication srcNS dstNS pvc syncID) tr out → pending tr = None.
Proof.
  intros Hr. destruct (monitored_sound _ _ _ _ _ _ (SyncReplication_monitored srcNS dstNS pvc syncID) Hr) as (p & Hp & ->).
  rewrite observe_pending in Hp. by injection Hp.
Qed.

Lemma SyncReplication_cleans_up_witness :
  pending (run_trace (panics is_rsync) (SyncReplication "app" "app-dr" "data" "id") tt) = None.
Proof.
  apply (SyncReplication_cleans_up "app" "app-dr" "data" "id" _
    (run (panics is_rsync) (SyncReplication "app" "app-dr" "data" "id") tt).1), run_trace_runs.
Defined.

(** Every step succeeds but the rsync pod does not get ready. *)
Definition never_ready : handler RSig unit := λ o s,
  match o as o return exec (RVal o) * unit with
  | RWaitForPodReady _ _ => (Ret (Err (PlainError "timeout")), s)
  | o => all_ok o s
  end.

(** RsyncWorkflow leaves the rsync deployment behind when its pod does not get ready
    in time: deployRsyncPod returns only the error, so there is nothing to clean up. *)
Theorem RsyncWorkflow_leaks_unready_pod remote srcNS srcPVC dstNS dstPVC syncID pushID :
  pending (run_trace never_ready (RsyncWorkflow remote srcNS srcPVC dstNS dstPVC syncID pushID) tt) = Some pod ∧
  ∃ e, (run never_ready (RsyncWorkflow remote srcNS srcPVC dstNS dstPVC syncID pushID) tt).1 = Ret (Err e).
Proof. cbn. destruct (negb (remote =s? "")); cbn; split; eauto. Qed.

(** ** SyncPVCs *)

Lemma runs_rcall_inv {A} (o : ROp) (f : RVal o → RP A) tr out :
  runs (rcall o ≫= f) tr out →
  ∃ r tr', tr = Ev (Sg := RSig) o r :: tr' ∧
           match r with Ret v => runs (f v) tr' out | Panic w => tr' = [] ∧ out = Panic w end.
Proof.
  intros H. apply (runs_call_inv (Sg := RSig)) in H as (r & tr' & -> & H). exists r, tr'. split; [done|].
  destruct r as [v|w]; cbn in H; [done|]. by apply runs_panic_inv in H.
Qed.

(** SyncPVC starts by validating the pair of claims. *)
Lemma SyncPVC_validates remote ns name destNS syncID pushID mapping tr out :
  runs (SyncPVC remote ns name destNS syncID pushID mapping) tr out →
  ∃ r, Ev (Sg := RSig) (RValidatePVCSync name ns name destNS) r ∈ tr.
Proof. intros (r & tr' & -> & _)%runs_rcall_inv. exists r. left. Qed.

Lemma sync_each_validates remote srcNS dstNS ids mapping names tr out name :
  runs (range_each names tt (λ name _, _ ← SyncPVC remote srcNS name dstNS (ids name).1 (ids name).2 mapping; mret tt)) tr (Ret out) →
  name ∈ names → ∃ r, Ev (Sg := RSig) (RValidatePVCSync name srcNS name dstNS) r ∈ tr.
Proof.
  revert tr. induction names as [|n names IH]; intros tr Hr Hn; [by apply elem_of_nil in Hn|].
  cbn [range_each] in Hr. apply runs_bind_inv in Hr as [([] & t1 & t2 & H1 & H2 & ->)|(w & _ & ?)]; [|done].
  apply elem_of_cons in Hn as [->|Hn].
  - apply runs_bind_inv in H1 as [(r & t3 & t4 & H3 & _ & ->)|(w & _ & ?)]; [|done].
    destruct (SyncPVC_validates _ _ _ _ _ _ _ _ _ H3) as [a Ha]. exists a. rewrite !elem_of_app. auto.
  - destruct (IH t2 H2 Hn) as [a Ha]. exists a. rewrite elem_of_app. auto.
Qed.

(** GetPVCsToSync, if called, answers [names]. *)
Definition lists (names : list string) (e : event RSig) : Prop :=
  match e with
  | Ev o a =>
      match o as o return exec (RVal o) → Prop with
      | RGetPVCsToSync _ _ _ => λ a, a = Ret (Ok names)
      | _ => λ _, True
      end a
  end.

(** SyncPVCs goes on after a failed claim: in an execution that returns, the sync of
    every claim that was listed has been started. *)
Theorem SyncPVCs_tries_all remote srcNS dstNS selector ids mapping names tr r :
  runs (SyncPVCs remote srcNS dstNS selector ids mapping) tr (Ret r) →
  Forall (lists names) tr →
  r = Ok tt ∧ ∀ name, name ∈ names → ∃ a, Ev (Sg := RSig) (RValidatePVCSync name srcNS name dstNS) a ∈ tr.
Proof.
  intros (a1 & t1 & -> & Hr)%runs_rcall_inv. destruct a1 as [[]|]; [|by destruct Hr].
  apply runs_rcall_inv in Hr as (a2 & t2 & -> & Hr). rewrite !Forall_cons. intros (_ & -> & _).
  apply runs_bind_inv in Hr as [([] & t3 & t4 & H3 & H4 & ->)|(w & _ & ?)]; [|done].
  apply runs_ret_inv in H4 as [_ [= ->]]. split; [done|]. intros name Hn.
  destruct (sync_each_validates _ _ _ _ _ _ _ _ _ H3 Hn) as [a Ha]. exists a. do 2 right. rewrite elem_of_app. auto.
Qed.

(** The first of two claims fails its validation. *)
Definition two_claims : handler RSig unit := λ o s,
  match o as o return exec (RVal o) * unit with
  | RGetPVCsToSync _ _ _ => (Ret (Ok ["a"; "b"]), s)
  | RValidatePVCSync n _ _ _ => (Ret (if n =s? "a" then Err (PlainError "no such claim") else Ok tt), s)
  | o => all_ok o s
  end.

Lemma SyncPVCs_tries_all_witness :
  ∃ a, Ev (Sg := RSig) (RValidatePVCSync "b" "app" "b" "app-dr") a ∈
       run_trace two_claims (SyncPVCs "east" "app" "app-dr" ∅ (λ _, ("id", "key")) None) tt.
Proof.
  refine (proj2 (SyncPVCs_tries_all "east" "app" "app-dr" ∅ (λ _, ("id", "key")) None ["a"; "b"] _ (Ok tt)
    (run_trace_runs two_claims (SyncPVCs "east" "app" "app-dr" ∅ (λ _, ("id", "key")) None) tt) _) "b" _).
  - repeat (constructor; [exact I || reflexivity|]). constructor.
  - right. left.
Defined.
