(* ===== verification/TempPod.v ===== *)
(** * Temporary pods: pkg/agent/tempod

    Pods that mount a claim for a while (tempod.go), the configuration of their rsync daemon
    (config.go), where a claim is used (pvc.go), and the directory of a CSI volume on a node
    with the placeholder pods that bring one into being (csi_path.go).

    What the API server or the kubelet writes into the fields no other part of the code names
    is decoded, and a pod's specification encoded, by a parameter ([PodCodec], [VolumeCodec]).
    A loop over a ticker under a timeout is bounded by [ticks], the number of times the ticker
    can win against the context; every statement holds for any number. *)

From S2P Require Import Prelude GoString Errors Types Rfc3339 Kube KubeLogic Lock Helpers.
From Stdlib Require Import Ascii.

(** ** Pods and volumes *)

Inductive VolumeRef : Type :=
| ClaimRef (claim : string)
| ConfigMapRef (name : string) (items : list (string * string))
| SecretRef (name : string) (mode : option Z) (optional : bool)
| HostPathRef (path type : string).

(** A corev1.PodSpec with one container; a mount is a volume, a path, a subpath and whether it
    is read-only. *)
Record PodSpec : Type := mkPodSpec {
  spContainer : string;
  spImage : string;
  spCommand : list string;
  spPort : option Z;
  spMounts : list (string * string * string * bool);
  spLimits : gmap string string;
  spRequests : gmap string string;
  spPrivileged : option bool;
  spRunAsUser : option Z;
  spVolumes : list (string * VolumeRef);
  spRestartPolicy : string;
  spNodeAffinity : option string;
  spTolerations : list Payload;
  spHostNetwork : bool;
  spDNSPolicy : string
}.

(** A condition of a pod: type, status and last transition. *)
Record PodCondition : Type := mkPodCondition { pcType : string; pcStatus : string; pcTransition : Time }.

(** A container's status: ready, and how often it restarted. *)
Record ContainerStatus : Type := mkContainerStatus { ctReady : bool; ctRestarts : Z }.

Class PodCodec : Type := {
  EncodePod : PodSpec → Payload;
  ContainerStatuses : Payload → list ContainerStatus;
  PodIP : Payload → string;
  PodConditions : Payload → list PodCondition
}.

(** The source of a PersistentVolume, and the terms of its required node affinity: each term
    is a list of expressions, a key, an operator and values. *)
Inductive VolumeSource : Type :=
| HostPathSource (path : string)
| LocalSource (path : string)
| CSISource (driver handle : string)
| OtherSource.

Class VolumeCodec : Type := {
  PVSource : Payload → VolumeSource;
  PVNodeTerms : Payload → option (list (list (string * string * list string)))
}.

Definition claim_of (v : string * VolumeRef) : option string := match v.2 with ClaimRef c => Some c | _ => None end.

Definition pod_object `{PodCodec} (name namespace : string) (labels annotations : option (gmap string string))
    (owners : list Payload) (node : string) (spec : PodSpec) : Object :=
  mkObject (mkGVK "" "" "") (mkObjectMeta name namespace "" "" "" None [] owners 0 [] labels annotations)
    (PodBody (mkPodFields (claim_of <$> spec.(spVolumes)) node "" "" (EncodePod spec))).

Definition phase_of (pod : Object) : string := match pod.(oBody) with PodBody f => f.(podPhase) | _ => "" end.
Definition status_of (pod : Object) : Payload := match pod.(oBody) with PodBody f => f.(podStatus) | _ => "" end.
Definition claims_of (pod : Object) : list (option string) := match pod.(oBody) with PodBody f => f.(podClaims) | _ => [] end.
Definition source_of `{VolumeCodec} (pv : Object) : VolumeSource :=
  match pv.(oBody) with PVBody spec _ _ => PVSource spec | _ => OtherSource end.

Definition is_csi (s : VolumeSource) : bool := match s with CSISource _ _ => true | _ => false end.

(** ** Loops *)

(** A [for] loop that returns from the function at the first value. *)
Fixpoint first_of {A B : Type} (xs : list A) (f : A → KP (option B)) : KP (option B) :=
  match xs with
  | [] => mret None
  | x :: rest => r ← f x; match r with Some b => mret (Some b) | None => first_of rest f end
  end.

(** [for { select { case <-ctx.Done(): expired; case <-ticker.C: body } }] *)
Fixpoint on_ticks {A : Type} (ticks : nat) (interval : Z) (body : KP (option A)) (expired : KP A) : KP A :=
  match ticks with
  | O => expired
  | S n =>
      fired ← kcall (KWait interval);
      if (fired : bool) then
        r ← body;
        match r with Some a => mret a | None => on_ticks n interval body expired end
      else expired
  end.

(** ** csi_path.go *)

Definition KubeletVolumesPath : string := "/var/lib/kubelet/pods".
Definition CSIVolumesSubPath : string := "volumes/kubernetes.io~csi".
Definition MountSubPath : string := "mount".

Section CSIPath.
Context `{PodCodec} `{VolumeCodec}.
Variable (client : Cluster) (ticks : nat).

(** The mount directory below a volume's directory, if it exists. *)
Definition try_mount (csiVolumesPath pvName : string) (volumeDir : string * bool) : KP (option string) :=
  if volumeDir.2 && Contains volumeDir.1 pvName then
    let mountPath := JoinPath [csiVolumesPath; volumeDir.1; MountSubPath] in
    r ← kcall (KStat mountPath);
    mret (match r with Ok _ => Some mountPath | Err _ => None end)
  else mret None.

Definition search_pod_dir (pvName : string) (podDir : string * bool) : KP (option string) :=
  if negb podDir.2 then mret None
  else
    let csiVolumesPath := JoinPath [KubeletVolumesPath; podDir.1; CSIVolumesSubPath] in
    r ← kcall (KStat csiVolumesPath);
    match r with
    | Err _ => mret None
    | Ok _ =>
        d ← kcall (KReadDir csiVolumesPath);
        match d with Err _ => mret None | Ok volumeDirs => first_of volumeDirs (try_mount csiVolumesPath pvName) end
    end.

Definition SearchCSIPath (pvName : string) : KP (res string) :=
  _ ←? kcall (KStat KubeletVolumesPath) onerr (plainf "kubelet volumes path does not exist: ");
  podDirs ←? kcall (KReadDir KubeletVolumesPath) onerr (plainf "failed to read kubelet volumes path: ");
  r ← first_of podDirs (search_pod_dir pvName);
  match r with
  | Some path => mret (Ok path)
  | None => errorf ("CSI path not found for PV " +:+ pvName)
  end.

(** The name of the claim's volume, when it is bound to a CSI volume. *)
Definition csi_volume (namespace pvcName : string) : KP (res string) :=
  pvc ←? kcall (KGet client persistentvolumeclaims namespace pvcName) onerr (plainf "failed to get PVC: ");
  if volume_name pvc =s? "" then errorf "PVC is not bound to a PV"
  else
    pv ←? kcall (KGet client persistentvolumes "" (volume_name pvc)) onerr (plainf "failed to get PV: ");
    if is_csi (source_of pv) then mret (Ok (volume_name pvc)) else errorf "PV is not a CSI volume".

Definition FindCSIPathWithoutPod (namespace pvcName nodeName : string) : KP (res string) :=
  pvName ←? csi_volume namespace pvcName onerr id;
  SearchCSIPath pvName.

Definition csi_path (podUID pvName : string) : string :=
  JoinPath [KubeletVolumesPath; podUID; CSIVolumesSubPath; pvName; MountSubPath].

(** The directory of the claim in one pod: looked for once per volume of the claim. *)
Definition try_pod (pvcName pvName : string) (pod : Object) : KP (option string) :=
  if phase_of pod =s? "Running" then
    first_of (claims_of pod) (λ claim,
      if mounts pvcName claim then
        let csiPath := csi_path pod.(oMeta).(mUID) pvName in
        r ← kcall (KStat csiPath);
        mret (match r with Ok _ => Some csiPath | Err _ => None end)
      else mret None)
  else mret None.

Definition FindCSIPath (namespace pvcName nodeName : string) : KP (res string) :=
  pvName ←? csi_volume namespace pvcName onerr id;
  items ←? kcall (KListOn client pods namespace None [("spec.nodeName", nodeName)]) onerr (plainf "failed to list pods: ");
  r ← first_of items (try_pod pvcName pvName);
  match r with
  | Some path => mret (Ok path)
  | None => FindCSIPathWithoutPod namespace pvcName nodeName
  end.

Definition placeholder_spec (pvcName : string) : PodSpec :=
  mkPodSpec "placeholder" "busybox:latest" ["sh"; "-c"; "while true; do sleep 3600; done"] None
    [("pvc-volume", "/mnt/pvc", "", false)] (<["cpu" := "100m"]> {["memory" := "64Mi"]})
    (<["cpu" := "10m"]> {["memory" := "32Mi"]}) None None [("pvc-volume", ClaimRef pvcName)] "Never" None [] false "".

Definition placeholder_pod (namespace pvcName nodeName : string) (now : Time) : Object :=
  pod_object ("pvc-placeholder-" +:+ pvcName +:+ "-" +:+ FormatStamp now) namespace
    (Some (<["app.kubernetes.io/name" := "dr-syncer-placeholder"]> (<["app.kubernetes.io/component" := "pvc-placeholder"]>
      (<["app.kubernetes.io/part-of" := "dr-syncer"]> {["pvc-name" := pvcName]}))))
    None [] nodeName (placeholder_spec pvcName).

Definition CreatePlaceholderPod (namespace pvcName nodeName : string) : KP (res Object) :=
  now ← kcall KNow;
  createdPod ←? kcall (KCreate client pods namespace (placeholder_pod namespace pvcName nodeName now))
    onerr (plainf "failed to create placeholder pod: ");
  mret (Ok createdPod).

Definition WaitForPlaceholderPod (namespace podName : string) : KP (res unit) :=
  on_ticks ticks (5 * Second)
    (r ← kcall (KGet client pods namespace podName);
     mret (match r with
           | Err _ => None
           | Ok pod => if phase_of pod =s? "Running" then Some (Ok tt) else None
           end))
    (errorf ("timeout waiting for placeholder pod " +:+ namespace +:+ "/" +:+ podName +:+ " to be running")).

Definition DeletePlaceholderPod (namespace podName : string) : KP (res unit) :=
  _ ←? kcall (KDelete client pods namespace podName) onerr (plainf "failed to delete placeholder pod: ");
  mret (Ok tt).
End CSIPath.

(** ** pvc.go *)

Record PVCInfo : Type := mkPVCInfo {
  piName : string;
  piNamespace : string;
  piPVName : string;
  piNodeName : string;
  piPods : list string
}.

Section Claims.
Variable (client : Cluster).

(** A running pod with a node that mounts the claim gives its node. *)
Definition node_using (pvcName : string) (pod : Object) : option string :=
  if (phase_of pod =s? "Running") && negb (pod_node pod =s? "") && existsb (mounts pvcName) (claims_of pod)
  then Some (pod_node pod) else None.

Definition bound_claim (namespace pvcName : string) : KP (res string) :=
  pvc ←? kcall (KGet client persistentvolumeclaims namespace pvcName) onerr (plainf "failed to get PVC: ");
  if volume_name pvc =s? "" then errorf "PVC is not bound to a PV" else mret (Ok (volume_name pvc)).

Definition FindPVCNode (namespace pvcName : string) : KP (res string) :=
  _ ←? bound_claim namespace pvcName onerr id;
  items ←? kcall (KList client pods namespace None) onerr (plainf "failed to list pods: ");
  match head (omap (node_using pvcName) items) with
  | Some node => mret (Ok node)
  | None => errorf "no running pod is using the PVC"
  end.

(** A running pod is added for every volume of the claim; the first node there is stays. *)
Definition add_pod (pvcName : string) (info : PVCInfo) (pod : Object) : PVCInfo :=
  if phase_of pod =s? "Running" then
    foldl (λ info claim,
      if mounts pvcName claim then
        mkPVCInfo info.(piName) info.(piNamespace) info.(piPVName)
          (if (info.(piNodeName) =s? "") && negb (pod_node pod =s? "") then pod_node pod else info.(piNodeName))
          (info.(piPods) ++ [GetName pod])%list
      else info) info (claims_of pod)
  else info.

Definition GetPVCInfo (namespace pvcName : string) : KP (res PVCInfo) :=
  pvName ←? bound_claim namespace pvcName onerr id;
  items ←? kcall (KList client pods namespace None) onerr (plainf "failed to list pods: ");
  let info := foldl (add_pod pvcName) (mkPVCInfo pvcName namespace pvName "" []) items in
  if info.(piNodeName) =s? "" then errorf "no running pod is using the PVC" else mret (Ok info).

Definition ListPVCs (namespace : string) : KP (res (list string)) :=
  items ←? kcall (KList client persistentvolumeclaims namespace None) onerr (plainf "failed to list PVCs: ");
  mret (Ok (GetName <$> items)).
End Claims.

(** ** config.go *)

Definition DefaultRsyncConfigMapName : string := "dr-syncer-rsync-config".
Definition DefaultRsyncConfigKey : string := "rsyncd.conf".

Definition DefaultRsyncConfig : string :=
  "
# rsyncd.conf - rsync daemon configuration

# Global settings
uid = root
gid = root
use chroot = no
max connections = 4
timeout = 300
read only = no

# Module for PVC data
[data]
path = /data
comment = PVC Data
read only = no
list = yes
auth users = *
secrets file = /dev/null
".

(** The data of a ConfigMap on the wire. *)
Class DataCodec : Type := {
  EncodeData : gmap string string → Payload;
  DecodeData : Payload → option (gmap string string)
}.

Section RsyncConfig.
Context `{DataCodec}.
Variable (client : Cluster).

Definition rsync_config_map (namespace config : string) : Object :=
  mkObject (mkGVK "" "" "")
    (mkObjectMeta DefaultRsyncConfigMapName namespace "" "" "" None [] [] 0 []
       (Some (<["app" := "dr-syncer"]> {["component" := "rsync-config"]})) None)
    (ConfigMapBody (mkConfigMapFields (EncodeData {[DefaultRsyncConfigKey := config]}) "" None)).

Definition EnsureRsyncConfigMap (namespace : string) : KP (res unit) :=
  r ← kcall (KGet client configmaps namespace DefaultRsyncConfigMapName);
  match r with
  | Ok _ => mret (Ok tt)
  | Err e =>
      if IsNotFound e then
        _ ←? kcall (KCreate client configmaps namespace (rsync_config_map namespace DefaultRsyncConfig))
          onerr (plainf "failed to create ConfigMap: ");
        mret (Ok tt)
      else mret (Err (plainf "failed to check if ConfigMap exists: " e))
  end.

(** The ConfigMap with the configuration set; the rest of its data stays. *)
Definition with_config (config : string) (o : Object) : Object :=
  match o.(oBody) with
  | ConfigMapBody f =>
      set_oBody (ConfigMapBody (set_cmData
        (EncodeData (<[DefaultRsyncConfigKey := config]> (default ∅ (DecodeData f.(cmData))))) f)) o
  | _ => o
  end.

Definition UpdateRsyncConfigMap (namespace config : string) : KP (res unit) :=
  r ← kcall (KGet client configmaps namespace DefaultRsyncConfigMapName);
  match r with
  | Err e =>
      if IsNotFound e then
        _ ←? kcall (KCreate client configmaps namespace (rsync_config_map namespace config))
          onerr (plainf "failed to create ConfigMap: ");
        mret (Ok tt)
      else mret (Err (plainf "failed to get ConfigMap: " e))
  | Ok configMap =>
      _ ←? kcall (KUpdate client configmaps namespace (with_config config configMap))
        onerr (plainf "failed to update ConfigMap: ");
      mret (Ok tt)
  end.
End RsyncConfig.

(** ** tempod.go *)

Definition DefaultRsyncPort : Z := 8873.
Definition DefaultPodNamePrefix : string := "dr-syncer-temp-".

Record TempPod : Type := mkTempPod {
  tpName : string;
  tpNamespace : string;
  tpPVCName : string;
  tpNodeName : string;
  tpRsyncPort : Z;
  tpPod : Object
}.

(** Nil maps are [None]. *)
Record TempPodOptions : Type := mkTempPodOptions {
  toName : string;
  toNamespace : string;
  toPVCName : string;
  toNodeName : string;
  toRsyncPort : Z;
  toLabels : option (gmap string string);
  toAnnotations : option (gmap string string);
  toKeySecretName : string
}.

(** Manager.Pods; the other fields are the client. *)
Definition Manager : Type := gmap string TempPod.

Definition charset : string := "abcdefghijklmnopqrstuvwxyz0123456789".

(** One byte per reading of the clock; Go's [%] keeps the sign of the instant. *)
Fixpoint randomString (length : nat) : KP string :=
  match length with
  | O => mret ""
  | S n =>
      now ← kcall KNow;
      let i := Z.rem now (Z.of_nat (String.length charset)) in
      match (if i <? 0 then None else String.get (Z.to_nat i) charset) with
      | None => panic "index out of range"
      | Some c => _ ← kcall (KSleep 1); rest ← randomString n; mret (String c rest)
      end
  end.

Definition temp_command (port : Z) : list string :=
  ["/bin/sh"; "-c";
   "apk add --no-cache rsync openssh && mkdir -p /data && mkdir -p /home/syncer/.ssh && chmod 700 /home/syncer/.ssh && cp /etc/ssh/keys/id_rsa /home/syncer/.ssh/ && cp /etc/ssh/keys/id_rsa.pub /home/syncer/.ssh/ && chmod 600 /home/syncer/.ssh/id_rsa && chmod 644 /home/syncer/.ssh/id_rsa.pub && rsync --daemon --no-detach --port="
     +:+ itoa port +:+ " --config=/etc/rsyncd.conf"].

(** The specification of the pod; the keys are a volume and a mount of their own. *)
Definition temp_spec (pvcName keySecret : string) (port : Z) : PodSpec :=
  let keys := negb (keySecret =s? "") in
  mkPodSpec "rsync" "alpine:latest" (temp_command port) (Some (int32 port))
    ([("pvc-data", "/data", "", false); ("rsync-config", "/etc/rsyncd.conf", "rsyncd.conf", false)] ++
     (if keys then [("ssh-keys", "/etc/ssh/keys", "", true)] else []))%list
    ∅ ∅ None None
    ([("pvc-data", ClaimRef pvcName); ("rsync-config", ConfigMapRef "dr-syncer-rsync-config" [("rsyncd.conf", "rsyncd.conf")])] ++
     (if keys then [("ssh-keys", SecretRef keySecret None false)] else []))%list
    "Never" None [] false "".

Definition temp_labels (opts : TempPodOptions) : gmap string string :=
  or_make opts.(toLabels) ∪
  (<["app" := "dr-syncer"]> (<["component" := "temp-pod"]> (<["dr-syncer.io/temp-pod" := "true"]>
   {["dr-syncer.io/pvc" := opts.(toPVCName)]}))).

Definition temp_annotations (opts : TempPodOptions) (now : Time) : gmap string string :=
  or_make opts.(toAnnotations) ∪ {["dr-syncer.io/created-at" := FormatRFC3339 now]}.

Section Temporary.
Context `{PodCodec}.
Variable (client : Cluster) (ticks : nat).

(** The name is chosen when there is none; the manager keeps what was created. *)
Definition CreateTempPod (m : Manager) (opts : TempPodOptions) : KP (res TempPod * Manager) :=
  name ← (if opts.(toName) =s? "" then r ← randomString 8; mret (DefaultPodNamePrefix +:+ r) else mret opts.(toName));
  let port := if opts.(toRsyncPort) <=? 0 then DefaultRsyncPort else opts.(toRsyncPort) in
  now ← kcall KNow;
  r ← kcall (KCreate client pods opts.(toNamespace)
        (pod_object name opts.(toNamespace) (Some (temp_labels opts)) (Some (temp_annotations opts now)) [] opts.(toNodeName)
           (temp_spec opts.(toPVCName) opts.(toKeySecretName) port)));
  match r with
  | Err e => mret (Err (plainf "failed to create pod: " e), m)
  | Ok createdPod =>
      let p := mkTempPod name opts.(toNamespace) opts.(toPVCName) opts.(toNodeName) port createdPod in
      mret (Ok p, <[name := p]> m)
  end.

Definition with_pod (pod : Object) (p : TempPod) : TempPod :=
  mkTempPod p.(tpName) p.(tpNamespace) p.(tpPVCName) p.(tpNodeName) p.(tpRsyncPort) pod.

(** The loop of WaitForPodReady: every look stores the pod it saw. *)
Fixpoint wait_ready (ticks : nat) (p : TempPod) : KP (res unit * TempPod) :=
  let expired := mret (Err (PlainError "timeout waiting for pod to be ready"), p) in
  match ticks with
  | O => expired
  | S n =>
      fired ← kcall (KWait (1 * Second));
      if (fired : bool) then
        r ← kcall (KGet client pods p.(tpNamespace) p.(tpName));
        match r with
        | Err e => mret (Err (plainf "failed to get pod: " e), p)
        | Ok pod =>
            let p' := with_pod pod p in
            if phase_of pod =s? "Running" then
              if forallb ctReady (ContainerStatuses (status_of pod)) then mret (Ok tt, p') else wait_ready n p'
            else if (phase_of pod =s? "Failed") || (phase_of pod =s? "Succeeded") then
              mret (Err (PlainError ("pod is in terminal state: " +:+ phase_of pod)), p')
            else wait_ready n p'
        end
      else expired
  end.

Definition WaitForPodReady (p : TempPod) : KP (res unit * TempPod) := wait_ready ticks p.

Definition GetRsyncEndpoint (p : TempPod) : string := PodIP (status_of p.(tpPod)) +:+ ":" +:+ itoa p.(tpRsyncPort).

(** Any error of the read counts as the pod being gone. *)
Definition Cleanup (p : TempPod) : KP (res unit) :=
  _ ←? kcall (KDelete client pods p.(tpNamespace) p.(tpName)) onerr (plainf "failed to delete pod: ");
  on_ticks ticks (1 * Second)
    (r ← kcall (KGet client pods p.(tpNamespace) p.(tpName));
     mret (match r with Err _ => Some (Ok tt) | Ok _ => None end))
    (errorf "timeout waiting for pod to be deleted").

(** [order] is the order in which the map is ranged over. *)
Definition CleanupAll (order : list (string * TempPod)) (m : Manager) : KP (res unit * Manager) :=
  m' ← range_each order m (λ entry m, _ ← Cleanup entry.2; mret (delete entry.1 m));
  mret (Ok tt, m').
End Temporary.

Definition GetPod (name : string) (m : Manager) : option TempPod := m !! name.

Definition ListPods (order : list (string * TempPod)) : list TempPod := order.*2.
