(* ===== verification/DaemonSet.v ===== *)
(** * The rsync DaemonSet: pkg/agent/rsyncpod/daemonset.go

    A pool of rsync pods, one per node of the destination cluster: its deployment, the pod of a
    node, and the directory of a destination claim on that node, for which a placeholder pod is
    created when no pod mounts the claim.  The wire form of a DaemonSet is a parameter. *)

From S2P Require Import Prelude GoString Errors Types Kube KubeLogic Lock Helpers TempPod.

Definition RsyncDaemonSetName : string := "dr-syncer-rsync".
Definition RsyncDaemonSetLabelKey : string := "app.kubernetes.io/name".
Definition RsyncDaemonSetLabelValue : string := "dr-syncer-rsync".
Definition DefaultRsyncImage : string := "supporttools/dr-syncer-rsync:latest".

Record RsyncDaemonSet : Type := mkRsyncDaemonSet {
  rdNamespace : string;
  rdName : string;
  rdSSHSecretName : string;
  rdImage : string
}.

Definition NewRsyncDaemonSet (namespace : string) : RsyncDaemonSet :=
  mkRsyncDaemonSet namespace RsyncDaemonSetName "dr-syncer-rsync-ssh-keys" DefaultRsyncImage.

Definition WithSSHSecret (secretName : string) (d : RsyncDaemonSet) : RsyncDaemonSet :=
  mkRsyncDaemonSet d.(rdNamespace) d.(rdName) secretName d.(rdImage).

Definition WithImage (image : string) (d : RsyncDaemonSet) : RsyncDaemonSet :=
  if image =s? "" then d else mkRsyncDaemonSet d.(rdNamespace) d.(rdName) d.(rdSSHSecretName) image.

(** appsv1.DaemonSetSpec: selector, labels and specification of the template, update strategy. *)
Record DaemonSetSpec : Type := mkDaemonSetSpec {
  dsSelector : gmap string string;
  dsLabels : gmap string string;
  dsPodSpec : PodSpec;
  dsStrategy : string
}.

Class DaemonSetCodec : Type := {
  EncodeDaemonSet : DaemonSetSpec → Payload;
  NumberReady : Payload → Z
}.

Definition pool_labels : gmap string string :=
  <[RsyncDaemonSetLabelKey := RsyncDaemonSetLabelValue]> (<["app.kubernetes.io/component" := "rsync-pool"]>
  {["app.kubernetes.io/part-of" := "dr-syncer"]}).

Definition pool_selector : gmap string string := {[RsyncDaemonSetLabelKey := RsyncDaemonSetLabelValue]}.

Definition pool_spec (d : RsyncDaemonSet) : DaemonSetSpec :=
  mkDaemonSetSpec pool_selector pool_labels
    (mkPodSpec "rsync" d.(rdImage) ["sleep"; "infinity"] None
       [("kubelet", "/var/lib/kubelet", "", false); ("ssh-keys", "/root/.ssh", "", true)]
       (<["cpu" := "2"]> {["memory" := "2Gi"]}) (<["cpu" := "100m"]> {["memory" := "128Mi"]}) (Some true) (Some 0)
       [("kubelet", HostPathRef "/var/lib/kubelet" "Directory"); ("ssh-keys", SecretRef d.(rdSSHSecretName) (Some 384) true)]
       "" None ["node-role.kubernetes.io/master Exists NoSchedule"; "node-role.kubernetes.io/control-plane Exists NoSchedule"]
       true "ClusterFirstWithHostNet")
    "RollingUpdate".

(** RsyncDaemonSetPod; [dpCleanup] is the placeholder pod CleanupFunc deletes, None a nil
    function. *)
Record RsyncDaemonSetPod : Type := mkRsyncDaemonSetPod {
  dpName : string;
  dpNamespace : string;
  dpPodName : string;
  dpPVCName : string;
  dpDestNamespace : string;
  dpNodeName : string;
  dpDestinationPath : string;
  dpCleanup : option (string * string);
  dpHasCachedKeys : bool
}.

Definition NewRsyncDaemonSetPod (pod : Object) (pvcName destNamespace destPath : string) (cleanup : option (string * string))
    : RsyncDaemonSetPod :=
  mkRsyncDaemonSetPod RsyncDaemonSetName (GetNamespace pod) (GetName pod) pvcName destNamespace (pod_node pod) destPath cleanup true.

Definition GetDestinationPath (p : RsyncDaemonSetPod) : string := p.(dpDestinationPath).

Section Pool.
Context `{DaemonSetCodec} `{PodCodec} `{VolumeCodec}.
Variable (ticks : nat).

Definition buildDaemonSet (d : RsyncDaemonSet) : Object :=
  mkObject (mkGVK "" "" "") (mkObjectMeta d.(rdName) d.(rdNamespace) "" "" "" None [] [] 0 [] (Some pool_labels) None)
    (UnstructuredBody (EncodeDaemonSet (pool_spec d)) "").

Definition Deploy (d : RsyncDaemonSet) : KP (res unit) :=
  let ds := buildDaemonSet d in
  r ← kcall (KGet Dst daemonsets d.(rdNamespace) d.(rdName));
  match r with
  | Err e =>
      if IsNotFound e then
        _ ←? kcall (KCreate Dst daemonsets d.(rdNamespace) ds) onerr (wrapf "failed to create rsync DaemonSet: ");
        mret (Ok tt)
      else mret (Err (wrapf "failed to get rsync DaemonSet: " e))
  | Ok existing =>
      _ ←? kcall (KUpdate Dst daemonsets d.(rdNamespace)
                   (on_meta (set_mResourceVersion existing.(oMeta).(mResourceVersion)) ds))
        onerr (wrapf "failed to update rsync DaemonSet: ");
      mret (Ok tt)
  end.

Definition FindPodOnNode (d : RsyncDaemonSet) (nodeName : string) : KP (res Object) :=
  items ←? kcall (KListOn Dst pods d.(rdNamespace) (Some pool_selector) [("spec.nodeName", nodeName)])
    onerr (wrapf "failed to list rsync pods: ");
  match List.find (λ pod, phase_of pod =s? "Running") items with
  | Some pod => mret (Ok pod)
  | None => errorf ("no running rsync DaemonSet pod found on node " +:+ nodeName)
  end.

(** Delete the placeholder and give up; the error of the deletion is dropped. *)
Definition abandon {A : Type} (namespace name prefix : string) (e : error) : KP (res A) :=
  _ ← DeletePlaceholderPod Dst namespace name;
  mret (Err (wrapf prefix e)).

(** The slow path, from the created placeholder on.  A failed read gives an empty pod, whose
    name is empty. *)
Definition placeholder_path (namespace pvcName nodeName : string) (placeholder : Object)
    : KP (res (string * option (string * string))) :=
  w ← WaitForPlaceholderPod Dst ticks namespace (GetName placeholder);
  match w with
  | Err e => abandon namespace (GetName placeholder) "placeholder pod failed to start: " e
  | Ok _ =>
      r ← kcall (KGet Dst pods namespace (GetName placeholder));
      match r with
      | Err e => abandon namespace "" "failed to get placeholder pod: " e
      | Ok pod =>
          p ← FindCSIPath Dst namespace pvcName nodeName;
          match p with
          | Err e => abandon namespace (GetName pod) "failed to find CSI path after creating placeholder pod: " e
          | Ok csiPath => mret (Ok (csiPath, Some (namespace, GetName pod)))
          end
      end
  end.

(** The path, and the pod the returned cleanup function deletes. *)
Definition ResolveDestinationPath (nodeName namespace pvcName : string) : KP (res (string * option (string * string))) :=
  r ← FindCSIPath Dst namespace pvcName nodeName;
  match r with
  | Ok csiPath => mret (Ok (csiPath, None))
  | Err _ =>
      placeholder ←? CreatePlaceholderPod Dst namespace pvcName nodeName onerr (wrapf "failed to create placeholder pod: ");
      placeholder_path namespace pvcName nodeName placeholder
  end.

Definition CleanupPool (p : RsyncDaemonSetPod) : KP (res unit) :=
  _ ← match p.(dpCleanup) with
      | Some (namespace, name) => _ ← DeletePlaceholderPod Dst namespace name; mret tt
      | None => mret tt
      end;
  mret (Ok tt).

Definition Delete (d : RsyncDaemonSet) : KP (res unit) :=
  r ← kcall (KDelete Dst daemonsets d.(rdNamespace) d.(rdName));
  match r with
  | Err e => mret (if IsNotFound e then Ok tt else Err (wrapf "failed to delete rsync DaemonSet: " e))
  | Ok _ => mret (Ok tt)
  end.

Definition ready_pods (ds : Object) : Z := match ds.(oBody) with UnstructuredBody _ status => NumberReady status | _ => 0 end.

Definition IsReady (d : RsyncDaemonSet) : KP (res bool) :=
  r ← kcall (KGet Dst daemonsets d.(rdNamespace) d.(rdName));
  match r with
  | Err e => if IsNotFound e then mret (Ok false) else mret (Err (wrapf "failed to get rsync DaemonSet: " e))
  | Ok ds => mret (Ok (0 <? ready_pods ds))
  end.

Definition GetStatus (d : RsyncDaemonSet) : KP (res Object) :=
  ds ←? kcall (KGet Dst daemonsets d.(rdNamespace) d.(rdName)) onerr (wrapf "failed to get rsync DaemonSet: ");
  mret (Ok ds).
End Pool.
