(* ===== verification/TempPodProps.v ===== *)
(** * Theorems about temporary pods and the rsync DaemonSet

    Which directory is taken for a claim's data, that placeholder pods are deleted again, that
    the two lookups of a claim's node agree, and what the manager of temporary pods forgets. *)

From S2P Require Import Prelude GoString Errors Types Kube KubeLogic Lock Helpers TempPod DaemonSet.

(** ** Programs that do not panic *)

Fixpoint panicfree {Sg : Sig} {A : Type} (p : prog Sg A) : Prop :=
  match p with
  | PRet _ => True
  | PPanic _ => False
  | PCall o k => ∀ r, panicfree (k r)
  end.

Lemma panicfree_sound {Sg : Sig} {A} (p : prog Sg A) tr w : panicfree p → runs p tr (Panic w) → False.
Proof.
  revert tr. induction p as [a|v|o k IH]; intros tr Hp Hr; cbn in Hp; [by apply runs_ret_inv in Hr as [_ ?]|done|].
  apply runs_call_inv in Hr as (r & tr' & _ & Hr). by apply (IH r tr').
Qed.

Lemma panicfree_bind {Sg : Sig} {A B} (p : prog Sg A) (f : A → prog Sg B) :
  panicfree p → (∀ a, panicfree (f a)) → panicfree (p ≫= f).
Proof. intros Hp Hf. induction p as [a|w|o k IH]; cbn in *; [apply Hf|done|]. intros r. by apply IH. Qed.

Lemma panicfree_bindE {A B} (c : KP (res A)) w (k : A → KP (res B)) :
  panicfree c → (∀ a, panicfree (k a)) → panicfree (bindE c w k).
Proof. intros Hc Hk. apply panicfree_bind; [done|]. by intros [a|e]. Qed.

Lemma panicfree_first_of {A B} (xs : list A) (f : A → KP (option B)) : (∀ x, panicfree (f x)) → panicfree (first_of xs f).
Proof.
  intros Hf. induction xs as [|x xs IH]; [done|]. apply panicfree_bind; [apply Hf|]. by intros [b|].
Qed.

Lemma panicfree_on_ticks {A} ticks interval (body : KP (option A)) expired :
  panicfree body → panicfree expired → panicfree (on_ticks ticks interval body expired).
Proof.
  intros Hb He. induction ticks as [|n IH]; [done|]. cbn [on_ticks]. intros [|]; [|done].
  apply panicfree_bind; [done|]. by intros [a|].
Qed.

Ltac panicfree_step :=
  lazymatch goal with
  | |- panicfree (match ?x with _ => _ end) => destruct x
  | |- panicfree (mret _) => exact I
  | |- panicfree (errorf _) => exact I
  | |- panicfree (kcall _) => intros ?; exact I
  | |- panicfree (first_of _ _) => apply panicfree_first_of; intros ?
  | |- panicfree (on_ticks _ _ _ _) => apply panicfree_on_ticks
  | |- panicfree (bindE _ _ _) => apply panicfree_bindE; [|intros ?]
  | |- panicfree (_ ≫= _) => apply panicfree_bind; [|intros ?]
  | |- panicfree (let _ := _ in _) => cbv zeta
  end.

(** ** Loops *)

Lemma safe_first_of {A B} (P : Op KSig → Prop) (xs : list A) (f : A → KP (option B)) :
  (∀ x, x ∈ xs → safe P (f x) anyr) → safe P (first_of xs f) anyr.
Proof.
  induction xs as [|x xs IH]; intros Hf; [done|]. cbn [first_of].
  apply safe_bind_any; [apply Hf; left|]. intros [b|]; [done|]. apply IH. intros y Hy. apply Hf. by right.
Qed.

Lemma safe_on_ticks {A} (P : Op KSig → Prop) ticks interval (body : KP (option A)) expired :
  P (KWait interval) → safe P body anyr → safe P expired anyr → safe P (on_ticks ticks interval body expired) anyr.
Proof.
  intros Hw Hb He. induction ticks as [|n IH]; [done|]. cbn [on_ticks]. apply safe_call_bind; [done|].
  intros [|]; [|done]. apply safe_bind_any; [done|]. by intros [a|].
Qed.

(** The iteration that returned. *)
Lemma runs_first_of {A B} (xs : list A) (f : A → KP (option B)) tr b :
  runs (first_of xs f) tr (Ret (Some b)) →
  ∃ x t1 t2, x ∈ xs ∧ runs (f x) t2 (Ret (Some b)) ∧ tr = (t1 ++ t2)%list.
Proof.
  revert tr. induction xs as [|x xs IH]; intros tr Hr; [by apply runs_ret_inv in Hr as [_ [=]]|].
  cbn [first_of] in Hr. apply runs_bind_inv in Hr as [([b'|] & t1 & t2 & H1 & H2 & ->)|(w & _ & [=])].
  - apply runs_ret_inv in H2 as [-> [= <-]]. exists x, [], t1. rewrite app_nil_r. split; [left|done].
  - destruct (IH _ H2) as (y & t3 & t4 & Hy & Hf & ->). exists y, (t1 ++ t3)%list, t4.
    split; [by right|]. split; [done|]. by rewrite app_assoc.
Qed.

Lemma runs_bindE_ok {A B} (c : KP (res A)) w (k : A → KP (res B)) tr b :
  runs (bindE c w k) tr (Ret (Ok b)) →
  ∃ a t1 t2, runs c t1 (Ret (Ok a)) ∧ runs (k a) t2 (Ret (Ok b)) ∧ tr = (t1 ++ t2)%list.
Proof.
  intros Hr. apply runs_bind_inv in Hr as [([a|e] & t1 & t2 & H1 & H2 & ->)|(v & _ & [=])]; [by exists a, t1, t2|].
  by apply runs_ret_inv in H2 as [_ [=]].
Qed.

(** ** The directory of a claim *)

Section Paths.
Context {PC : PodCodec} {VC : VolumeCodec}.

(** The path was found to exist, in the file system of the process. *)
Definition seen (path : string) (tr : list (event KSig)) : Prop := Ev (Sg := KSig) (KStat path) (Ok tt) ∈ tr.

(** A directory below the kubelet's that carries the volume's name. *)
Definition volume_dir (pvName path : string) : Prop :=
  (∃ uid, path = csi_path uid pvName) ∨
  ∃ podDir dir, Contains dir pvName = true ∧
    path = JoinPath [JoinPath [KubeletVolumesPath; podDir; CSIVolumesSubPath]; dir; MountSubPath].

Lemma stat_answer {A} path (a : A) tr b :
  runs (r ← kcall (KStat path); mret (match r with Ok _ => Some a | Err _ => None end)) tr (Ret (Some b)) →
  a = b ∧ seen path tr.
Proof.
  intros (r & t & -> & Hr)%(runs_call_inv (Sg := KSig) (KStat path)). apply runs_ret_inv in Hr as [-> Hr].
  destruct r as [[]|]; simplify_eq. split; [done|left].
Qed.

Lemma try_mount_seen csi pvName dir tr path :
  runs (try_mount csi pvName dir) tr (Ret (Some path)) →
  Contains dir.1 pvName = true ∧ path = JoinPath [csi; dir.1; MountSubPath] ∧ seen path tr.
Proof.
  unfold try_mount. destruct (dir.2 && Contains dir.1 pvName) eqn:E; [|by intros [_ [=]]%runs_ret_inv].
  cbv zeta. intros [<- Hs]%stat_answer. bool_props. done.
Qed.

Lemma SearchCSIPath_seen pvName tr path :
  runs (SearchCSIPath pvName) tr (Ret (Ok path)) →
  seen path tr ∧ ∃ podDir dir, Contains dir pvName = true ∧
    path = JoinPath [JoinPath [KubeletVolumesPath; podDir; CSIVolumesSubPath]; dir; MountSubPath].
Proof.
  intros (a & t1 & t2 & _ & Hr & ->)%runs_bindE_ok. apply runs_bindE_ok in Hr as (podDirs & t3 & t4 & _ & Hr & ->).
  apply runs_bind_inv in Hr as [([p|] & t5 & t6 & H5 & H6 & ->)|(w & _ & [=])]; [|by apply runs_ret_inv in H6 as [_ [=]]].
  apply runs_ret_inv in H6 as [-> [= ->]]. apply runs_first_of in H5 as (pd & t7 & t8 & _ & Hf & ->).
  unfold search_pod_dir in Hf. destruct (negb pd.2); [by apply runs_ret_inv in Hf as [_ [=]]|]. cbv zeta in Hf.
  apply (runs_call_inv (Sg := KSig) (KStat _)) in Hf as (r & t9 & -> & Hf). destruct r as [[]|]; [|by apply runs_ret_inv in Hf as [_ [=]]].
  apply (runs_call_inv (Sg := KSig) (KReadDir _)) in Hf as (d & t10 & -> & Hf). destruct d as [vds|]; [|by apply runs_ret_inv in Hf as [_ [=]]].
  apply runs_first_of in Hf as (vd & t11 & t12 & _ & (Hc & -> & Hs)%try_mount_seen & ->).
  split; [|by exists pd.1, vd.1]. unfold seen in *. set_solver.
Qed.

(** The volume [csi_volume] reports is the one the claim names. *)
Lemma FindCSIPath_seen c namespace pvcName nodeName tr path :
  runs (FindCSIPath c namespace pvcName nodeName) tr (Ret (Ok path)) →
  seen path tr ∧ ∃ pvName t, runs (csi_volume c namespace pvcName) t (Ret (Ok pvName)) ∧ volume_dir pvName path.
Proof.
  intros (pv & t1 & t2 & Hv & Hr & ->)%runs_bindE_ok. apply runs_bindE_ok in Hr as (items & t3 & t4 & _ & Hr & ->).
  apply runs_bind_inv in Hr as [([p|] & t5 & t6 & H5 & H6 & ->)|(w & _ & [=])].
  - apply runs_ret_inv in H6 as [-> [= ->]]. apply runs_first_of in H5 as (pod & t7 & t8 & _ & Hf & ->).
    unfold try_pod in Hf. destruct (phase_of pod =s? "Running"); [|by apply runs_ret_inv in Hf as [_ [=]]].
    apply runs_first_of in Hf as (claim & t9 & t10 & _ & Hf & ->). cbv beta in Hf.
    destruct (mounts pvcName claim); [|by apply runs_ret_inv in Hf as [_ [=]]]. cbv zeta in Hf.
    apply stat_answer in Hf as [<- Hs]. split; [unfold seen in *; set_solver|]. exists pv, t1. split; [done|]. left. by eexists.
  - apply runs_bindE_ok in H6 as (pv' & t7 & t8 & Hv' & H6 & ->). apply SearchCSIPath_seen in H6 as [Hs Hd].
    split; [unfold seen in *; set_solver|]. exists pv', t7. split; [done|]. by right.
Qed.
End Paths.

(** ** Placeholder pods *)

(** Reads and waits. *)
Definition reads_only : Op KSig → Prop := λ o : KOp,
  match o with
  | KNow | KGet _ _ _ _ | KList _ _ _ _ | KListText _ _ _ _ | KListOn _ _ _ _ _ | KStat _ | KReadDir _ | KWait _ | KSleep _ => True
  | _ => False
  end.

(** Every pod that is read has the name that was asked for. *)
Definition named (e : event KSig) : Prop :=
  match e with
  | Ev o r =>
      match o as o return KResp o → Prop with
      | KGet _ _ _ name => λ r, match r with Ok obj => GetName obj = name | Err _ => True end
      | _ => λ _, True
      end r
  end.

(** The pod of an execution: none was created, the creation was refused, it is in place, its
    deletion was called and answered [r], or in its stead the deletion of a pod without a name
    was called. *)
Inductive placeholder_state : Type :=
| NoPlaceholder
| CreateFailed
| Placed (name : string)
| Removed (name : string) (r : res unit)
| Missed (name : string).

(** One pod is created in [ns] of the cluster, at most once, and only it is deleted, at most
    once; every other write is refused. *)
Definition placeholder_watch (cl : Cluster) (ns : string) (st : placeholder_state) (e : event KSig) : option placeholder_state :=
  match e with
  | Ev o r =>
      match o as o return KResp o → option placeholder_state with
      | KCreate c g n _ => λ r,
          match st with
          | NoPlaceholder =>
              if bool_decide (c = cl ∧ g = pods ∧ n = ns)
              then Some (match r with Ok obj => Placed (GetName obj) | Err _ => CreateFailed end) else None
          | _ => None
          end
      | KDelete c g n name => λ r,
          match st with
          | Placed placed =>
              if bool_decide (c = cl ∧ g = pods ∧ n = ns) then
                if name =s? placed then Some (Removed placed r) else if name =s? "" then Some (Missed placed) else None
              else None
          | _ => None
          end
      | KNow | KGet _ _ _ _ | KList _ _ _ _ | KListText _ _ _ _ | KListOn _ _ _ _ _ | KStat _ | KReadDir _ | KWait _ | KSleep _ => λ _, Some st
      | _ => λ _, None
      end r
  end.

Lemma observe_reads cl ns st tr : Forall (λ e, reads_only (ev_op e)) tr → observe (placeholder_watch cl ns) st tr = Some st.
Proof.
  induction tr as [|[o r] tr IH]; [done|]. intros [Ho Ht]%Forall_cons. cbn [observe].
  assert (placeholder_watch cl ns st (Ev o r) = Some st) as -> by (destruct o; done). by apply IH.
Qed.

Section Placeholders.
Context {DSC : DaemonSetCodec} {PC : PodCodec} {VC : VolumeCodec}.

Lemma csi_volume_reads c ns pvc : safe reads_only (csi_volume c ns pvc) anyr.
Proof. unfold csi_volume. repeat first [done | safe_step]. Qed.

Lemma SearchCSIPath_reads pvName : safe reads_only (SearchCSIPath pvName) anyr.
Proof.
  unfold SearchCSIPath. repeat first [done | safe_step]. apply safe_first_of. intros pd _.
  unfold search_pod_dir. repeat first [done | safe_step]. apply safe_first_of. intros vd _. unfold try_mount. repeat first [done | safe_step].
Qed.

Lemma FindCSIPath_reads c ns pvc node : safe reads_only (FindCSIPath c ns pvc node) anyr.
Proof.
  unfold FindCSIPath, FindCSIPathWithoutPod. safe_step; [apply csi_volume_reads|]. safe_step; [done|].
  safe_step; [|repeat safe_step; first [apply csi_volume_reads | apply SearchCSIPath_reads]].
  apply safe_first_of. intros pod _. unfold try_pod. safe_step; [|done]. apply safe_first_of. intros cl _. repeat first [done | safe_step].
Qed.

Lemma WaitForPlaceholderPod_reads c ticks ns name : safe reads_only (WaitForPlaceholderPod c ticks ns name) anyr.
Proof. apply safe_on_ticks; [done| |done]. repeat first [done | safe_step]. Qed.

Lemma ResolveDestinationPath_panicfree ticks node ns pvc : panicfree (ResolveDestinationPath ticks node ns pvc).
Proof.
  unfold ResolveDestinationPath, placeholder_path, abandon, DeletePlaceholderPod, WaitForPlaceholderPod, CreatePlaceholderPod,
    FindCSIPath, FindCSIPathWithoutPod, csi_volume, SearchCSIPath, search_pod_dir, try_pod, try_mount.
  repeat panicfree_step.
Qed.

(** The observation of an execution that only reads. *)
Lemma reading_observed {A} (c : KP A) cl ns st tr out :
  safe reads_only c anyr → runs c tr out → observe (placeholder_watch cl ns) st tr = Some st.
Proof. intros Hs Hr. apply observe_reads. by apply (safe_sound _ _ _ _ _ Hs Hr). Qed.

Lemma abandon_observed {A} ns placed name prefix e tr out :
  name = placed ∨ name = "" → runs (abandon (A := A) ns name prefix e) tr out →
  out = Ret (Err (wrapf prefix e)) ∧ ∃ st, observe (placeholder_watch Dst ns) (Placed placed) tr = Some st ∧
    ((∃ r, st = Removed placed r) ∨ (name ≠ placed ∧ st = Missed placed)).
Proof.
  unfold abandon, DeletePlaceholderPod. intros Hname Hr.
  apply runs_bind_inv in Hr as [(a & t1 & t2 & H1 & [-> ->]%runs_ret_inv & ->)|(w & Hr & _)].
  - apply (runs_call_inv (Sg := KSig) (KDelete Dst pods ns name)) in H1 as (r & t & -> & H1).
    assert (t = []) as -> by (destruct r; by apply runs_ret_inv in H1 as [-> _]).
    split; [done|]. cbn. rewrite bool_decide_true by done. destruct (String.eqb_spec name placed) as [->|Hne].
    + eexists. split; [done|]. left. by eexists.
    + destruct Hname as [?| ->]; [done|]. eexists. split; [done|]. by right.
  - apply (runs_call_inv (Sg := KSig) (KDelete Dst pods ns name)) in Hr as (r & t & -> & Hr). destruct r; by apply runs_ret_inv in Hr as [_ ?].
Qed.

Lemma abandon_error {A} ns name prefix e tr a : ¬ runs (abandon (A := A) ns name prefix e) tr (Ret (Ok a)).
Proof. intros Hr. apply (abandon_observed _ name) in Hr as [E _]; [done|by left]. Qed.

(** What is left behind: nothing, unless the pod could not be read again. *)
Definition left_behind (ns : string) (r : res (string * option (string * string))) (st : placeholder_state) : Prop :=
  match r with
  | Ok (_, None) => st = NoPlaceholder
  | Ok (_, Some (ns', name)) => ns' = ns ∧ st = Placed name
  | Err e =>
      st = CreateFailed ∨ (∃ name a, st = Removed name a) ∨
      (∃ name e', st = Missed name ∧ e = wrapf "failed to get placeholder pod: " e')
  end.

Lemma placeholder_path_settles ticks node ns pvc placeholder tr out :
  runs (placeholder_path ticks ns pvc node placeholder) tr (Ret out) → Forall named tr →
  ∃ st, observe (placeholder_watch Dst ns) (Placed (GetName placeholder)) tr = Some st ∧ left_behind ns out st.
Proof.
  unfold placeholder_path. intros Hr Hn.
  apply runs_bind_inv in Hr as [(w & t1 & t2 & H1 & H2 & ->)|(w & _ & [=])].
  rewrite observe_app, (reading_observed _ _ _ _ _ _ (WaitForPlaceholderPod_reads _ _ _ _) H1). cbn [mbind option_bind].
  destruct w as [u|e].
  2: { apply (abandon_observed _ (GetName placeholder)) in H2 as ([= ->] & st & Ho & Hst); [|by left].
       exists st. split; [done|]. right; left. destruct Hst as [[r ->]|[[] _]]; [by eexists _, _|done]. }
  apply (runs_call_inv (Sg := KSig) (KGet Dst pods ns (GetName placeholder))) in H2 as (r & t3 & -> & H2).
  apply Forall_app in Hn as [_ [Hnm Hn]%Forall_cons]. cbn [observe placeholder_watch mbind option_bind]. destruct r as [pod|e].
  2: { apply (abandon_observed _ (GetName placeholder)) in H2 as ([= ->] & st & Ho & Hst); [|by right].
       exists st. split; [done|]. right. destruct Hst as [[r ->]|[_ ->]]; [left|right]; by eexists _, _. }
  cbn in Hnm. apply runs_bind_inv in H2 as [(p & t4 & t5 & H4 & H5 & ->)|(w & _ & [=])].
  rewrite observe_app, (reading_observed _ _ _ _ _ _ (FindCSIPath_reads _ _ _ _) H4). cbn [mbind option_bind].
  destruct p as [path|e].
  - apply runs_ret_inv in H5 as [-> [= ->]]. eexists. split; [done|]. by rewrite Hnm.
  - apply (abandon_observed _ (GetName placeholder)) in H5 as ([= ->] & st & Ho & Hst); [|by left].
    exists st. split; [done|]. right; left. destruct Hst as [[r ->]|[[] _]]; [by eexists _, _|done].
Qed.

(** C19: ResolveDestinationPath, whatever the servers answer as long as reads return what was asked
    for, does not panic and writes nothing but one placeholder pod, created at most once.  When
    it returns a path with a cleanup function, the pod is in place and the one that function
    deletes; with a path of its own there is no pod; and when it returns an error the creation
    was refused or the deletion of the pod was called (its answer is only logged).  The
    exception is a pod that runs but cannot be read again: the code then asks to delete the
    empty pod the failed read gave it, and the placeholder stays. *)
Theorem ResolveDestinationPath_placeholder ticks node ns pvc tr out :
  runs (ResolveDestinationPath ticks node ns pvc) tr out → Forall named tr →
  ∃ st r, observe (placeholder_watch Dst ns) NoPlaceholder tr = Some st ∧ out = Ret r ∧ left_behind ns r st.
Proof.
  intros Hr Hn. destruct out as [r|w]; [|by destruct (panicfree_sound _ _ _ (ResolveDestinationPath_panicfree ticks node ns pvc) Hr)].
  unfold ResolveDestinationPath in Hr. apply runs_bind_inv in Hr as [(p & t1 & t2 & H1 & H2 & ->)|(w & _ & [=])].
  rewrite observe_app, (reading_observed _ _ _ _ _ _ (FindCSIPath_reads _ _ _ _) H1). cbn [mbind option_bind].
  destruct p as [path|e].
  { apply runs_ret_inv in H2 as [-> [= ->]]. by eexists _, _. }
  apply runs_bind_inv in H2 as [(c & t3 & t4 & H3 & H4 & ->)|(w & _ & [=])].
  apply (runs_call_inv (Sg := KSig) KNow) in H3 as (now & t5 & -> & H3).
  apply (runs_call_inv (Sg := KSig) (KCreate _ _ _ _)) in H3 as (cr & t6 & -> & H3).
  apply Forall_app in Hn as [_ [_ Hn]%Forall_app].
  rewrite observe_app. cbn [observe placeholder_watch mbind option_bind]. rewrite bool_decide_true by done. cbn [mbind option_bind].
  destruct cr as [obj|e']; apply runs_ret_inv in H3 as [-> [= ->]]; cbn [observe mbind option_bind].
  - apply placeholder_path_settles in H4 as (st & Ho & Hl); [|done]. by exists st, r.
  - apply runs_ret_inv in H4 as [-> [= ->]]. eexists _, _. split; [done|]. split; [done|]. by left.
Qed.
End Placeholders.

(** A path that is returned was found to exist in the file system of the process that resolves
    it, below the kubelet's directory and under the name of the claim's volume.  That process is
    the controller, not the node the path is for: where the controller's own file system has no
    such directory, no destination path is ever resolved. *)
Theorem ResolveDestinationPath_local {DSC : DaemonSetCodec} {PC : PodCodec} {VC : VolumeCodec} ticks node ns pvc tr path cleanup :
  runs (ResolveDestinationPath ticks node ns pvc) tr (Ret (Ok (path, cleanup))) →
  seen path tr ∧ ∃ pvName t, runs (csi_volume Dst ns pvc) t (Ret (Ok pvName)) ∧ volume_dir pvName path.
Proof.
  unfold ResolveDestinationPath. intros Hr.
  apply runs_bind_inv in Hr as [([p|e] & t1 & t2 & H1 & H2 & ->)|(w & _ & [=])].
  { apply runs_ret_inv in H2 as [-> [= -> ->]]. rewrite app_nil_r. by apply FindCSIPath_seen in H1. }
  apply runs_bindE_ok in H2 as (obj & t3 & t4 & _ & H4 & ->). unfold placeholder_path in H4.
  apply runs_bind_inv in H4 as [([u|e'] & t5 & t6 & _ & H6 & ->)|(w & _ & [=])]; [|by apply abandon_error in H6].
  apply (runs_call_inv (Sg := KSig) (KGet _ _ _ _)) in H6 as (r & t7 & -> & H6).
  destruct r as [pod|e']; [|by apply abandon_error in H6].
  apply runs_bind_inv in H6 as [([p|e'] & t8 & t9 & H8 & H9 & ->)|(w & _ & [=])]; [|by apply abandon_error in H9].
  apply runs_ret_inv in H9 as [-> [= -> ->]]. apply FindCSIPath_seen in H8 as [Hs Hv].
  split; [|exact Hv]. unfold seen in *. rewrite !elem_of_app, elem_of_cons, !elem_of_app. auto 10.
Qed.

(** ** A concrete cluster for the witnesses *)

#[local] Instance text_pods : PodCodec := {|
  EncodePod := spImage;
  ContainerStatuses := λ _, [];
  PodIP := id;
  PodConditions := λ _, []
|}.
#[local] Instance csi_volumes : VolumeCodec := {| PVSource := λ p, CSISource p p; PVNodeTerms := λ _, None |}.
#[local] Instance text_daemonsets : DaemonSetCodec := {| EncodeDaemonSet := λ s, spImage s.(dsPodSpec); NumberReady := λ _, 1 |}.

Definition meta (name ns uid : string) : ObjectMeta := mkObjectMeta name ns uid "1" "" None [] [] 0 [] None None.
Definition data_claim : Object :=
  mkObject (mkGVK "" "" "") (meta "data" "app-dr" "u1") (PVCBody (mkPVCSpec [] None None "" "pv-1" None None None None) "").
Definition data_volume : Object := mkObject (mkGVK "" "" "") (meta "pv-1" "" "u2") (PVBody "csi" "Bound" "").
Definition placeholder (name uid : string) : Object :=
  mkObject (mkGVK "" "" "") (meta name "app-dr" uid) (PodBody (mkPodFields [Some "data"] "node-1" "Running" "" "")).

(** The placeholder that was created is the only pod; [readable] says whether it can be read
    after the wait, and the directories [dirs] exist. *)
Definition claim_world (dirs : list string) (reads : nat) : handler KSig (option string * nat) := λ o s,
  match o as o return KResp o * (option string * nat) with
  | KGet _ r _ name =>
      if bool_decide (r = persistentvolumeclaims) then (Ok data_claim, s)
      else if bool_decide (r = persistentvolumes) then (Ok data_volume, s)
      else if (s.2 <? reads)%nat then (Ok (placeholder name "p1"), (s.1, S s.2)) else (Err (PlainError "connection refused"), s)
  | KListOn _ _ _ _ _ => (Ok (match s.1 with Some n => [placeholder n "p1"] | None => [] end), s)
  | KCreate _ _ _ x => (Ok x, (Some (GetName x), 0%nat))
  | KDelete _ _ _ name => (Ok tt, (if bool_decide (s.1 = Some name) then None else s.1, s.2))
  | KStat p => (if existsb (String.eqb p) dirs then Ok tt else Err (PlainError "no such file or directory"), s)
  | KReadDir _ => (Err (PlainError "no such file or directory"), s)
  | KNow => (1700000000 * Second, s)
  | KWait _ => (true, s)
  | o => (refused o, s)
  end.

(** The directory the placeholder mounts the volume in. *)
Definition placeholder_dir : string := csi_path "p1" "pv-1".

Lemma ResolveDestinationPath_placeholder_witness :
  let h := claim_world [placeholder_dir] 9 in
  let p := ResolveDestinationPath 3 "node-1" "app-dr" "data" in
  (run h p (None, 0%nat)).1 = Ret (Ok (placeholder_dir, Some ("app-dr", "pvc-placeholder-data-20231114-221320"))) ∧
  ∃ st r, observe (placeholder_watch Dst "app-dr") NoPlaceholder (run_trace h p (None, 0%nat)) = Some st ∧
    (run h p (None, 0%nat)).1 = Ret r ∧ left_behind "app-dr" r st.
Proof.
  intros h p. split; [vm_compute; reflexivity|].
  apply (ResolveDestinationPath_placeholder 3 "node-1" "app-dr" "data"); [apply run_trace_runs|].
  repeat (constructor; [vm_compute; first [exact I | reflexivity]|]). constructor.
Defined.

(** The placeholder becomes ready and then cannot be read: it is left running. *)
Example ResolveDestinationPath_leaks :
  let h := claim_world [placeholder_dir] 1 in
  let p := ResolveDestinationPath 3 "node-1" "app-dr" "data" in
  (∃ e, (run h p (None, 0%nat)).1 = Ret (Err e)) ∧ (run h p (None, 0%nat)).2.1 = Some "pvc-placeholder-data-20231114-221320".
Proof. split; [eexists|]; vm_compute; reflexivity. Qed.

Lemma ResolveDestinationPath_local_witness :
  let h := claim_world [placeholder_dir] 9 in
  let p := ResolveDestinationPath 3 "node-1" "app-dr" "data" in
  seen placeholder_dir (run_trace h p (None, 0%nat)) ∧
  ∃ pvName t, runs (csi_volume Dst "app-dr" "data") t (Ret (Ok pvName)) ∧ volume_dir pvName placeholder_dir.
Proof.
  intros h p. apply (ResolveDestinationPath_local 3 "node-1" "app-dr" "data" _ placeholder_dir (Some ("app-dr", "pvc-placeholder-data-20231114-221320"))).
  exact (run_trace_runs h p (None, 0%nat)).
Defined.

(** ** The search by name *)

(** The kubelet's directory has one pod with the volume [volume]. *)
Definition one_volume (volume : string) : handler KSig unit := λ o s,
  match o as o return KResp o * unit with
  | KStat _ => (Ok tt, s)
  | KReadDir p => (Ok [(if p =s? KubeletVolumesPath then "u1" else volume, true)], s)
  | o => (refused o, s)
  end.

(** SearchCSIPath takes the first directory whose name contains the name of the volume: a claim
    on volume pv-1 is given the data directory of pv-10. *)
Example SearchCSIPath_other_volume :
  (run (one_volume "pv-10") (SearchCSIPath "pv-1") tt).1 =
    Ret (Ok "/var/lib/kubelet/pods/u1/volumes/kubernetes.io~csi/pv-10/mount").
Proof. vm_compute. reflexivity. Qed.

(** ** The node of a claim *)

Lemma add_pod_node pvc info pod : piNodeName info ≠ "" → piNodeName (add_pod pvc info pod) = piNodeName info.
Proof.
  intros Hn. unfold add_pod. destruct (phase_of pod =s? "Running"); [|done].
  generalize (claims_of pod). intros claims. revert info Hn. induction claims as [|cl claims IH]; intros info Hn; [done|].
  cbn [foldl]. destruct (mounts pvc cl); [|by apply IH]. apply String.eqb_neq in Hn as Hb. rewrite Hb. cbn [andb].
  rewrite IH; cbn; done.
Qed.

Lemma add_pod_found pvc info pod : piNodeName info = "" →
  piNodeName (add_pod pvc info pod) = default "" (node_using pvc pod).
Proof.
  intros Hn. unfold add_pod, node_using. destruct (phase_of pod =s? "Running"); cbn [andb]; [|done].
  generalize (claims_of pod). intros claims. revert info Hn.
  induction claims as [|cl claims IH]; intros info Hn; cbn [foldl existsb]; [by rewrite andb_false_r|].
  destruct (mounts pvc cl); cbn [orb]; [|by apply IH]. rewrite andb_true_r.
  destruct (String.eqb_spec (pod_node pod) "") as [Hp|Hp]; cbn [negb].
  - rewrite IH; cbn; [done|by rewrite andb_false_r].
  - rewrite Hn. cbn. clear IH. generalize (piPods info ++ [GetName pod])%list. intros l. revert l.
    induction claims as [|c2 claims IH]; intros l; cbn [foldl]; [done|].
    destruct (mounts pvc c2); cbn; [|apply IH]. apply String.eqb_neq in Hp. rewrite Hp. apply IH.
Qed.

Lemma info_node pvc items info : piNodeName info = "" →
  piNodeName (foldl (add_pod pvc) info items) = default "" (head (omap (node_using pvc) items)).
Proof.
  revert info. induction items as [|pod items IH]; intros info Hn; [done|]. cbn [foldl omap list_omap].
  pose proof (add_pod_found pvc info pod Hn) as Hf. destruct (node_using pvc pod) as [n|] eqn:E; cbn in Hf.
  - cbn. unfold node_using in E. destruct ((phase_of pod =s? "Running") && negb (pod_node pod =s? "") && existsb (mounts pvc) (claims_of pod)) eqn:B; [|done].
    injection E as <-. bool_props. generalize dependent (add_pod pvc info pod). intros i Hi. clear IH.
    revert i Hi. induction items as [|q items IH]; intros i Hi; cbn [foldl]; [done|]. apply IH. rewrite add_pod_node; by rewrite Hi.
  - by apply IH.
Qed.

(** FindPVCNode and GetPVCInfo of the package, although one stops at the first pod and the other
    collects all of them, make the same calls and agree on the node and on when there is none,
    in any environment. *)
Theorem GetPVCInfo_node {S} (h : handler KSig S) client ns pvc s :
  run h (FindPVCNode client ns pvc) s =
  (λ '(out, s'), (match out with
                  | Ret (Ok info) => Ret (Ok info.(piNodeName))
                  | Ret (Err e) => Ret (Err e)
                  | Panic w => Panic w
                  end, s')) (run h (GetPVCInfo client ns pvc) s).
Proof.
  unfold FindPVCNode, GetPVCInfo, bindE. rewrite !run_bind. destruct (run h (bound_claim client ns pvc) s) as [[[pv|e]|w] s1]; [|done..].
  cbn [run pbind mbind prog_bind kcall call]. destruct (h (KList client pods ns None) s1) as [[items|e] s2]; cbn [fst snd]; [|done].
  cbv zeta. rewrite info_node by done. unfold node_using.
  destruct (head (omap _ items)) as [n|] eqn:E; cbn [default]; [|done].
  assert (Hn : n ≠ "").
  { apply head_Some_elem_of, list_elem_of_omap in E as (pod & _ & Hp). repeat case_match; simplify_eq. bool_props. done. }
  cbn [default from_option id]. apply String.eqb_neq in Hn as Hb. rewrite Hb. cbn. rewrite info_node by done. unfold node_using. by rewrite E.
Qed.

(** ** The manager of temporary pods *)

(** Cleanup of [p] was tried. *)
Definition tried (client : Cluster) (p : TempPod) (tr : list (event KSig)) : Prop :=
  ∃ r, Ev (Sg := KSig) (KDelete client pods p.(tpNamespace) p.(tpName)) r ∈ tr.

Lemma Cleanup_tried client ticks p tr out : runs (Cleanup client ticks p) tr out → tried client p tr.
Proof. intros (r & t & -> & _)%(runs_call_inv (Sg := KSig) (KDelete _ _ _ _)). exists r. left. Qed.

Lemma cleanup_each client ticks order (m : Manager) tr m' :
  runs (range_each order m (λ entry m, _ ← Cleanup client ticks entry.2; mret (delete entry.1 m))) tr (Ret m') →
  m' = foldl (λ m (e : string * TempPod), delete e.1 m) m order ∧ Forall (λ e, tried client e.2 tr) order.
Proof.
  revert m tr. induction order as [|e order IH]; intros m tr Hr; [by apply runs_ret_inv in Hr as [_ [= <-]]|].
  cbn [range_each] in Hr. apply runs_bind_inv in Hr as [(m1 & t1 & t2 & H1 & H2 & ->)|(w & _ & [=])].
  apply runs_bind_inv in H1 as [(r & t3 & t4 & H3 & [-> [= ->]]%runs_ret_inv & ->)|(w & _ & [=])].
  destruct (IH _ _ H2) as [-> Hf]. split; [done|]. constructor.
  - destruct (Cleanup_tried _ _ _ _ _ H3) as [a Ha]. exists a. set_solver.
  - eapply Forall_impl; [exact Hf|]. intros x [a Ha]. exists a. set_solver.
Qed.

Lemma delete_all (order : list (string * TempPod)) (m : Manager) :
  foldl (λ m e, delete e.1 m) m order = filter (λ e, e.1 ∉ order.*1) m.
Proof.
  revert m. induction order as [|e order IH]; intros m; cbn [foldl].
  - symmetry. apply map_filter_id. intros k x _. cbn. set_solver.
  - rewrite IH. apply map_eq. intros k. apply option_eq. intros x.
    rewrite !map_lookup_filter_Some, lookup_delete_Some. cbn. set_solver.
Qed.

(** CleanupAll, in whatever order Go ranges over the map, returns nil and tries to delete every
    pod the manager knows, and it forgets them all: a pod whose deletion failed is known to
    nobody afterwards. *)
Theorem CleanupAll_forgets client ticks order (m : Manager) tr r m' :
  order ≡ₚ map_to_list m → runs (CleanupAll client ticks order m) tr (Ret (r, m')) →
  r = Ok tt ∧ m' = ∅ ∧ ∀ name p, m !! name = Some p → tried client p tr.
Proof.
  intros Ho Hr. unfold CleanupAll in Hr. apply runs_bind_inv in Hr as [(m1 & t1 & t2 & H1 & [-> [= -> ->]]%runs_ret_inv & ->)|(w & _ & [=])].
  apply cleanup_each in H1 as [-> Hf]. split; [done|]. split.
  - rewrite delete_all. apply map_empty. intros k. apply map_lookup_filter_None. right. intros x Hk. cbn. intros Hn. apply Hn.
    apply list_elem_of_fmap. exists (k, x). split; [done|]. rewrite Ho. by apply elem_of_map_to_list.
  - intros name p Hp. rewrite app_nil_r. rewrite Forall_forall in Hf. apply (Hf (name, p)). rewrite Ho. by apply elem_of_map_to_list.
Qed.

(** A server that refuses every call. *)
Definition refusing : handler KSig unit := λ o s, (refused o, s).

Definition temp (name : string) : TempPod := mkTempPod name "app" "data" "node-1" 8873 (placeholder name "u").
Definition two_pods : Manager := <["a" := temp "a"]> {["b" := temp "b"]}.

Lemma CleanupAll_forgets_witness :
  let tr := run_trace refusing (CleanupAll Dst 3 (map_to_list two_pods) two_pods) tt in
  two_pods !! "b" = Some (temp "b") ∧ tried Dst (temp "b") tr.
Proof.
  intros tr. split; [reflexivity|].
  refine (proj2 (proj2 (CleanupAll_forgets Dst 3 (map_to_list two_pods) two_pods tr (Ok tt) ∅ _ _)) "b" _ _); [reflexivity| |reflexivity].
  exact (run_trace_runs refusing (CleanupAll Dst 3 (map_to_list two_pods) two_pods) tt).
Defined.
