(* ===== verification/MountPods.v ===== *)
(** * Pods that hold a claim: pkg/controller/remotecluster/temp/pod.go and pkg/pvcmounter

    The pods a RemoteCluster's PVC sync creates for an hour (PodManager), and the pause pods
    that keep a claim mounted (PVCMounter).  wait.ExponentialBackoff and retry.RetryOnConflict
    are parameters with the laws they document; the environment variable is an argument. *)

From S2P Require Import Prelude GoString Errors Types Rfc3339 Kube KubeLogic Lock Helpers TempPod.

(** ** k8s.io/apimachinery/pkg/util/wait and k8s.io/client-go/util/retry *)

Class PodBackoff : Type := BackoffUntil : Z → KP (res bool) → KP (res unit).

(** The condition is tried until it is true or fails, at most [n] times with a sleep in
    between; then the wait times out. *)
Inductive backed_off (cond : KP (res bool)) : nat → list (event KSig) → exec (res unit) → Prop :=
| backed_true n tr : runs cond tr (Ret (Ok true)) → backed_off cond (S n) tr (Ret (Ok tt))
| backed_error n tr e : runs cond tr (Ret (Err e)) → backed_off cond (S n) tr (Ret (Err e))
| backed_again n tr1 tr2 d out :
    runs cond tr1 (Ret (Ok false)) → backed_off cond n tr2 out →
    backed_off cond (S n) (tr1 ++ Ev (Sg := KSig) (KSleep d) tt :: tr2)%list out
| backed_timeout n e : backed_off cond n [] (Ret (Err e))
| backed_last n tr e : runs cond tr (Ret (Ok false)) → backed_off cond (S n) tr (Ret (Err e))
| backed_panic n tr w : runs cond tr (Panic w) → backed_off cond (S n) tr (Panic w).

Class LawfulPodBackoff `{PodBackoff} : Prop :=
  pod_backoff_runs : ∀ steps cond tr out, runs (BackoffUntil steps cond) tr out → backed_off cond (Z.to_nat steps) tr out.

Class ConflictRetry : Type := OnConflict : KP (res unit) → KP (res unit).

(** An attempt that ends in a conflict may be followed by another one. *)
Inductive conflict_retried (fn : KP (res unit)) : list (event KSig) → exec (res unit) → Prop :=
| retried_out tr out : runs fn tr out → conflict_retried fn tr out
| retried_again tr1 tr2 e d out :
    runs fn tr1 (Ret (Err e)) → IsConflict e = true → conflict_retried fn tr2 out →
    conflict_retried fn (tr1 ++ Ev (Sg := KSig) (KSleep d) tt :: tr2)%list out.

Class LawfulConflictRetry `{ConflictRetry} : Prop :=
  conflict_retry_runs : ∀ fn tr out, runs (OnConflict fn) tr out → conflict_retried fn tr out.

(** ** Node affinity *)

(** The first value of the first host name expression [accept] takes. *)
Definition affinity_node `{VolumeCodec} (accept : string → bool) (pv : Object) : option string :=
  match pv.(oBody) with
  | PVBody spec _ _ =>
      match PVNodeTerms spec with
      | Some terms =>
          head (omap (λ expr : string * string * list string,
                        let '(key, operator, values) := expr in
                        if (key =s? "kubernetes.io/hostname") && accept operator then head values else None) (concat terms))
      | None => None
      end
  | _ => None
  end.

(** ** temp/pod.go *)

Record PodOptions : Type := mkPodOptions {
  poNamespace : string;
  poPVCName : string;
  poNodeName : string;
  poImage : string;
  poCommand : list string
}.

Definition temp_pvc_spec (opts : PodOptions) : PodSpec :=
  mkPodSpec "main" (if opts.(poImage) =s? "" then "busybox:latest" else opts.(poImage))
    (match opts.(poCommand) with [] => ["sleep"; "3600"] | c => c end) None [("pvc-data", "/data", "", false)] ∅ ∅ None None
    [("pvc-data", ClaimRef opts.(poPVCName))] "Never" None [] false "".

Definition temp_pvc_labels (pvcName : string) : gmap string string :=
  <["app.kubernetes.io/name" := "dr-syncer-temp"]> (<["app.kubernetes.io/managed-by" := "dr-syncer-controller"]>
  (<["dr-syncer.io/temp-pod" := "true"]> {["dr-syncer.io/pvc" := pvcName]})).

Section PodManager.
Context `{PodCodec} `{VolumeCodec} `{PodBackoff}.
Variable (client : Cluster).

Definition createTempPodForPVC (opts : PodOptions) : KP (res Object) :=
  now ← kcall KNow;
  created ←? kcall (KCreate client pods opts.(poNamespace)
               (pod_object ("temp-pvc-" +:+ opts.(poPVCName) +:+ "-" +:+ FormatStamp now) opts.(poNamespace)
                  (Some (temp_pvc_labels opts.(poPVCName))) None [] opts.(poNodeName) (temp_pvc_spec opts)))
    onerr (wrapf "failed to create temporary pod: ");
  mret (Ok created).

(** [timeout.Seconds() / 5], truncated. *)
Definition ready_steps (timeout : Z) : Z := Z.quot timeout (5 * Second).

Definition pod_is_ready (pod : Object) : bool :=
  (phase_of pod =s? "Running") &&
  existsb (λ c, (c.(pcType) =s? "Ready") && (c.(pcStatus) =s? "True")) (PodConditions (status_of pod)).

Definition ready_condition (namespace name : string) : KP (res bool) :=
  r ← kcall (KGet client pods namespace name);
  mret (match r with
        | Err e => if IsNotFound e then Ok false else Err e
        | Ok pod =>
            if pod_is_ready pod then Ok true
            else if (phase_of pod =s? "Failed") || (phase_of pod =s? "Succeeded") then
              Err (PlainError ("pod " +:+ namespace +:+ "/" +:+ name +:+ " is in phase " +:+ phase_of pod))
            else Ok false
        end).

Definition waitForPodReady (namespace name : string) (timeout : Z) : KP (res unit) :=
  let timeout := if timeout =? 0 then 2 * Minute else timeout in
  _ ←? BackoffUntil (ready_steps timeout) (ready_condition namespace name)
    onerr (wrapf ("timed out waiting for pod " +:+ namespace +:+ "/" +:+ name +:+ " to be ready: "));
  mret (Ok tt).

Definition DeletePod (namespace name : string) : KP (res unit) :=
  r ← kcall (KDelete client pods namespace name);
  match r with
  | Err e => mret (if IsNotFound e then Ok tt else Err (wrapf "failed to delete temporary pod: " e))
  | Ok _ => mret (Ok tt)
  end.

(** The first pod of the claim with a node, whatever its phase. *)
Definition mounting_node (pvcName : string) (pod : Object) : option string :=
  if existsb (mounts pvcName) (claims_of pod) && negb (pod_node pod =s? "") then Some (pod_node pod) else None.

Definition findPVCNode (namespace pvcName : string) : KP (res string) :=
  pvc ←? kcall (KGet client persistentvolumeclaims namespace pvcName) onerr (wrapf "failed to get PVC: ");
  if volume_name pvc =s? "" then errorf "PVC is not bound to a PV"
  else
    pv ←? kcall (KGet client persistentvolumes "" (volume_name pvc)) onerr (wrapf "failed to get PV: ");
    match affinity_node (λ _, true) pv with
    | Some node => mret (Ok node)
    | None =>
        items ←? kcall (KList client pods namespace None) onerr (wrapf "failed to list pods: ");
        match head (omap (mounting_node pvcName) items) with
        | Some node => mret (Ok node)
        | None => errorf ("could not find node for PVC " +:+ namespace +:+ "/" +:+ pvcName)
        end
    end.

Definition CleanupTempPods (namespace : string) : KP (res unit) :=
  items ←? kcall (KList client pods namespace (Some {["dr-syncer.io/temp-pod" := "true"]}))
    onerr (wrapf "failed to list temporary pods: ");
  range_err items tt (λ pod _,
    _ ←? DeletePod (GetNamespace pod) (GetName pod)
      onerr (wrapf ("failed to delete temporary pod " +:+ GetNamespace pod +:+ "/" +:+ GetName pod +:+ ": "));
    mret (Ok tt)).

(** PVCSyncManager.CreateTempPodForPVC of remotecluster/pvc_sync.go, with the clientset made. *)
Definition CreateTempPodForPVC (namespace pvcName : string) : KP (res Object) :=
  found ← findPVCNode namespace pvcName;
  let nodeName := match found with Ok node => node | Err _ => "" end in
  pod ←? createTempPodForPVC (mkPodOptions namespace pvcName nodeName "busybox:latest" ["sleep"; "3600"])
    onerr (plainf "failed to create temporary pod: ");
  w ← waitForPodReady namespace (GetName pod) (2 * Minute);
  match w with
  | Err e => _ ← DeletePod namespace (GetName pod); mret (Err (plainf "failed to wait for pod to be ready: " e))
  | Ok _ => mret (Ok pod)
  end.
End PodManager.

(** ** pvc_mounter.go *)

(** corev1.ResourceRequirements *)
Record Resources : Type := mkResources { rsLimits : gmap string string; rsRequests : gmap string string }.

(** Nil maps and slices are empty. *)
Record MountPodConfig : Type := mkMountPodConfig {
  mcPauseImage : string;
  mcMountPath : string;
  mcPodNamePrefix : string;
  mcLabels : gmap string string;
  mcAnnotations : gmap string string;
  mcResources : option Resources;
  mcEnableNodeAffinity : bool;
  mcTolerations : list Payload;
  mcPodRunningTimeout : Z
}.

Definition or_else (v d : string) : string := if v =s? "" then d else v.

Definition default_mount_config (pauseImage : string) : MountPodConfig :=
  mkMountPodConfig pauseImage "/data" "pvc-mount"
    (<["app.kubernetes.io/managed-by" := "dr-syncer"]> (<["app.kubernetes.io/name" := "pvc-mount-pod"]>
      {["app.kubernetes.io/part-of" := "dr-syncer"]}))
    {["dr-syncer.io/purpose" := "pvc-mount"]}
    (Some (mkResources (<["cpu" := "50m"]> {["memory" := "64Mi"]}) (<["cpu" := "10m"]> {["memory" := "32Mi"]})))
    true [] (2 * Minute).

(** [DR_SYNCER_PAUSE_IMAGE] is [env]. *)
Definition NewPVCMounter (env : option string) (config : option MountPodConfig) : MountPodConfig :=
  let cfg := default_mount_config (or_else (default "" env) "k8s.gcr.io/pause:3.6") in
  match config with
  | None => cfg
  | Some c =>
      mkMountPodConfig (or_else c.(mcPauseImage) cfg.(mcPauseImage)) (or_else c.(mcMountPath) cfg.(mcMountPath))
        (or_else c.(mcPodNamePrefix) cfg.(mcPodNamePrefix)) (c.(mcLabels) ∪ cfg.(mcLabels))
        (c.(mcAnnotations) ∪ cfg.(mcAnnotations))
        (match c.(mcResources) with Some r => Some r | None => cfg.(mcResources) end)
        (if negb c.(mcEnableNodeAffinity) then false else cfg.(mcEnableNodeAffinity))
        (match c.(mcTolerations) with [] => cfg.(mcTolerations) | t => t end)
        (if 0 <? c.(mcPodRunningTimeout) then c.(mcPodRunningTimeout) else cfg.(mcPodRunningTimeout))
  end.

Section Mounter.
Context `{PodCodec} `{VolumeCodec} `{ConflictRetry}.
Variable (client : Cluster) (ticks : nat) (config : MountPodConfig).

(** A pod that runs or will run mounts the claim. *)
Definition holds_claim (pvcName : string) (pod : Object) : bool :=
  ((phase_of pod =s? "Running") || (phase_of pod =s? "Pending")) && existsb (mounts pvcName) (claims_of pod).

Definition IsPVCMounted (namespace pvcName : string) : KP (res bool) :=
  items ←? kcall (KList client pods namespace None) onerr (wrapf ("failed to list pods in namespace " +:+ namespace +:+ ": "));
  mret (Ok (existsb (holds_claim pvcName) items)).

Definition findClaimNode (pvc : Object) : KP (res string) :=
  if volume_name pvc =s? "" then mret (Ok "")
  else
    pv ←? kcall (KGet client persistentvolumes "" (volume_name pvc)) onerr (wrapf ("failed to get PV " +:+ volume_name pvc +:+ ": "));
    match affinity_node (λ operator, operator =s? "In") pv with
    | Some node => mret (Ok node)
    | None =>
        items ←? kcall (KList client pods (GetNamespace pvc) None)
          onerr (wrapf ("failed to list pods in namespace " +:+ GetNamespace pvc +:+ ": "));
        mret (Ok (default "" (head (omap (node_using (GetName pvc)) items))))
    end.

Definition getPodEvents (namespace podName : string) : KP (res (list Object)) :=
  kcall (KListOn client events namespace None
    [("involvedObject.name", podName); ("involvedObject.namespace", namespace); ("involvedObject.kind", "Pod")]).

Definition waitForPodRunning (namespace podName : string) : KP (res unit) :=
  on_ticks ticks (5 * Second)
    (r ← kcall (KGet client pods namespace podName);
     match r with
     | Err e => mret (if IsNotFound e then None else Some (Err (wrapf ("failed to get pod " +:+ podName +:+ ": ") e)))
     | Ok pod =>
         if phase_of pod =s? "Running" then mret (Some (Ok tt))
         else if (phase_of pod =s? "Failed") || (phase_of pod =s? "Succeeded") then
           _ ← getPodEvents namespace podName;
           mret (Some (Err (PlainError ("pod " +:+ podName +:+ " is in terminal state: " +:+ phase_of pod))))
         else mret None
     end)
    (_ ← getPodEvents namespace podName; errorf ("timeout waiting for pod " +:+ podName +:+ " to be running")).

Definition mount_pod_name (pvcName : string) : string := config.(mcPodNamePrefix) +:+ "-" +:+ pvcName.

(** [*m.config.Resources]: the mounter always has resources. *)
Definition mount_pod (pvc : Object) (affinity : option string) : Object :=
  let resources := default (mkResources ∅ ∅) config.(mcResources) in
  pod_object (mount_pod_name (GetName pvc)) (GetNamespace pvc) (Some config.(mcLabels)) (Some config.(mcAnnotations))
    ["v1 PersistentVolumeClaim " +:+ GetName pvc +:+ " " +:+ pvc.(oMeta).(mUID)] ""
    (mkPodSpec "pause" config.(mcPauseImage) [] None [("data", config.(mcMountPath), "", false)]
       resources.(rsLimits) resources.(rsRequests) None None [("data", ClaimRef (GetName pvc))] "Always" affinity
       config.(mcTolerations) false "").

Definition createMountPod (pvc : Object) : KP (res unit) :=
  let podName := mount_pod_name (GetName pvc) in
  let namespace := GetNamespace pvc in
  r ← kcall (KGet client pods namespace podName);
  match r with
  | Ok _ => mret (Ok tt)
  | Err e =>
      if negb (IsNotFound e) then mret (Err (wrapf ("failed to check for existing mount pod " +:+ podName +:+ ": ") e))
      else
        affinity ← (if config.(mcEnableNodeAffinity) then
                      n ← findClaimNode pvc;
                      mret (match n with Ok node => if node =s? "" then None else Some node | Err _ => None end)
                    else mret None);
        _ ←? OnConflict (c ← kcall (KCreate client pods namespace (mount_pod pvc affinity));
                         mret (match c with Ok _ => Ok tt | Err e => Err e end))
          onerr (wrapf ("failed to create mount pod " +:+ podName +:+ ": "));
        waitForPodRunning namespace podName
  end.

Definition EnsurePVCMounted (namespace pvcName : string) : KP (res unit) :=
  pvc ←? kcall (KGet client persistentvolumeclaims namespace pvcName)
    onerr (wrapf ("failed to get PVC " +:+ pvcName +:+ " in namespace " +:+ namespace +:+ ": "));
  mounted ←? IsPVCMounted namespace pvcName onerr (wrapf ("failed to check if PVC " +:+ pvcName +:+ " is mounted: "));
  if (mounted : bool) then mret (Ok tt) else createMountPod pvc.

Definition CleanupMountPod (namespace pvcName : string) : KP (res unit) :=
  let podName := mount_pod_name pvcName in
  r ← kcall (KDelete client pods namespace podName);
  match r with
  | Err e => mret (if IsNotFound e then Ok tt else Err (wrapf ("failed to delete mount pod " +:+ podName +:+ ": ") e))
  | Ok _ => mret (Ok tt)
  end.
End Mounter.
