(* ===== verification/MountPodsProps.v ===== *)
(** * Theorems about the pods that hold a claim

    CreateTempPodForPVC keeps no pod it could not wait for, and what a nil error of
    EnsurePVCMounted means. *)

From S2P Require Import Prelude GoString Errors Types Kube KubeLogic Lock Helpers TempPod DaemonSet TempPodProps MountPods.

(** ** Executions of the waits *)

Section Waits.
Context {PB : PodBackoff} {LPB : LawfulPodBackoff}.

Lemma backed_off_safe (P : Op KSig → Prop) cond n tr out :
  safe P cond anyr → (∀ d, P (KSleep d)) → backed_off cond n tr out → Forall (λ e, P (ev_op e)) tr.
Proof.
  intros Hs Hd Hb.
  assert (Hr : ∀ t o, runs cond t o → Forall (λ e, P (ev_op e)) t) by (intros t o Ht; by apply (safe_sound _ _ _ _ _ Hs Ht)).
  induction Hb as [n tr H|n tr e H|n t1 t2 d out H _ IH|n e|n tr e H|n tr w H]; try by eauto.
  apply Forall_app. split; [by eauto|]. constructor; [apply Hd|done].
Qed.

Lemma backed_off_returns cond n tr out : panicfree cond → backed_off cond n tr out → ∃ r, out = Ret r.
Proof. intros Hp. induction 1 as [| | | | |n tr w H]; try done; try by eexists. by destruct (panicfree_sound _ _ _ Hp H). Qed.

End Waits.

(** ** CreateTempPodForPVC *)

Section TempPods.
Context {PC : PodCodec} {VC : VolumeCodec} {PB : PodBackoff} {LPB : LawfulPodBackoff}.

Lemma findPVCNode_reads client ns pvc : safe reads_only (findPVCNode client ns pvc) anyr.
Proof. unfold findPVCNode. repeat first [done | safe_step]. Qed.

Lemma findPVCNode_panicfree client ns pvc : panicfree (findPVCNode client ns pvc).
Proof. unfold findPVCNode. repeat panicfree_step. Qed.

Lemma waitForPodReady_reads client ns name timeout tr out :
  runs (waitForPodReady client ns name timeout) tr out → Forall (λ e, reads_only (ev_op e)) tr ∧ ∃ r, out = Ret r.
Proof.
  unfold waitForPodReady. cbv zeta. intros Hr.
  assert (Hc : ∀ t o, runs (BackoffUntil (ready_steps (if timeout =? 0 then 2 * Minute else timeout)) (ready_condition client ns name)) t o →
    Forall (λ e, reads_only (ev_op e)) t ∧ ∃ r, o = Ret r).
  { intros t o Ht. apply pod_backoff_runs in Ht. split.
    - revert Ht. apply backed_off_safe; [unfold ready_condition; repeat first [done | safe_step]|done].
    - revert Ht. apply backed_off_returns. unfold ready_condition. repeat panicfree_step. }
  apply runs_bind_inv in Hr as [([u|e] & t1 & t2 & H1 & [-> ->]%runs_ret_inv & ->)|(w & Hr & _)].
  - rewrite app_nil_r. split; [by apply (Hc _ _ H1)|by eexists].
  - rewrite app_nil_r. split; [by apply (Hc _ _ H1)|by eexists].
  - by apply Hc in Hr as [_ [r [=]]].
Qed.

Lemma DeletePod_deletes client ns name tr out :
  runs (DeletePod client ns name) tr out →
  (∃ a, observe (placeholder_watch client ns) (Placed name) tr = Some (Removed name a)) ∧ ∃ r, out = Ret r.
Proof.
  intros (r & t & -> & Hr)%(runs_call_inv (Sg := KSig) (KDelete _ _ _ _)).
  assert (t = [] ∧ ∃ r', out = Ret r') as [-> Ho] by (destruct r; apply runs_ret_inv in Hr as [-> ->]; by eauto).
  split; [|done]. exists r. cbn. by rewrite bool_decide_true, String.eqb_refl by done.
Qed.

(** C20: CreateTempPodForPVC of a RemoteCluster's PVC sync, whatever the servers answer: it returns,
    it writes nothing but one pod in the claim's namespace, created once; when it returns a pod
    it is the one the server created, and no deletion was called; when it returns an error the
    creation was refused, or the deletion of the pod it created was called, whose answer the
    code ignores. *)
Theorem CreateTempPodForPVC_settles client ns pvc tr out :
  runs (CreateTempPodForPVC client ns pvc) tr out →
  ∃ st r, observe (placeholder_watch client ns) NoPlaceholder tr = Some st ∧ out = Ret r ∧
    match r with
    | Ok pod => st = Placed (GetName pod)
    | Err _ => st = CreateFailed ∨ ∃ name a, st = Removed name a
    end.
Proof.
  unfold CreateTempPodForPVC. intros Hr.
  apply runs_bind_inv in Hr as [(found & t1 & t2 & H1 & H2 & ->)|(w & Hr & _)];
    [|by destruct (panicfree_sound _ _ _ (findPVCNode_panicfree client ns pvc) Hr)].
  rewrite observe_app, (reading_observed _ _ _ _ _ _ (findPVCNode_reads _ _ _) H1). cbn [mbind option_bind]. cbv zeta in H2.
  assert (Hc : ∀ opts t o, poNamespace opts = ns → runs (createTempPodForPVC client opts) t o →
    ∃ r, o = Ret r ∧ observe (placeholder_watch client ns) NoPlaceholder t = Some (match r with Ok obj => Placed (GetName obj) | Err _ => CreateFailed end)).
  { intros opts t o Hns (now & t3 & -> & H3)%(runs_call_inv (Sg := KSig) KNow).
    apply (runs_call_inv (Sg := KSig) (KCreate _ _ _ _)) in H3 as (c & t4 & -> & H3).
    assert (t4 = [] ∧ o = Ret (match c with Ok obj => Ok obj | Err e => Err (wrapf "failed to create temporary pod: " e) end)) as [-> ->]
      by (destruct c; by apply runs_ret_inv in H3 as [-> ->]).
    eexists. split; [done|]. cbn. rewrite bool_decide_true by done. by destruct c. }
  apply runs_bind_inv in H2 as [(c & t3 & t4 & H3 & H4 & ->)|(w & Hr & _)]; [|by apply Hc in Hr as (r & [=] & _)].
  apply Hc in H3 as (r & [= <-] & Ho); [|done]. rewrite observe_app, Ho. cbn [mbind option_bind]. clear Ho Hc H1.
  destruct c as [pod|e]; [|apply runs_ret_inv in H4 as [-> ->]; eexists _, _; split; [done|]; split; [done|by left]].
  apply runs_bind_inv in H4 as [(w & t5 & t6 & H5 & H6 & ->)|(w & Hr & _)]; [|by apply waitForPodReady_reads in Hr as [_ [r [=]]]].
  apply waitForPodReady_reads in H5 as [H5 _]. rewrite observe_app, (observe_reads _ _ _ _ H5). cbn [mbind option_bind].
  destruct w as [u|e]; [by apply runs_ret_inv in H6 as [-> ->]; eexists _, _|].
  apply runs_bind_inv in H6 as [(d & t7 & t8 & H7 & [-> ->]%runs_ret_inv & ->)|(w & Hr & _)].
  - apply DeletePod_deletes in H7 as [[a H7] _]. rewrite app_nil_r, H7. eexists _, _. split; [done|]. split; [done|]. right. by eexists _, _.
  - by apply DeletePod_deletes in Hr as [_ [r [=]]].
Qed.
End TempPods.

(** ** EnsurePVCMounted *)

Section Mounted.
Context {PC : PodCodec} {VC : VolumeCodec} {CR : ConflictRetry} {LCR : LawfulConflictRetry}.

Lemma runs_on_ticks_ok {A} ticks interval (body : KP (option (res A))) expired tr a :
  runs (on_ticks ticks interval body expired) tr (Ret (Ok a)) →
  (∀ t, ¬ runs expired t (Ret (Ok a))) →
  ∃ t1 t2, runs body t2 (Ret (Some (Ok a))) ∧ tr = (t1 ++ t2)%list.
Proof.
  revert tr. induction ticks as [|n IH]; intros tr Hr He; cbn [on_ticks] in Hr; [by destruct (He tr)|].
  apply (runs_call_inv (Sg := KSig) (KWait interval)) in Hr as (b & t & -> & Hr). destruct b; [|by destruct (He t)].
  apply runs_bind_inv in Hr as [([x|] & t1 & t2 & H1 & H2 & ->)|(w & _ & [=])].
  - apply runs_ret_inv in H2 as [-> [= ->]]. exists [Ev (Sg := KSig) (KWait interval) true], t1. by rewrite app_nil_r.
  - destruct (IH _ H2 He) as (t3 & t4 & Hb & ->). exists (Ev (Sg := KSig) (KWait interval) true :: t1 ++ t3)%list, t4.
    split; [done|]. cbn. by rewrite <- app_assoc.
Qed.

Lemma waitForPodRunning_ok client ticks ns name tr :
  runs (waitForPodRunning client ticks ns name) tr (Ret (Ok tt)) →
  ∃ pod, Ev (Sg := KSig) (KGet client pods ns name) (Ok pod) ∈ tr ∧ phase_of pod = "Running".
Proof.
  intros Hr. apply runs_on_ticks_ok in Hr as (t1 & t2 & Hb & ->).
  - apply (runs_call_inv (Sg := KSig) (KGet _ _ _ _)) in Hb as (r & t & -> & Hb). destruct r as [pod|e].
    2: { apply runs_ret_inv in Hb as [_ [=]]. by destruct (IsNotFound e). }
    destruct (String.eqb_spec (phase_of pod) "Running") as [Hp|Hp]; [exists pod; set_solver|].
    destruct ((phase_of pod =s? "Failed") || (phase_of pod =s? "Succeeded")); [|by apply runs_ret_inv in Hb as [_ [=]]].
    apply (runs_call_inv (Sg := KSig) (KListOn _ _ _ _ _)) in Hb as (r & t' & -> & Hb). by apply runs_ret_inv in Hb as [_ [=]].
  - intros t Ht. apply (runs_call_inv (Sg := KSig) (KListOn _ _ _ _ _)) in Ht as (r & t' & -> & Ht). by apply runs_ret_inv in Ht as [_ [=]].
Qed.

Lemma conflict_create client ns x tr :
  conflict_retried (c ← kcall (KCreate client pods ns x); mret (match c with Ok _ => Ok tt | Err e => Err e end)) tr (Ret (Ok tt)) →
  ∃ y, Ev (Sg := KSig) (KCreate client pods ns x) (Ok y) ∈ tr.
Proof.
  remember (Ret (Ok tt)) as out eqn:Eo. intros Hc. induction Hc as [tr out Hr|t1 t2 e d out _ _ _ IH]; subst out.
  - apply (runs_call_inv (Sg := KSig) (KCreate _ _ _ _)) in Hr as (r & t & -> & Hr). apply runs_ret_inv in Hr as [_ Hr].
    destruct r as [y|e]; [|by injection Hr]. exists y. left.
  - destruct (IH eq_refl) as [y Hy]. exists y. set_solver.
Qed.

(** How a claim counts as mounted: some pod holds it, its mount pod was there already, or a
    mount pod was created and seen to run. *)
Definition mounted_by (client : Cluster) (config : MountPodConfig) (ns pvcName : string) (tr : list (event KSig)) : Prop :=
  (∃ items, Ev (Sg := KSig) (KList client pods ns None) (Ok items) ∈ tr ∧ existsb (holds_claim pvcName) items = true) ∨
  ∃ pvc pod, Ev (Sg := KSig) (KGet client persistentvolumeclaims ns pvcName) (Ok pvc) ∈ tr ∧
    Ev (Sg := KSig) (KGet client pods (GetNamespace pvc) (mount_pod_name config (GetName pvc))) (Ok pod) ∈ tr ∧
    (Forall (λ e, reads_only (ev_op e)) tr ∨
     (phase_of pod = "Running" ∧
      ∃ affinity x, Ev (Sg := KSig) (KCreate client pods (GetNamespace pvc) (mount_pod config pvc affinity)) (Ok x) ∈ tr)).

Lemma createMountPod_ok client ticks config pvc tr :
  runs (createMountPod client ticks config pvc) tr (Ret (Ok tt)) →
  ∃ pod, Ev (Sg := KSig) (KGet client pods (GetNamespace pvc) (mount_pod_name config (GetName pvc))) (Ok pod) ∈ tr ∧
    (Forall (λ e, reads_only (ev_op e)) tr ∨
     (phase_of pod = "Running" ∧
      ∃ affinity x, Ev (Sg := KSig) (KCreate client pods (GetNamespace pvc) (mount_pod config pvc affinity)) (Ok x) ∈ tr)).
Proof.
  unfold createMountPod. cbv zeta. intros (r & t & -> & Hr)%(runs_call_inv (Sg := KSig) (KGet _ _ _ _)).
  destruct r as [pod|e].
  { apply runs_ret_inv in Hr as [-> _]. exists pod. split; [left|]. left. by constructor. }
  destruct (negb (IsNotFound e)); [by apply runs_ret_inv in Hr as [_ [=]]|].
  apply runs_bind_inv in Hr as [(affinity & t1 & t2 & _ & Hr & ->)|(w & _ & [=])].
  apply runs_bindE_ok in Hr as ([] & t3 & t4 & H3 & H4 & ->).
  apply conflict_retry_runs, conflict_create in H3 as [y Hy]. apply waitForPodRunning_ok in H4 as (pod & Hg & Hp).
  exists pod. split; [set_solver|]. right. split; [done|]. exists affinity, y. set_solver.
Qed.

(** When EnsurePVCMounted returns nil, a pod of the namespace that runs or is pending mounts the
    claim, or a mount pod was created for it and seen to run, or a pod of that name existed
    already, in which case nothing was written and nothing is known of its phase. *)
Theorem EnsurePVCMounted_mounts client ticks config ns pvcName tr :
  runs (EnsurePVCMounted client ticks config ns pvcName) tr (Ret (Ok tt)) → mounted_by client config ns pvcName tr.
Proof.
  unfold EnsurePVCMounted. intros Hr. apply runs_bind_inv in Hr as [([pvc|e] & t1 & t2 & H1 & H2 & ->)|(w & _ & [=])];
    [|by apply runs_ret_inv in H2 as [_ [=]]].
  apply (runs_call_inv (Sg := KSig) (KGet _ _ _ _)) in H1 as (r & t & -> & H1). apply runs_ret_inv in H1 as [-> [= <-]].
  apply runs_bindE_ok in H2 as (mounted & t3 & t4 & H3 & H4 & ->).
  apply runs_bindE_ok in H3 as (items & t5 & t6 & H5 & [-> [= ->]]%runs_ret_inv & ->).
  apply (runs_call_inv (Sg := KSig) (KList _ _ _ _)) in H5 as (r & t7 & -> & H5). apply runs_ret_inv in H5 as [-> [= <-]].
  destruct (existsb (holds_claim pvcName) items) eqn:E; [left; exists items; split; [set_solver|done]|].
  apply createMountPod_ok in H4 as (pod & Hg & Hm). right. exists pvc, pod. split; [set_solver|]. split; [set_solver|].
  destruct Hm as [Hm|(Hp & affinity & x & Hx)]; [left|right; split; [done|]; exists affinity, x; set_solver].
  cbn. repeat (constructor; [done|]). done.
Qed.
End Mounted.

(** ** Lawful instances and witnesses *)

Fixpoint backoff_rounds (n : nat) (cond : KP (res bool)) : KP (res unit) :=
  match n with
  | O => errorf "timed out waiting for the condition"
  | S n' =>
      r ← cond;
      match r with
      | Ok true => mret (Ok tt)
      | Ok false => _ ← kcall (KSleep Second); backoff_rounds n' cond
      | Err e => mret (Err e)
      end
  end.

Lemma backoff_rounds_backed n cond tr out : runs (backoff_rounds n cond) tr out → backed_off cond n tr out.
Proof.
  revert tr. induction n as [|n IH]; intros tr Hr; cbn [backoff_rounds] in Hr; [apply runs_ret_inv in Hr as [-> ->]; constructor|].
  apply runs_bind_inv in Hr as [(r & t1 & t2 & H1 & H2 & ->)|(w & Hr & ->)]; [|by constructor].
  destruct r as [[]|e]; [apply runs_ret_inv in H2 as [-> ->]; rewrite app_nil_r; by constructor| |
                         apply runs_ret_inv in H2 as [-> ->]; rewrite app_nil_r; by constructor].
  apply (runs_call_inv (Sg := KSig) (KSleep _)) in H2 as ([] & t & -> & H2). constructor; [done|]. by apply IH.
Qed.

#[local] Instance rounds_backoff : PodBackoff := λ steps, backoff_rounds (Z.to_nat steps).

#[local] Instance rounds_backoff_lawful : LawfulPodBackoff.
Proof. intros steps cond tr out. apply backoff_rounds_backed. Qed.

Fixpoint conflict_rounds (n : nat) (fn : KP (res unit)) : KP (res unit) :=
  r ← fn;
  match r, n with
  | Err e, S n' => if IsConflict e then _ ← kcall (KSleep (10 * Millisecond)); conflict_rounds n' fn else mret (Err e)
  | r, _ => mret r
  end.

#[local] Instance rounds_conflict : ConflictRetry := conflict_rounds 4.

#[local] Instance rounds_conflict_lawful : LawfulConflictRetry.
Proof.
  intros fn tr out. unfold OnConflict, rounds_conflict. generalize 4%nat. intros n. revert tr.
  induction n as [|n IH]; intros tr Hr; cbn [conflict_rounds] in Hr;
    (apply runs_bind_inv in Hr as [(r & t1 & t2 & H1 & H2 & ->)|(w & Hr & ->)]; [|by constructor]).
  - destruct r; apply runs_ret_inv in H2 as [-> ->]; rewrite app_nil_r; by constructor.
  - destruct r as [u|e]; [apply runs_ret_inv in H2 as [-> ->]; rewrite app_nil_r; by constructor|].
    destruct (IsConflict e) eqn:E; [|apply runs_ret_inv in H2 as [-> ->]; rewrite app_nil_r; by constructor].
    apply (runs_call_inv (Sg := KSig) (KSleep _)) in H2 as ([] & t & -> & H2). eapply retried_again; [done|done|]. by apply IH.
Qed.

#[local] Existing Instance text_pods.
#[local] Existing Instance csi_volumes.

(** The pod runs but never reports to be ready: it is deleted again. *)
Lemma CreateTempPodForPVC_settles_witness :
  let p := CreateTempPodForPVC Dst "app-dr" "data" in
  (run (claim_world [] 99) p (None, 0%nat)).2.1 = None ∧
  ∃ st r, observe (placeholder_watch Dst "app-dr") NoPlaceholder (run_trace (claim_world [] 99) p (None, 0%nat)) = Some st ∧
    (run (claim_world [] 99) p (None, 0%nat)).1 = Ret r ∧
    match r with
    | Ok pod => st = Placed (GetName pod)
    | Err _ => st = CreateFailed ∨ ∃ name a, st = Removed name a
    end.
Proof.
  intros p. split; [vm_compute; reflexivity|].
  apply (CreateTempPodForPVC_settles Dst "app-dr" "data"), run_trace_runs.
Defined.

(** A namespace without pods but for the mount pod of the claim, if any, in a phase. *)
Definition mount_world (phase : string) : handler KSig (option string) := λ o s,
  let pod name := mkObject (mkGVK "" "" "") (meta name "app-dr" "u9") (PodBody (mkPodFields [Some "data"] "" phase "" "")) in
  match o as o return KResp o * option string with
  | KGet _ r _ name =>
      if bool_decide (r = persistentvolumeclaims) then (Ok data_claim, s)
      else if bool_decide (r = persistentvolumes) then (Ok data_volume, s)
      else if bool_decide (s = Some name) then (Ok (pod name), s) else (Err (StatusError NotFound "not found"), s)
  | KList _ _ _ _ => (Ok (match s with Some n => [pod n] | None => [] end), s)
  | KCreate _ _ _ x => (Ok x, Some (GetName x))
  | KWait _ => (true, s)
  | o => (refused o, s)
  end.

Definition mounter : MountPodConfig := NewPVCMounter None None.

Lemma EnsurePVCMounted_mounts_witness :
  mounted_by Dst mounter "app-dr" "data" (run_trace (mount_world "Running") (EnsurePVCMounted Dst 3 mounter "app-dr" "data") None).
Proof.
  apply (EnsurePVCMounted_mounts Dst 3 mounter "app-dr" "data").
  exact (run_trace_runs (mount_world "Running") (EnsurePVCMounted Dst 3 mounter "app-dr" "data") None).
Defined.

(** The mount pod failed long ago: EnsurePVCMounted returns nil, and no pod holds the claim. *)
Example EnsurePVCMounted_failed_pod :
  (run (mount_world "Failed") (EnsurePVCMounted Dst 3 mounter "app-dr" "data") (Some "pvc-mount-data")) =
    (Ret (Ok tt), Some "pvc-mount-data") ∧
  holds_claim "data" (mkObject (mkGVK "" "" "") (meta "pvc-mount-data" "app-dr" "u9")
    (PodBody (mkPodFields [Some "data"] "" "Failed" "" ""))) = false.
Proof. split; vm_compute; reflexivity. Qed.

(** A configuration that does not mention node affinity turns it off; none leaves it on. *)
Lemma NewPVCMounter_affinity env c :
  mcEnableNodeAffinity (NewPVCMounter env (Some c)) = mcEnableNodeAffinity c ∧
  mcEnableNodeAffinity (NewPVCMounter env None) = true.
Proof. split; [|done]. cbn. by destruct (mcEnableNodeAffinity c). Qed.
