(* ===== verification/Coordinator.v ===== *)
(** * The sync coordinator: pkg/agent/sync and pkg/agent/rsync

    Claims are discovered on the nodes of the source cluster, and for each one a claim and a
    sync pod are created in the target cluster, rsync is run with retries, and the resources of
    the sync are removed.  Decoding a claim's status and parsing a quantity are parameters
    ([ClaimCodec]), and so are wait.PollImmediate and the pool of workers, each with its law. *)

From S2P Require Import Prelude GoString Float Errors Types Duration Kube KubeLogic Lock Helpers TempPod MountPods.
From Stdlib Require Import Ascii.

(** ** pkg/agent/rsync *)

Record Options : Type := mkOptions {
  roSource : string;
  roDestination : string;
  roExclude : list string;
  roDelete : bool;
  roCompress : bool;
  roArchive : bool;
  roVerbose : bool
}.

Definition DefaultOptions : Options := mkOptions "" "" [] true true true false.

Definition flag (b : bool) (f : string) : list string := if b then [f] else [].

Definition buildRsyncArgs (opts : Options) : list string :=
  (flag opts.(roArchive) "-a" ++ flag opts.(roDelete) "--delete" ++ flag opts.(roCompress) "-z" ++ flag opts.(roVerbose) "-v" ++
   (opts.(roExclude) ≫= λ e, ["--exclude"; e]) ++ ["--progress"; opts.(roSource); opts.(roDestination)])%list.

Definition command_error (e : CommandError) : string := match e with ExitError _ msg => msg | StartError msg => msg end.

Definition Sync (opts : Options) : KP (res unit) :=
  r ← kcall (KCommand "rsync" (buildRsyncArgs opts));
  match r with
  | (output, Some e) => errorf ("rsync failed: " +:+ command_error e +:+ ", output: " +:+ output)
  | (_, None) => mret (Ok tt)
  end.

(** A remote path has exactly one colon. *)
Definition remote_ok (path : string) : bool := negb (Contains path ":") || (length (Split path ":"%char) =? 2)%nat.

Definition ValidateOptions (opts : Options) : res unit :=
  if opts.(roSource) =s? "" then Err (PlainError "source path is required")
  else if opts.(roDestination) =s? "" then Err (PlainError "destination path is required")
  else if negb (remote_ok opts.(roSource)) then Err (PlainError ("invalid source path format: " +:+ opts.(roSource)))
  else if negb (remote_ok opts.(roDestination)) then Err (PlainError ("invalid destination path format: " +:+ opts.(roDestination)))
  else Ok tt.

(** ** Claims and their directories: pvc.go *)

(** PVCInfo *)
Record ClaimInfo : Type := mkClaimInfo {
  ciName : string;
  ciNamespace : string;
  ciNode : string;
  ciVolumePath : string;
  ciVolumeType : string;
  ciStorageClass : string;
  ciAccessModes : list string;
  ciCapacity : string;
  ciBoundPodNames : list string
}.

Class ClaimCodec : Type := {
  ClaimCapacity : Payload → string;
  ParseQuantity : string → option Z
}.

(** [kubelet], [pods], [volumes] and the prefix of a volume plugin's directory *)
Definition getVolumePath (podUID : string) (source : VolumeSource) : string :=
  let podVolumePath := JoinPath ["/var/lib/kubelet"; "pods"; podUID; "volumes"] in
  match source with
  | HostPathSource path => path
  | LocalSource path => path
  | CSISource driver handle => JoinPath [podVolumePath; JoinPath ["kubernetes.io~csi"; driver; handle]]
  | OtherSource => ""
  end.

Definition getVolumeType (source : VolumeSource) : string :=
  match source with
  | HostPathSource _ => "HostPath"
  | LocalSource _ => "Local"
  | CSISource driver _ => "CSI (" +:+ driver +:+ ")"
  | OtherSource => "Unknown"
  end.

Definition derefString (s : option string) : string := default "" s.

Definition same_claim (a b : ClaimInfo) : bool := (a.(ciName) =s? b.(ciName)) && (a.(ciNamespace) =s? b.(ciNamespace)).

(** Add a pod to the entry of the claim, or a new entry. *)
Fixpoint add_info (info : ClaimInfo) (infos : list ClaimInfo) : list ClaimInfo :=
  match infos with
  | [] => [info]
  | i :: rest =>
      if same_claim i info then
        mkClaimInfo i.(ciName) i.(ciNamespace) i.(ciNode) i.(ciVolumePath) i.(ciVolumeType) i.(ciStorageClass) i.(ciAccessModes)
          i.(ciCapacity) (i.(ciBoundPodNames) ++ info.(ciBoundPodNames))%list :: rest
      else i :: add_info info rest
  end.

Section Discovery.
Context `{VolumeCodec} `{ClaimCodec}.
Variable (client : Cluster).

Definition claim_info (nodeName : string) (pod pvc : Object) (source : VolumeSource) : ClaimInfo :=
  let '(modes, class, status) := match pvc.(oBody) with
                                 | PVCBody s status => (s.(pvcAccessModes), s.(pvcStorageClassName), status)
                                 | _ => ([], None, "")
                                 end in
  mkClaimInfo (GetName pvc) (GetNamespace pvc) nodeName (getVolumePath pod.(oMeta).(mUID) source) (getVolumeType source)
    (derefString class) modes (ClaimCapacity status) [GetName pod].

(** One volume of a pod. *)
Definition discover_volume (nodeName : string) (pvcs : list Object) (pod : Object) (claim : option string) (infos : list ClaimInfo)
    : KP (list ClaimInfo) :=
  match claim with
  | None => mret infos
  | Some claimName =>
      match List.find (λ p, (GetName p =s? claimName) && (GetNamespace p =s? GetNamespace pod)) pvcs with
      | None => mret infos
      | Some pvc =>
          r ← kcall (KGet client persistentvolumes "" (volume_name pvc));
          match r with
          | Err _ => mret infos
          | Ok pv =>
              let info := claim_info nodeName pod pvc (source_of pv) in
              mret (if info.(ciVolumePath) =s? "" then infos else add_info info infos)
          end
      end
  end.

Definition DiscoverPVCs (nodeName : string) : KP (res (list ClaimInfo)) :=
  pvcs ←? kcall (KList client persistentvolumeclaims "" None) onerr (plainf "failed to list PVCs: ");
  podList ←? kcall (KListOn client pods "" None [("spec.nodeName", nodeName)]) onerr (plainf "failed to list pods: ");
  infos ← range_each podList [] (λ pod infos,
            range_each (claims_of pod) infos (λ claim infos, discover_volume nodeName pvcs pod claim infos));
  mret (Ok infos).

Definition SyncPVC (info : ClaimInfo) (targetNode targetPath : string) : KP (res unit) :=
  let opts := mkOptions (info.(ciVolumePath) +:+ "/") ("syncer@" +:+ targetNode +:+ ":" +:+ targetPath) DefaultOptions.(roExclude)
                true true true DefaultOptions.(roVerbose) in
  _ ←? Sync opts onerr (plainf "failed to sync PVC data: "); mret (Ok tt).
End Discovery.

(** ** Polling and workers *)

(** [wait.PollImmediate(interval, timeout, condition)] *)
Class ImmediatePoller : Type := PollImmediate : Z → Z → KP (res bool) → KP (res unit).

Class LawfulImmediatePoller `{ImmediatePoller} : Prop :=
  poll_immediate_runs : ∀ interval timeout cond tr out,
    runs (PollImmediate interval timeout cond) tr out → ∃ n, backed_off cond (S n) tr out.

(** [merged trs tr]: the calls [tr] are those of the traces [trs], in some interleaving. *)
Inductive merged {E : Type} : list (list E) → list E → Prop :=
| merged_done trs : Forall (λ t, t = []) trs → merged trs []
| merged_step trs i e t tr : trs !! i = Some (e :: t) → merged (<[i := t]> trs) tr → merged trs (e :: tr).

(** [concurrency] goroutines that take the jobs from a channel and send what a job reports to
    another one; all that was sent, in the order it arrived. *)
Class WorkerPool : Type := Workers : Z → list (KP (list error)) → KP (list error).

(** Without a worker no job is taken; otherwise every job is done once, interleaved with the
    others. *)
Class LawfulWorkers `{WorkerPool} : Prop := {
  workers_none : ∀ concurrency jobs tr out, concurrency ≤ 0 → runs (Workers concurrency jobs) tr out → tr = [] ∧ out = Ret [];
  workers_all : ∀ concurrency jobs tr errs, 0 < concurrency → runs (Workers concurrency jobs) tr (Ret errs) →
    ∃ trs sent, Forall2 (λ job '(t, s), runs job t (Ret s)) jobs (zip trs sent) ∧ length trs = length jobs ∧
      length sent = length jobs ∧ merged trs tr ∧ errs ≡ₚ concat sent
}.

(** ** coordinator.go *)

Definition match_labels : list string :=
  ["kubernetes.io/arch"; "kubernetes.io/os"; "kubernetes.io/hostname"; "topology.kubernetes.io/zone";
   "topology.kubernetes.io/region"; "node.kubernetes.io/instance-type"].

(** One of the labels is on both nodes with the same value. *)
Definition matchNodeLabels (sourceLabels targetLabels : option (gmap string string)) : bool :=
  existsb (λ label, match get_key sourceLabels label, get_key targetLabels label with
                    | Some s, Some t => s =s? t
                    | _, _ => false
                    end) match_labels.

Definition containsAccessMode (modes : list string) (mode : string) : bool := existsb (λ m, m =s? mode) modes.

Section Coordinator.
Context `{VolumeCodec} `{ClaimCodec} `{PodCodec} `{ImmediatePoller} `{WorkerPool}.
Variable (concurrency : Z) (retryConfig : option PVCSyncRetryConfig).

(** [time.Duration(float64(delay) * 2)], at most [maxDelay] *)
Definition next_delay (delay maxDelay : Z) : Z :=
  let d := f64_to_int64 (r64 (2 * r64 delay)) in if maxDelay <? d then maxDelay else d.

(** [n] attempts are left. *)
Fixpoint sync_attempts (n : nat) (delay maxDelay : Z) (info : ClaimInfo) (targetNode targetPath : string) : KP (res unit) :=
  match n with
  | O => mret (Ok tt)
  | S n' =>
      r ← SyncPVC info targetNode targetPath;
      match r with
      | Ok _ => mret (Ok tt)
      | Err e =>
          match n' with
          | O => mret (Err (plainf "max retries reached: " e))
          | S _ =>
              fired ← kcall (KWait delay);
              if (fired : bool) then sync_attempts n' (next_delay delay maxDelay) maxDelay info targetNode targetPath
              else mret (Err (PlainError "context canceled"))
          end
      end
  end.

Definition syncWithRetry (info : ClaimInfo) (targetNode targetPath : string) : KP (res unit) :=
  match retryConfig with
  | None => panic "invalid memory address or nil pointer dereference"
  | Some c =>
      sync_attempts (Z.to_nat (c.(prMaxRetries) + 1)) (default 0 (ParseDuration c.(prInitialDelay)))
        (default 0 (ParseDuration c.(prMaxDelay))) info targetNode targetPath
  end.

Definition sync_pod_labels (pvc ns : string) : gmap string string :=
  <["dr-syncer.io/sync-pod" := "true"]> (<["dr-syncer.io/source-pvc" := pvc]> {["dr-syncer.io/source-ns" := ns]}).

(** [pod.Labels[key]] *)
Definition pod_label (pod : Object) (key : string) : string := default "" (get_key pod.(oMeta).(mLabels) key).

(** When no other sync pod of the claim is left, the claim itself is deleted. *)
Definition delete_unused_claim (pod : Object) : KP (res unit) :=
  let pvc := pod_label pod "dr-syncer.io/source-pvc" in
  let ns := pod_label pod "dr-syncer.io/source-ns" in
  podList ←? kcall (KList Dst pods "" (Some (sync_pod_labels pvc ns))) onerr (plainf "failed to list sync pods: ");
  match podList with
  | [] =>
      r ← kcall (KDelete Dst persistentvolumeclaims ns pvc);
      match r with
      | Err e => if IsNotFound e then mret (Ok tt) else mret (Err (plainf "failed to delete PVC: " e))
      | Ok _ => mret (Ok tt)
      end
  | _ => mret (Ok tt)
  end.

(** What follows the deletion of the pod; an error of the wait is logged. *)
Definition after_deletion (pod : Object) : KP (res unit) :=
  _ ← PollImmediate (2 * Second) (30 * Second)
        (r ← kcall (KGet Dst pods (GetNamespace pod) (GetName pod));
         mret (match r with Ok _ => Ok false | Err e => if IsNotFound e then Ok true else Err e end));
  delete_unused_claim pod.

Definition cleanupSyncResources (pod : Object) : KP (res unit) :=
  d ← kcall (KDelete Dst pods (GetNamespace pod) (GetName pod));
  match d with
  | Err e => if IsNotFound e then after_deletion pod else mret (Err (plainf "failed to delete sync pod: " e))
  | Ok _ => after_deletion pod
  end.

Definition target_claim (info : ClaimInfo) (size : Z) : Object :=
  mkObject (mkGVK "" "" "")
    (mkObjectMeta info.(ciName) info.(ciNamespace) "" "" "" None [] [] 0 []
       (Some (<["dr-syncer.io/managed-by" := "dr-syncer"]> (<["dr-syncer.io/source-pvc" := info.(ciName)]>
              {["dr-syncer.io/source-ns" := info.(ciNamespace)]})))
       (Some {["dr-syncer.io/source-size" := info.(ciCapacity)]}))
    (PVCBody (mkPVCSpec info.(ciAccessModes) None (Some {["storage" := size]}) "" "" (Some info.(ciStorageClass)) None None None) "").

(** The existing claim is enlarged when the source is larger; an error is logged, and a claim
    without requests panics. *)
Definition enlarge (info : ClaimInfo) (size : Z) (existing : Object) : KP unit :=
  match existing.(oBody) with
  | PVCBody s status =>
      if default 0 (s.(pvcRequests) ≫= λ m, m !! "storage") <? size then
        match s.(pvcRequests) with
        | None => panic "assignment to entry in nil map"
        | Some m =>
            _ ← kcall (KUpdate Dst persistentvolumeclaims info.(ciNamespace)
                  (set_oBody (PVCBody (set_pvcRequests (Some (<["storage" := size]> m)) s) status) existing));
            mret tt
        end
      else mret tt
  | _ => mret tt
  end.

Definition pvc_text (info : ClaimInfo) : string := info.(ciNamespace) +:+ "/" +:+ info.(ciName) +:+ ": ".

(** The claim of the target exists afterwards, or there is an error.  A claim that was created
    and is not found when it is read again is created a second time, from the object the server
    answered. *)
Definition ensure_claim (info : ClaimInfo) (size : Z) : KP (res unit) :=
  let failed e := Err (plainf ("failed to create target PVC " +:+ pvc_text info) e) in
  let look claim :=
    r ← kcall (KGet Dst persistentvolumeclaims info.(ciNamespace) info.(ciName));
    match r with
    | Ok existing => _ ← enlarge info size existing; mret (Ok tt)
    | Err e =>
        if negb (IsNotFound e) then mret (Err (plainf "failed to check existing PVC: " e))
        else
          c ← kcall (KCreate Dst persistentvolumeclaims info.(ciNamespace) claim);
          mret (match c with Ok _ => Ok tt | Err e => failed e end)
    end in
  c ← kcall (KCreate Dst persistentvolumeclaims info.(ciNamespace) (target_claim info size));
  match c with
  | Ok created => look created
  | Err e => if IsAlreadyExists e then look (target_claim info size) else mret (failed e)
  end.

Definition sync_pod_name (info : ClaimInfo) : string := "sync-" +:+ info.(ciName).

Definition sync_pod (info : ClaimInfo) (nodeName : string) : Object :=
  pod_object (sync_pod_name info) info.(ciNamespace)
    (Some (<["dr-syncer.io/managed-by" := "dr-syncer"]> (sync_pod_labels info.(ciName) info.(ciNamespace)))) None [] nodeName
    (mkPodSpec "sync" "busybox" ["sleep"; "infinity"] None [("data", "/data", "", false)] ∅ ∅ None None
       [("data", ClaimRef info.(ciName))] "" None [] false "").

(** The sync pod, once it was created and runs; it is the server's answer, or the one of the
    request when there was such a pod already. *)
Definition ensure_sync_pod (info : ClaimInfo) (nodeName : string) : KP (res Object) :=
  let wait_running syncPod :=
    _ ←? PollImmediate (5 * Second) (2 * Minute)
           (r ← kcall (KGet Dst pods (GetNamespace syncPod) (GetName syncPod));
            mret (match r with Err e => Err e | Ok pod => Ok (phase_of pod =s? "Running") end))
      onerr (plainf ("failed waiting for sync pod " +:+ GetNamespace syncPod +:+ "/" +:+ GetName syncPod +:+ " to be ready: "));
    mret (Ok syncPod) in
  c ← kcall (KCreate Dst pods info.(ciNamespace) (sync_pod info nodeName));
  match c with
  | Ok created => wait_running created
  | Err e =>
      if IsAlreadyExists e then wait_running (sync_pod info nodeName)
      else mret (Err (plainf ("failed to create sync pod for PVC " +:+ pvc_text info) e))
  end.

(** The body of a worker for one claim: the errors it sends. *)
Definition sync_one (targetNodes : list Object) (first : Object) (info : ClaimInfo) : KP (list error) :=
  r ← kcall (KGet Src nodes "" info.(ciNode));
  match r with
  | Err e => mret [plainf ("failed to get source node " +:+ info.(ciNode) +:+ ": ") e]
  | Ok sourceNode =>
      let targetNode := default first (List.find (λ n, matchNodeLabels sourceNode.(oMeta).(mLabels) n.(oMeta).(mLabels)) targetNodes) in
      match ParseQuantity info.(ciCapacity) with
      | None => panic "cannot parse quantity"
      | Some size =>
          c ← ensure_claim info size;
          match c with
          | Err e => mret [e]
          | Ok _ =>
              let nodeName := if containsAccessMode info.(ciAccessModes) "ReadWriteMany" then GetName first else GetName targetNode in
              p ← ensure_sync_pod info nodeName;
              match p with
              | Err e => mret [e]
              | Ok syncPod =>
                  s ← syncWithRetry info (GetName targetNode) (JoinPath ["/data"]);
                  _ ← cleanupSyncResources syncPod;
                  mret (match s with Ok _ => [] | Err e => [plainf ("failed to sync PVC " +:+ pvc_text info) e] end)
              end
          end
      end
  end.

(** The claims of all nodes; a node whose claims cannot be found is skipped. *)
Definition discover_all (sourceNodes : list Object) : KP (list ClaimInfo) :=
  range_each sourceNodes [] (λ node all,
    r ← DiscoverPVCs Src (GetName node);
    mret (match r with Ok infos => (all ++ infos)%list | Err _ => all end)).

Definition SyncPVCs : KP (res unit) :=
  sourceNodes ←? kcall (KList Src nodes "" None) onerr (plainf "failed to list source nodes: ");
  targetNodes ←? kcall (KList Dst nodes "" None) onerr (plainf "failed to list target nodes: ");
  match targetNodes with
  | [] => errorf "no nodes found in target cluster"
  | first :: _ =>
      allPVCs ← discover_all sourceNodes;
      syncErrors ← Workers concurrency (sync_one targetNodes first <$> allPVCs);
      match syncErrors with
      | [] => mret (Ok tt)
      | e :: _ => errorf ("encountered " +:+ itoa (Z.of_nat (length syncErrors)) +:+ " sync errors: " +:+ Error e)
      end
  end.
End Coordinator.
