(* ===== verification/CoordinatorProps.v ===== *)
(** * Theorems about the sync coordinator

    How often and with which waits a transfer is tried, what a nil error of SyncPVCs means, that
    no worker sends more than the error channel holds, and what becomes of the copied claim. *)

From S2P Require Import Prelude GoString Float Errors Types Duration Kube KubeLogic Lock Helpers TempPod DaemonSet TempPodProps MountPods MountPodsProps Coordinator.

(** ** Retries *)

(** The rsync command of a transfer. *)
Definition transfer_command (info : ClaimInfo) (targetNode targetPath : string) : KOp :=
  KCommand "rsync" (buildRsyncArgs (mkOptions (info.(ciVolumePath) +:+ "/")
    ("syncer@" +:+ targetNode +:+ ":" +:+ targetPath) [] true true true false)).

Lemma SyncPVC_runs info node path tr out :
  runs (SyncPVC info node path) tr out →
  ∃ output e r, tr = [Ev (Sg := KSig) (transfer_command info node path) (output, e)] ∧ out = Ret r ∧ (r = Ok tt ↔ e = None).
Proof.
  intros Hr. apply runs_bind_inv in Hr as [(x & t1 & t2 & H1 & H2 & ->)|(w & Hr & _)].
  - apply (runs_call_inv (Sg := KSig) (transfer_command info node path)) in H1 as ([output e] & t & -> & H1).
    exists output, e. destruct e as [e|]; apply runs_ret_inv in H1 as [-> [= ->]];
      apply runs_ret_inv in H2 as [-> ->]; eexists; split; try done; split; done.
  - apply (runs_call_inv (Sg := KSig) (transfer_command info node path)) in Hr as ([output e] & t & -> & Hr).
    destruct e as [e|]; by apply runs_ret_inv in Hr as [_ [=]].
Qed.

(** [k] failed attempts, each followed by its wait. *)
Inductive retrying (c : KOp) (maxDelay : Z) : nat → Z → list (event KSig) → Z → Prop :=
| retrying_start delay : retrying c maxDelay 0 delay [] delay
| retrying_again k delay (a : KResp c) tr last :
    retrying c maxDelay k (next_delay delay maxDelay) tr last →
    retrying c maxDelay (S k) delay (Ev (Sg := KSig) c a :: Ev (Sg := KSig) (KWait delay) true :: tr) last.

(** How [n] attempts end: one succeeds, the last one fails, or the context is cancelled during a
    wait. *)
Inductive attempted (c : KOp) (maxDelay : Z) (ok : KResp c → bool) (n : nat) (delay : Z)
  : list (event KSig) → res unit → Prop :=
| attempted_ok k tr last a : (k < n)%nat → retrying c maxDelay k delay tr last → ok a = true →
    attempted c maxDelay ok n delay (tr ++ [Ev (Sg := KSig) c a])%list (Ok tt)
| attempted_max k tr last a e : S k = n → retrying c maxDelay k delay tr last → ok a = false →
    attempted c maxDelay ok n delay (tr ++ [Ev (Sg := KSig) c a])%list (Err (plainf "max retries reached: " e))
| attempted_cancelled k tr last a : (S k < n)%nat → retrying c maxDelay k delay tr last → ok a = false →
    attempted c maxDelay ok n delay (tr ++ [Ev (Sg := KSig) c a; Ev (Sg := KSig) (KWait last) false])%list
      (Err (PlainError "context canceled")).

Definition command_ok (r : string * option CommandError) : bool := bool_decide (r.2 = None).

Lemma attempted_later c maxDelay ok n delay a tr r :
  attempted c maxDelay ok n (next_delay delay maxDelay) tr r →
  attempted c maxDelay ok (S n) delay (Ev (Sg := KSig) c a :: Ev (Sg := KSig) (KWait delay) true :: tr) r.
Proof.
  intros [k t last b Hk Ht Hb|k t last b e Hk Ht Hb|k t last b Hk Ht Hb].
  - apply (attempted_ok _ _ _ _ _ (S k) (_ :: _ :: t) last); [lia|by constructor|done].
  - eapply (attempted_max _ _ _ _ _ (S k) (_ :: _ :: t) last); [lia|by constructor|done].
  - apply (attempted_cancelled _ _ _ _ _ (S k) (_ :: _ :: t) last); [lia|by constructor|done].
Qed.

Lemma sync_attempts_runs n delay maxDelay info node path tr out :
  runs (sync_attempts (S n) delay maxDelay info node path) tr out →
  ∃ r, out = Ret r ∧ attempted (transfer_command info node path) maxDelay command_ok (S n) delay tr r.
Proof.
  revert delay tr. induction n as [|n IH]; intros delay tr Hr; cbn [sync_attempts] in Hr;
    (apply runs_bind_inv in Hr as [(r & t1 & t2 & H1 & H2 & ->)|(w & Hr & _)];
     [apply SyncPVC_runs in H1 as (output & e & r' & -> & [= <-] & Hok)|by apply SyncPVC_runs in Hr as (? & ? & ? & _ & [=] & _)]).
  1, 2: assert (Hb : command_ok (output, e) = match r with Ok _ => true | Err _ => false end)
    by (unfold command_ok; cbn; destruct r as [[]|e']; [apply bool_decide_eq_true, Hok; done|
        apply bool_decide_eq_false; intros He; by apply Hok in He]); destruct r as [[]|e'].
  1, 3: apply runs_ret_inv in H2 as [-> ->]; eexists; split; [done|];
    refine (attempted_ok (transfer_command info node path) _ _ _ _ 0 [] delay (output, e) _ (retrying_start _ _ _) Hb); lia.
  - apply runs_ret_inv in H2 as [-> ->]. eexists. split; [done|].
    exact (attempted_max (transfer_command info node path) _ _ _ _ 0 [] delay (output, e) e' eq_refl (retrying_start _ _ _) Hb).
  - apply (runs_call_inv (Sg := KSig) (KWait delay)) in H2 as ([|] & t & -> & H2).
    + destruct (IH _ _ H2) as (r & -> & Ha). exists r. split; [done|]. by apply (attempted_later (transfer_command info node path)).
    + apply runs_ret_inv in H2 as [-> ->]. eexists. split; [done|].
      refine (attempted_cancelled (transfer_command info node path) _ _ _ _ 0 [] delay (output, e) _ (retrying_start _ _ _) Hb); lia.
Qed.

(** syncWithRetry with a limit of MaxRetries ≥ 0, whatever the commands and the waits answer: it
    returns; at most MaxRetries + 1 transfers are run, one after the other, and after the k-th
    failure it waits InitialDelay doubled k times and capped at MaxDelay; nil is returned exactly
    when the last transfer succeeded, and an error when the last allowed one failed or the
    context ended during a wait. *)
Theorem syncWithRetry_attempts c info node path tr out :
  0 ≤ c.(prMaxRetries) → runs (syncWithRetry (Some c) info node path) tr out →
  ∃ r, out = Ret r ∧
    attempted (transfer_command info node path) (default 0 (ParseDuration c.(prMaxDelay))) command_ok
      (Z.to_nat c.(prMaxRetries) + 1) (default 0 (ParseDuration c.(prInitialDelay))) tr r.
Proof.
  intros Hm Hr. unfold syncWithRetry in Hr. rewrite Z2Nat.inj_add, Nat.add_1_r in Hr by lia.
  rewrite Nat.add_1_r. by apply sync_attempts_runs.
Qed.

(** With a negative limit there is no transfer at all and nil is returned. *)
Lemma syncWithRetry_negative c info node path :
  c.(prMaxRetries) < 0 → syncWithRetry (Some c) info node path = mret (Ok tt).
Proof. intros Hm. unfold syncWithRetry. by replace (Z.to_nat (prMaxRetries c + 1)) with 0%nat by lia. Qed.

Lemma attempted_success c maxDelay ok n delay tr :
  attempted c maxDelay ok n delay tr (Ok tt) → ∃ a, Ev (Sg := KSig) c a ∈ tr ∧ ok a = true.
Proof.
  remember (Ok tt) as r eqn:Er. intros Ha. destruct Ha as [k t last a _ _ Hb|k t last a e _ _ _|k t last a _ _ _]; [|done..].
  exists a. split; [set_solver|done].
Qed.

(** ** One claim *)

Section Claim.
Context {VC : VolumeCodec} {CC : ClaimCodec} {PC : PodCodec} {IP : ImmediatePoller} {LIP : LawfulImmediatePoller}.
Variable (retryConfig : option PVCSyncRetryConfig).

Lemma safe_PollImmediate (P : Op KSig → Prop) interval timeout cond :
  safe P cond anyr → (∀ d, P (KSleep d)) → safe P (PollImmediate interval timeout cond) anyr.
Proof.
  intros Hc Hd. apply safe_of_runs; [exact KResp_inhabited|]. intros tr out [n Hr]%poll_immediate_runs. by apply (backed_off_safe _ _ _ _ _ Hc Hd) in Hr.
Qed.

Definition lists_nothing (o : Op KSig) : Prop := match (o : KOp) with KList _ _ _ _ => False | _ => True end.

Lemma ensure_claim_lists info size : safe lists_nothing (ensure_claim info size) anyr.
Proof. unfold ensure_claim, enlarge. repeat first [done | safe_step]. Qed.

Lemma ensure_sync_pod_lists info nodeName : safe lists_nothing (ensure_sync_pod info nodeName) anyr.
Proof.
  unfold ensure_sync_pod. repeat first [done | safe_step | apply safe_PollImmediate].
Qed.

Lemma sync_attempts_lists n delay maxDelay info node path : safe lists_nothing (sync_attempts n delay maxDelay info node path) anyr.
Proof.
  revert delay. induction n as [|n IH]; intros delay; [done|]. cbn [sync_attempts]. unfold SyncPVC, Sync.
  repeat first [done | apply IH | safe_step].
Qed.

Lemma syncWithRetry_lists info node path : safe lists_nothing (syncWithRetry retryConfig info node path) anyr.
Proof. unfold syncWithRetry. destruct retryConfig; [apply sync_attempts_lists|done]. Qed.

Lemma delete_unused_claim_runs pod tr out :
  runs (delete_unused_claim pod) tr out →
  ∃ a t, let name := pod_label pod "dr-syncer.io/source-pvc" in let ns := pod_label pod "dr-syncer.io/source-ns" in
    tr = (Ev (Sg := KSig) (KList Dst pods "" (Some (sync_pod_labels name ns))) a :: t)%list ∧
    Forall (λ e, lists_nothing (ev_op e)) t ∧
    (a = Ok [] → ∃ r, t = [Ev (Sg := KSig) (KDelete Dst persistentvolumeclaims ns name) r]).
Proof.
  unfold delete_unused_claim. cbv zeta. intros Hr.
  apply (runs_call_inv (Sg := KSig) (KList _ _ _ _)) in Hr as (a & t & -> & Hr). exists a, t. split; [done|].
  destruct a as [[|p ps]|e]; [|by apply runs_ret_inv in Hr as [-> _]..].
  apply (runs_call_inv (Sg := KSig) (KDelete _ _ _ _)) in Hr as (d & t' & -> & Hr).
  assert (t' = []) as -> by (destruct d; [|destruct (IsNotFound e)]; by apply runs_ret_inv in Hr as [-> _]).
  split; [by repeat constructor|]. intros _. by exists d.
Qed.

(** The wait, then [delete_unused_claim]; the wait may panic only if the server's answers do. *)
Lemma after_deletion_runs pod tr out :
  runs (after_deletion pod) tr out →
  ∃ t1 t2, tr = (t1 ++ t2)%list ∧ Forall (λ e, lists_nothing (ev_op e)) t1 ∧ (t2 = [] ∨ runs (delete_unused_claim pod) t2 out).
Proof.
  unfold after_deletion. set (p := PollImmediate _ _ _).
  assert (Hs : safe lists_nothing p anyr) by (apply safe_PollImmediate; [repeat first [done | safe_step]|done]).
  intros [(r & t1 & t2 & H1 & H2 & ->)|(w & Hr & ->)]%runs_bind_inv.
  - exists t1, t2. split; [done|]. split; [by apply (safe_sound _ _ _ _ _ Hs H1)|by right].
  - exists tr, []. rewrite app_nil_r. split; [done|]. split; [by apply (safe_sound _ _ _ _ _ Hs Hr)|by left].
Qed.

Lemma cleanupSyncResources_runs pod tr out :
  runs (cleanupSyncResources pod) tr out →
  ∃ t1 t2, tr = (t1 ++ t2)%list ∧ Forall (λ e, lists_nothing (ev_op e)) t1 ∧ (t2 = [] ∨ runs (delete_unused_claim pod) t2 out).
Proof.
  unfold cleanupSyncResources. intros (d & t & -> & Hr)%(runs_call_inv (Sg := KSig) (KDelete _ _ _ _)).
  assert (runs (after_deletion pod) t out ∨ t = []) as [Ha| ->].
  { destruct d as [u|e]; [by left|]. destruct (IsNotFound e); [by left|]. apply runs_ret_inv in Hr as [-> _]. by right. }
  - apply after_deletion_runs in Ha as (t1 & t2 & -> & Hf & Hd). eexists (_ :: t1)%list, t2. split; [done|]. split; [by constructor|done].
  - eexists [_], []. split; [done|]. split; [by constructor|by left].
Qed.

(** The worker lists pods only in the last call, or the last but one, which deletes the claim. *)
Definition copy_deleted (info : ClaimInfo) (tr : list (event KSig)) : Prop :=
  ∃ t r, tr = (t ++ [Ev (Sg := KSig) (KDelete Dst persistentvolumeclaims info.(ciNamespace) info.(ciName)) r])%list.

Definition found_unused (info : ClaimInfo) (tr : list (event KSig)) : Prop :=
  Ev (Sg := KSig) (KList Dst pods "" (Some (sync_pod_labels info.(ciName) info.(ciNamespace)))) (Ok []) ∈ tr.

Lemma lists_nothing_found info tr : Forall (λ e, lists_nothing (ev_op e)) tr → ¬ found_unused info tr.
Proof. intros Hf He. by apply (proj1 (Forall_forall _ _) Hf) in He. Qed.

Lemma sync_pod_labels_inj a b c d : sync_pod_labels a b = sync_pod_labels c d → a = c ∧ b = d.
Proof.
  intros E. split.
  - apply (f_equal (lookup "dr-syncer.io/source-pvc")) in E. unfold sync_pod_labels in E. by simplify_map_eq.
  - apply (f_equal (lookup "dr-syncer.io/source-ns")) in E. unfold sync_pod_labels in E. by simplify_map_eq.
Qed.

(** The selector and the answer of a listing. *)
Definition listing (e : event KSig) : option (option (gmap string string) * res (list Object)) :=
  match e with
  | Ev o r => match o as o return KResp o → option (option (gmap string string) * res (list Object)) with
              | KList _ _ _ l => λ r, Some (l, r)
              | _ => λ _, None
              end r
  end.

Lemma listing_inj l a l' a' :
  Ev (Sg := KSig) (KList Dst pods "" (Some l)) a = Ev (Sg := KSig) (KList Dst pods "" (Some l')) a' → l = l' ∧ a = a'.
Proof. intros E. apply (f_equal listing) in E. cbn [listing] in E. by injection E. Qed.

Lemma cleanup_found info pod tr out :
  runs (cleanupSyncResources pod) tr out → found_unused info tr → copy_deleted info tr.
Proof.
  intros (t1 & t2 & -> & Hf & Ht)%cleanupSyncResources_runs [He|He]%elem_of_app; [by destruct (lists_nothing_found info t1)|].
  destruct Ht as [-> |(a & t & -> & Hn & Hd)%delete_unused_claim_runs]; [by apply not_elem_of_nil in He|].
  apply elem_of_cons in He as [He|He]; [|by destruct (lists_nothing_found info t)].
  apply listing_inj in He as [[Hp Hs]%sync_pod_labels_inj <-]. destruct (Hd eq_refl) as [r ->]. rewrite <- Hp, <- Hs.
  eexists (t1 ++ [_])%list, r. by rewrite <- app_assoc.
Qed.

(** What a worker does for a claim: it gives up before the transfer with one error (or a panic),
    having listed nothing, or it runs the transfer and then the clean-up, and sends an error
    exactly when the transfer failed. *)
Inductive handled (info : ClaimInfo) : list (event KSig) → exec (list error) → Prop :=
| handled_error tr e : Forall (λ e, lists_nothing (ev_op e)) tr → handled info tr (Ret [e])
| handled_panic tr w : Forall (λ e, lists_nothing (ev_op e)) tr → handled info tr (Panic w)
| handled_synced node pod t1 t2 t3 s errs :
    Forall (λ e, lists_nothing (ev_op e)) t1 → runs (syncWithRetry retryConfig info node (JoinPath ["/data"])) t2 (Ret s) →
    (∃ r, runs (cleanupSyncResources pod) t3 (Ret r)) → match s with Ok _ => errs = [] | Err _ => length errs = 1%nat end →
    handled info (t1 ++ t2 ++ t3)%list (Ret errs)
| handled_unclean node pod t1 t2 t3 s w :
    Forall (λ e, lists_nothing (ev_op e)) t1 → runs (syncWithRetry retryConfig info node (JoinPath ["/data"])) t2 (Ret s) →
    runs (cleanupSyncResources pod) t3 (Panic w) → handled info (t1 ++ t2 ++ t3)%list (Panic w).

Lemma handled_after info t0 tr out :
  Forall (λ e, lists_nothing (ev_op e)) t0 → handled info tr out → handled info (t0 ++ tr)%list out.
Proof.
  intros H0 Hh. destruct Hh as [tr e H|tr w H|node pod t1 t2 t3 s errs H1 H2 H3 H4|node pod t1 t2 t3 s w H1 H2 H3].
  1, 2: constructor; by apply Forall_app.
  all: rewrite app_assoc; econstructor; try done; by apply Forall_app.
Qed.

(** A step that lists nothing. *)
Lemma handled_bind {A} info (p : KP A) f tr out :
  safe lists_nothing p anyr → runs (p ≫= f) tr out → (∀ a t, runs (f a) t out → handled info t out) → handled info tr out.
Proof.
  intros Hs [(a & t1 & t2 & H1 & H2 & ->)|(w & Hr & ->)]%runs_bind_inv Hf.
  - apply handled_after; [by apply (safe_sound _ _ _ _ _ Hs H1)|by eapply Hf].
  - apply handled_panic. by apply (safe_sound _ _ _ _ _ Hs Hr).
Qed.

Lemma sync_one_handled targetNodes first info tr out :
  runs (sync_one retryConfig targetNodes first info) tr out → handled info tr out.
Proof.
  unfold sync_one. intros Hr. refine (handled_bind info _ _ _ _ _ Hr _); [by apply safe_call|].
  clear tr Hr. intros r tr Hr.
  destruct r as [sourceNode|e]; [|apply runs_ret_inv in Hr as [-> ->]; by constructor]. cbv zeta in Hr.
  destruct (ParseQuantity (ciCapacity info)) as [size|]; [|apply runs_panic_inv in Hr as [-> ->]; by constructor].
  apply (handled_bind info _ _ _ _ (ensure_claim_lists _ _) Hr). clear tr Hr. intros [u|e] tr Hr;
    [|apply runs_ret_inv in Hr as [-> ->]; by constructor].
  apply (handled_bind info _ _ _ _ (ensure_sync_pod_lists _ _) Hr). clear tr Hr. intros [pod|e] tr Hr;
    [|apply runs_ret_inv in Hr as [-> ->]; by constructor].
  apply runs_bind_inv in Hr as [(s & t1 & t2 & H1 & H2 & ->)|(w & Hr & ->)];
    [|apply handled_panic; by apply (safe_sound _ _ _ _ _ (syncWithRetry_lists _ _ _) Hr)].
  apply runs_bind_inv in H2 as [(r & t3 & t4 & H3 & [-> ->]%runs_ret_inv & ->)|(w & Hr & ->)].
  - rewrite app_nil_r. eapply (handled_synced info _ pod [] t1 t3 s); [done|exact H1|by exists r|by destruct s].
  - by eapply (handled_unclean info _ pod [] t1 t2 s).
Qed.

(** C38: Whenever a worker, having synced a claim, finds no sync pod of the claim left, which is the
    normal case once its own pod is gone, the last thing it does is to delete the claim in the
    target cluster, with the data that was just copied. *)
Theorem sync_one_deletes_copy targetNodes first info tr out :
  runs (sync_one retryConfig targetNodes first info) tr out → found_unused info tr → copy_deleted info tr.
Proof.
  intros Hh%sync_one_handled Hf.
  assert (Hc : ∀ node pod t1 t2 t3 s o, Forall (λ e, lists_nothing (ev_op e)) t1 →
    runs (syncWithRetry retryConfig info node (JoinPath ["/data"])) t2 (Ret s) → runs (cleanupSyncResources pod) t3 o →
    found_unused info (t1 ++ t2 ++ t3)%list → copy_deleted info (t1 ++ t2 ++ t3)%list).
  { intros node pod t1 t2 t3 s o H1 H2 H3 [He|[He|He]%elem_of_app]%elem_of_app.
    - by destruct (lists_nothing_found info t1).
    - destruct (lists_nothing_found info t2); [|done]. by apply (safe_sound _ _ _ _ _ (syncWithRetry_lists _ _ _) H2).
    - destruct (cleanup_found _ _ _ _ H3 He) as (t & r & ->). exists (t1 ++ t2 ++ t)%list, r. by rewrite !app_assoc. }
  destruct Hh as [tr e H|tr w H|node pod t1 t2 t3 s errs H1 H2 [r H3] H4|node pod t1 t2 t3 s w H1 H2 H3]; [by destruct (lists_nothing_found info tr)..| |];
    by eapply Hc.
Qed.

(** A worker sends at most one error per claim, and none only when the transfer was run and
    succeeded, or the limit on retries is negative. *)
Definition transferred (info : ClaimInfo) (tr : list (event KSig)) : Prop :=
  ∃ node output, Ev (Sg := KSig) (transfer_command info node (JoinPath ["/data"])) (output, None) ∈ tr.

Lemma handled_bound info tr errs : handled info tr (Ret errs) → (length errs ≤ 1)%nat.
Proof. inversion 1 as [tr' e H'|tr' w H'|node pod t1 t2 t3 s errs' H1 H2 H3 H4|]; [cbn; lia|]. destruct s; subst; cbn; lia. Qed.

Lemma handled_transferred c info tr :
  retryConfig = Some c → 0 ≤ c.(prMaxRetries) → handled info tr (Ret []) → transferred info tr.
Proof.
  intros Hc Hm Hh. inversion Hh as [tr' e H'|tr' w H'|node pod t1 t2 t3 s errs' H1 H2 H3 H4|]; subst tr.
  destruct s as [[]|e]; [|done]. rewrite Hc in H2. unfold syncWithRetry in H2.
  rewrite Z2Nat.inj_add, Nat.add_1_r in H2 by lia. apply sync_attempts_runs in H2 as (r & [= <-] & Ha).
  apply attempted_success in Ha as ([output e] & He & Hok). exists node, output. unfold command_ok in Hok.
  apply bool_decide_eq_true in Hok. cbn in Hok. subst e. set_solver.
Qed.
End Claim.

(** ** All claims *)

Lemma merged_elem {E : Type} (trs : list (list E)) tr i t e : merged trs tr → trs !! i = Some t → e ∈ t → e ∈ tr.
Proof.
  intros Hm. revert i t. induction Hm as [trs Hd|trs j x u tr Hj Hm IH]; intros i t Hi He.
  - apply (Forall_lookup_1 _ _ _ _ Hd) in Hi. cbn in Hi. subst t. by apply not_elem_of_nil in He.
  - destruct (decide (i = j)) as [->|Hij].
    + rewrite Hj in Hi. injection Hi as <-. apply elem_of_cons in He as [->|He]; [left|]. right. apply (IH j u); [|done].
      apply list_lookup_insert_eq. by eapply lookup_lt_Some.
    + right. apply (IH i t); [|done]. by rewrite list_lookup_insert_ne.
Qed.

Lemma merged_concat {E : Type} (trs : list (list E)) : merged trs (concat trs).
Proof.
  assert (Hall : ∀ done rest : list (list E), Forall (λ t, t = []) done → merged (done ++ rest)%list (concat rest)); [|by apply (Hall [])].
  intros don rest. revert don. induction rest as [|t rest IH]; intros don Hd; [constructor; by rewrite app_nil_r|].
  induction t as [|e t IHt]; cbn [concat].
  - replace (don ++ [] :: rest)%list with ((don ++ [[]]) ++ rest)%list by (by rewrite <- app_assoc).
    apply IH. apply Forall_app. by split; [|repeat constructor].
  - apply (merged_step _ (length don) e t); [by rewrite list_lookup_middle|]. by rewrite insert_app_r_alt, Nat.sub_diag by lia.
Qed.

Section AllClaims.
Context {VC : VolumeCodec} {CC : ClaimCodec} {PC : PodCodec} {IP : ImmediatePoller} {LIP : LawfulImmediatePoller}.
Context {WP : WorkerPool} {LWP : LawfulWorkers}.
Variable (concurrency : Z) (retryConfig : option PVCSyncRetryConfig).

Lemma workers_handled targetNodes first infos tr errs :
  0 < concurrency → runs (Workers concurrency (sync_one retryConfig targetNodes first <$> infos)) tr (Ret errs) →
  ∃ trs sent, length trs = length infos ∧ merged trs tr ∧ errs ≡ₚ concat sent ∧ length sent = length infos ∧
    ∀ i info t s, infos !! i = Some info → trs !! i = Some t → sent !! i = Some s → handled retryConfig info t (Ret s).
Proof.
  intros Hc Hr. apply workers_all in Hr as (trs & sent & Hf & Ht & Hs & Hm & He); [|done]. rewrite length_fmap in Ht, Hs.
  exists trs, sent. split_and!; try done. intros i info t s Hi Hti Hsi.
  eapply sync_one_handled. eapply (Forall2_lookup_lr _ _ _ i _ (t, s) Hf); [by rewrite list_lookup_fmap, Hi|].
  apply lookup_zip_with_Some. by exists t, s.
Qed.

(** The channel of errors has room for one error per claim, and no more are ever sent: a worker
    is never blocked. *)
Lemma workers_errors targetNodes first infos tr errs :
  runs (Workers concurrency (sync_one retryConfig targetNodes first <$> infos)) tr (Ret errs) → (length errs ≤ length infos)%nat.
Proof.
  intros Hr. destruct (Z_le_gt_dec concurrency 0) as [Hc|Hc].
  { apply workers_none in Hr as [_ [= ->]]; [cbn; lia|done]. }
  apply workers_handled in Hr as (trs & sent & Ht & _ & He & Hs & Hh); [|lia]. rewrite (Permutation_length He), length_concat, <- Hs.
  assert (Hb : Forall (λ s : list error, (length s ≤ 1)%nat) sent).
  { apply Forall_lookup. intros i s Hi. assert (i < length sent)%nat by (by eapply lookup_lt_Some).
    destruct (lookup_lt_is_Some_2 infos i) as [info Hinfo]; [lia|]. destruct (lookup_lt_is_Some_2 trs i) as [t Hti]; [lia|].
    eapply handled_bound. by eapply Hh. }
  clear He Hs Hh. induction Hb as [|s sent Hb _ IH]; [done|]. unfold list_sum in *; cbn in *. lia.
Qed.


(** Without a worker nothing is synced and SyncPVCs returns nil. *)
Lemma SyncPVCs_no_worker tr out :
  concurrency ≤ 0 → runs (SyncPVCs concurrency retryConfig) tr out → Forall (λ e, reads_only (ev_op e)) tr.
Proof.
  intros Hc Hr. assert (Hw : ∀ jobs, safe reads_only (Workers concurrency jobs) anyr).
  { intros jobs. apply safe_of_runs; [exact KResp_inhabited|]. intros t o Ht. by apply workers_none in Ht as [-> _]. }
  assert (Hs : safe reads_only (SyncPVCs concurrency retryConfig) anyr); [|by apply (safe_sound _ _ _ _ _ Hs Hr)].
  unfold SyncPVCs, discover_all, DiscoverPVCs, discover_volume. repeat first [done | apply Hw | safe_step].
Qed.
End AllClaims.

(** ** Lawful instances and witnesses *)

#[local] Instance rounds_immediate : ImmediatePoller := λ interval timeout, backoff_rounds (S (Z.to_nat (timeout / interval))).

#[local] Instance rounds_immediate_lawful : LawfulImmediatePoller.
Proof. intros interval timeout cond tr out Hr%backoff_rounds_backed. by eexists. Qed.

(** One worker, which takes the jobs in order. *)
Fixpoint in_turn (jobs : list (KP (list error))) : KP (list error) :=
  match jobs with
  | [] => mret []
  | job :: jobs => sent ← job; rest ← in_turn jobs; mret (sent ++ rest)%list
  end.

#[local] Instance single_worker : WorkerPool := λ concurrency jobs, if concurrency <=? 0 then mret [] else in_turn jobs.

#[local] Instance single_worker_lawful : LawfulWorkers.
Proof.
  split.
  - intros c jobs tr out Hc. unfold Workers, single_worker. replace (c <=? 0) with true by lia. by intros [-> ->]%runs_ret_inv.
  - intros c jobs tr errs Hc. unfold Workers, single_worker. replace (c <=? 0) with false by lia. intros Hr.
    assert (∃ trs sent, Forall2 (λ job '(t, s), runs job t (Ret s)) jobs (zip trs sent) ∧ length trs = length jobs ∧
      length sent = length jobs ∧ tr = concat trs ∧ errs = concat sent) as (trs & sent & Hf & Ht & Hs & -> & ->).
    { revert tr errs Hr. induction jobs as [|job jobs IH]; intros tr errs Hr; cbn [in_turn] in Hr.
      - apply runs_ret_inv in Hr as [-> [= ->]]. exists [], []. by repeat constructor.
      - apply runs_bind_inv in Hr as [(s & t1 & t2 & H1 & Hr & ->)|(w & _ & [=])].
        apply runs_bind_inv in Hr as [(rest & t3 & t4 & H3 & [-> [= ->]]%runs_ret_inv & ->)|(w & _ & [=])].
        destruct (IH _ _ H3) as (trs & sent & Hf & Ht & Hs & -> & ->). rewrite app_nil_r.
        exists (t1 :: trs), (s :: sent). cbn. split_and!; try done; try congruence. by constructor. }
    exists trs, sent. split_and!; try done. apply merged_concat.
Qed.

#[local] Existing Instance text_pods.
#[local] Existing Instance csi_volumes.
#[local] Instance gibibytes : ClaimCodec := {| ClaimCapacity _ := "1Gi"; ParseQuantity s := if s =s? "1Gi" then Some 1073741824 else None |}.

Definition a_node : Object := mkObject (mkGVK "" "" "") (meta "node-1" "" "n1") (NodeBody [] "" "").
Definition source_pod : Object := mkObject (mkGVK "" "" "") (meta "db-0" "app-dr" "u1") (PodBody (mkPodFields [Some "data"] "node-1" "Running" "" "")).
Definition running (name : string) : Object := mkObject (mkGVK "" "" "") (meta name "app-dr" "u2") (PodBody (mkPodFields [Some "data"] "node-1" "Running" "" "")).

Definition copied_claim : Object :=
  mkObject (mkGVK "" "" "") (meta "data" "app-dr" "u1") (PVCBody (mkPVCSpec [] None (Some {["storage" := 1073741824]}) "" "pv-1" None None None None) "").

(** A source cluster with one claim in use; the state is the claims and the pods of the target. *)
Definition two_clusters : handler KSig (list string * list string) := λ o s,
  let found (b : bool) (x : Object) := if b then Ok x else Err (StatusError NotFound "not found") in
  match o as o return KResp o * (list string * list string) with
  | KList Src r _ _ => (Ok (if bool_decide (r = nodes) then [a_node] else [data_claim]), s)
  | KList Dst r _ _ => (Ok (if bool_decide (r = nodes) then [a_node] else running <$> s.2), s)
  | KListOn _ _ _ _ _ => (Ok [source_pod], s)
  | KGet Src r _ _ => (Ok (if bool_decide (r = nodes) then a_node else data_volume), s)
  | KGet Dst r _ name =>
      (if bool_decide (r = pods) then found (bool_decide (name ∈ s.2)) (running name) else found (bool_decide (name ∈ s.1)) copied_claim, s)
  | KCreate _ r _ x => (Ok x, if bool_decide (r = pods) then (s.1, GetName x :: s.2) else (GetName x :: s.1, s.2))
  | KDelete _ r _ name =>
      (Ok tt, if bool_decide (r = pods) then (s.1, filter (λ n, n ≠ name) s.2) else (filter (λ n, n ≠ name) s.1, s.2))
  | KCommand _ _ => (("", None), s)
  | o => (refused o, s)
  end.

Definition three_tries : PVCSyncRetryConfig := mkPVCSyncRetryConfig 3 "5s" "5m".

(** The whole sync ends with nil, and the target has neither a pod nor a claim. *)
Example SyncPVCs_leaves_nothing : run two_clusters (SyncPVCs 1 (Some three_tries)) ([], []) = (Ret (Ok tt), ([], [])).
Proof. vm_compute. reflexivity. Qed.

Definition the_claim : ClaimInfo := claim_info "node-1" source_pod data_claim (source_of data_volume).

Lemma sync_one_deletes_copy_witness :
  let tr := run_trace two_clusters (sync_one (Some three_tries) [a_node] a_node the_claim) ([], []) in
  found_unused the_claim tr ∧ copy_deleted the_claim tr.
Proof.
  intros tr. assert (Hf : found_unused the_claim tr) by (apply (list_elem_of_lookup_2 _ 8); vm_compute; reflexivity).
  split; [exact Hf|].
  exact (sync_one_deletes_copy (Some three_tries) [a_node] a_node the_claim tr _
    (run_trace_runs two_clusters (sync_one (Some three_tries) [a_node] a_node the_claim) ([], [])) Hf).
Defined.


(** The target cannot be reached: four attempts, with waits of 5, 10 and 20 seconds. *)
Definition unreachable : handler KSig unit := λ o s,
  match o as o return KResp o * unit with
  | KCommand _ _ => (("connection refused", Some (ExitError 255 "exit status 255")), s)
  | KWait _ => (true, s)
  | o => (refused o, s)
  end.

Lemma syncWithRetry_attempts_witness :
  let p := syncWithRetry (Some three_tries) the_claim "node-1" "/data" in
  omap (λ e : event KSig, match (ev_op e : KOp) with KWait d => Some d | _ => None end) (run_trace unreachable p tt)
    = [5 * Second; 10 * Second; 20 * Second] ∧
  ∃ r, (run unreachable p tt).1 = Ret r ∧
    attempted (transfer_command the_claim "node-1" "/data") (default 0 (ParseDuration "5m")) command_ok 4
      (default 0 (ParseDuration "5s")) (run_trace unreachable p tt) r.
Proof.
  intros p. split; [vm_compute; reflexivity|].
  apply (syncWithRetry_attempts three_tries the_claim "node-1" "/data"); [vm_compute; discriminate|]. apply run_trace_runs.
Defined.
