(* ===== verification/Executor.v ===== *)
(** * The command executor: pkg/agent/rsyncpod/command/executor.go

    Commands run in pods with retries; the writers that copy output to the log, and the ids
    that only appear there, are not modelled. *)

From S2P Require Import Prelude GoString Float Errors Types Duration Kube KubeLogic Lock Helpers RsyncExec RsyncProps RsyncPod.

Record ExecuteCommandOptions : Type := mkExecuteCommandOptions {
  eoNamespace : string;
  eoPodName : string;
  eoCommand : list string;
  eoMaxRetries : Z;
  eoRetryBackoff : Z
}.

Record ExecuteResult : Type := mkExecuteResult {
  erCommand : string;
  erStdout : string;
  erStderr : string;
  erSucceeded : bool;
  erError : option opError;
  erExecutionTime : Z
}.

Section Executor.
Variable (host : Cluster → string) (ctx : Ctx) (client : Cluster).

(** The configuration in the context, or the one of the syncer in it that fits the client. *)
Definition getConfigFromContext : KP (option string) :=
  match ctx !! ctx_K8sConfigKey with
  | Some v => assert_config v
  | None =>
      match ctx !! ctx_SyncerKey with
      | Some (SyncerInContext s) =>
          match_hosts s (host client)
            (match s.(svDestConfig) with
             | Some c => mret (Some c)
             | None => match s.(svSourceConfig) with Some c => mret (Some c) | None => mret None end
             end)
      | _ => mret None
      end
  end.

Definition executeCommandOnce (namespace podName : string) (command : list string) : KP (string * string * option opError) :=
  config ← getConfigFromContext;
  match config with
  | None => mret ("", "", Some (OtherErr (PlainError "no REST config found in context")))
  | Some _ => stream client namespace podName command
  end.

(** [n] attempts are left, [attempt] were made; [None] when the context ended during a wait. *)
Fixpoint execute_from (n : nat) (attempt backoff : Z) (opts : ExecuteCommandOptions) (last : string * string * option opError)
    : KP (option (string * string * option opError)) :=
  match n with
  | O => mret (Some last)
  | S n' =>
      r ← executeCommandOnce opts.(eoNamespace) opts.(eoPodName) opts.(eoCommand);
      match r, n' with
      | (_, _, Some (RetryableErr _)), S _ =>
          fired ← kcall (KWait (int64 (backoff * int64 (2 ^ attempt))));
          if (fired : bool) then execute_from n' (attempt + 1) backoff opts r else mret None
      | _, _ => mret (Some r)
      end
  end.

Definition ExecuteCommand (opts : ExecuteCommandOptions) : KP (option ExecuteResult * option opError) :=
  startTime ← kcall KNow;
  let maxRetries := if 0 <? opts.(eoMaxRetries) then opts.(eoMaxRetries) else 3 in
  let retryBackoff := if 0 <? opts.(eoRetryBackoff) then opts.(eoRetryBackoff) else 10 * Second in
  r ← execute_from (Z.to_nat maxRetries) 0 retryBackoff opts ("", "", None);
  match r with
  | None => mret (None, Some (OtherErr context_canceled))
  | Some (stdout, stderr, execErr) =>
      now ← kcall KNow;
      mret (Some (mkExecuteResult (Join opts.(eoCommand) " ") stdout stderr (bool_decide (execErr = None)) execErr (int64 (now - startTime))), execErr)
  end.

(** ExecuteCommandInPod of package command *)
Definition execute_in_pod (namespace podName : string) (command : list string) : KP (string * string * option opError) :=
  r ← ExecuteCommand (mkExecuteCommandOptions namespace podName command 3 (10 * Second));
  mret (match r with
        | (Some result, err) => (result.(erStdout), result.(erStderr), err)
        | (None, err) => ("", "", err)
        end).
End Executor.

(** ** Theorems *)

(** In a context without plain string keys the executor takes the same configuration as
    ExecuteCommandInPod of rsyncpod called without one, panics included. *)
Lemma getConfigFromContext_agrees host ctx client :
  ctx !! (("string", "k8s-config") : CtxKey) = None → ctx !! (("string", "pvcsync") : CtxKey) = None →
  getConfigFromContext host ctx client = rsyncpod_config ctx (host client) None.
Proof.
  intros Hk Hs. unfold getConfigFromContext, rsyncpod_config. cbn [first_value]. rewrite Hk, Hs.
  destruct (ctx !! ctx_K8sConfigKey) as [[[c|]|s|]|]; try done.
  destruct (ctx !! ctx_SyncerKey) as [[c|s|]|]; try done. cbn. unfold match_hosts, logged.
  repeat case_match; done.
Qed.

(** The waits between [n] attempts. *)
Definition schedule_from (n : nat) (attempt backoff : Z) : list Z :=
  map (λ k, int64 (backoff * int64 (2 ^ k))) (seqZ attempt (Z.of_nat n - 1)).

Lemma schedule_from_step n attempt backoff :
  schedule_from (S (S n)) attempt backoff = int64 (backoff * int64 (2 ^ attempt)) :: schedule_from (S n) (attempt + 1) backoff.
Proof.
  unfold schedule_from. rewrite seqZ_cons by lia. cbn [map]. f_equal. f_equal. f_equal; lia.
Qed.

Definition executions (tr : list (event KSig)) : list unit :=
  omap (λ e : event KSig, match (ev_op e : KOp) with KExec _ _ _ _ => Some tt | _ => None end) tr.

Section Waits.
Variable (host : Cluster → string) (ctx : Ctx) (client : Cluster).

Lemma getConfigFromContext_pure tr out : runs (getConfigFromContext host ctx client) tr out → tr = [].
Proof.
  unfold getConfigFromContext, assert_config, match_hosts, logged. intros Hr.
  repeat case_match; first [by apply runs_ret_inv in Hr as [-> _] | by apply runs_panic_inv in Hr as [-> _]].
Qed.

(** One attempt runs the command at most once, and only if it returns something. *)
Lemma executeCommandOnce_runs ns pod command tr out :
  runs (executeCommandOnce host ctx client ns pod command) tr out → waits tr = [] ∧ (length (executions tr) ≤ 1)%nat.
Proof.
  intros [(config & t1 & t2 & H1%getConfigFromContext_pure & H2 & ->)|(w & H1%getConfigFromContext_pure & _)]%runs_bind_inv;
    [|subst; cbn; auto]. subst t1. destruct config as [c|]; [|apply runs_ret_inv in H2 as [-> _]; cbn; auto].
  apply (runs_call_inv (Sg := KSig) (KExec _ _ _ _)) in H2 as (r & t & -> & H2).
  assert (t = []) as -> by (destruct r as [e|o e [x|]]; cbv zeta in H2; repeat case_match; by apply runs_ret_inv in H2 as [-> _]).
  cbn. auto.
Qed.

Lemma execute_from_runs n attempt backoff opts last tr out :
  runs (execute_from host ctx client n attempt backoff opts last) tr out →
  waits tr `prefix_of` schedule_from n attempt backoff ∧ (length (executions tr) ≤ n)%nat.
Proof.
  revert attempt last tr. induction n as [|n IH]; intros attempt last tr Hr; cbn [execute_from] in Hr.
  { apply runs_ret_inv in Hr as [-> _]. split; [apply prefix_nil|done]. }
  apply runs_bind_inv in Hr as [(r & t1 & t2 & H1 & H2 & ->)|(w & H1 & _)]; apply executeCommandOnce_runs in H1 as [Hw He];
    [|rewrite Hw; split; [apply prefix_nil|lia]].
  rewrite waits_app, Hw. unfold executions. rewrite omap_app, length_app. fold (executions t1) (executions t2). cbn [app].
  assert (Hd : t2 = [] → waits t2 `prefix_of` schedule_from (S n) attempt backoff ∧ (length (executions t1) + length (executions t2) ≤ S n)%nat).
  { intros ->. split; [apply prefix_nil|cbn; lia]. }
  destruct r as [[stdout stderr] [[e|e]|]]; [|apply Hd; by apply runs_ret_inv in H2 as [-> _]..].
  destruct n as [|n]; [apply Hd; by apply runs_ret_inv in H2 as [-> _]|].
  apply (runs_call_inv (Sg := KSig) (KWait _)) in H2 as (fired & t3 & -> & H2). rewrite schedule_from_step.
  destruct fired.
  - destruct (IH _ _ _ H2) as [Hp Hl]. split; [by apply prefix_cons|]. cbn [executions omap list_omap ev_op] in *. unfold executions in *. lia.
  - apply runs_ret_inv in H2 as [-> _]. split; [apply prefix_cons, prefix_nil|]. cbn in *. lia.
Qed.

(** ExecuteCommandInPod of package command, in any environment: at most three attempts are made,
    with waits of 10 and 20 seconds between them. *)
Theorem execute_in_pod_schedule ns pod command tr out :
  runs (execute_in_pod host ctx client ns pod command) tr out →
  waits tr `prefix_of` [10 * Second; 20 * Second] ∧ (length (executions tr) ≤ 3)%nat.
Proof.
  intros Hr. assert (He : ∀ o tr, runs (ExecuteCommand host ctx client (mkExecuteCommandOptions ns pod command 3 (10 * Second))) tr o →
    waits tr `prefix_of` [10 * Second; 20 * Second] ∧ (length (executions tr) ≤ 3)%nat).
  { clear. intros o tr Hr. apply (runs_call_inv (Sg := KSig) KNow) in Hr as (now & t1 & -> & Hr). cbv zeta in Hr.
    apply runs_bind_inv in Hr as [(r & t2 & t3 & H2 & H3 & ->)|(w & H2 & _)]; apply execute_from_runs in H2 as [Hw He]; [|done].
    assert (waits t3 = [] ∧ executions t3 = []) as [Hw3 He3].
    { destruct r as [[[stdout stderr] e]|].
      - apply (runs_call_inv (Sg := KSig) KNow) in H3 as (n2 & t4 & -> & H3). by apply runs_ret_inv in H3 as [-> _].
      - by apply runs_ret_inv in H3 as [-> _]. }
    unfold waits, executions in *. cbn [omap list_omap ev_op]. rewrite !omap_app, Hw3, He3, !app_nil_r. done. }
  apply runs_bind_inv in Hr as [(r & t1 & t2 & H1 & [-> _]%runs_ret_inv & ->)|(w & H1 & _)]; [rewrite app_nil_r|]; by eapply He.
Qed.
End Waits.

(** The doubling is not capped: with the default of ten seconds the wait after the 31st attempt
    has wrapped to a negative duration, which does not wait at all. *)
Example schedule_overflows : schedule_from 32 0 (10 * Second) !! 30%nat = Some (-7709325833709551616).
Proof. vm_compute. reflexivity. Qed.

(** A pod whose connections are refused. *)
Definition refusing_pod : handler KSig unit := λ o s,
  match o as o return KResp o * unit with
  | KExec _ _ _ _ => (Executed "" "" (Some (PlainError "connection refused")), s)
  | KWait _ => (true, s)
  | o => (refused o, s)
  end.

Definition config_context : Ctx := {[ctx_K8sConfigKey := ConfigValue (Some "https://dr:6443")]}.

Lemma execute_in_pod_schedule_witness :
  let p := execute_in_pod (λ _, "dr:6443") config_context Dst "app-dr" "rsync-0" ["ls"] in
  (length (executions (run_trace refusing_pod p tt)) = 3)%nat ∧
  waits (run_trace refusing_pod p tt) `prefix_of` [10 * Second; 20 * Second] ∧ (length (executions (run_trace refusing_pod p tt)) ≤ 3)%nat.
Proof.
  intros p. split; [vm_compute; reflexivity|].
  exact (execute_in_pod_schedule (λ _, "dr:6443") config_context Dst "app-dr" "rsync-0" ["ls"] _ _ (run_trace_runs refusing_pod p tt)).
Defined.
