(* ===== verification/Health.v ===== *)
(** * Health of the agents: pkg/agent/health

    The pods of an agent and the SSH connections to their nodes.  The programs run over a
    signature of their own: the server's answers, the clock, and the calls of a connection of
    golang.org/x/crypto/ssh.  [fmt.Errorf] is given the message as its format, so formats
    without arguments are modelled ([FormatText]). *)

From S2P Require Import Prelude GoString Errors Types Duration Kube KubeLogic Deployer Lock Helpers TempPod.
From Stdlib Require Import Ascii.

(** ** fmt.Errorf with a format and no arguments *)

Fixpoint drop_while (f : ascii → bool) (l : list ascii) : list ascii :=
  match l with c :: r => if f c then drop_while f r else l | [] => [] end.

Definition is_flag (c : ascii) : bool := existsb (Ascii.eqb c) ["#"; "0"; "+"; "-"; " "]%char.

(** parsenum: a number that is too large swallows the rest of the format. *)
Fixpoint parsenum (l : list ascii) (num : Z) (isnum : bool) : list ascii * bool :=
  match l with
  | c :: r => if is_digit c then (if 1000000 <? num then ([], false) else parsenum r (num * 10 + (code c - 48)) true) else (l, isnum)
  | [] => ([], isnum)
  end.

Fixpoint until_bracket (l : list ascii) : option (list ascii * list ascii) :=
  match l with
  | [] => None
  | c :: r =>
      if Ascii.eqb c "]"%char then Some ([], r)
      else match until_bracket r with Some (inner, rest) => Some (c :: inner, rest) | None => None end
  end.

(** argNumber with no arguments: an index is never good; whether it was well formed. *)
Definition arg_number (l : list ascii) (good : bool) : list ascii * bool * bool :=
  match l with
  | c :: r =>
      if Ascii.eqb c "["%char then
        if (length l <? 3)%nat then (r, false, false)
        else match until_bracket r with
             | Some (inner, rest) => let '(unread, ok) := parsenum inner 0 false in (rest, ok && (length unread =? 0)%nat, false)
             | None => (r, false, false)
             end
      else (l, false, good)
  | [] => (l, false, good)
  end.

(** A width or a precision: [bad] is written when it is a star. *)
Definition number_or_star (bad : string) (l : list ascii) : string * list ascii * bool * bool :=
  match l with
  | c :: r => if Ascii.eqb c "*"%char then (bad, r, true, false) else let '(l', p) := parsenum l 0 false in ("", l', false, p)
  | [] => ("", [], false, false)
  end.

(** One verb after its percent sign: what is written and what is left.  A verb is a character
    with the bytes that continue it. *)
Definition one_verb (l : list ascii) : string * list ascii :=
  let l := drop_while is_flag l in
  let '(l, after, good) := arg_number l true in
  let '(w, l, star, present) := number_or_star "%!(BADWIDTH)" l in
  let good := if star then good else good && negb (after && present) in
  let after := if star then false else after in
  let '(p, l, after, good) :=
    match l with
    | c :: r =>
        if Ascii.eqb c "."%char then
          let '(l, after', good) := arg_number r (good && negb after) in
          let '(p, l, star, present) := number_or_star "%!(BADPREC)" l in
          (p, l, if star then false else after', good)
        else ("", l, after, good)
    | [] => ("", l, after, good)
    end in
  let '(l, good) := if after then (l, good) else let '(l, _, good) := arg_number l good in (l, good) in
  match l with
  | [] => (w +:+ p +:+ "%!(NOVERB)", [])
  | v :: r =>
      let continues c := (128 <=? code c) && (code c <? 192) in
      let rest := if 128 <=? code v then drop_while continues r else r in
      let verb := String.string_of_list_ascii (v :: firstn (length r - length rest) r) in
      if Ascii.eqb v "%"%char then (w +:+ p +:+ "%", rest)
      else (w +:+ p +:+ "%!" +:+ verb +:+ (if good then "(MISSING)" else "(BADINDEX)"), rest)
  end.

Fixpoint format_from (fuel : nat) (l : list ascii) : string :=
  match fuel, l with
  | S n, c :: r =>
      if Ascii.eqb c "%"%char then let '(s, rest) := one_verb r in s +:+ format_from n rest
      else String c (format_from n r)
  | _, _ => ""
  end.

Definition FormatText (s : string) : string := format_from (String.length s) (String.list_ascii_of_string s).

(** ** The signature *)

Inductive ReadResult : Type :=
| ReadOutput (output : string)
| ReadError (e : error)
| ReadTimeout.

Inductive HOp : Type :=
| HListPods (namespace : string) (labels : gmap string string)
| HGetSecret (namespace name : string)
| HNow
| HSleep (d : Z)
| HDial (hostport key : string) (timeout : Z)
| HNewSession
| HStdoutPipe
| HStart (command : string)
| HRead (timeout : Z)
| HWaitCommand
| HCloseSession
| HCloseClient.

Definition HResp (o : HOp) : Type :=
  match o with
  | HListPods _ _ => res (list Object)
  | HGetSecret _ _ => res (gmap string string)
  | HNow => Time
  | HSleep _ | HCloseSession | HCloseClient => unit
  | HDial _ _ _ | HNewSession | HStdoutPipe | HStart _ | HWaitCommand => option error
  | HRead _ => ReadResult
  end.

Definition HSig : Sig := mkSig HOp HResp.
Abbreviation HP := (prog HSig).
Definition hcall (o : HOp) : HP (HResp o) := call (Sg := HSig) o.

(** [ssh.ParsePrivateKey], of which only the error is used. *)
Class KeyParser : Type := ParsePrivateKey : string → option error.

Definition DefaultHealthCheckInterval : Z := 5 * Minute.
Definition DefaultSSHTimeout : Z := 10 * Second.
Definition DefaultRetryAttempts : Z := 3.
Definition DefaultRetryInterval : Z := 30 * Second.

(** A duration of the configuration, unless it is empty or does not parse. *)
Definition parsed_or (text : string) (d : Z) : Z := if text =s? "" then d else default d (ParseDuration text).

(** Interval, timeout of SSH, retries and their interval. *)
Definition getHealthCheckConfig (rc : RemoteCluster) : Z * Z * Z * Z :=
  match rc.(PVCSync) ≫= psHealthCheck with
  | None => (DefaultHealthCheckInterval, DefaultSSHTimeout, DefaultRetryAttempts, DefaultRetryInterval)
  | Some c =>
      (parsed_or c.(hcInterval) DefaultHealthCheckInterval, parsed_or c.(hcSSHTimeout) DefaultSSHTimeout,
       if 0 <? c.(hcRetryAttempts) then c.(hcRetryAttempts) else DefaultRetryAttempts,
       parsed_or c.(hcRetryInterval) DefaultRetryInterval)
  end.

(** ** ssh.go *)

Definition TestCommand : string := "echo dr-syncer-ssh-test".
Definition ProxyTestCommand : string := "test-connection".

Section SSH.
Context `{KeyParser}.

(** [status.Error = msg; return status, fmt.Errorf(status.Error)] *)
Definition ssh_failed (now : Time) (msg : string) : SSHConnectionStatus * option error :=
  (mkSSHConnectionStatus (Some now) false msg, Some (PlainError (FormatText msg))).

(** The session, up to its closing: the message of what failed. *)
Definition in_session (what command expected : string) (timeout : Z) : HP (option string) :=
  let commandTimeout := if Z.quot timeout 2 <? Second then Second else Z.quot timeout 2 in
  r ← hcall HStdoutPipe;
  match r with
  | Some e => mret (Some ("Failed to get SSH stdout pipe: " +:+ Error e))
  | None =>
      r ← hcall (HStart command);
      match r with
      | Some e => mret (Some ("Failed to start " +:+ what +:+ ": " +:+ Error e))
      | None =>
          r ← hcall (HRead commandTimeout);
          match r with
          | ReadError e => mret (Some ("Failed to read " +:+ what +:+ " output: " +:+ Error e))
          | ReadTimeout => mret (Some (what +:+ " timed out"))
          | ReadOutput output =>
              r ← hcall HWaitCommand;
              mret (match r with
                    | Some e => Some (what +:+ " failed: " +:+ Error e)
                    | None => if output =s? expected then None else Some ("Unexpected " +:+ what +:+ " output: " +:+ output)
                    end)
          end
      end
  end.

(** The connection and its session, both closed before returning. *)
Definition in_connection (what command expected hostport key : string) (timeout : Z) : HP (option string) :=
  d ← hcall (HDial hostport key timeout);
  match d with
  | Some e => mret (Some ("Failed to connect to SSH server: " +:+ Error e))
  | None =>
      s ← hcall HNewSession;
      r ← match s with
          | Some e => mret (Some ("Failed to create SSH session: " +:+ Error e))
          | None => r ← in_session what command expected timeout; _ ← hcall HCloseSession; mret r
          end;
      _ ← hcall HCloseClient;
      mret r
  end.

(** [net.JoinHostPort] *)
Definition JoinHostPort (host port : string) : string :=
  if Contains host ":" || Contains host "%" then "[" +:+ host +:+ "]:" +:+ port else host +:+ ":" +:+ port.

(** The time until the deadline, if there is one. *)
Definition until_deadline (deadline : option Time) : HP Z :=
  match deadline with
  | Some d => t ← hcall HNow; mret (int64 (d - t))
  | None => mret DefaultSSHTimeout
  end.

(** The SSH configuration with its key's secret. *)
Definition ssh_config (rc : RemoteCluster) : option (PVCSyncSSH * AgentKeySecretRef) :=
  match rc.(PVCSync) ≫= psSSH with
  | Some ssh => match ssh.(sshKeySecretRef) with Some ref => Some (ssh, ref) | None => None end
  | None => None
  end.

(** What both checks do; [deadline] is the one of the context. *)
Definition check_ssh (what command expected : string) (deadline : option Time) (rc : RemoteCluster) (podIP : string)
    : HP (SSHConnectionStatus * option error) :=
  now ← hcall HNow;
  match ssh_config rc with
  | None => mret (ssh_failed now "PVCSync SSH configuration not found")
  | Some (ssh, ref) =>
      let port := if 0 <? ssh.(sshPort) then ssh.(sshPort) else 22 in
      secret ← hcall (HGetSecret ref.(skNamespace) ref.(skName));
      match secret with
      | Err e => mret (ssh_failed now ("Failed to get SSH key secret: " +:+ Error e))
      | Ok data =>
          match data !! "ssh-private-key" with
          | None => mret (ssh_failed now "SSH private key not found in secret")
          | Some key =>
              match ParsePrivateKey key with
              | Some e => mret (ssh_failed now ("Failed to parse SSH private key: " +:+ Error e))
              | None =>
                  timeout ← until_deadline deadline;
                  r ← in_connection what command expected (JoinHostPort podIP (itoa port)) key timeout;
                  mret (match r with
                        | Some msg => ssh_failed now msg
                        | None => (mkSSHConnectionStatus (Some now) true "", None)
                        end)
              end
          end
      end
  end.

Definition CheckNodeSSHHealth : option Time → RemoteCluster → string → HP (SSHConnectionStatus * option error) :=
  check_ssh "SSH command" TestCommand ("dr-syncer-ssh-test" +:+ newline_text).

Definition CheckNodeSSHProxyHealth : option Time → RemoteCluster → string → HP (SSHConnectionStatus * option error) :=
  check_ssh "SSH proxy command" ProxyTestCommand ("SSH proxy connection successful" +:+ newline_text).
End SSH.

(** ** pod.go *)

Section Pods.
Context `{PodCodec}.

Definition isPodReady (pod : Object) : bool :=
  (phase_of pod =s? "Running") &&
  existsb (λ c, (c.(pcType) =s? "Ready") && (c.(pcStatus) =s? "True")) (PodConditions (status_of pod)).

(** The zero time.Time *)
Definition zero_time : Time := -62135596800 * Second.

Definition latest (times : list Time) : Time := foldl (λ l t, if l <? t then t else l) zero_time times.

Definition GetPodStatus (pod : Object) : PodStatus :=
  let conditions := PodConditions (status_of pod) in
  mkPodStatus (phase_of pod) (isPodReady pod)
    (foldl (λ n c, int32 (n + c.(ctRestarts))) 0 (ContainerStatuses (status_of pod)))
    (match conditions with [] => None | _ => Some (latest (pcTransition <$> conditions)) end).

Definition agent_labels (rc : RemoteCluster) : gmap string string :=
  <["app.kubernetes.io/name" := "dr-syncer-agent"]> (<["app.kubernetes.io/managed-by" := "dr-syncer-controller"]>
  {["dr-syncer.io/remote-cluster" := rc.(RCName)]}).

Definition GetAgentPods (rc : RemoteCluster) : HP (res (list Object)) :=
  r ← hcall (HListPods "dr-syncer" (agent_labels rc));
  mret (match r with Ok items => Ok items | Err e => Err (wrapf "failed to list agent pods: " e) end).
End Pods.

(** ** checker.go *)

Section Checker.
Context `{PodCodec} `{KeyParser}.

(** [context.WithTimeout(ctx, d)] of a context with deadline [parent] *)
Definition with_timeout (parent : option Time) (now d : Time) : option Time :=
  Some (match parent with Some p => if p <? now + d then p else now + d | None => now + d end).

(** The retry loop with [n] attempts left; the first one does not wait. *)
Fixpoint with_retries (n : nat) (first : bool) (retryInterval : Z) (parent : option Time) (sshTimeout : Z)
    (check : option Time → HP (SSHConnectionStatus * option error)) (last : SSHConnectionStatus * option error)
    : HP (SSHConnectionStatus * option error) :=
  match n with
  | O => mret last
  | S n' =>
      _ ← (if first then mret tt else hcall (HSleep retryInterval));
      now ← hcall HNow;
      r ← check (with_timeout parent now sshTimeout);
      match r with
      | (status, None) => if status.(csConnected) then mret r else with_retries n' false retryInterval parent sshTimeout check r
      | _ => with_retries n' false retryInterval parent sshTimeout check r
      end
  end.

(** [retryAttempts + 1] attempts of a check; as an int32 the counter does not wrap below the
    largest one. *)
Definition retried (rc : RemoteCluster) (parent : option Time) (check : option Time → HP (SSHConnectionStatus * option error))
    : HP (SSHConnectionStatus * option error) :=
  let '(_, sshTimeout, retryAttempts, retryInterval) := getHealthCheckConfig rc in
  with_retries (Z.to_nat (retryAttempts + 1)) true retryInterval parent sshTimeout check (mkSSHConnectionStatus None false "", None).

(** The SSH check of a node, and the one of its proxy. *)
Definition check_node (rc : RemoteCluster) (parent : option Time) (podIP : string) : HP SSHConnectionStatus :=
  r ← retried rc parent (λ d, CheckNodeSSHHealth d rc podIP);
  if r.1.(csConnected) then
    p ← retried rc parent (λ d, CheckNodeSSHProxyHealth d rc podIP);
    mret (match p.2 with
          | Some e => mkSSHConnectionStatus r.1.(csLastCheckTime) false ("SSH proxy check failed: " +:+ Error e)
          | None => r.1
          end)
  else mret r.1.

(** The last check is older than the interval, or there was none. *)
Definition needs_check (interval : Z) (ssh : option SSHConnectionStatus) : HP bool :=
  match ssh ≫= csLastCheckTime with
  | Some t => now ← hcall HNow; mret (negb (int64 (now - t) <? interval))
  | None => mret true
  end.

Definition is_connected (ssh : option SSHConnectionStatus) : bool := match ssh with Some s => s.(csConnected) | None => false end.

Definition Statuses : Type := option (gmap string PVCSyncNodeStatus).

(** The new status of the node of a pod. *)
Definition node_status (rc : RemoteCluster) (parent : option Time) (pod : Object) (podIP : string) (old : option PVCSyncNodeStatus)
    : HP PVCSyncNodeStatus :=
  let podStatus := GetPodStatus pod in
  old ← match old with
        | Some s => mret s
        | None => now ← hcall HNow; mret (mkPVCSyncNodeStatus false (Some now) None None "")
        end;
  ssh ← (if podStatus.(psReady) then
           needs ← needs_check (getHealthCheckConfig rc).1.1.1 old.(nsSSHStatus);
           if (needs : bool) then s ← check_node rc parent podIP; mret (Some s) else mret old.(nsSSHStatus)
         else mret old.(nsSSHStatus));
  now ← hcall HNow;
  mret (mkPVCSyncNodeStatus (podStatus.(psReady) && is_connected ssh) (Some now) ssh (Some podStatus)
          ("Pod: " +:+ podStatus.(psPhase) +:+ ", SSH: " +:+ (if is_connected ssh then "true" else "false"))).

(** One pod: the statuses, and the nodes seen so far.  A write into a nil map panics. *)
Definition check_pod (rc : RemoteCluster) (parent : option Time) (pod : Object) (acc : Statuses * gset string)
    : HP (Statuses * gset string) :=
  let '(statuses, seen) := acc in
  let nodeName := pod_node pod in
  if nodeName =s? "" then mret acc
  else
    let podIP := PodIP (status_of pod) in
    if podIP =s? "" then mret (statuses, {[nodeName]} ∪ seen)
    else
      s ← node_status rc parent pod podIP (statuses ≫= λ m, m !! nodeName);
      match statuses with
      | None => panic "assignment to entry in nil map"
      | Some m => mret (Some (<[nodeName := s]> m), {[nodeName]} ∪ seen)
      end.

Definition count_ready (m : gmap string PVCSyncNodeStatus) : nat := size (filter (λ e, nsReady e.2 = true) m).

(** The phase and message of the counts; with no node they stay as they are. *)
Definition overall (readyNodes totalNodes : Z) (st : PVCSyncStatus) : PVCSyncStatus :=
  if (readyNodes =? 0) && (0 <? totalNodes) then set_message "No agent nodes are ready" (set_phase "Degraded" st)
  else if readyNodes <? totalNodes then
    set_message (itoa readyNodes +:+ "/" +:+ itoa totalNodes +:+ " agent nodes are ready") (set_phase "Degraded" st)
  else if 0 <? readyNodes then set_message "All agent nodes are ready" (set_phase "Running" st)
  else st.

(** Drop the nodes without pods, and count. *)
Definition aggregate (statuses : Statuses) (seen : gset string) (st : PVCSyncStatus) : PVCSyncStatus :=
  let kept := filter (λ e, e.1 ∈ seen) <$> statuses in
  let m := default ∅ kept in
  let ready := Z.of_nat (count_ready m) in
  let total := Z.of_nat (size m) in
  overall ready total
    (mkPVCSyncStatus st.(pstPhase) (Some (mkPVCSyncAgentStatus (int32 ready) (int32 total) kept)) st.(pstLastSuccessfulSync)
       st.(pstLastDeploymentTime) st.(pstFailedSyncs) st.(pstMessage)).

Definition CheckAgentHealth (parent : option Time) (rc : RemoteCluster) : HP (res unit * RemoteCluster) :=
  let st := default (new_status "Initializing") rc.(RCStatus).(rsPVCSync) in
  let agents := default (mkPVCSyncAgentStatus 0 0 (Some ∅)) st.(pstAgentStatus) in
  let st := mkPVCSyncStatus st.(pstPhase) (Some agents) st.(pstLastSuccessfulSync) st.(pstLastDeploymentTime) st.(pstFailedSyncs) st.(pstMessage) in
  let rc := set_pvc_status (Some st) rc in
  match rc.(PVCSync) with
  | Some spec =>
      if spec.(psEnabled) then
        items ← GetAgentPods rc;
        match items with
        | Err e => mret (Err e, rc)
        | Ok items =>
            r ← range_each items (agents.(asNodeStatuses), ∅) (check_pod rc parent);
            mret (Ok tt, set_pvc_status (Some (aggregate r.1 r.2 st)) rc)
        end
      else mret (Ok tt, rc)
  | None => mret (Ok tt, rc)
  end.
End Checker.
