(* ===== verification/HealthProps.v ===== *)
(** * Theorems about the health checks of the agents

    Connections are closed, what a node's status means, the counts and the phase of the whole,
    and the cases in which the status is left as it was. *)

From S2P Require Import Prelude GoString Errors Types Duration Kube KubeLogic Deployer Lock Helpers TempPod Health.

(** ** Connections *)

Inductive Connection : Type := Closed | Dialled | InSession.

(** The calls of a connection in their order; the commands need a session. *)
Definition ssh_watch (st : Connection) (e : event HSig) : option Connection :=
  match e with
  | Ev o r =>
      match o as o return HResp o → option Connection with
      | HDial _ _ _ => λ r, match st, r with Closed, None => Some Dialled | Closed, Some _ => Some Closed | _, _ => None end
      | HNewSession => λ r, match st, r with Dialled, None => Some InSession | Dialled, Some _ => Some Dialled | _, _ => None end
      | HStdoutPipe | HStart _ | HRead _ | HWaitCommand => λ _, match st with InSession => Some InSession | _ => None end
      | HCloseSession => λ _, match st with InSession => Some Dialled | _ => None end
      | HCloseClient => λ _, match st with Dialled => Some Closed | _ => None end
      | _ => λ _, Some st
      end r
  end.

(** Every execution of [p] keeps to that order from [st] on, and ends in [st]. *)
Definition balanced {A} (st : Connection) (p : HP A) : Prop := monitored ssh_watch p st (λ _ st', st' = st).

Lemma balanced_bind {A B} st (p : HP A) (f : A → HP B) : balanced st p → (∀ a, balanced st (f a)) → balanced st (p ≫= f).
Proof.
  intros Hp Hf. apply monitored_bind. eapply monitored_mono; [exact Hp|]. intros [a|w] st' ->; [apply Hf|done].
Qed.

Lemma balanced_range {A St} st (xs : list A) (s : St) body :
  (∀ x s, balanced st (body x s)) → balanced st (range_each xs s body).
Proof. intros Hb. revert s. induction xs as [|x xs IH]; intros s; [done|]. apply balanced_bind; [apply Hb|apply IH]. Qed.

Ltac balanced_step :=
  lazymatch goal with
  | |- balanced _ (match ?x with _ => _ end) => destruct x
  | |- balanced _ (mret _) => reflexivity
  | |- balanced _ (panic _) => reflexivity
  | |- balanced _ (hcall _) => intros ?; reflexivity
  | |- balanced _ (range_each _ _ _) => apply balanced_range; intros
  | |- balanced _ (_ ≫= _) => apply balanced_bind; [|intros ?]
  | |- balanced _ (let _ := _ in _) => cbv zeta
  end.

Section Balanced.
Context {PC : PodCodec} {KP : KeyParser}.

Lemma in_session_returns what command expected timeout :
  monitored ssh_watch (in_session what command expected timeout) InSession (λ out st, (∃ r, out = Ret r) ∧ st = InSession).
Proof.
  intros [e|]; [by split; [eexists|]|]. intros [e|]; [by split; [eexists|]|]. intros [output|e|]; try by split; [eexists|].
Qed.

Lemma in_connection_balanced what command expected hostport key timeout :
  balanced Closed (in_connection what command expected hostport key timeout).
Proof.
  unfold in_connection. intros [e|]; [reflexivity|]. intros [e|]; [intros []; reflexivity|].
  apply monitored_bind, monitored_bind. eapply monitored_mono; [apply in_session_returns|].
  intros out st [[r ->] ->] []. cbn. intros []. reflexivity.
Qed.

Lemma check_ssh_balanced what command expected deadline rc podIP : balanced Closed (check_ssh what command expected deadline rc podIP).
Proof. unfold check_ssh, until_deadline. repeat first [apply in_connection_balanced | balanced_step]. Qed.

Lemma with_retries_balanced n first interval parent timeout check last :
  (∀ d, balanced Closed (check d)) → balanced Closed (with_retries n first interval parent timeout check last).
Proof.
  intros Hc. revert first last. induction n as [|n IH]; intros first last; [reflexivity|]. cbn [with_retries].
  repeat first [apply Hc | apply IH | balanced_step].
Qed.

Lemma check_node_balanced rc parent podIP : balanced Closed (check_node rc parent podIP).
Proof.
  unfold check_node, retried. destruct (getHealthCheckConfig rc) as [[[interval timeout] attempts] wait].
  repeat first [apply with_retries_balanced; intros | apply check_ssh_balanced | balanced_step].
Qed.

(** C18: CheckAgentHealth, whatever the servers and the connections answer: no connection is dialled
    while another is open, commands are run only in a session, and when the check is over, even
    by a panic, every session and every connection has been closed. *)
Theorem CheckAgentHealth_closes parent rc tr out :
  runs (CheckAgentHealth parent rc) tr out → observe ssh_watch Closed tr = Some Closed.
Proof.
  intros Hr. assert (Hb : balanced Closed (CheckAgentHealth parent rc)).
  { unfold CheckAgentHealth, GetAgentPods, check_pod, node_status, needs_check.
    repeat first [apply check_node_balanced | balanced_step]. }
  by destruct (monitored_sound _ _ _ _ _ _ Hb Hr) as (st & Ho & ->).
Qed.
End Balanced.

(** ** What a connection has shown *)

(** The commands that ended well in a session, with the address dialled and the output read. *)
Record track_state : Type := mkTrack { tkHost : string; tkCommand : string; tkOutput : string; tkDone : list (string * string * string) }.

Definition track (s : track_state) (e : event HSig) : track_state :=
  match e with
  | Ev o r =>
      match o as o return HResp o → track_state with
      | HDial hp _ _ => λ r, match r with None => mkTrack hp s.(tkCommand) s.(tkOutput) s.(tkDone) | Some _ => s end
      | HStart c => λ r, match r with None => mkTrack s.(tkHost) c s.(tkOutput) s.(tkDone) | Some _ => s end
      | HRead _ => λ r, match r with ReadOutput out => mkTrack s.(tkHost) s.(tkCommand) out s.(tkDone) | _ => s end
      | HWaitCommand => λ r,
          match r with
          | None => mkTrack s.(tkHost) s.(tkCommand) s.(tkOutput) (s.(tkDone) ++ [(s.(tkHost), s.(tkCommand), s.(tkOutput))])
          | Some _ => s
          end
      | _ => λ _, s
      end r
  end.

Definition sessions (tr : list (event HSig)) : list (string * string * string) := (fold_left track tr (mkTrack "" "" "" [])).(tkDone).

Definition dialled (tr : list (event HSig)) : bool :=
  existsb (λ e : event HSig, match (ev_op e : HOp) with HDial _ _ _ => true | _ => false end) tr.

(** The address of the agent's SSH server, as the configuration has it. *)
Definition ssh_address (rc : RemoteCluster) (podIP : string) : string :=
  JoinHostPort podIP (itoa match ssh_config rc with Some (ssh, _) => if 0 <? ssh.(sshPort) then ssh.(sshPort) else 22 | None => 22 end).

(** Both test commands were run at the address and answered what is expected. *)
Definition reached (rc : RemoteCluster) (podIP : string) (tr : list (event HSig)) : Prop :=
  (ssh_address rc podIP, TestCommand, "dr-syncer-ssh-test" +:+ newline_text) ∈ sessions tr ∧
  (ssh_address rc podIP, ProxyTestCommand, "SSH proxy connection successful" +:+ newline_text) ∈ sessions tr.

Definition tracking (s : track_state) (e : event HSig) : option track_state := Some (track s e).

Lemma observe_tracking tr s : observe tracking s tr = Some (fold_left track tr s).
Proof. revert s. induction tr as [|e tr IH]; intros s; [done|]. apply IH. Qed.

(** From [s] to [s'] commands [command] ended at [hp], one with the output [expected] exactly
    when [ok]. *)
Definition probed (hp command expected : string) (ok : bool) (s s' : track_state) : Prop :=
  ∃ l, s'.(tkDone) = (s.(tkDone) ++ l)%list ∧ Forall (λ x : string * string * string, x.1 = (hp, command)) l ∧
    (ok = true ↔ (hp, command, expected) ∈ l).

Lemma probed_none hp command expected s s' : tkDone s' = tkDone s → probed hp command expected false s s'.
Proof. intros E. exists []. rewrite E, app_nil_r. split_and!; [done..|]. by rewrite elem_of_nil. Qed.

Lemma probed_trans hp command expected ok s s1 s2 :
  probed hp command expected false s s1 → probed hp command expected ok s1 s2 → probed hp command expected ok s s2.
Proof.
  intros (l1 & E1 & F1 & H1) (l2 & E2 & F2 & H2). exists (l1 ++ l2)%list. rewrite E2, E1, <- app_assoc. split; [done|].
  split; [by apply Forall_app|]. rewrite elem_of_app, H2. destruct H1 as [_ H1]. naive_solver.
Qed.

Section Connected.
Context {PC : PodCodec} {KP : KeyParser}.

Lemma in_connection_probed what command expected hp key timeout s :
  monitored tracking (in_connection what command expected hp key timeout) s
    (λ out s', ∃ r, out = Ret r ∧ probed hp command expected (match r with None => true | Some _ => false end) s s').
Proof.
  unfold in_connection, in_session.
  intros [e|]; [eexists; split; [reflexivity|by apply probed_none]|].
  intros [e|]; [intros []; eexists; split; [reflexivity|by apply probed_none]|].
  intros [e|]; [intros [] []; eexists; split; [reflexivity|by apply probed_none]|].
  intros [e|]; [intros [] []; eexists; split; [reflexivity|by apply probed_none]|].
  intros [output|e|]; [|intros [] []; eexists; split; [reflexivity|by apply probed_none]..].
  intros [e|]; [intros [] []; eexists; split; [reflexivity|by apply probed_none]|]. intros [] [].
  eexists. split; [reflexivity|]. exists [(hp, command, output)]. split; [done|]. split; [by repeat constructor|].
  rewrite list_elem_of_singleton. destruct (String.eqb_spec output expected) as [->|Hne]; naive_solver.
Qed.

Lemma tracked_call {A} (o : HOp) (f : HResp o → HP A) s Q :
  (∀ r, monitored tracking (f r) (track s (Ev (Sg := HSig) o r)) Q) → monitored tracking (hcall o ≫= f) s Q.
Proof. intros H r. exact (H r). Qed.

(** What a check answers: an error exactly when it did not connect. *)
Definition answers (hp command expected : string) (s : track_state)
    (out : exec (SSHConnectionStatus * option error)) (s' : track_state) : Prop :=
  ∃ st e, out = Ret (st, e) ∧ (e = None ↔ csConnected st = true) ∧ probed hp command expected (csConnected st) s s'.

Lemma answers_failed hp command expected now msg s s' :
  probed hp command expected false s s' → answers hp command expected s (Ret (ssh_failed now msg)) s'.
Proof. intros H. eexists _, _. split; [done|]. by split. Qed.

Lemma check_ssh_answers what command expected deadline rc podIP s :
  monitored tracking (check_ssh what command expected deadline rc podIP) s (answers (ssh_address rc podIP) command expected s).
Proof.
  unfold check_ssh, ssh_address. apply tracked_call. intros now.
  destruct (ssh_config rc) as [[ssh ref]|]; [|by apply answers_failed, probed_none].
  set (hp := JoinHostPort _ _). apply tracked_call. intros [data|e]; [|by apply answers_failed, probed_none].
  destruct (data !! "ssh-private-key") as [key|]; [|by apply answers_failed, probed_none].
  destruct (ParsePrivateKey key) as [e|]; [by apply answers_failed, probed_none|].
  apply monitored_bind. eapply (monitored_mono _ _ _ (λ out s', s' = s ∧ ∃ t, out = Ret t)).
  { unfold until_deadline. destruct deadline as [d|]; [intros t|]; (split; [done|by eexists]). }
  intros out s' [-> [t ->]]. apply monitored_bind. eapply monitored_mono; [apply in_connection_probed|].
  intros out s' (r & -> & Hp). destruct r as [msg|]; [by apply answers_failed|]. eexists _, _. by split_and!.
Qed.

Lemma with_retries_answers hp command expected n first interval parent timeout check last s s0 :
  (∀ d s, monitored tracking (check d) s (answers hp command expected s)) →
  (n = O → csConnected last.1 = false ∧ last.2 ≠ None) → probed hp command expected false s0 s →
  monitored tracking (with_retries n first interval parent timeout check last) s (answers hp command expected s0).
Proof.
  intros Hc. revert first last s. induction n as [|n IH]; intros first last s Hl Hs.
  { destruct (Hl eq_refl) as [Hf He]. destruct last as [st e]. cbn in *. exists st, e. rewrite Hf. split_and!; [done|naive_solver|done]. }
  cbn [with_retries]. apply monitored_bind. eapply (monitored_mono _ _ _ (λ out s', s' = s ∧ ∃ u, out = Ret u)).
  { destruct first; [|intros []]; (split; [done|by eexists]). }
  intros out s' [-> [u ->]]. apply tracked_call. intros now. apply monitored_bind. eapply monitored_mono; [apply Hc|].
  intros out s' (st & e & -> & He & Hp). destruct e as [e|].
  - assert (Hst : csConnected st = false) by (destruct (csConnected st); naive_solver). rewrite Hst in Hp.
    apply IH; [by intros _|]. by eapply probed_trans.
  - rewrite (proj1 He eq_refl) in *. exists st, None. rewrite (proj1 He eq_refl). split_and!; [done|done|]. by eapply probed_trans.
Qed.

Lemma retried_answers hp command expected rc parent check s :
  (∀ d s, monitored tracking (check d) s (answers hp command expected s)) →
  monitored tracking (retried rc parent check) s (answers hp command expected s).
Proof.
  intros Hc. unfold retried. destruct (getHealthCheckConfig rc) as [[[i t] a] w] eqn:E.
  apply with_retries_answers; [done| |by apply probed_none]. intros Hn. exfalso.
  unfold getHealthCheckConfig, DefaultRetryAttempts in E. repeat case_match; simplify_eq; lia.
Qed.

(** A node counts as connected exactly when both commands were answered. *)
Lemma check_node_reached rc parent podIP tr st :
  runs (check_node rc parent podIP) tr (Ret st) → csConnected st = true ↔ reached rc podIP tr.
Proof.
  intros Hr. enough (Hm : monitored tracking (check_node rc parent podIP) (mkTrack "" "" "" []) (λ out s', ∀ st, out = Ret st →
    (csConnected st = true ↔
      (ssh_address rc podIP, TestCommand, "dr-syncer-ssh-test" +:+ newline_text) ∈ tkDone s' ∧
      (ssh_address rc podIP, ProxyTestCommand, "SSH proxy connection successful" +:+ newline_text) ∈ tkDone s'))).
  { destruct (monitored_sound _ _ _ _ _ _ Hm Hr) as (s' & Ho & H). rewrite observe_tracking in Ho. injection Ho as <-. by apply H. }
  unfold check_node. apply monitored_bind. eapply monitored_mono.
  { apply (retried_answers (ssh_address rc podIP) TestCommand ("dr-syncer-ssh-test" +:+ newline_text)). intros. apply check_ssh_answers. }
  intros out s1 (st1 & e1 & -> & He1 & l1 & E1 & F1 & H1). cbn [fst tkDone app] in *. destruct (csConnected st1) eqn:C1.
  2: { intros st' [= <-]. rewrite C1, E1. naive_solver. }
  apply monitored_bind. eapply monitored_mono.
  { apply (retried_answers (ssh_address rc podIP) ProxyTestCommand ("SSH proxy connection successful" +:+ newline_text)).
    intros. apply check_ssh_answers. }
  intros out s2 (st2 & e2 & -> & He2 & l2 & E2 & F2 & H2) st'. cbn. intros [= <-]. rewrite E2, E1, !elem_of_app.
  assert (Hno : (ssh_address rc podIP, ProxyTestCommand, "SSH proxy connection successful" +:+ newline_text) ∉ l1).
  { intros Hin. rewrite Forall_forall in F1. by specialize (F1 _ Hin). }
  destruct e2 as [e2|]; cbn.
  - assert (csConnected st2 = false) by (destruct (csConnected st2); naive_solver). naive_solver.
  - rewrite C1. naive_solver.
Qed.
End Connected.

(** ** The statuses *)

Section Statuses.
Context {PC : PodCodec} {KP : KeyParser}.

(** A status that was computed from a pod of the node with an address: it is ready exactly when
    the pod is and the SSH status recorded with it says connected. *)
Definition fresh (items : list Object) (n : string) (s : PVCSyncNodeStatus) : Prop :=
  ∃ pod, pod ∈ items ∧ pod_node pod = n ∧ PodIP (status_of pod) ≠ "" ∧
    nsPodStatus s = Some (GetPodStatus pod) ∧ nsReady s = isPodReady pod && is_connected (nsSSHStatus s).

Definition no_address (items : list Object) (n : string) : Prop := ∀ pod, pod ∈ items → pod_node pod = n → PodIP (status_of pod) = "".

Definition entry (m : Statuses) (n : string) : option PVCSyncNodeStatus := m ≫= λ m, m !! n.

(** The age of a status at a reading of the clock in [t] is, or is not, below the interval. *)
Definition recent (interval : Z) (ssh : option SSHConnectionStatus) (t : list (event HSig)) : Prop :=
  ∃ checked now, (ssh ≫= csLastCheckTime) = Some checked ∧ Ev (Sg := HSig) HNow now ∈ t ∧ int64 (now - checked) < interval.
Definition stale (interval : Z) (ssh : option SSHConnectionStatus) (t : list (event HSig)) : Prop :=
  ∀ checked, (ssh ≫= csLastCheckTime) = Some checked → ∃ now, Ev (Sg := HSig) HNow now ∈ t ∧ interval ≤ int64 (now - checked).

(** How the SSH status of node [n] comes about, from [old], over the pods with the calls made for
    each: a ready pod of the node with an address, whose status is not recent, is dialled, and
    the new status says connected exactly when both test commands were answered; otherwise
    nothing is dialled and the status stays. *)
Inductive ssh_history (rc : RemoteCluster) (old : option SSHConnectionStatus) (n : string)
    : list (Object * list (event HSig)) → option SSHConnectionStatus → Prop :=
| history_start : ssh_history rc old n [] old
| history_other done ssh pod t :
    ssh_history rc old n done ssh → pod_node pod ≠ n ∨ PodIP (status_of pod) = "" →
    ssh_history rc old n (done ++ [(pod, t)]) ssh
| history_kept done ssh pod t :
    ssh_history rc old n done ssh → pod_node pod = n → dialled t = false →
    isPodReady pod = false ∨ recent (getHealthCheckConfig rc).1.1.1 ssh t →
    ssh_history rc old n (done ++ [(pod, t)]) ssh
| history_checked done ssh pod t s :
    ssh_history rc old n done ssh → pod_node pod = n → isPodReady pod = true →
    stale (getHealthCheckConfig rc).1.1.1 ssh t →
    (csConnected s = true ↔ reached rc (PodIP (status_of pod)) t) →
    ssh_history rc old n (done ++ [(pod, t)]) (Some s).

(** The history depends on the spec of the cluster only. *)
Lemma ssh_history_status rc x old n done ssh : ssh_history (set_pvc_status x rc) old n done ssh → ssh_history rc old n done ssh.
Proof.
  induction 1; [constructor|by apply history_other|by apply history_kept|by eapply history_checked].
Qed.

(** The statuses after some pods: each is fresh, or it is the old one of a node no pod of which
    had an address; the others have one; and each has its history. *)
Record loop_inv (rc : RemoteCluster) (done : list (Object * list (event HSig))) (old : Statuses) (acc : Statuses * gset string) : Prop := {
  inv_seen : ∀ n, n ∈ acc.2 ↔ n ≠ "" ∧ ∃ pod, pod ∈ done.*1 ∧ pod_node pod = n;
  inv_entry : ∀ n s, entry acc.1 n = Some s → fresh done.*1 n s ∨ (entry old n = Some s ∧ (n ≠ "" → no_address done.*1 n));
  inv_have : ∀ pod, pod ∈ done.*1 → pod_node pod ≠ "" → PodIP (status_of pod) ≠ "" → is_Some (entry acc.1 (pod_node pod));
  inv_history : ∀ n, n ≠ "" → ssh_history rc (entry old n ≫= nsSSHStatus) n done (entry acc.1 n ≫= nsSSHStatus)
}.

Lemma node_status_runs rc parent pod podIP old tr s :
  runs (node_status rc parent pod podIP old) tr (Ret s) → PodIP (status_of pod) = podIP →
  (nsPodStatus s = Some (GetPodStatus pod) ∧ nsReady s = isPodReady pod && is_connected (nsSSHStatus s)) ∧
  ∀ orig n done, ssh_history rc orig n done (old ≫= nsSSHStatus) → pod_node pod = n →
    ssh_history rc orig n (done ++ [(pod, tr)]) (nsSSHStatus s).
Proof.
  unfold node_status. intros Hr <-.
  apply runs_bind_inv in Hr as [(o & t1 & t2 & H1 & Hr & ->)|(w & _ & [=])].
  assert (Ho : (old ≫= nsSSHStatus) = nsSSHStatus o ∧ dialled t1 = false ∧ ∀ s, fold_left track t1 s = s).
  { destruct old as [x|]; [by apply runs_ret_inv in H1 as [-> [= ->]]|].
    apply (runs_call_inv (Sg := HSig) HNow) in H1 as (now & t & -> & H1). by apply runs_ret_inv in H1 as [-> [= ->]]. }
  destruct Ho as (-> & Hd1 & Ht1).
  apply runs_bind_inv in Hr as [(ssh & t3 & t4 & H3 & Hr & ->)|(w & _ & [=])].
  apply (runs_call_inv (Sg := HSig) HNow) in Hr as (last & t5 & -> & Hr). apply runs_ret_inv in Hr as [-> [= ->]].
  split; [done|]. intros orig n done Hh Hn. cbn [nsSSHStatus]. unfold dialled in *.
  change (psReady (GetPodStatus pod)) with (isPodReady pod) in H3.
  destruct (isPodReady pod) eqn:Hready.
  2: { apply runs_ret_inv in H3 as [-> [= ->]]. eapply history_kept; [done..| |by left]. unfold dialled. by rewrite existsb_app, Hd1. }
  apply runs_bind_inv in H3 as [(needs & t6 & t7 & H6 & H7 & ->)|(w & _ & [=])].
  assert (Hneeds : (dialled t6 = false ∧ ∀ s, fold_left track t6 s = s) ∧ if needs then stale (getHealthCheckConfig rc).1.1.1 (nsSSHStatus o) t6
                                       else recent (getHealthCheckConfig rc).1.1.1 (nsSSHStatus o) t6).
  { clear -H6. unfold needs_check in H6. destruct (nsSSHStatus o) as [[[checked|] conn err]|]; cbn [mbind option_bind csLastCheckTime] in H6.
    - apply (runs_call_inv (Sg := HSig) HNow) in H6 as (now & t & -> & H6). apply runs_ret_inv in H6 as [-> [= ->]]. split; [done|].
      destruct (Z.ltb_spec (int64 (now - checked)) (getHealthCheckConfig rc).1.1.1); cbn.
      + exists checked, now. split_and!; [done|left|done].
      + intros c [= <-]. exists now. split; [left|done].
    - by apply runs_ret_inv in H6 as [-> [= ->]].
    - by apply runs_ret_inv in H6 as [-> [= ->]]. }
  destruct Hneeds as [[Hd6 Ht6] Hneeds]. destruct needs.
  - apply runs_bind_inv in H7 as [(st & t8 & t9 & H8 & H9 & ->)|(w & _ & [=])]. apply runs_ret_inv in H9 as [-> [= ->]].
    eapply history_checked; [done..| |].
    + intros c Hc. destruct (Hneeds c Hc) as (now & Hin & Hle). exists now. split; [set_solver|done].
    + rewrite (check_node_reached _ _ _ _ _ H8). unfold reached, sessions. by rewrite !fold_left_app, Ht1, Ht6.
  - apply runs_ret_inv in H7 as [-> [= ->]]. eapply history_kept; [done..| |].
    + unfold dialled in *. by rewrite !existsb_app, Hd1, Hd6.
    + right. destruct Hneeds as (c & now & Hc & Hin & Hlt). exists c, now. split_and!; [done|set_solver|done].
Qed.

Lemma fresh_mono items pod n s : fresh items n s → fresh (items ++ [pod])%list n s.
Proof. intros (p & Hp & H). exists p. split; [set_solver|done]. Qed.

(** A pod that leaves the statuses as they are: one without a node, or without an address. *)
Lemma inv_skip rc done old statuses seen pod t :
  loop_inv rc done old (statuses, seen) → pod_node pod = "" ∨ PodIP (status_of pod) = "" →
  loop_inv rc (done ++ [(pod, t)])%list old (statuses, if pod_node pod =s? "" then seen else {[pod_node pod]} ∪ seen).
Proof.
  intros [Hs He Hh Hi] Hp. split; rewrite ?fmap_app; cbn [fst snd fmap list_fmap] in *.
  - intros n. destruct (String.eqb_spec (pod_node pod) "") as [Hn|Hn]; [rewrite Hs|rewrite elem_of_union, elem_of_singleton, Hs];
      setoid_rewrite elem_of_app; setoid_rewrite list_elem_of_singleton; naive_solver.
  - intros n s [Hf|[Ho Hno]]%He; [left; by apply fresh_mono|right]. split; [done|]. intros Hn p [Hin|Hin]%elem_of_app Hpn; [by apply (Hno Hn)|].
    apply list_elem_of_singleton in Hin as ->. destruct Hp as [Hp|Hp]; [congruence|done].
  - intros p [Hin|Hin]%elem_of_app Hn Hip; [by apply Hh|]. apply list_elem_of_singleton in Hin as ->. naive_solver.
  - intros n Hn. apply history_other; [by apply Hi|]. destruct Hp as [Hp|Hp]; [left; congruence|by right].
Qed.

Lemma inv_update rc done old m seen pod s t :
  loop_inv rc done old (Some m, seen) → pod_node pod ≠ "" → PodIP (status_of pod) ≠ "" →
  (nsPodStatus s = Some (GetPodStatus pod) ∧ nsReady s = isPodReady pod && is_connected (nsSSHStatus s)) →
  (∀ orig n done, ssh_history rc orig n done ((m !! pod_node pod) ≫= nsSSHStatus) → pod_node pod = n →
     ssh_history rc orig n (done ++ [(pod, t)]) (nsSSHStatus s)) →
  loop_inv rc (done ++ [(pod, t)])%list old (Some (<[pod_node pod := s]> m), {[pod_node pod]} ∪ seen).
Proof.
  intros [Hs He Hh Hi] Hn Hip [Hp Hr] Hhist. split; rewrite ?fmap_app; cbn [fst snd fmap list_fmap] in *.
  - intros n. rewrite elem_of_union, elem_of_singleton, Hs. setoid_rewrite elem_of_app. setoid_rewrite list_elem_of_singleton. naive_solver.
  - intros n x. unfold entry in *. cbn [mbind option_bind] in *. destruct (decide (n = pod_node pod)) as [->|Hne].
    + rewrite lookup_insert_eq. intros [= <-]. left. exists pod. split; [set_solver|done].
    + rewrite lookup_insert_ne by done. intros [Hf|[Ho Hno]]%He; [left; by apply fresh_mono|right]. split; [done|].
      intros Hx p [Hin|Hin]%elem_of_app Hpn; [by apply (Hno Hx)|]. apply list_elem_of_singleton in Hin as ->. done.
  - intros p Hin Hpn Hpip. unfold entry in *. cbn [mbind option_bind] in *. destruct (decide (pod_node p = pod_node pod)) as [->|Hne].
    + rewrite lookup_insert_eq. by eexists.
    + rewrite lookup_insert_ne by done. apply elem_of_app in Hin as [Hin|Hin]; [by apply Hh|]. by apply list_elem_of_singleton in Hin as ->.
  - intros n Hne. specialize (Hi n Hne). unfold entry in *. cbn [mbind option_bind] in *. destruct (decide (n = pod_node pod)) as [->|Hd].
    + rewrite lookup_insert_eq. by apply Hhist.
    + rewrite lookup_insert_ne by done. apply history_other; [done|by left].
Qed.

Lemma check_pod_inv rc parent done old pod acc tr acc' :
  loop_inv rc done old acc → runs (check_pod rc parent pod acc) tr (Ret acc') → loop_inv rc (done ++ [(pod, tr)])%list old acc'.
Proof.
  destruct acc as [statuses seen]. intros Hi Hr. unfold check_pod in Hr. cbv zeta in Hr.
  pose proof (inv_skip _ _ _ _ _ pod tr Hi) as Hskip.
  destruct (String.eqb_spec (pod_node pod) "") as [Hn|Hn]; [apply runs_ret_inv in Hr as [_ [= ->]]; by apply Hskip; left|].
  destruct (String.eqb_spec (PodIP (status_of pod)) "") as [Hip|Hip]; [apply runs_ret_inv in Hr as [_ [= ->]]; by apply Hskip; right|].
  apply runs_bind_inv in Hr as [(s & t1 & t2 & H1 & Hr & ->)|(w & _ & [=])]. apply node_status_runs in H1 as [Hp Hhist]; [|done].
  destruct statuses as [m|]; [|by apply runs_panic_inv in Hr as [_ [=]]]. apply runs_ret_inv in Hr as [-> [= ->]]. rewrite app_nil_r.
  by apply inv_update.
Qed.

Lemma check_pods_inv rc parent todo done old acc tr acc' :
  loop_inv rc done old acc → runs (range_each todo acc (check_pod rc parent)) tr (Ret acc') →
  ∃ ts, length ts = length todo ∧ tr = concat ts ∧ loop_inv rc (done ++ zip todo ts)%list old acc'.
Proof.
  revert done acc tr. induction todo as [|pod todo IH]; intros done acc tr Hi Hr; cbn [range_each] in Hr.
  { apply runs_ret_inv in Hr as [-> [= ->]]. exists []. cbn. by rewrite app_nil_r. }
  apply runs_bind_inv in Hr as [(acc1 & t1 & t2 & H1 & H2 & ->)|(w & _ & [=])].
  apply (check_pod_inv _ _ _ _ _ _ _ _ Hi) in H1. destruct (IH _ _ _ H1 H2) as (ts & Hl & -> & Hinv).
  exists (t1 :: ts). split; [cbn; by rewrite Hl|]. split; [done|]. cbn [zip zip_with]. by rewrite <- app_assoc in Hinv.
Qed.

Lemma count_ready_le m : (count_ready m ≤ size m)%nat.
Proof. unfold count_ready. apply map_size_filter. Qed.

Lemma count_ready_all m : count_ready m = size m ↔ ∀ n s, m !! n = Some s → nsReady s = true.
Proof.
  unfold count_ready. split.
  - intros Hc n s Hn. assert (E : filter (λ e : string * PVCSyncNodeStatus, nsReady e.2 = true) m = m).
    { apply map_subseteq_size_eq; [apply map_filter_subseteq|lia]. }
    rewrite <- E in Hn. by apply map_lookup_filter_Some in Hn as [_ Hn].
  - intros Ha. f_equal. apply map_filter_id. intros n s Hn. by eapply Ha.
Qed.

Definition old_status (rc : RemoteCluster) : PVCSyncStatus := default (new_status "Initializing") rc.(RCStatus).(rsPVCSync).
Definition old_statuses (rc : RemoteCluster) : Statuses :=
  match (old_status rc).(pstAgentStatus) with Some a => a.(asNodeStatuses) | None => Some ∅ end.

(** The counts and the phase of the status [st] fit the nodes [m]; without a node the phase is
    the one before. *)
Definition summary (before : string) (m : gmap string PVCSyncNodeStatus) (st : PVCSyncStatus) : Prop :=
  (∃ agents, st.(pstAgentStatus) = Some agents ∧ default ∅ agents.(asNodeStatuses) = m ∧
     agents.(asReadyNodes) = int32 (Z.of_nat (count_ready m)) ∧ agents.(asTotalNodes) = int32 (Z.of_nat (size m))) ∧
  (m = ∅ → st.(pstPhase) = before) ∧
  (m ≠ ∅ → (∀ n s, m !! n = Some s → nsReady s = true) → st.(pstPhase) = "Running") ∧
  ((∃ n s, m !! n = Some s ∧ nsReady s = false) → st.(pstPhase) = "Degraded").

Lemma aggregate_summary statuses seen st :
  summary st.(pstPhase) (default ∅ (filter (λ e, e.1 ∈ seen) <$> statuses)) (aggregate statuses seen st).
Proof.
  unfold aggregate. set (kept := filter _ <$> statuses). set (m := default ∅ kept). cbv zeta.
  set (st1 := mkPVCSyncStatus _ _ _ _ _ _). set (ready := Z.of_nat (count_ready m)). set (total := Z.of_nat (size m)).
  assert (Ha : pstAgentStatus (overall ready total st1) = pstAgentStatus st1) by (unfold overall; repeat case_match; done).
  pose proof (count_ready_le m) as Hle. pose proof (count_ready_all m) as Hall. split; [|split; [|split]].
  - rewrite Ha. eexists. done.
  - intros Hm. assert (total = 0) by (unfold total; rewrite Hm; done). unfold overall. replace ready with 0 by lia.
    by replace total with 0.
  - intros Hm Hr%Hall. assert (total ≠ 0) by (unfold total; intros E; apply Hm, map_size_empty_iff; lia).
    unfold overall. replace (ready =? 0) with false by lia. cbn [andb]. replace (ready <? total) with false by lia.
    by replace (0 <? ready) with true by lia.
  - intros (n & s & Hn & Hs). assert (count_ready m ≠ size m) by (intros E; rewrite (proj1 Hall E n s Hn) in Hs; done).
    unfold overall. replace (ready <? total) with true by lia. by destruct ((ready =? 0) && (0 <? total)).
Qed.

End Statuses.

(** ** Concrete clusters *)

(** The status of a pod is its address, and a running pod is ready. *)
#[local] Instance address_pods : PodCodec := {|
  EncodePod := spImage;
  ContainerStatuses := λ _, [mkContainerStatus true 2];
  PodIP := id;
  PodConditions := λ _, [mkPodCondition "Ready" "True" 5]
|}.
#[local] Instance any_key : KeyParser := λ _, None.

Definition agent_pod (node ip : string) : Object :=
  mkObject (mkGVK "" "" "") (mkObjectMeta ("agent-" +:+ node) "dr-syncer" "u" "1" "" None [] [] 0 [] None None)
    (PodBody (mkPodFields [] node "Running" ip "")).

(** The agents' pods; connections to [good] work, the others are refused. *)
Definition agents_world (items : list Object) (good : string) : handler HSig string := λ o s,
  match o as o return HResp o * string with
  | HListPods _ _ => (Ok items, s)
  | HGetSecret _ _ => (Ok {["ssh-private-key" := "key"]}, s)
  | HNow => (1700000000 * Second, s)
  | HSleep _ | HCloseSession | HCloseClient => (tt, s)
  | HDial hp _ _ => (if hp =s? good +:+ ":22" then None else Some (PlainError "connection refused"), s)
  | HNewSession | HStdoutPipe | HWaitCommand => (None, s)
  | HStart c => (None, c)
  | HRead _ => (ReadOutput ((if s =s? TestCommand then "dr-syncer-ssh-test" else "SSH proxy connection successful") +:+ newline_text), s)
  end.

Definition agents_spec : PVCSyncSpec :=
  mkPVCSyncSpec true None (Some (mkPVCSyncSSH 0 (Some (mkAgentKeySecretRef "keys" "dr-syncer")))) None None "" None
    (Some (mkHealthCheckConfig "" "" 1 "1s")).

Definition agents_cluster (st : option PVCSyncStatus) : RemoteCluster :=
  mkRemoteCluster "dr" "dr-syncer" "1" (mkKubeconfigSecretRef "kubeconfig" "dr-syncer" "") "" (Some agents_spec)
    (mkRemoteClusterStatus "" None [] st).

Definition phase_after {A} (r : exec (A * RemoteCluster) * string) : option string :=
  match r.1 with Ret (_, rc) => pstPhase <$> rc.(RCStatus).(rsPVCSync) | Panic _ => None end.

Definition nil_error {A} (r : exec (res unit * A)) : bool := match r with Ret (Ok _, _) => true | _ => false end.

Definition two_agents : list Object := [agent_pod "node-1" "10.0.0.1"; agent_pod "node-2" "10.0.0.2"].


Lemma CheckAgentHealth_closes_witness :
  observe ssh_watch Closed (run_trace (agents_world two_agents "10.0.0.1") (CheckAgentHealth None (agents_cluster None)) "") = Some Closed.
Proof. exact (CheckAgentHealth_closes None (agents_cluster None) _ _ (run_trace_runs (agents_world two_agents "10.0.0.1") _ "")). Defined.

Definition was_running (m : Statuses) : PVCSyncStatus := mkPVCSyncStatus "Running" (Some (mkPVCSyncAgentStatus 1 1 m)) None None 0 "".
Definition ready_node : PVCSyncNodeStatus := mkPVCSyncNodeStatus true (Some 1) (Some (mkSSHConnectionStatus (Some 1) true "")) None "".

(** An empty map of statuses is omitted when the object is stored, and is nil when it is read
    again: the check of the first agent panics. *)
Example CheckAgentHealth_nil_map :
  (run (agents_world two_agents "10.0.0.1") (CheckAgentHealth None (agents_cluster (Some (was_running None)))) "").1
    = Panic "assignment to entry in nil map".
Proof. vm_compute. reflexivity. Qed.

(** All agents are gone, or have lost their address: the phase is still Running. *)
Example CheckAgentHealth_no_agents :
  let rc := agents_cluster (Some (was_running (Some {["node-1" := ready_node]}))) in
  phase_after (run (agents_world [] "") (CheckAgentHealth None rc) "") = Some "Running" ∧
  phase_after (run (agents_world [agent_pod "node-1" ""] "") (CheckAgentHealth None rc) "") = Some "Running".
Proof. split; vm_compute; reflexivity. Qed.

Example FormatText_percent : FormatText "rsync at 100% done" = "rsync at 100%!d(MISSING)one" ∧ FormatText "50%" = "50%!(NOVERB)".
Proof. split; vm_compute; reflexivity. Qed.
