(* ===== verification/AgentKeys.v ===== *)
(** * Keys of the agents and of temporary pods

    pkg/controller/replication/keys.go, and on the side of the agent pkg/agent/ssh (keygen.go,
    server.go), pkg/agent/leader and pkg/agent/daemon.  Key generation is the call
    [MGenerateKey]; the fingerprint of a public key, leader election and the files of the
    agent's container are parameters. *)

From S2P Require Import Prelude GoString Errors Types Rfc3339 Kube KubeLogic Helpers Agent.
From Stdlib Require Import Ascii.

(** [ssh.FingerprintSHA256] of the key in an authorized_keys line *)
Class Fingerprints : Type := FingerprintSHA256 : string → string.

(** The keys of a secret; both packages use the same names. *)
Definition DefaultPrivateKeyName : string := "id_rsa".
Definition DefaultPublicKeyName : string := "id_rsa.pub".
Definition DefaultAuthorizedKeysName : string := "authorized_keys".
Definition DefaultKeySecretName : string := "pvc-syncer-agent-keys".
Definition DefaultKeyRotationInterval : Z := 24 * 60 * Minute.

(** [secret.Data[k] = v] of a secret that was read: an empty map is nil, and panics. *)
Definition assign {A : Type} (s : Secret) (kvs : list (string * string)) (k : Secret → MP A) : MP A :=
  if bool_decide (s.(sData) = ∅) then panic "assignment to entry in nil map"
  else k (mkSecret s.(sName) s.(sNamespace) s.(sVersion) s.(sLabels) s.(sType)
            (foldl (λ m kv, <[kv.1 := kv.2]> m) s.(sData) kvs) s.(sAnnotations)).

(** Does a text end in a newline? *)
Fixpoint ends_line (s : string) : bool :=
  match s with
  | EmptyString => false
  | String c EmptyString => Ascii.eqb c "010"%char
  | String _ r => ends_line r
  end.

Definition terminated (s : string) : string := if (s =s? "") || ends_line s then s else s +:+ newline_text.

(** ** replication/keys.go *)

Record KeyPair : Type := mkKeyPair {
  kpPrivateKey : string;
  kpPublicKey : string;
  kpAuthorizedKeys : string;
  kpFingerprint : string;
  kpCreatedAt : Time
}.

Section TempKeys.
Context `{Fingerprints}.
Variable (c : Server).

(** GenerateKeyPair of package replication *)
Definition generate_pair : MP (res KeyPair) :=
  '(privateKey, publicKey) ←? mcall MGenerateKey onerr id;
  now ← mcall MNow;
  mret (Ok (mkKeyPair privateKey publicKey publicKey (FingerprintSHA256 publicKey) now)).

(** The reference of a mapping, or the default. *)
Definition temp_key_ref (repl : NamespaceMapping) (ref : option AgentKeySecretRef) : AgentKeySecretRef :=
  default (mkAgentKeySecretRef ("dr-syncer-temp-key-" +:+ repl.(Name)) repl.(Namespace)) ref.

Definition temp_key_secret (repl : NamespaceMapping) (ref : AgentKeySecretRef) (kp : KeyPair) : Secret :=
  mkSecret ref.(skName) ref.(skNamespace) ""
    (Some (<["app.kubernetes.io/name" := "dr-syncer"]> (<["app.kubernetes.io/part-of" := "dr-syncer"]>
          (<["app.kubernetes.io/managed-by" := "dr-syncer-controller"]> {["dr-syncer.io/namespacemapping" := repl.(Name)]}))))
    "Opaque"
    (<[DefaultPrivateKeyName := kp.(kpPrivateKey)]> (<[DefaultPublicKeyName := kp.(kpPublicKey)]>
     {[DefaultAuthorizedKeysName := kp.(kpAuthorizedKeys)]}))
    (Some (<["dr-syncer.io/key-fingerprint" := kp.(kpFingerprint)]> {["dr-syncer.io/key-created-at" := FormatRFC3339 kp.(kpCreatedAt)]})).

(** The result and [repl.Spec.TempPodKeySecretRef] afterwards *)
Definition EnsureTempPodKeys (repl : NamespaceMapping) (ref : option AgentKeySecretRef) : MP (res unit * option AgentKeySecretRef) :=
  let ref := temp_key_ref repl ref in
  r ← (g ← mcall (MGetSecret c ref.(skNamespace) ref.(skName));
       match g with
       | Ok _ => mret (Ok tt)
       | Err e =>
           if negb (IsNotFound e) then mret (Err (plainf "failed to check if temp pod key secret exists: " e))
           else
             kp ←? generate_pair onerr (plainf "failed to generate temp pod key pair: ");
             _ ←? mcall (MCreateSecret c (temp_key_secret repl ref kp)) onerr (plainf "failed to create temp pod key secret: ");
             mret (Ok tt)
       end);
  mret (r, Some ref).

Definition not_set : string := "TempPodKeySecretRef is not set".

Definition PushTempPodKeysToRemoteCluster (remoteClient : Server) (ref : option AgentKeySecretRef) : MP (res unit) :=
  match ref with
  | None => merrorf not_set
  | Some ref =>
      secret ←? mcall (MGetSecret c ref.(skNamespace) ref.(skName)) onerr (plainf "failed to get temp pod key secret: ");
      r ← mcall (MGetSecret remoteClient agentNamespace ref.(skName));
      match r with
      | Ok remote =>
          mcall (MUpdateSecret remoteClient (mkSecret remote.(sName) remote.(sNamespace) remote.(sVersion) secret.(sLabels)
                                               remote.(sType) secret.(sData) secret.(sAnnotations)))
      | Err e =>
          if IsNotFound e then
            mcall (MCreateSecret remoteClient (mkSecret ref.(skName) agentNamespace "" secret.(sLabels) secret.(sType) secret.(sData)
                                                 secret.(sAnnotations)))
          else mret (Err (plainf "failed to check if secret exists in remote cluster: " e))
      end
  end.

Definition AddTempPodKeyToAgent (ref : option AgentKeySecretRef) : MP (res unit) :=
  match ref with
  | None => merrorf not_set
  | Some ref =>
      temp ←? mcall (MGetSecret c ref.(skNamespace) ref.(skName)) onerr (plainf "failed to get temp pod key secret: ");
      match temp.(sData) !! DefaultPublicKeyName with
      | None => merrorf "public key not found in temp pod key secret"
      | Some publicKey =>
          agent ←? mcall (MGetSecret c "dr-syncer" "dr-syncer-agent-key") onerr (plainf "failed to get agent key secret: ");
          let authorizedKeys := default "" (agent.(sData) !! DefaultAuthorizedKeysName) in
          assign agent [(DefaultAuthorizedKeysName, terminated authorizedKeys +:+ publicKey)] (λ agent,
            _ ←? mcall (MUpdateSecret c agent) onerr (plainf "failed to update agent key secret: ");
            mret (Ok tt))
      end
  end.
End TempKeys.

(** ** agent/ssh/keygen.go *)

Section KeyGen.
Variable (client : Server).

(** GenerateKeyPair of package ssh; the size of the key is not part of the model. *)
Definition GenerateKeyPair : MP (res (string * string)) := mcall MGenerateKey.

Definition key_secret_of (namespace name : string) (now : Time) (privateKey publicKey : string) : Secret :=
  mkSecret name namespace "" (Some (<["app" := "dr-syncer"]> {["component" := "ssh-key"]})) "Opaque"
    (<[DefaultPrivateKeyName := privateKey]> (<[DefaultPublicKeyName := publicKey]> {[DefaultAuthorizedKeysName := publicKey]}))
    (Some {["dr-syncer.io/created-at" := FormatRFC3339 now]}).

Definition CreateKeySecret (namespace name privateKey publicKey : string) : MP (res unit) :=
  now ← mcall MNow;
  let secret := key_secret_of namespace name now privateKey publicKey in
  r ← mcall (MCreateSecret client secret);
  match r with
  | Ok _ => mret (Ok tt)
  | Err e =>
      if IsAlreadyExists e then
        _ ←? mcall (MUpdateSecret client secret) onerr (plainf "failed to update key secret: "); mret (Ok tt)
      else mret (Err (plainf "failed to create key secret: " e))
  end.

Definition AddPublicKeyToAuthorizedKeys (namespace secretName publicKey : string) : MP (res unit) :=
  secret ←? mcall (MGetSecret client namespace secretName) onerr (plainf "failed to get secret: ");
  let authorizedKeys := default "" (secret.(sData) !! DefaultAuthorizedKeysName) +:+ publicKey in
  assign secret [(DefaultAuthorizedKeysName, terminated authorizedKeys)] (λ secret,
    _ ←? mcall (MUpdateSecret client secret) onerr (plainf "failed to update secret: ");
    mret (Ok tt)).

(** One tick of the rotation; errors are logged. *)
Definition rotate_once (namespace secretName : string) : MP unit :=
  k ← GenerateKeyPair;
  match k with
  | Err _ => mret tt
  | Ok (privateKey, publicKey) =>
      g ← mcall (MGetSecret client namespace secretName);
      match g with
      | Err _ => mret tt
      | Ok secret =>
          assign secret [(DefaultPrivateKeyName, privateKey); (DefaultPublicKeyName, publicKey); (DefaultAuthorizedKeysName, publicKey)]
            (λ secret, _ ← mcall (MUpdateSecret client secret); mret tt)
      end
  end.

(** The number of ticks of a ticker that can come before a context with [lifetime] is done. *)
Definition ticks_within (interval lifetime : Z) : nat :=
  let interval := if interval <=? 0 then DefaultKeyRotationInterval else interval in
  Z.to_nat (lifetime / interval).

(** The goroutine, for [ticks] ticks of its ticker. *)
Fixpoint ScheduleKeyRotation (ticks : nat) (namespace secretName : string) : MP unit :=
  match ticks with
  | O => mret tt
  | S n => _ ← rotate_once namespace secretName; ScheduleKeyRotation n namespace secretName
  end.
End KeyGen.

(** ** agent/leader *)

(** [resourcelock.LeaseLock] *)
Record LeaseLock : Type := mkLeaseLock { llServer : Server; llNamespace : string; llName : string; llIdentity : string }.

(** [leaderelection.RunOrDie], given the lock and what OnStartedLeading does.  A call on the
    Lease, to read, create, renew or release it, is [MLease]. *)
Class LeaderElection : Type := RunOrDie : LeaseLock → MP unit → MP unit.

Definition on_lease (l : LeaseLock) (o : MOp) : Prop :=
  o = MLease l.(llServer) l.(llNamespace) l.(llName) l.(llIdentity).

(** The calls of two goroutines in some order. *)
Inductive interleaved {A : Type} : list A → list A → list A → Prop :=
| interleaved_nil : interleaved [] [] []
| interleaved_left x l1 l2 l : interleaved l1 l2 l → interleaved (x :: l1) l2 (x :: l)
| interleaved_right x l1 l2 l : interleaved l1 l2 l → interleaved l1 (x :: l2) (x :: l).

(** A candidate makes calls on its Lease only; when one of them has made it the leader,
    OnStartedLeading is started once, in a goroutine that runs beside the renewals and that
    the end of the election does not wait for. *)
Class LawfulLeaderElection `{LeaderElection} : Prop :=
  election_runs : ∀ l started tr out, runs (RunOrDie l started) tr out →
    Forall (λ e : event MSig, on_lease l (ev_op e)) tr ∨
    ∃ before after own led more out',
      tr = (before ++ Ev (Sg := MSig) (MLease l.(llServer) l.(llNamespace) l.(llName) l.(llIdentity)) (Ok tt) :: after)%list ∧
      Forall (λ e : event MSig, on_lease l (ev_op e)) before ∧ Forall (λ e : event MSig, on_lease l (ev_op e)) own ∧
      interleaved own led after ∧ runs started (led ++ more)%list out'.

Definition NewManager : MP (res string) :=
  podName ← mcall (MGetenv "HOSTNAME");
  if podName =s? "" then merrorf "HOSTNAME environment variable not set" else mret (Ok podName).

Definition generateSSHKeys (client : Server) (namespace : string) : MP (res unit) :=
  '(privateKey, publicKey) ←? GenerateKeyPair onerr (plainf "failed to generate key pair: ");
  _ ←? CreateKeySecret client namespace DefaultKeySecretName privateKey publicKey onerr (plainf "failed to create key secret: ");
  mret (Ok tt).

(** Run of the leader's manager *)
Definition lead `{LeaderElection} (client : Server) (namespace podName : string) : MP (res unit) :=
  r ← mcall (MGetSecret client namespace DefaultKeySecretName);
  match r with
  | Ok _ => mret (Ok tt)
  | Err _ =>
      let lock := mkLeaseLock client namespace "pvc-syncer-agent-leader" podName in
      _ ← RunOrDie lock (_ ← generateSSHKeys client namespace; mret tt);
      mret (Ok tt)
  end.

(** ** agent/daemon *)

(** The context that main of the agent gives InitKeySystem, and with it the rotation. *)
Definition key_context : Z := 30 * Second.

(** The check of the secret only prints; the rotation that is started runs for [ticks] ticks. *)
Definition InitKeySystem (client : Server) (ticks : nat) (namespace : string) : MP (res unit) :=
  if namespace =s? "" then merrorf "namespace not set"
  else
    _ ← mcall (MGetSecret client namespace DefaultKeySecretName);
    _ ← ScheduleKeyRotation client ticks namespace DefaultKeySecretName;
    mret (Ok tt).

(** ** agent/ssh/server.go *)

(** The files of the container at some moment: [os.Stat] succeeds on the keys of the map, and
    reading gives the content, or an error. *)
Abbreviation Files := (gmap string (res string)).

Record SSHServer : Type := mkSSHServer { svPort : Z; svKeyPath : string; svHostKeys : list string }.

Definition exists_file (fs : Files) (path : string) : bool := bool_decide (is_Some (fs !! path)).

Definition read_file (fs : Files) (path : string) : res string := default (Err (PlainError ("open " +:+ path +:+ ": no such file or directory"))) (fs !! path).

Definition auth_paths (keyPath : string) : string * string :=
  (JoinPath [keyPath; "authorized_keys"], JoinPath [keyPath; "rsync_authorized_keys"]).

Definition server_key_path : string := "/etc/ssh/keys".
Definition server_host_keys : list string :=
  (λ k, JoinPath [server_key_path; k]) <$> ["ssh_host_rsa_key"; "ssh_host_ecdsa_key"; "ssh_host_ed25519_key"].

Definition NewServer (fs : Files) (port : Z) : res SSHServer :=
  let '(authKeysPath, rsyncAuthKeysPath) := auth_paths server_key_path in
  match List.find (λ k, negb (exists_file fs k)) server_host_keys with
  | Some key => Err (PlainError ("host key not found: " +:+ key))
  | None =>
      if negb (exists_file fs authKeysPath) && negb (exists_file fs rsyncAuthKeysPath) then
        Err (PlainError ("no authorized_keys found: checked " +:+ authKeysPath +:+ " and " +:+ rsyncAuthKeysPath))
      else Ok (mkSSHServer port server_key_path server_host_keys)
  end.

Definition host_key_error (fs : Files) (key : string) : option error :=
  match read_file fs key with
  | Err e => Some (PlainError ("failed to read host key " +:+ key +:+ ": " +:+ Error e))
  | Ok content => if content =s? "" then Some (PlainError ("host key is empty: " +:+ key)) else None
  end.

Definition has_content (fs : Files) (path : string) : bool :=
  match read_file fs path with Ok content => negb (content =s? "") | Err _ => false end.

Definition verifySetup (fs : Files) (s : SSHServer) : res unit :=
  match omap (host_key_error fs) s.(svHostKeys) with
  | e :: _ => Err e
  | [] =>
      let '(authKeysPath, rsyncAuthKeysPath) := auth_paths s.(svKeyPath) in
      if negb (has_content fs authKeysPath) && negb (has_content fs rsyncAuthKeysPath) then
        Err (PlainError ("no valid authorized_keys found: checked " +:+ authKeysPath +:+ " and " +:+ rsyncAuthKeysPath))
      else if negb (exists_file fs "/etc/ssh/sshd_config") then
        Err (PlainError "sshd_config not found: stat /etc/ssh/sshd_config: no such file or directory")
      else Ok tt
  end.

(** Daemon.Start, with Server.Start *)
Definition StartDaemon (fs : Files) (s : SSHServer) : res unit :=
  match verifySetup fs s with Ok _ => Ok tt | Err e => Err (plainf "failed to start SSH server: " e) end.
