(* ===== verification/AgentKeysProps.v ===== *)
(** * Theorems about the keys of agents and temporary pods

    Keys are written in pairs, no line of an authorized_keys file is damaged by adding one for
    a temporary pod, and what the rotation and the leader of the agents do to keys that are in
    use. *)

From S2P Require Import Prelude GoString Errors Types Rfc3339 Kube KubeLogic Helpers Agent AgentKeys.
From Stdlib Require Import Ascii.

(** ** Pairs *)

(** The keys of a secret that sshd and its clients use. *)
Definition holds_pair (data : gmap string string) (privateKey publicKey : string) : Prop :=
  data !! DefaultPrivateKeyName = Some privateKey ∧ data !! DefaultPublicKeyName = Some publicKey ∧
  data !! DefaultAuthorizedKeysName = Some publicKey.

Definition generated (privateKey publicKey : string) (tr : list (event MSig)) : Prop :=
  Ev (Sg := MSig) MGenerateKey (Ok (privateKey, publicKey)) ∈ tr.

(** The secret a call writes. *)
Definition written (e : event MSig) : option Secret :=
  match (ev_op e : MOp) with MCreateSecret _ s | MUpdateSecret _ s => Some s | _ => None end.

(** Every secret that is written holds a pair that was generated before. *)
Definition writes_pairs (tr : list (event MSig)) : Prop :=
  ∀ t1 e t2 s, tr = (t1 ++ e :: t2)%list → written e = Some s → ∃ priv pub, generated priv pub t1 ∧ holds_pair s.(sData) priv pub.

Lemma writes_pairs_app t1 t2 : writes_pairs t1 → writes_pairs t2 → writes_pairs (t1 ++ t2)%list.
Proof.
  intros H1 H2 a e b s E Hw. apply app_eq_app in E as [l [[-> E]|[-> E]]].
  - destruct l as [|x l]; cbn in E.
    + destruct (H2 [] e b s (eq_sym E) Hw) as (p & q & Hg & _). by apply not_elem_of_nil in Hg.
    + injection E as -> ->. by apply (H1 a x l s).
  - destruct (H2 l e b s E Hw) as (p & q & Hg & Hh). exists p, q. split; [|done]. unfold generated in *. set_solver.
Qed.

(** A part that writes nothing. *)
Lemma writes_nothing tr : Forall (λ e, written e = None) tr → writes_pairs tr.
Proof. intros Hf t1 e t2 s -> Hw. apply Forall_app in Hf as [_ Hf]. apply Forall_cons in Hf as [Hf _]. congruence. Qed.

Section Pairs.
Variable (client : Server).

Lemma rotate_once_pairs ns name tr out : runs (rotate_once client ns name) tr out → writes_pairs tr.
Proof.
  intros (k & t & -> & Hr)%(runs_call_inv (Sg := MSig) MGenerateKey).
  destruct k as [[priv pub]|e]; [|apply runs_ret_inv in Hr as [-> _]; apply writes_nothing; by repeat constructor].
  apply (runs_call_inv (Sg := MSig) (MGetSecret _ _ _)) in Hr as (g & t' & -> & Hr).
  destruct g as [s|e]; [|apply runs_ret_inv in Hr as [-> _]; apply writes_nothing; by repeat constructor].
  unfold assign in Hr. destruct (bool_decide _); [apply runs_panic_inv in Hr as [-> _]; apply writes_nothing; by repeat constructor|].
  apply (runs_call_inv (Sg := MSig) (MUpdateSecret _ _)) in Hr as (u & t'' & -> & Hr). apply runs_ret_inv in Hr as [-> _].
  intros t1 e t2 s' E Hw. destruct t1 as [|e1 [|e2 [|e3 t1]]]; cbn in E.
  - injection E as E _. subst e. discriminate Hw.
  - injection E as _ E _. subst e. discriminate Hw.
  - injection E as <- <- <- _. injection Hw as <-. exists priv, pub. split; [left|].
    unfold holds_pair. cbn [sData foldl fst snd]. split_and!; by simplify_map_eq.
  - injection E as _ _ _ E. by destruct t1.
Qed.

(** The rotation of an agent, for any number of ticks and whatever the server answers: every
    secret it writes holds the private key, the public key and the authorized key of one pair,
    one that was generated before.  Agents only ever write whole secrets, so the pair in the
    server is consistent however the rotations of several agents are interleaved. *)
Theorem ScheduleKeyRotation_pairs ticks ns name tr out :
  runs (ScheduleKeyRotation client ticks ns name) tr out → writes_pairs tr.
Proof.
  revert tr. induction ticks as [|n IH]; intros tr Hr; cbn [ScheduleKeyRotation] in Hr.
  { apply runs_ret_inv in Hr as [-> _]. by apply writes_nothing. }
  apply runs_bind_inv in Hr as [(u & t1 & t2 & H1 & H2 & ->)|(w & H1 & _)]; [|by eapply rotate_once_pairs].
  apply writes_pairs_app; [by eapply rotate_once_pairs|by apply IH].
Qed.
End Pairs.

(** ** Lines of authorized_keys *)

Definition lines (s : string) : list string := Split s "010"%char.

Lemma Split_app a b : Split (a +:+ newline_text +:+ b) "010"%char = (Split a "010"%char ++ Split b "010"%char)%list.
Proof.
  induction a as [|c a IH]; [reflexivity|]. change (String c a +:+ newline_text +:+ b) with (String c (a +:+ newline_text +:+ b)).
  cbn [Split]. rewrite IH. destruct (Ascii.eqb c "010"); [done|].
  destruct (Split a "010") as [|p ps] eqn:E; [|done]. exfalso. destruct a as [|d a]; [done|]. cbn in E. destruct (Ascii.eqb d "010"); [done|].
  by destruct (Split a "010").
Qed.

(** A text that ends a line is a text and a newline. *)
Lemma ends_line_split s : ends_line s = true → ∃ a, s = a +:+ newline_text.
Proof.
  induction s as [|c s IH]; [done|]. destruct s as [|d s]; cbn [ends_line].
  - intros ->%Ascii.eqb_eq. by exists "".
  - intros [a E]%IH. exists (String c a). cbn. by rewrite E.
Qed.

Lemma terminated_lines old key : old ≠ "" → ∃ a, lines (terminated old +:+ key) = (lines a ++ lines key)%list ∧
  ∀ l, l ∈ lines old → l ≠ "" → l ∈ lines a.
Proof.
  intros Hne. unfold terminated. apply String.eqb_neq in Hne as Hb. rewrite Hb. cbn [orb]. destruct (ends_line old) eqn:E.
  - apply ends_line_split in E as [a ->]. exists a. unfold lines. rewrite sappend_assoc, Split_app. split; [done|].
    intros l. rewrite <- (sappend_nil_r newline_text), Split_app. cbn. rewrite elem_of_app, list_elem_of_singleton. naive_solver.
  - exists old. unfold lines. rewrite sappend_assoc, Split_app. done.
Qed.

(** A file to which the key was added. *)
Definition adds_lines (old key new : string) : Prop :=
  (∀ l, l ∈ lines old → l ≠ "" → l ∈ lines new) ∧ (∀ l, l ∈ lines key → l ∈ lines new).

Lemma terminated_adds old key : adds_lines old key (terminated old +:+ key).
Proof.
  destruct (decide (old = "")) as [->|Hne].
  - split; [|done]. intros l Hl. apply list_elem_of_singleton in Hl. done.
  - destruct (terminated_lines old key Hne) as (a & E & Ha). split; rewrite E; intros l; rewrite elem_of_app; auto.
Qed.

Section TempKeyProps.
Context {FP : Fingerprints}.

(** When AddTempPodKeyToAgent returns nil, it has written the agent's secret once, with the key
    of the temporary pod added to authorized_keys: every line of the file and every line of the
    key is a line of the new file, and the other entries of the secret are those that were
    read. *)
Theorem AddTempPodKeyToAgent_adds c ref tr :
  runs (AddTempPodKeyToAgent c (Some ref)) tr (Ret (Ok tt)) →
  ∃ temp agent agent' key u,
    tr = [Ev (Sg := MSig) (MGetSecret c ref.(skNamespace) ref.(skName)) (Ok temp);
          Ev (Sg := MSig) (MGetSecret c "dr-syncer" "dr-syncer-agent-key") (Ok agent);
          Ev (Sg := MSig) (MUpdateSecret c agent') (Ok u)] ∧
    temp.(sData) !! DefaultPublicKeyName = Some key ∧
    (∃ new, agent'.(sData) !! DefaultAuthorizedKeysName = Some new ∧
       adds_lines (default "" (agent.(sData) !! DefaultAuthorizedKeysName)) key new) ∧
    delete DefaultAuthorizedKeysName agent'.(sData) = delete DefaultAuthorizedKeysName agent.(sData).
Proof.
  intros (a & t & -> & Hr)%(runs_call_inv (Sg := MSig) (MGetSecret _ _ _)).
  destruct a as [temp|e]; [|by apply runs_ret_inv in Hr as [_ [=]]]. cbv beta iota in Hr.
  destruct (sData temp !! DefaultPublicKeyName) as [key|] eqn:Ek; [|by apply runs_ret_inv in Hr as [_ [=]]].
  apply (runs_call_inv (Sg := MSig) (MGetSecret _ _ _)) in Hr as (g & t' & -> & Hr).
  destruct g as [agent|e]; [|by apply runs_ret_inv in Hr as [_ [=]]]. cbv beta iota zeta in Hr.
  unfold assign in Hr. destruct (bool_decide _); [by apply runs_panic_inv in Hr as [_ [=]]|].
  apply (runs_call_inv (Sg := MSig) (MUpdateSecret _ _)) in Hr as (u & t'' & -> & Hr).
  destruct u as [u|e]; apply runs_ret_inv in Hr as [-> [=]]. eexists temp, agent, _, key, u. split; [reflexivity|]. split; [done|].
  cbn [sData foldl fst snd]. split; [|by rewrite delete_insert_eq]. eexists. rewrite lookup_insert_eq. split; [done|]. apply terminated_adds.
Qed.
End TempKeyProps.

(** ** Concrete servers *)

(** A server with secrets, by namespace and name; keys are numbered.  [flaky] makes the reads
    fail with a timeout. *)
Definition key_server (flaky : bool) : handler MSig (Z * gmap (string * string) Secret) := λ o s,
  match o as o return MResp o * (Z * gmap (string * string) Secret) with
  | MNow => (0, s)
  | MSleep | MInitGlobalConcurrencyManager _ => (tt, s)
  | MGetenv _ => ("", s)
  | MGenerateKey => (Ok ("private-" +:+ itoa s.1, "public-" +:+ itoa s.1), (s.1 + 1, s.2))
  | MGetSecret _ ns name =>
      (if flaky then Err (PlainError "timeout")
       else match s.2 !! (ns, name) with Some x => Ok x | None => Err (StatusError NotFound "not found") end, s)
  | MCreateSecret _ x =>
      let k := (x.(sNamespace), x.(sName)) in
      match s.2 !! k with
      | Some _ => (Err (StatusError AlreadyExists "already exists"), s)
      | None => (Ok tt, (s.1, <[k := x]> s.2))
      end
  | MUpdateSecret _ x => (Ok tt, (s.1, <[(x.(sNamespace), x.(sName)) := x]> s.2))
  | MLease _ _ _ _ => (Ok tt, s)
  | MParseStandard _ | MGetCluster _ _ | MUpdateClusterStatus _ | MListClusters | MDeleteSecret _ _ _ | MClientset _
  | MCreateNamespace _ _ | MLoadConfig _ | MListNamespaces _ | MNewClient _ | MGetPlain _ _ _ _ | MCreatePlain _ _ | MUpdatePlain _ _
  | MDeletePlain _ _ _ _ | MGetDaemonSet _ _ _ | MCreateDaemonSet _ _ | MUpdateDaemonSet _ _ | MDeleteDaemonSet _ _ _ => (Err (PlainError "refused"), s)
  end.

Definition entry_of (s : Z * gmap (string * string) Secret) (name key : string) : option string :=
  match s.2 !! ("dr-syncer", name) with Some x => x.(sData) !! key | None => None end.

(** The keys the controller generated and pushed for the agents. *)
Definition pushed_keys : Secret :=
  mkSecret DefaultKeySecretName "dr-syncer" "7" None "Opaque" (host_keys "host-private" "host-public" ∪ client_keys "private" "public") None.

Definition pushed_world : Z * gmap (string * string) Secret := (0, {[("dr-syncer", DefaultKeySecretName) := pushed_keys]}).

Lemma ScheduleKeyRotation_pairs_witness :
  let p := ScheduleKeyRotation (ServerOf "dr") 2 "dr-syncer" DefaultKeySecretName in
  entry_of (run (key_server false) p pushed_world).2 DefaultKeySecretName "id_rsa" = Some "private-1" ∧
  writes_pairs (run_trace (key_server false) p pushed_world).
Proof.
  intros p. split; [vm_compute; reflexivity|].
  exact (ScheduleKeyRotation_pairs (ServerOf "dr") 2 "dr-syncer" DefaultKeySecretName _ _ (run_trace_runs (key_server false) p pushed_world)).
Defined.

(** One tick of the rotation: the key the controller pushed is still in the secret under its
    other names, but it is no longer authorized. *)
Example rotation_locks_out :
  let s := (run (key_server false) (rotate_once (ServerOf "dr") "dr-syncer" DefaultKeySecretName) pushed_world).2 in
  entry_of s DefaultKeySecretName privateKeyKey = Some "private" ∧ entry_of s DefaultKeySecretName publicKeyKey = Some "public" ∧
  entry_of s DefaultKeySecretName "authorized_keys" = Some "public-0" ∧ entry_of s DefaultKeySecretName "id_rsa" = Some "private-0".
Proof. split_and!; vm_compute; reflexivity. Qed.

(** As main of the agent calls it the rotation never ticks: its context is done after thirty
    seconds, long before the first tick, so no execution writes a secret. *)
Lemma InitKeySystem_never_rotates client ticks ns tr out :
  (ticks <= ticks_within DefaultKeyRotationInterval key_context)%nat →
  runs (InitKeySystem client ticks ns) tr out → Forall (λ e, written e = None) tr.
Proof.
  intros Ht Hr. assert (ticks = O) as -> by (vm_compute in Ht; lia). unfold InitKeySystem in Hr. destruct (ns =s? "").
  - apply runs_ret_inv in Hr as [-> _]. constructor.
  - apply (runs_call_inv (Sg := MSig) (MGetSecret _ _ _)) in Hr as (g & t & -> & Hr).
    apply runs_ret_inv in Hr as [-> _]. by repeat constructor.
Qed.

(** A candidate that gets the lease at its first call. *)
#[local] Instance always_leader : LeaderElection := λ l started,
  _ ← mcall (MLease l.(llServer) l.(llNamespace) l.(llName) l.(llIdentity)); started.

(** The secret exists, but reading it fails once: the leader replaces it, and the host keys of
    the agents are lost. *)
Example leader_overwrites :
  let s := (run (key_server true) (lead (ServerOf "dr") "dr-syncer" "agent-x") pushed_world).2 in
  (run (key_server true) (lead (ServerOf "dr") "dr-syncer" "agent-x") pushed_world).1 = Ret (Ok tt) ∧
  entry_of s DefaultKeySecretName hostRsaKey = None ∧ entry_of s DefaultKeySecretName "id_rsa" = Some "private-0".
Proof. split_and!; vm_compute; reflexivity. Qed.

Definition data_secret (name : string) (data : gmap string string) : Secret := mkSecret name "dr-syncer" "1" None "Opaque" data None.

Definition temp_world (authorized : string) : Z * gmap (string * string) Secret :=
  (0, <[("dr-syncer", "temp") := data_secret "temp" {["id_rsa.pub" := "ssh-rsa B"]}]>
      {[("dr-syncer", "dr-syncer-agent-key") := data_secret "dr-syncer-agent-key" {["authorized_keys" := authorized]}]}).

Lemma AddTempPodKeyToAgent_adds_witness :
  let c := ServerOf "dr" in let p := AddTempPodKeyToAgent c (Some (mkAgentKeySecretRef "temp" "dr-syncer")) in
  let r := run (key_server false) p (temp_world "ssh-rsa A") in
  entry_of r.2 "dr-syncer-agent-key" "authorized_keys" = Some ("ssh-rsa A" +:+ newline_text +:+ "ssh-rsa B") ∧
  ∃ temp agent agent' key u,
    run_trace (key_server false) p (temp_world "ssh-rsa A") =
         [Ev (Sg := MSig) (MGetSecret c "dr-syncer" "temp") (Ok temp);
          Ev (Sg := MSig) (MGetSecret c "dr-syncer" "dr-syncer-agent-key") (Ok agent);
          Ev (Sg := MSig) (MUpdateSecret c agent') (Ok u)] ∧
    temp.(sData) !! DefaultPublicKeyName = Some key ∧
    (∃ new, agent'.(sData) !! DefaultAuthorizedKeysName = Some new ∧
       adds_lines (default "" (agent.(sData) !! DefaultAuthorizedKeysName)) key new) ∧
    delete DefaultAuthorizedKeysName agent'.(sData) = delete DefaultAuthorizedKeysName agent.(sData).
Proof.
  intros c p r. split; [vm_compute; reflexivity|].
  apply (AddTempPodKeyToAgent_adds c (mkAgentKeySecretRef "temp" "dr-syncer")).
  exact (run_trace_runs (key_server false) p (temp_world "ssh-rsa A")).
Defined.

(** Added twice, the key is in the file twice. *)
Example AddTempPodKeyToAgent_twice :
  let p := AddTempPodKeyToAgent (ServerOf "dr") (Some (mkAgentKeySecretRef "temp" "dr-syncer")) in
  entry_of (run (key_server false) (_ ← p; p) (temp_world "")).2 "dr-syncer-agent-key" "authorized_keys"
    = Some ("ssh-rsa B" +:+ newline_text +:+ "ssh-rsa B").
Proof. vm_compute. reflexivity. Qed.

(** AddPublicKeyToAuthorizedKeys does not look at the end of the file: the new key is appended
    to a last line that is not terminated. *)
Example AddPublicKeyToAuthorizedKeys_glues :
  let p := AddPublicKeyToAuthorizedKeys (ServerOf "dr") "dr-syncer" "dr-syncer-agent-key" "ssh-rsa B" in
  entry_of (run (key_server false) p (temp_world "ssh-rsa A")).2 "dr-syncer-agent-key" "authorized_keys"
    = Some ("ssh-rsa Assh-rsa B" +:+ newline_text).
Proof. vm_compute. reflexivity. Qed.

(** ** The agent's files *)

(** Files that pass the checks of Start pass those of NewServer; the converse fails for an empty
    key file. *)
Lemma NewServer_complete fs port :
  verifySetup fs (mkSSHServer port server_key_path server_host_keys) = Ok tt →
  NewServer fs port = Ok (mkSSHServer port server_key_path server_host_keys).
Proof.
  unfold verifySetup, NewServer. cbn [svHostKeys svKeyPath]. destruct (auth_paths server_key_path) as [p q].
  assert (Hx : ∀ path, has_content fs path = true → exists_file fs path = true).
  { intros path. unfold has_content, read_file, exists_file. by destruct (fs !! path). }
  destruct (omap _ _) as [|e es] eqn:E; [|done]. destruct (negb (has_content fs p) && negb (has_content fs q)) eqn:Ea; [done|]. intros _.
  destruct (List.find _ _) as [k|] eqn:Ef.
  - apply List.find_some in Ef as [Hk%list_elem_of_In Hn]. exfalso.
    destruct (host_key_error fs k) as [e|] eqn:Eh.
    + assert (e ∈ omap (host_key_error fs) server_host_keys) as He by (apply list_elem_of_omap; eauto). rewrite E in He. by apply not_elem_of_nil in He.
    + unfold host_key_error, read_file in Eh. unfold exists_file in Hn. by destruct (fs !! k).
  - destruct (exists_file fs p) eqn:Ep, (exists_file fs q) eqn:Eq; try done. exfalso.
    destruct (has_content fs p) eqn:Hp; [by apply Hx in Hp; congruence|].
    destruct (has_content fs q) eqn:Hq; [by apply Hx in Hq; congruence|]. done.
Qed.
