(* ===== verification/Config.v ===== *)
(** * Configuration of the two processes

    pkg/config/config.go, which reads the environment of the controller, the log levels of
    pkg/logging, and the choice of a namespace and of a client configuration in
    cmd/agent/main.go.  The environment is a finite map; files, the in-cluster configuration and
    the parser of kubeconfig files are arguments.  Texts are ASCII, as everywhere. *)

From S2P Require Import Prelude GoString Errors Duration.

(** Set variables, as [os.LookupEnv] sees them; [os.Getenv] gives the empty text for others. *)
Abbreviation Env := (gmap string string).

Definition Getenv (env : Env) (key : string) : string := default "" (env !! key).

Record AppConfig : Type := mkAppConfig {
  KubeConfig : string;
  SyncInterval : Z;
  ResyncPeriod : Z;
  LogVerbosity : Z;
  MetricsAddr : string;
  ProbeAddr : string;
  EnableLeaderElection : bool;
  LeaderElectionID : string;
  LogLevel : string;
  IgnoreCert : bool
}.

(** ** config.go *)

Definition getEnvOrDefault (env : Env) (key defaultValue : string) : string :=
  match env !! key with
  | Some value => value
  | None => defaultValue
  end.

(** [strconv.ParseBool] *)
Definition ParseBool (s : string) : option bool :=
  if bool_decide (s ∈ ["1"; "t"; "T"; "true"; "TRUE"; "True"]) then Some true
  else if bool_decide (s ∈ ["0"; "f"; "F"; "false"; "FALSE"; "False"]) then Some false
  else None.

Definition parseEnvBool (env : Env) (key : string) (defaultValue : bool) : bool :=
  match env !! key with
  | None => defaultValue
  | Some value =>
      let value := ToLower value in
      if bool_decide (value ∈ ["1"; "true"; "yes"; "on"; "enabled"]) then true
      else if bool_decide (value ∈ ["0"; "false"; "no"; "off"; "disabled"]) then false
      else match ParseBool value with
           | None => defaultValue
           | Some boolValue => boolValue
           end
  end.

(** A default that does not parse gives the zero duration of the failed call. *)
Definition parseEnvDuration (env : Env) (key defaultValue : string) : Z :=
  let value := getEnvOrDefault env key defaultValue in
  match ParseDuration value with
  | Some duration => duration
  | None => default 0 (ParseDuration defaultValue)
  end.

Definition parseEnvInt (env : Env) (key : string) (defaultValue : Z) : Z :=
  let value := Getenv env key in
  if value =s? "" then defaultValue
  else match Atoi value with
       | None => defaultValue
       | Some intValue => intValue
       end.

Definition LoadConfiguration (env : Env) : AppConfig := {|
  KubeConfig := getEnvOrDefault env "KUBECONFIG" "";
  SyncInterval := parseEnvDuration env "SYNC_INTERVAL" "5m";
  ResyncPeriod := parseEnvDuration env "RESYNC_PERIOD" "1h";
  LogVerbosity := parseEnvInt env "LOG_VERBOSITY" 0;
  MetricsAddr := getEnvOrDefault env "METRICS_ADDR" ":8080";
  ProbeAddr := getEnvOrDefault env "PROBE_ADDR" ":8081";
  EnableLeaderElection := parseEnvBool env "ENABLE_LEADER_ELECTION" false;
  LeaderElectionID := getEnvOrDefault env "LEADER_ELECTION_ID" "dr-syncer.io";
  LogLevel := getEnvOrDefault env "LOG_LEVEL" "info";
  IgnoreCert := parseEnvBool env "IGNORE_CERT" false
|}.

(** ** pkg/logging *)

Inductive Level : Type := ErrorLevel | WarnLevel | InfoLevel | DebugLevel.

#[export] Instance Level_eq_dec : EqDecision Level.
Proof. solve_decision. Defined.

(** SetLogLevel: the new level of the logger, or the error that leaves it alone. *)
Definition SetLogLevel (level : string) : res Level :=
  if level =s? "debug" then Ok DebugLevel
  else if level =s? "info" then Ok InfoLevel
  else if level =s? "warn" then Ok WarnLevel
  else if level =s? "error" then Ok ErrorLevel
  else Err (PlainError ("invalid log level: " +:+ level +:+ " (valid values: debug, info, warn, error)")).

(** The level SetupLogging gives a logger that does not exist yet; an existing one is kept. *)
Definition SetupLogging (env : Env) (log : option Level) : Level :=
  let debug := Getenv env "DEBUG" =s? "true" in
  match log with
  | None => if debug then DebugLevel else InfoLevel
  | Some level => level
  end.

(** LogrusLogAdapter.Enabled and WithName *)
Definition level_rank (l : Level) : nat :=
  match l with ErrorLevel => 2 | WarnLevel => 3 | InfoLevel => 4 | DebugLevel => 5 end%nat.

Definition IsLevelEnabled (logger level : Level) : bool := (level_rank level <=? level_rank logger)%nat.

Definition Enabled (logger : Level) (level : Z) : bool :=
  if level =? 0 then IsLevelEnabled logger InfoLevel
  else if 1 <=? level then IsLevelEnabled logger DebugLevel
  else true.

Definition WithName (own name : string) : string :=
  if negb (own =s? "") then own +:+ "." +:+ name else name.

(** ** cmd/agent/main.go *)

(** The namespace of the agent; [account] is the content of the service account's file. *)
Definition getNamespace (env : Env) (account : res string) : string :=
  let namespace := Getenv env "POD_NAMESPACE" in
  if negb (namespace =s? "") then namespace
  else match account with
       | Ok data => if negb (data =s? "") then data else "default"
       | Err _ => "default"
       end.

Section KubeConfig.
(** [clientcmd.BuildConfigFromFlags] of a path, [rest.InClusterConfig], the home directory and
    the files that [os.Stat] finds. *)
Context {RestConfig : Type}.
Variables (BuildConfigFromFlags : string → res RestConfig) (InClusterConfig : res RestConfig)
  (HomeDir : string) (exists_file : string → bool).

Definition getKubeConfig (kubeconfigPath : string) : res RestConfig :=
  if negb (kubeconfigPath =s? "") then BuildConfigFromFlags kubeconfigPath
  else match InClusterConfig with
       | Ok config => Ok config
       | Err _ =>
           let path := JoinPath [HomeDir; ".kube"; "config"] in
           if negb (HomeDir =s? "") && exists_file path then BuildConfigFromFlags path
           else Err (PlainError "could not find kubeconfig")
       end.

(** An agent that is given a path reads that file and nothing else, even inside a cluster. *)
Lemma getKubeConfig_explicit path : path ≠ "" → getKubeConfig path = BuildConfigFromFlags path.
Proof. intros Hp. unfold getKubeConfig. destruct (String.eqb_spec path ""); [done | reflexivity]. Qed.

End KubeConfig.

(** ** Settings that cannot be read are as good as unset *)

Definition readable_bool (value : string) : bool :=
  bool_decide (ToLower value ∈ ["1"; "true"; "yes"; "on"; "enabled"; "0"; "false"; "no"; "off"; "disabled"])
  || bool_decide (is_Some (ParseBool (ToLower value))).

Definition readable (setting : string * string) : bool :=
  let '(key, value) := setting in
  if bool_decide (key ∈ ["SYNC_INTERVAL"; "RESYNC_PERIOD"]) then bool_decide (is_Some (ParseDuration value))
  else if key =s? "LOG_VERBOSITY" then bool_decide (is_Some (Atoi value))
  else if bool_decide (key ∈ ["ENABLE_LEADER_ELECTION"; "IGNORE_CERT"]) then readable_bool value
  else true.

Definition readable_settings (env : Env) : Env := filter (λ setting, readable setting = true) env.

Lemma readable_lookup env key :
  readable_settings env !! key =
    match env !! key with
    | Some value => if readable (key, value) then Some value else None
    | None => None
    end.
Proof.
  unfold readable_settings. rewrite (map_lookup_filter (λ setting, readable setting = true)). destruct (env !! key) as [value |]; [| done].
  simpl. case_guard as H; [by rewrite H |]. by apply not_true_is_false in H as ->.
Qed.

Lemma parseEnvBool_readable env key d :
  key ∈ ["ENABLE_LEADER_ELECTION"; "IGNORE_CERT"] →
  parseEnvBool env key d = parseEnvBool (readable_settings env) key d.
Proof.
  intros Hkey. unfold parseEnvBool. rewrite readable_lookup. destruct (env !! key) as [value |]; [| done].
  assert (readable (key, value) = readable_bool value) as ->
    by (rewrite !elem_of_cons in Hkey; destruct Hkey as [-> | [-> | Hkey]]; [reflexivity | reflexivity | by apply elem_of_nil in Hkey]).
  unfold readable_bool. destruct (ParseBool (ToLower value)) eqn:E.
  - rewrite (bool_decide_eq_true_2 (is_Some _)), orb_true_r by eauto. by rewrite E.
  - destruct (bool_decide_reflect (ToLower value ∈
      ["1"; "true"; "yes"; "on"; "enabled"; "0"; "false"; "no"; "off"; "disabled"])) as [| H]; [simpl; by rewrite ?E |].
    rewrite !bool_decide_eq_false_2 by first [set_solver | intros []; congruence]. simpl. by rewrite ?E.
Qed.

Lemma parseEnvDuration_readable env key d :
  key ∈ ["SYNC_INTERVAL"; "RESYNC_PERIOD"] →
  parseEnvDuration env key d = parseEnvDuration (readable_settings env) key d.
Proof.
  intros Hkey. unfold parseEnvDuration, getEnvOrDefault. rewrite readable_lookup.
  destruct (env !! key) as [value |]; [| done].
  assert (readable (key, value) = bool_decide (is_Some (ParseDuration value))) as ->
    by (unfold readable; rewrite bool_decide_eq_true_2 by done; done).
  destruct (ParseDuration value) eqn:E.
  - rewrite bool_decide_eq_true_2 by eauto. by rewrite E.
  - rewrite bool_decide_eq_false_2 by (intros []; congruence). by destruct (ParseDuration d).
Qed.

(** LoadConfiguration is total, and a duration, number or switch that cannot be parsed counts
    exactly as one that is not set; the empty text is a value of the others. *)
Theorem LoadConfiguration_readable env : LoadConfiguration env = LoadConfiguration (readable_settings env).
Proof.
  assert (Hs : ∀ key d, key ∈ ["KUBECONFIG"; "METRICS_ADDR"; "PROBE_ADDR"; "LEADER_ELECTION_ID"; "LOG_LEVEL"] →
            getEnvOrDefault env key d = getEnvOrDefault (readable_settings env) key d).
  { intros key d Hkey. unfold getEnvOrDefault. rewrite readable_lookup. destruct (env !! key); [| done].
    set_unfold in Hkey. naive_solver. }
  assert (Hi : parseEnvInt env "LOG_VERBOSITY" 0 = parseEnvInt (readable_settings env) "LOG_VERBOSITY" 0).
  { unfold parseEnvInt, Getenv. rewrite readable_lookup. destruct (env !! "LOG_VERBOSITY") as [value |]; [| done].
    simpl. destruct (Atoi value) eqn:E; [rewrite bool_decide_eq_true_2 by eauto; simpl; by rewrite E |].
    rewrite bool_decide_eq_false_2 by (intros []; congruence). simpl. by destruct (String.eqb value ""). }
  unfold LoadConfiguration. f_equal; try (apply Hs; set_solver).
  - apply parseEnvDuration_readable. set_solver.
  - apply parseEnvDuration_readable. set_solver.
  - exact Hi.
  - apply parseEnvBool_readable. set_solver.
  - apply parseEnvBool_readable. set_solver.
Qed.

(** The two processes agree on how a level is spelled: what SetLogLevel accepts, the adapter of
    controller-runtime follows; a negative level is always enabled and prints nothing. *)
Example log_levels :
  omap (λ l, match SetLogLevel l with Ok level => Some (Enabled level 0, Enabled level 3) | Err _ => None end)
    ["debug"; "info"; "warn"; "error"; "trace"] = [(true, true); (true, false); (false, false); (false, false)]
  ∧ Enabled ErrorLevel (-1) = true.
Proof. split; reflexivity. Qed.

Example default_configuration :
  LoadConfiguration {["SYNC_INTERVAL" := "soon"; "IGNORE_CERT" := "YES"; "LOG_VERBOSITY" := ""]} =
    mkAppConfig "" (300 * Second) (3600 * Second) 0 ":8080" ":8081" false "dr-syncer.io" "info" true.
Proof. vm_compute. reflexivity. Qed.
