(* ===== verification/Logging.v ===== *)
(** * Log lines: pkg/logging

    The adapter through which controller-runtime logs (controller_runtime.go) and the tagged
    messages (logging.go).  The level of a logger is in Config.v; a line is what logrus is
    asked to write, with its fields; how a line is formatted is logrus. *)

From S2P Require Import Prelude GoString Errors Config.
From Stdlib Require Import Ascii.

(** A value of type [interface{}], of which the adapter only asks whether it is a string. *)
Inductive Any : Type := AString (s : string) | AOther (text : string).

#[export] Instance Any_eq_dec : EqDecision Any.
Proof. solve_decision. Defined.

Record Line : Type := mkLine { lnLevel : Level; lnFields : gmap string Any; lnMessage : string }.

(** An entry logs what its logger is set to. *)
Definition emit (logger level : Level) (fields : gmap string Any) (msg : string) : option Line :=
  if IsLevelEnabled logger level then Some (mkLine level fields msg) else None.

(** ** controller_runtime.go *)

Record LogrusLogAdapter : Type := mkLogrusLogAdapter { adLogger : Level; adName : string }.

Definition field_key (k : Any) : string := match k with AString s => s | AOther _ => "unknown" end.

(** The loop over the keys and values; a key without a value is dropped. *)
Fixpoint add_fields (keysAndValues : list Any) (fields : gmap string Any) : gmap string Any :=
  match keysAndValues with
  | k :: v :: rest => add_fields rest (<[field_key k := v]> fields)
  | _ => fields
  end.

Definition Info (l : LogrusLogAdapter) (level : Z) (msg : string) (keysAndValues : list Any) : option Line :=
  let fields := add_fields keysAndValues {["name" := AString l.(adName)]} in
  if level =? 0 then emit l.(adLogger) InfoLevel fields msg
  else if 1 <=? level then emit l.(adLogger) DebugLevel fields msg
  else None.

Definition LogSinkError (l : LogrusLogAdapter) (err : option error) (msg : string) (keysAndValues : list Any) : option Line :=
  let fields := {["name" := AString l.(adName)]} in
  let fields := match err with Some e => <["error" := AOther (Error e)]> fields | None => fields end in
  emit l.(adLogger) ErrorLevel (add_fields keysAndValues fields) msg.

(** The values are not kept. *)
Definition WithValues (l : LogrusLogAdapter) (keysAndValues : list Any) : LogrusLogAdapter :=
  mkLogrusLogAdapter l.(adLogger) l.(adName).

Definition AdapterWithName (l : LogrusLogAdapter) (name : string) : LogrusLogAdapter :=
  mkLogrusLogAdapter l.(adLogger) (WithName l.(adName) name).

Definition NewControllerRuntimeLogger (logger : Level) : LogrusLogAdapter := mkLogrusLogAdapter logger "".

(** ** logging.go *)

Definition LogTagDetail : string := "[DR-SYNC-DETAIL]".
Definition LogTagWarn : string := "[DR-SYNC-WARN]".
Definition LogTagError : string := "[DR-SYNC-ERROR]".
Definition LogTagOutput : string := "[DR-SYNC-OUTPUT]".
Definition LogTagInfo : string := "[DR-SYNC-INFO]".

(** An entry of some logger with its fields. *)
Record Entry : Type := mkEntry { enLogger : Level; enFields : gmap string Any }.

(** A message of a tag; without an entry it goes to the logger of the package, which is nil
    until SetupLogging makes it. *)
Definition tagged (log : option Level) (entry : option Entry) (level : Level) (tag message : string) : exec (option Line) :=
  match entry with
  | Some e => Ret (emit e.(enLogger) level e.(enFields) (tag +:+ " " +:+ message))
  | None =>
      match log with
      | Some logger => Ret (emit logger level ∅ (tag +:+ " " +:+ message))
      | None => Panic "runtime error: invalid memory address or nil pointer dereference"
      end
  end.

Definition LogDetail (log : option Level) (entry : option Entry) (message : string) := tagged log entry DebugLevel LogTagDetail message.
Definition LogInfo (log : option Level) (entry : option Entry) (message : string) := tagged log entry InfoLevel LogTagInfo message.
Definition LogWarn (log : option Level) (entry : option Entry) (message : string) := tagged log entry WarnLevel LogTagWarn message.
Definition LogError (log : option Level) (entry : option Entry) (message : string) := tagged log entry ErrorLevel LogTagError message.
Definition LogOutput (log : option Level) (entry : option Entry) (message : string) := tagged log entry DebugLevel LogTagOutput message.

(** ** OutputCapture of the packages that run commands in pods *)

(** A writer that keeps what a stream of a command gives, and logs it. *)
Record OutputCapture : Type := mkOutputCapture {
  ocBuffer : string; ocKind : string; ocPodName : string; ocNamespace : string; ocCommand : string
}.

(** The number of bytes, the writer afterwards and the line; a buffer takes everything. *)
Definition Write (logger : Level) (o : OutputCapture) (p : string) : Z * OutputCapture * option Line :=
  let fields := add_fields [AString "pod"; AString o.(ocPodName); AString "namespace"; AString o.(ocNamespace); AString "command";
                            AString o.(ocCommand); AString "output"; AString p; AString "type"; AString o.(ocKind)] ∅ in
  (Z.of_nat (String.length p),
   mkOutputCapture (o.(ocBuffer) +:+ p) o.(ocKind) o.(ocPodName) o.(ocNamespace) o.(ocCommand),
   if o.(ocKind) =s? "stdout" then emit logger InfoLevel fields ("[REMOTE-EXEC-OUT] " +:+ TrimSpace p)
   else emit logger WarnLevel fields ("[REMOTE-EXEC-ERR] " +:+ TrimSpace p)).

(** The function and the file of a caller: the file is left out. *)
Definition callerPrettyfier (funcName : string) : string * string :=
  (List.last (Split funcName "/"%char) "", "").

(** ** What the adapter keeps to *)

(** It writes a line for Info exactly when it says the level is enabled, except that negative
    levels are called enabled and write nothing. *)
Lemma Info_enabled l level msg kvs : 0 ≤ level → is_Some (Info l level msg kvs) ↔ Enabled l.(adLogger) level = true.
Proof.
  intros Hl. unfold Info, Enabled, emit.
  destruct (Z.eqb_spec level 0); [|destruct (Z.leb_spec 1 level); [|lia]];
    destruct (IsLevelEnabled _ _); (split; [by intros [? ?]|by eauto]).
Qed.

(** The name of an adapter is in every line unless a key says otherwise. *)
Lemma add_fields_keeps kvs fields k v :
  Forall (λ x, field_key x ≠ k) kvs → fields !! k = Some v → add_fields kvs fields !! k = Some v.
Proof.
  revert fields. induction kvs as [kvs IH] using (induction_ltof1 _ length); unfold ltof in IH.
  intros fields Hk Hf. destruct kvs as [|a [|b rest]]; [done..|]. cbn.
  apply Forall_cons in Hk as [Ha Hk]. apply Forall_cons in Hk as [_ Hk].
  apply IH; [cbn; lia|done|]. by rewrite lookup_insert_ne.
Qed.

(** However a stream is cut into pieces, the buffer holds all of it. *)
Lemma Write_all logger o ps : (foldl (λ o p, (Write logger o p).1.2) o ps).(ocBuffer) = o.(ocBuffer) +:+ String.concat "" ps.
Proof.
  revert o. induction ps as [|p ps IH]; intros o; cbn [foldl String.concat].
  - by rewrite sappend_nil_r.
  - rewrite IH. cbn [Write fst snd ocBuffer]. rewrite sappend_assoc. by destruct ps; cbn; [rewrite sappend_nil_r|].
Qed.

(** Values given with WithValues are in no line. *)
Lemma WithValues_lost l kvs level msg more : Info (WithValues l kvs) level msg more = Info l level msg more.
Proof. reflexivity. Qed.

Example adapter_line :
  Info (AdapterWithName (AdapterWithName (NewControllerRuntimeLogger InfoLevel) "controller") "mapping") 0 "started"
    [AString "workers"; AOther "5"; AOther "7"; AOther "8"; AString "odd"]
  = Some (mkLine InfoLevel {["name" := AString "controller.mapping"; "workers" := AOther "5"; "unknown" := AOther "8"]} "started").
Proof. vm_compute. reflexivity. Qed.

Example caller : callerPrettyfier "github.com/supporttools/dr-syncer/pkg/cli.Run" = ("cli.Run", "").
Proof. reflexivity. Qed.
