(* ===== verification/ReplicationController.v ===== *)
(** * The replication controller: controller.go, integration.go and pvc_sync.go of package replication

    Syncing all claims of a mapping, and the remaining operations of a PVCSyncer.
    metav1.FormatLabelSelector is a parameter ([LabelFormat]) with what it does for a selector
    without requirements. *)

From S2P Require Import Prelude GoString Errors Types Rfc3339 Kube KubeLogic Lock Helpers RsyncExec RsyncPod RsyncController TempPod DaemonSet.

(** [metav1.FormatLabelSelector] of a selector with the labels *)
Class LabelFormat : Type := FormatLabelSelector : gmap string string → string.

(** It prints a selector for people: one that selects everything is "<none>". *)
Class LawfulLabelFormat `{LabelFormat} : Prop := format_nothing : FormatLabelSelector ∅ = "<none>".

(** ** pvc_sync.go *)

Section Syncer.
Context `{LabelFormat}.

Definition GetPVCsToSync (sourceNS destNS : string) (selector : gmap string string) : KP (res (list string)) :=
  items ←? kcall (KListText Src persistentvolumeclaims sourceNS (FormatLabelSelector selector))
    onerr (plainf "failed to list PVCs in source namespace: ");
  mret (Ok (GetName <$> items)).

(** [pvcSourceNamespace] is the one of the syncer: the namespace decides which cluster is read.
    [bound] decodes the phase of a claim's status. *)
Definition WaitForPVCBound (bound : Payload → bool) (pvcSourceNamespace : string) (ticks : nat) (namespace pvcName : string) : KP (res unit) :=
  let c := if namespace =s? pvcSourceNamespace then Src else Dst in
  on_ticks ticks (5 * Second)
    (r ← kcall (KGet c persistentvolumeclaims namespace pvcName);
     mret (match r with
           | Ok pvc => if (match pvc.(oBody) with PVCBody _ status => bound status | _ => false end) then Some (Ok tt) else None
           | Err _ => None
           end))
    (errorf ("timeout waiting for PVC " +:+ namespace +:+ "/" +:+ pvcName +:+ " to be bound")).

(** [mapping.Status.NextSyncTime] is set in the object handed in only. *)
Definition SchedulePVCSync (mapping : NamespaceMapping) : KP (res unit * option Time) :=
  if negb (mapping.(Spec).(ReplicationMode) =s? ScheduledMode) then mret (Ok tt, mapping.(Status).(NextSyncTime))
  else now ← kcall KNow; mret (Ok tt, Some (now + Hour)).

(** RsyncDaemonSetConfig *)
Record RsyncDaemonSetConfig : Type := mkRsyncDaemonSetConfig {
  dcEnabled : option bool;
  dcImage : string;
  dcNamespace : string;
  dcSSHSecretName : string
}.

Definition IsEnabled (c : option RsyncDaemonSetConfig) : bool :=
  match c with Some c => default true c.(dcEnabled) | None => true end.

Definition GetImage (c : option RsyncDaemonSetConfig) : string :=
  match c with
  | Some c => if c.(dcImage) =s? "" then "supporttools/dr-syncer-rsync:latest" else c.(dcImage)
  | None => "supporttools/dr-syncer-rsync:latest"
  end.

Definition GetDaemonSetNamespace (c : option RsyncDaemonSetConfig) : string :=
  match c with
  | Some c => if c.(dcNamespace) =s? "" then "dr-syncer-system" else c.(dcNamespace)
  | None => "dr-syncer-system"
  end.

Definition UseRsyncDaemonSet (ds : option RsyncDaemonSet) (config : option RsyncDaemonSetConfig) : bool :=
  match ds with None => false | Some _ => IsEnabled config end.

(** The manager and the configuration of the syncer afterwards *)
Definition InitRsyncDaemonSet (config : option RsyncDaemonSetConfig) (old : option RsyncDaemonSet * option RsyncDaemonSetConfig)
    : option RsyncDaemonSet * option RsyncDaemonSetConfig :=
  match config with
  | None => old
  | Some c =>
      if negb (IsEnabled config) then old
      else
        let ds := NewRsyncDaemonSet (GetDaemonSetNamespace config) in
        let ds := if c.(dcImage) =s? "" then ds else WithImage c.(dcImage) ds in
        let ds := if c.(dcSSHSecretName) =s? "" then ds else WithSSHSecret c.(dcSSHSecretName) ds in
        (Some ds, config)
  end.
End Syncer.

(** ** Constructors *)

Section Constructors.
(** [kubernetes.NewForConfig] of a configuration that is not nil *)
Context {RestConfig : Type}.
Variable (NewForConfig : RestConfig → res unit).

Definition CreateEventRecorderForCluster (config : RestConfig) : res unit :=
  match NewForConfig config with
  | Err e => Err (WrapError "failed to create clientset for event recorder: " e)
  | Ok _ => Ok tt
  end.

(** The namespaces are set when a claim is synced; without a recorder no events are sent. *)
Definition NewPVCSyncer (sourceClient destinationClient : Cluster) (sourceConfig destinationConfig : RestConfig) : res PVCSyncer :=
  match NewForConfig sourceConfig with
  | Err e => Err (plainf "failed to create source Kubernetes client: " e)
  | Ok _ =>
      match NewForConfig destinationConfig with
      | Err e => Err (plainf "failed to create destination Kubernetes client: " e)
      | Ok _ =>
          Ok (mkPVCSyncer sourceClient destinationClient "" "" match CreateEventRecorderForCluster sourceConfig with Ok _ => true | Err _ => false end)
      end
  end.

Definition NewRsyncReplicationController (sourceClient destClient : Cluster) (sourceConfig destConfig : RestConfig) : res PVCSyncer :=
  match NewPVCSyncer sourceClient destClient sourceConfig destConfig with
  | Err e => Err (plainf "failed to initialize PVC syncer: " e)
  | Ok syncer => Ok syncer
  end.

Definition NewReplicationManager (sourceClient destClient : Cluster) (sourceConfig destConfig : RestConfig) : res PVCSyncer :=
  match NewRsyncReplicationController sourceClient destClient sourceConfig destConfig with
  | Err e => Err (plainf "failed to initialize replication controller: " e)
  | Ok controller => Ok controller
  end.

(** The clients being made the same way, a syncer that is made has its recorder. *)
Lemma NewPVCSyncer_records sc dc sourceConfig destConfig p : NewPVCSyncer sc dc sourceConfig destConfig = Ok p → psRecorder p = true.
Proof.
  unfold NewPVCSyncer, CreateEventRecorderForCluster. destruct (NewForConfig sourceConfig); [|done].
  destruct (NewForConfig destConfig); [|done]. by intros [= <-].
Qed.
End Constructors.

(** ** controller.go *)

Section Controller.
Context `{CacheCodec} `{DeploymentCodec} `{Poller} `{LabelFormat}.
Variable (host : Cluster → string) (ctx : Ctx) (intn : nat → nat).

Definition generateSyncID : KP string := now ← kcall KNow; mret (FormatStamp now).

Definition ReplicatePVC (sourceNS destNS pvcName : string) : KP (res unit) :=
  syncID ← generateSyncID;
  SyncReplication host ctx intn sourceNS destNS pvcName syncID.

Definition ProcessNamespaceMapping (mapping : NamespaceMapping) : KP (res unit) :=
  let src := mapping.(Spec).(SourceNamespace) in
  let dst := mapping.(Spec).(DestinationNamespace) in
  pvcNames ←? GetPVCsToSync src dst ∅ onerr id;
  _ ← range_each pvcNames tt (λ pvcName _, _ ← ReplicatePVC src dst pvcName; mret tt);
  syncID ← generateSyncID;
  _ ←? CompleteNamespaceMappingPVCSync Dst dst mapping syncID onerr id;
  if mapping.(Spec).(ReplicationMode) =s? ScheduledMode then ScheduleNextPVCSync Dst dst mapping else mret (Ok tt).

(** ReplicationManager of integration.go *)
Definition ManagerReplicatePVC (sourceNS destNS pvcName : string) : KP (res unit) := ReplicatePVC sourceNS destNS pvcName.
Definition PerformNamespaceMappingSync (mapping : NamespaceMapping) : KP (res unit) := ProcessNamespaceMapping mapping.
End Controller.

(** ** Theorems *)

Section Processing.
Context {CA : CacheCodec} {DC : DeploymentCodec} {PO : Poller} {LF : LabelFormat} {LLF : LawfulLabelFormat}.
Variable (host : Cluster → string) (ctx : Ctx) (intn : nat → nat).

(** No server understands "<none>" as a label selector. *)
Definition refuses_none (e : event KSig) : Prop :=
  match e with
  | Ev o r => match o as o return KResp o → Prop with
              | KListText _ _ _ sel => λ r, sel = "<none>" → ∃ err, r = Err err
              | _ => λ _, True
              end r
  end.

(** ProcessNamespaceMapping lists the claims with an empty selector in the form that is meant
    for printing.  A server refuses that selector, so on every execution the only call is that
    listing, no claim is replicated, and an error is returned. *)
Theorem ProcessNamespaceMapping_nothing mapping tr out :
  runs (ProcessNamespaceMapping host ctx intn mapping) tr out → Forall refuses_none tr →
  ∃ a e, tr = [Ev (Sg := KSig) (KListText Src persistentvolumeclaims mapping.(Spec).(SourceNamespace) "<none>") a] ∧ out = Ret (Err e).
Proof.
  intros Hr Hf. unfold ProcessNamespaceMapping, GetPVCsToSync in Hr. rewrite format_nothing in Hr. cbv zeta in Hr.
  apply (runs_call_inv (Sg := KSig) (KListText _ _ _ _)) in Hr as (a & t & -> & Hr). apply Forall_cons in Hf as [Ha _].
  destruct (Ha eq_refl) as [err ->]. apply runs_ret_inv in Hr as [-> ->]. by eexists _, _.
Qed.
End Processing.

(** *** A witness *)

#[local] Instance no_cache : CacheCodec := { Marshal _ := "cache"; Unmarshal _ := None }.
#[local] Instance image_template : DeploymentCodec := { EncodeTemplate t := t.(ptImage); AvailableReplicas _ := 1 }.
#[local] Instance no_poll : Poller := λ A timeout interval cond, errorf "timed out".

(** Labels are printed as key=value. *)
#[local] Instance printed_labels : LabelFormat := λ labels,
  match map_to_list labels with
  | [] => "<none>"
  | l => Join ((λ kv, kv.1 +:+ "=" +:+ kv.2) <$> l) ","
  end.
#[local] Instance printed_labels_lawful : LawfulLabelFormat.
Proof. reflexivity. Qed.

Definition refusing_all : handler KSig unit := λ o s, (refused o, s).

Lemma ProcessNamespaceMapping_nothing_witness :
  let p := ProcessNamespaceMapping (λ _, "dr:6443") ∅ id zero_mapping in
  ∃ a e, run_trace refusing_all p tt = [Ev (Sg := KSig) (KListText Src persistentvolumeclaims "" "<none>") a] ∧
         (run refusing_all p tt).1 = Ret (Err e).
Proof.
  intros p. apply (ProcessNamespaceMapping_nothing (λ _, "dr:6443") ∅ id zero_mapping); [apply run_trace_runs|].
  constructor; [|constructor]. intros _. by eexists.
Defined.
