(* ===== verification/Queue.v ===== *)
(** * When a reconciliation runs again

    The SetupWithManager functions of the three controllers (pkg/controllers), with the
    predicates of their watches, and what controller-runtime (v0.20) does with the result of
    Reconcile: an error is retried through the rate limiter and its RequeueAfter is ignored, a
    positive RequeueAfter is a timer, Requeue goes through the rate limiter, anything else
    rests until an event arrives; a panic is recovered as an error.  Joined with the controllers
    this says which objects are looked at again after a reconciliation, and when. *)

From S2P Require Import Prelude GoString Errors Types Duration Kube KubeLogic ApiServer Modes MappingController ModesProps ClusterMapping ClusterMappingProps Agent Deployer RemoteCluster RemoteClusterProps.

#[local] Existing Instance ten_steps.
#[local] Existing Instance any_quantity.

(** ** Watches *)

(** An event of a watch, with the generations of the object. *)
Inductive WatchEvent : Type :=
| CreateEvent
| UpdateEvent (oldGeneration newGeneration : Z)
| DeleteEvent (DeleteStateUnknown : bool)
| GenericEvent.

(** controller-runtime: predicate.GenerationChangedPredicate{}, whose other functions are the
    defaults of predicate.Funcs, which accept. *)
Definition GenerationChangedPredicate (e : WatchEvent) : bool :=
  match e with UpdateEvent old new => negb (old =? new) | _ => true end.

(** predicate.Or(GenerationChangedPredicate{}, Funcs{...}), the same in both controllers *)
Definition update_funcs (e : WatchEvent) : bool :=
  match e with
  | CreateEvent => true
  | DeleteEvent unknown => negb unknown
  | UpdateEvent old new => negb (old =? new)
  | GenericEvent => false
  end.

Definition statusChangePredicate (e : WatchEvent) : bool := GenerationChangedPredicate e || update_funcs e.

(** The other objects that are watched, each with a function to the objects it concerns. *)
Inductive Watched : Type :=
| WatchKubeconfigs (f : string → string → MP (list (string * string)))
| WatchRemoteClusters (f : RemoteCluster → CP (list (string * string)))
| WatchKeySecrets (f : string → string → CP (list (string * string)))
| OwnsClusterMappings.

(** For(...) with its predicate, the other watches, and how many reconciliations run at once;
    one, unless it is set. *)
Record Setup : Type := mkSetup { setupFor : WatchEvent → bool; setupWatches : list Watched; MaxConcurrentReconciles : Z }.

Definition SetupRemoteCluster : Setup := mkSetup statusChangePredicate [WatchKubeconfigs findRemoteClustersForSecret] 1.
Definition SetupClusterMapping : Setup :=
  mkSetup statusChangePredicate [WatchRemoteClusters findClusterMappingsForRemoteCluster; WatchKeySecrets findClusterMappingsForSecret] 1.
Definition SetupNamespaceMapping : Setup := mkSetup (λ _, true) [OwnsClusterMappings] 5.

(** The functions of the second predicate have no effect: the first one already accepts every
    creation, every deletion and every generic event. *)
Lemma statusChangePredicate_generation e : statusChangePredicate e = GenerationChangedPredicate e.
Proof. unfold statusChangePredicate. destruct e as [|old new|[]|]; cbn; [done|apply orb_diag|done..]. Qed.

(** ** The work queue *)

Inductive Next : Type :=
| Rest
| Later (d : Z)
| Soon.

#[export] Instance Next_eq_dec : EqDecision Next.
Proof. solve_decision. Defined.

(** reconcileHandler of controller-runtime *)
Definition next_of (requeue : bool) (after : Z) (err : option error) : Next :=
  match err with
  | Some _ => Soon
  | None => if 0 <? after then Later after else if requeue then Soon else Rest
  end.

(** An event of the object itself that the watch accepts queues it at once. *)
Definition wakes (s : Setup) (own : list WatchEvent) (n : Next) : Next := if existsb s.(setupFor) own then Soon else n.

Definition err_of (r : res unit) : option error := match r with Ok _ => None | Err e => Some e end.

(** ** The events of a reconciliation's own writes

    A write of the status, or of metadata, leaves the generation of an object as it is. *)
Definition stored_event {A : Type} (generation : Z) (r : res A) : option WatchEvent :=
  match r with Ok _ => Some (UpdateEvent generation generation) | Err _ => None end.

Definition mapping_events (generation : Z) (tr : list (event KSig)) : list WatchEvent :=
  omap (λ e : event KSig,
    match e with
    | Ev o r =>
        match o as o return KResp o → option WatchEvent with
        | KUpdateMappingStatus _ => λ r : res NamespaceMapping, stored_event generation r
        | KUpdateMapping _ => λ r : res NamespaceMapping, stored_event generation r
        | _ => λ _, None
        end r
    end) tr.

Definition cluster_mapping_events (generation : Z) (tr : list (event CSig)) : list WatchEvent :=
  omap (λ e : event CSig,
    match e with
    | Ev o r =>
        match o as o return CResp o → option WatchEvent with
        | CUpdateStatus _ => λ r : res ClusterMapping, stored_event generation r
        | _ => λ _, None
        end r
    end) tr.

Definition remote_cluster_events (generation : Z) (tr : list (event MSig)) : list WatchEvent :=
  omap (λ e : event MSig,
    match e with
    | Ev o r =>
        match o as o return MResp o → option WatchEvent with
        | MUpdateClusterStatus _ => λ r : res RemoteCluster, stored_event generation r
        | _ => λ _, None
        end r
    end) tr.

Definition next_mapping (generation : Z) (tr : list (event KSig)) (out : exec (Result * res unit)) : Next :=
  wakes SetupNamespaceMapping (mapping_events generation tr)
    match out with Ret (after, r) => next_of false after (err_of r) | Panic w => next_of false 0 (Some (PlainError w)) end.

Definition next_cluster_mapping (generation : Z) (tr : list (event CSig)) (out : exec (CtrlResult * res unit)) : Next :=
  wakes SetupClusterMapping (cluster_mapping_events generation tr)
    match out with
    | Ret (c, r) => next_of c.(Requeue) c.(RequeueAfter) (err_of r)
    | Panic w => next_of false 0 (Some (PlainError w))
    end.

Definition outcome_next (out : exec Outcome) : Next :=
  match out with
  | Ret o => next_of o.(requeue) o.(requeueAfter) o.(outcomeErr)
  | Panic w => next_of false 0 (Some (PlainError w))
  end.

Definition next_remote_cluster (generation : Z) (tr : list (event MSig)) (out : exec Outcome) : Next :=
  wakes SetupRemoteCluster (remote_cluster_events generation tr) (outcome_next out).

(** Where the predicate asks for a new generation, own writes wake nobody. *)
Lemma unchanged_sleeps generation l :
  Forall (λ e, e = UpdateEvent generation generation) l → existsb statusChangePredicate l = false.
Proof. induction 1 as [|e l -> _ IH]; [done|]. cbn [existsb]. rewrite statusChangePredicate_generation. cbn. by rewrite Z.eqb_refl. Qed.

Lemma cluster_mapping_sleeps generation tr n : wakes SetupClusterMapping (cluster_mapping_events generation tr) n = n.
Proof.
  unfold wakes. cbn [setupFor SetupClusterMapping]. rewrite (unchanged_sleeps generation); [done|].
  unfold cluster_mapping_events. induction tr as [|[o r] tr IH]; [constructor|]. cbn.
  destruct o; cbn; try done. destruct r; cbn; [by constructor|done].
Qed.

Lemma remote_cluster_sleeps generation tr n : wakes SetupRemoteCluster (remote_cluster_events generation tr) n = n.
Proof.
  unfold wakes. cbn [setupFor SetupRemoteCluster]. rewrite (unchanged_sleeps generation); [done|].
  unfold remote_cluster_events. induction tr as [|[o r] tr IH]; [constructor|]. cbn.
  destruct o; cbn; try done. destruct r; cbn; [by constructor|done].
Qed.

(** ** RemoteClusters are looked at again *)

Section RemoteClusters.
Context `{Quantities} `{Backoff}.

(** Every result asks for another look, at the latest after the sync period. *)
Definition looked_at (o : Outcome) : Prop :=
  next_of o.(requeue) o.(requeueAfter) o.(outcomeErr) = Soon ∨ next_of o.(requeue) o.(requeueAfter) o.(outcomeErr) = Later DefaultSyncPeriod.

Definition any_op (_ : Op MSig) : Prop := True.

Lemma returns_all {A} (c : MP A) : safe any_op c (λ _, True).
Proof. induction c; cbn; unfold any_op; auto. Qed.

Lemma looked_bind {A B} (c : MP A) (k : A → MP B) Q : (∀ a, safe any_op (k a) Q) → safe any_op (c ≫= k) Q.
Proof. intros Hk. apply (safe_bind _ _ _ (λ _, True)); [apply returns_all|]. auto. Qed.

Local Ltac look :=
  repeat lazymatch goal with
  | |- safe _ (mret _) _ => first [by left | by right]
  | |- safe _ (match ?x with _ => _ end) _ => destruct x
  | |- safe _ (if ?x then _ else _) _ => destruct x
  | |- safe _ (let _ := _ in _) _ => cbv zeta
  | |- safe _ (_ ≫= _) _ => apply looked_bind; intros ?
  end.

Lemma store_on_latest_looked ns name rc err : safe any_op (store_on_latest ns name rc err) looked_at.
Proof. unfold store_on_latest. look. Qed.

Lemma reject_looked rc type reason err : safe any_op (reject rc type reason err) looked_at.
Proof. unfold reject. look. Qed.

Lemma finish_looked ns name config rc : safe any_op (finish ns name config rc) looked_at.
Proof. unfold finish. repeat first [apply reject_looked | progress look]. Qed.

Lemma connect_looked ns name rc : safe any_op (connect ns name rc) looked_at.
Proof. unfold connect. repeat first [apply reject_looked | apply store_on_latest_looked | apply finish_looked | progress look]. Qed.

(** C24: A RemoteCluster that is found is looked at again, on every execution of its reconciliation:
    through the rate limiter or after the sync period; only an object that is gone rests. *)
Theorem ReconcileCluster_looks_again ns name generation tr out :
  runs (ReconcileCluster ns name) tr out →
  let n := next_remote_cluster generation tr out in
  n = Soon ∨ n = Later DefaultSyncPeriod ∨
  (n = Rest ∧ ∃ e t, IsNotFound e = true ∧ tr = Ev (Sg := MSig) (MGetCluster ns name) (Err e) :: t).
Proof.
  intros Hr n. subst n. unfold next_remote_cluster. rewrite remote_cluster_sleeps. unfold ReconcileCluster in Hr.
  apply (runs_call_inv (Sg := MSig) (MGetCluster ns name)) in Hr as (r & t & -> & Hr). destruct r as [rc|e].
  - match type of Hr with runs ?c _ _ => assert (Hc : safe any_op c looked_at) end.
    { repeat first [apply connect_looked | apply store_on_latest_looked | progress look]. }
    apply (safe_sound _ _ _ _ _ Hc) in Hr as [_ Hq]. destruct out as [o|w]; [|by left]. destruct (Hq o eq_refl); auto.
  - apply runs_ret_inv in Hr as [-> ->]. cbn. destruct (IsNotFound e) eqn:E; [|by left]. right. right. split; [done|]. by exists e, [].
Qed.
End RemoteClusters.

(** A cluster whose calls all succeed is looked at again after the sync period. *)
Lemma ReconcileCluster_looks_again_witness :
  let c := ReconcileCluster "dr-syncer" "edge" in
  let n := next_remote_cluster 1 (run_trace (all_good edge_spec None) c tt) (run (all_good edge_spec None) c tt).1 in
  (n = Soon ∨ n = Later DefaultSyncPeriod ∨
   (n = Rest ∧ ∃ e t, IsNotFound e = true ∧
      run_trace (all_good edge_spec None) c tt = Ev (Sg := MSig) (MGetCluster "dr-syncer" "edge") (Err e) :: t)) ∧
  n = Later DefaultSyncPeriod.
Proof.
  intros c n. split; [|vm_compute; reflexivity].
  apply (ReconcileCluster_looks_again "dr-syncer" "edge" 1), run_trace_runs.
Defined.

(** ** NamespaceMappings are retried without pause *)

(** A live scheduled mapping that is not waiting for its next time, as a failed one. *)
Record due (m : NamespaceMapping) : Prop := mk_due {
  due_live : m.(DeletionTimestamp) = None;
  due_active : default false m.(Spec).(Paused) = false;
  due_finalizer : containsString m.(Finalizers) NamespaceMappingFinalizerName = true;
  due_scheduled : m.(Spec).(ReplicationMode) ≠ ContinuousMode ∧ m.(Spec).(ReplicationMode) ≠ ManualMode;
  due_open : m.(Status).(Phase) ≠ SyncPhaseCompleted
}.

(** The result of a reconciliation carries an error. *)
Definition reports_error (x : Result * res unit) : Prop := ∃ e, x.2 = Err e.

Lemma sync_failed_errs m err :
  safe any_call (sync_failed (λ backoff err, (backoff, Err err)) m err) (λ x, reports_error x.1).
Proof.
  unfold sync_failed. eapply safe_bind; [apply safe_any|]. intros [[d [[]|e]] m'] _; [|by eexists].
  destruct (shouldRetry d); by eexists.
Qed.

Lemma scheduled_sync_errs cron gcm r m :
  mrSyncer r = nil_clients → safe any_call (scheduled_sync cron gcm r m) (λ x, reports_error x.1).
Proof.
  intros Hr. unfold scheduled_sync. eapply safe_bind; [apply safe_any|]. intros [[[]|e] m1] _; [|by eexists].
  apply safe_call_bind; [done|]. intros start.
  eapply safe_bind; [eapply (safe_mono never_completes); [by apply syncResources_nil|done|intros x Hx; exact Hx]|].
  intros [sr m2] [e He]. cbn in He. subst sr. apply safe_call_bind; [done|]. intros. apply sync_failed_errs.
Qed.

(** The controller's handler of a mapping, with its nil clients; the status it works on is the
    one that was read. *)
Lemma setup_handler m :
  safe any_call (setupModeHandlerForNamespaceMapping m)
    (λ x, ∀ r m', x = Ok (r, m') → mrSyncer r = nil_clients ∧ m'.(Status) = m.(Status) ∧
       m'.(Spec).(ReplicationMode) = m.(Spec).(ReplicationMode)).
Proof.
  unfold setupModeHandlerForNamespaceMapping, cluster_mapping_key. destruct (ClusterMappingRef _) as [ref|].
  - intros. split; [done|]. intros [cm|e]; cbn; by intros r m' [= <- <-].
  - destruct (_ || _); cbn; by intros r m' [= <- <-].
Qed.

(** What the first call read. *)
Definition mapping_read (tr : list (event KSig)) : option (res NamespaceMapping) :=
  match tr with
  | Ev o r :: _ => match o as o return KResp o → option (res NamespaceMapping) with KGetMapping _ _ => Some | _ => λ _, None end r
  | [] => None
  end.

(** C39: A scheduled mapping that is due, on every execution of the controller's reconciliation: it
    is reconciled again at once, through an event of its own status or the rate limiter,
    whatever backoff was computed and stored for it, and no status that was written stops this:
    the mapping is due again. *)
Theorem Reconcile_unpaced cron gcm ns name generation m tr out :
  due m → runs (MappingController.Reconcile cron gcm ns name) (Ev (Sg := KSig) (KGetMapping ns name) (Ok m) :: tr) out →
  next_mapping generation tr out = Soon ∧
  ∀ sent r, Ev (Sg := KSig) (KUpdateMappingStatus sent) r ∈ tr → sent.(Status).(Phase) ≠ SyncPhaseCompleted.
Proof.
  intros [Hl Ha Hf [Hc Hm] Ho] Hr. split.
  - assert (Hs : safe any_call (h ← setupModeHandlerForNamespaceMapping m;
                match h with Err err => mret (0, Err err) | Ok (r, m) => dispatch cron gcm r m end) reports_error).
    { eapply safe_bind; [apply setup_handler|]. intros [[r m']|e] Hx; [|by eexists].
      destruct (Hx r m' eq_refl) as (Hn & Hst & Hmode). unfold dispatch. rewrite Hmode.
      apply String.eqb_neq in Hc as ->. apply String.eqb_neq in Hm as ->.
      apply (safe_bind _ _ _ (λ x, reports_error x.1)); [|by intros x Hxx].
      unfold ReconcileScheduled. rewrite Hst. apply String.eqb_neq in Ho as ->.
      destruct (NextSyncTime _); by apply scheduled_sync_errs. }
    apply (runs_call_inv (Sg := KSig) (KGetMapping ns name)) in Hr as (x & t & E & Hr).
    pose proof (f_equal mapping_read E) as Ex. cbn in Ex. injection Ex as <-. injection E as <-.
    rewrite Hl, Ha, Hf in Hr. apply (safe_sound _ _ _ _ _ Hs) in Hr as [_ Hq].
    unfold next_mapping, wakes. destruct (existsb _ _); [done|]. destruct out as [[after r]|w]; [|done].
    destruct (Hq _ eq_refl) as [e He]. cbn in He. by subst r.
  - intros sent r Hin. apply (safe_sound _ _ _ _ _ (Reconcile_nil cron gcm ns name)) in Hr as [Hall _].
    apply Forall_cons in Hall as [_ Hall]. rewrite Forall_forall in Hall. exact (Hall _ Hin).
Qed.

(** A mapping of the reference server: a status write of its own wakes it. *)
Lemma Reconcile_unpaced_witness :
  let c := MappingController.Reconcile ex_cron false "sys" "nm" in
  let tr := tail (run_trace api c ex_sync_world) in
  next_mapping 1 tr (run api c ex_sync_world).1 = Soon ∧ mapping_events 1 tr ≠ [].
Proof.
  intros c tr. split; [|vm_compute; discriminate].
  apply (Reconcile_unpaced ex_cron false "sys" "nm" 1 ex_mapping tr).
  - by constructor.
  - exact (run_trace_runs api c ex_sync_world).
Defined.

(** ** A ClusterMapping rests after its first failure *)

Section ClusterMappings.
Context `{LawfulRetry}.

Definition cluster_mapping_read (tr : list (event CSig)) : option (res ClusterMapping) :=
  match tr with
  | Ev o r :: _ => match o as o return CResp o → option (res ClusterMapping) with CGetClusterMapping _ _ => Some | _ => λ _, None end r
  | [] => None
  end.

(** The mapping is Failed, with one failure more than the version that was read. *)
Definition counts_failure (latest new : ClusterMapping) : Prop :=
  new.(CMStatus).(CMPhase) = "Failed" ∧
  new.(CMStatus).(ConsecutiveFailures) = int64 (latest.(CMStatus).(ConsecutiveFailures) + 1) ∧
  set_CMStatus latest.(CMStatus) new = latest.

Definition connecting (latest new : ClusterMapping) : Prop :=
  new.(CMStatus).(CMPhase) = "Connecting" ∧ new.(CMStatus).(ConsecutiveFailures) = latest.(CMStatus).(ConsecutiveFailures) ∧
  set_CMStatus latest.(CMStatus) new = latest.

Lemma acknowledged_mono ns name (T T' : ClusterMapping → ClusterMapping → Prop) t :
  acknowledged ns name T t → (∀ l n, T l n → T' l n) → acknowledged ns name T' t.
Proof. intros [(l & n & s & H1 & H2 & H3) Hw] HT. split; [exists l, n, s; auto|by eapply written_mono]. Qed.

(** No failure was counted: the failure is stored, and its result asks for no requeue. *)
Lemma setFailedStatus_rests m message tr c :
  m.(CMStatus).(ConsecutiveFailures) = 0 → runs (setFailedStatus m message) tr (Ret (c, Ok tt)) →
  c = no_requeue ∧ acknowledged m.(CMNamespace) m.(CMName) counts_failure tr.
Proof.
  intros Hz Hr. unfold setFailedStatus, setFailedStatusWithRetry, draw_backoff in Hr. rewrite Hz in Hr.
  apply runs_bind_inv in Hr as [(r & t1 & t2 & H1 & Hr & ->)|(w & _ & ?)]; [|done]. destruct r as [[]|e].
  - cbn in Hr. apply runs_ret_inv in Hr as [-> E]. injection E as ->. split; [done|]. rewrite app_nil_r.
    eapply acknowledged_mono; [eapply update_acknowledged; [apply changes_plain|done]|]. intros l n ->. by destruct l as [? ? ? ? []].
  - apply runs_ret_inv in Hr as [_ E]. discriminate E.
Qed.

(** C40: A mapping in phase Pending that is not paused and has no failures, on every execution
    that returns nil: either its clusters were found valid, phase Connecting is stored and it
    goes on at once; or they were not, phase Failed with one failure more is stored, and it
    rests until its specification, one of its clusters or a secret changes: no timer is set,
    and the writes of its status wake nobody. *)
Theorem Reconcile_first_failure_rests r ns name generation m tr c :
  default false m.(CMSpec).(CMPaused) = false → m.(CMStatus).(CMPhase) = ClusterMappingPhasePending →
  m.(CMStatus).(ConsecutiveFailures) = 0 →
  runs (ClusterMapping.Reconcile r ns name) (Ev (Sg := CSig) (CGetClusterMapping ns name) (Ok m) :: tr) (Ret (c, Ok tt)) →
  ∃ t1 t t2 valid, tr = (t1 ++ t ++ t2)%list ∧ runs (validateClusters m) t (Ret valid) ∧
    match valid with
    | Ok _ => next_cluster_mapping generation tr (Ret (c, Ok tt)) = Soon ∧ acknowledged m.(CMNamespace) m.(CMName) connecting t2
    | Err _ => next_cluster_mapping generation tr (Ret (c, Ok tt)) = Rest ∧ acknowledged m.(CMNamespace) m.(CMName) counts_failure t2
    end.
Proof.
  intros Hp Hph Hz Hr. unfold next_cluster_mapping. rewrite cluster_mapping_sleeps.
  apply (runs_call_inv (Sg := CSig) (CGetClusterMapping ns name)) in Hr as (x & t & E & Hr).
  pose proof (f_equal cluster_mapping_read E) as Ex. cbn in Ex. injection Ex as <-. injection E as <-.
  assert (Hb : remaining_backoff m = mret None).
  { unfold remaining_backoff. rewrite Hz. by destruct (LastAttemptTime _). }
  rewrite Hb in Hr. cbn [mbind prog_bind pbind mret prog_ret] in Hr. rewrite Hp in Hr.
  apply runs_bind_inv in Hr as [(u & t1 & t2 & _ & Hr & ->)|(w & _ & ?)]; [|done].
  unfold handle_phase in Hr. rewrite Hph in Hr. change (runs (handlePendingPhase m) t2 (Ret (c, Ok tt))) in Hr.
  unfold handlePendingPhase, orFailed in Hr.
  apply runs_bind_inv in Hr as [(valid & t3 & t4 & Hv & Hr & ->)|(w & _ & ?)]; [|done].
  exists t1, t3, t4, valid. split; [done|]. split; [done|]. destruct valid as [v|e].
  - unfold after_update in Hr. apply runs_bind_inv in Hr as [(x & t5 & t6 & Hu & Hr & ->)|(w & _ & ?)]; [|done].
    destruct x as [[]|e]; apply runs_ret_inv in Hr as [-> Ec]; [injection Ec as ->|discriminate Ec]. split; [done|]. rewrite app_nil_r.
    eapply acknowledged_mono; [eapply update_acknowledged; [apply changes_plain|done]|]. intros l n ->. by destruct l as [? ? ? ? []].
  - apply setFailedStatus_rests in Hr as [-> Ha]; done.
Qed.
End ClusterMappings.

(** The clusters of a new mapping are not found: it is Failed, and rests. *)
Lemma Reconcile_first_failure_rests_witness :
  let m := demo_mapping ClusterMappingPhasePending 0 None in
  next_cluster_mapping 1 (tail (demo_trace false m)) (Ret (no_requeue, Ok tt)) = Rest ∧
  (demo_run false m).2.(CMStatus).(CMPhase) = ClusterMappingPhaseFailed ∧
  ∃ t1 t t2, tail (demo_trace false m) = (t1 ++ t ++ t2)%list ∧ acknowledged "dr" "m" counts_failure t2.
Proof.
  intros m. assert (Hn : next_cluster_mapping 1 (tail (demo_trace false m)) (Ret (no_requeue, Ok tt)) = Rest) by (vm_compute; reflexivity).
  split; [exact Hn|]. split; [vm_compute; reflexivity|].
  destruct (Reconcile_first_failure_rests (H := default_retry) (mkClusterMappingReconciler true) "dr" "m" 1 m
    (tail (demo_trace false m)) no_requeue) as (t1 & t & t2 & valid & E & Hv & Hx);
    [reflexivity..|exact (demo_runs false m)|].
  exists t1, t, t2. split; [exact E|]. destruct valid as [v|e].
  - destruct Hx as [Hx _]. rewrite Hn in Hx. discriminate Hx.
  - exact (proj2 Hx).
Defined.
