(* ===== verification/LinkProps.v ===== *)
(** * Properties of the joined workflow

    A workflow over its steps and the same workflow over the API have the same executions, up
    to the replacement of each step by an execution of its program; what this says of the lock,
    of the rsync pod, of the clusters written to and of the data transferred. *)

From S2P Require Import Prelude GoString Errors Types Kube KubeLogic Lock Helpers RsyncExec RsyncProps RsyncPod RsyncPodProps Workflow WorkflowProps TempPod DaemonSet ReplicationController Link.

(** ** Refinement *)

Lemma runs_attempt {Sg : Sig} {A} (p : prog Sg A) tr out : runs p tr out → runs (attempt p) tr (Ret out).
Proof. induction 1 as [a|w|o k r tr out _ IH]; cbn; by constructor. Qed.

Lemma runs_attempt_inv {Sg : Sig} {A} (p : prog Sg A) tr out :
  runs (attempt p) tr out → ∃ r, out = Ret r ∧ runs p tr r.
Proof.
  revert tr. induction p as [a|w|o k IH]; intros tr Hr; cbn [attempt] in Hr.
  - apply runs_ret_inv in Hr as [-> ->]. eexists. split; [done|constructor].
  - apply runs_ret_inv in Hr as [-> ->]. eexists. split; [done|constructor].
  - apply runs_call_inv in Hr as (r & tr' & -> & Hr). apply IH in Hr as (x & -> & Hr). exists x. split; [done|by constructor].
Qed.

Section Refinement.
Context {CA : CacheCodec} {DC : DeploymentCodec} {PO : Poller} {ST : StatusCodec} {DSC : DaemonSetCodec} {PC : PodCodec}
  {VC : VolumeCodec} {LF : LabelFormat}.
Variables (POD_NAME : string) (host : Cluster → string) (ctx : Ctx) (clusterKey : option string).
Variables (sourceConfig destConfig : option string) (manager : res unit) (syncHash : string).
Variables (daemonset : option RsyncDaemonSet) (ticks : nat).

Local Abbreviation ilink := (link POD_NAME host ctx clusterKey sourceConfig destConfig manager syncHash daemonset ticks).
Local Abbreviation iinterp := (interp POD_NAME host ctx clusterKey sourceConfig destConfig manager syncHash daemonset ticks).
Local Abbreviation iimplements := (implements POD_NAME host ctx clusterKey sourceConfig destConfig manager syncHash daemonset ticks).

Lemma link_runs_inv {A} (q : RP A) p tr out :
  runs (ilink p q) tr out → ∃ steps, runs q steps out ∧ iimplements p steps tr.
Proof.
  revert p tr. induction q as [a|w|o k IH]; intros p tr Hr; cbn [link] in Hr.
  - apply runs_ret_inv in Hr as [-> ->]. exists []. split; constructor.
  - apply runs_panic_inv in Hr as [-> ->]. exists []. split; constructor.
  - apply runs_bind_inv in Hr as [(r & t1 & t2 & H1 & H2 & ->)|(w & H1 & _)]; apply runs_attempt_inv in H1 as (x & E & H1); [|done].
    injection E as <-. apply IH in H2 as (steps & Hs & Hi). exists (Ev (Sg := RSig) o r :: steps). split; by constructor.
Qed.

Lemma implements_nil_inv p tr : iimplements p [] tr → tr = [].
Proof. by inversion 1. Qed.

Lemma implements_cons_inv p o r steps tr :
  iimplements p (Ev (Sg := RSig) o r :: steps) tr →
  ∃ t tr', tr = (t ++ tr')%list ∧ runs (iinterp p o) t r ∧ iimplements (syncer_after p o) steps tr'.
Proof.
  intros Hi.
  refine (match Hi in implements _ _ _ _ _ _ _ _ _ _ p l t
          return match l with
                 | [] => True
                 | Ev o r :: steps => ∃ t1 t2, t = (t1 ++ t2)%list ∧ runs (iinterp p o) t1 r ∧ iimplements (syncer_after p o) steps t2
                 end with
          | implements_done _ _ _ _ _ _ _ _ _ _ _ => I
          | implements_step _ _ _ _ _ _ _ _ _ _ _ _ _ t _ t' Ht Hs => ex_intro _ t (ex_intro _ t' (conj eq_refl (conj Ht Hs)))
          end).
Qed.

Lemma link_runs {A} (q : RP A) p steps tr out : runs q steps out → iimplements p steps tr → runs (ilink p q) tr out.
Proof.
  intros Hq. revert p tr. induction Hq as [a|w|o k r steps out _ IH]; intros p tr Hi.
  - apply implements_nil_inv in Hi as ->. constructor.
  - apply implements_nil_inv in Hi as ->. constructor.
  - apply implements_cons_inv in Hi as (t & tr' & -> & Ht & Hi). cbn [link]. eapply runs_bind; [by apply runs_attempt|]. by apply IH.
Qed.

(** The joined program refines the workflow over its steps, and loses nothing of it: its
    executions are those of the workflow with every step replaced by an execution of its
    program. *)
Lemma link_refines {A} (q : RP A) p tr out :
  runs (ilink p q) tr out ↔ ∃ steps, runs q steps out ∧ iimplements p steps tr.
Proof. split; [apply link_runs_inv|]. intros (steps & Hq & Hi). by eapply link_runs. Qed.

(** An execution of a step is a part of the calls. *)
Lemma implements_split p l1 o r l2 tr :
  iimplements p (l1 ++ Ev (Sg := RSig) o r :: l2)%list tr →
  ∃ p' t1 t t2, tr = (t1 ++ t ++ t2)%list ∧ runs (iinterp p' o) t r ∧ iimplements p l1 t1 ∧ iimplements (syncer_after p' o) l2 t2.
Proof.
  revert p tr. induction l1 as [|[o1 r1] l1 IH]; intros p tr Hi.
  - apply implements_cons_inv in Hi as (t & t2 & -> & Ht & H2). exists p, [], t, t2. by split_and!; [|done|constructor|].
  - cbn [app] in Hi. apply implements_cons_inv in Hi as (s & tr' & -> & Hs & Hi).
    apply IH in Hi as (p' & t1 & t & t2 & -> & Ht & H1 & H2). exists p', (s ++ t1)%list, t, t2.
    rewrite <- app_assoc. by split_and!; [|done|constructor|].
Qed.

Lemma implements_elem p o r steps tr :
  iimplements p steps tr → Ev (Sg := RSig) o r ∈ steps →
  ∃ p' t1 t t2, tr = (t1 ++ t ++ t2)%list ∧ runs (iinterp p' o) t r.
Proof.
  intros Hi (l1 & l2 & ->)%list_elem_of_split.
  apply implements_split in Hi as (p' & t1 & t & t2 & -> & Ht & _). by exists p', t1, t, t2.
Qed.

(** ** The lock *)

(** A lock that was held and is no longer was given back by a release that returned. *)
Lemma protocol_releases ns pvc st st' steps :
  observe (protocol ns pvc) st steps = Some st' → st.(pLock) = Held → st'.(pLock) ≠ Held →
  ∃ l1 r l2, steps = (l1 ++ Ev (Sg := RSig) (RReleasePVCLock ns pvc) (Ret r) :: l2)%list.
Proof.
  revert st. induction steps as [|[o r] steps IH]; intros st Ho Hl Hl'; [cbn in Ho; congruence|].
  cbn [observe] in Ho. destruct (protocol ns pvc st (Ev o r)) as [s|] eqn:E; [|done].
  destruct (held s) eqn:Es.
  - assert (Es' : s.(pLock) = Held) by (unfold held in Es; by case_match).
    destruct (IH s Ho Es' Hl') as (l1 & r' & l2 & ->). by exists (Ev (Sg := RSig) o r :: l1), r', l2.
  - assert (Hh : held st = true) by (unfold held; by rewrite Hl).
    destruct o; cbn in E; repeat case_match; simplify_eq; try congruence;
      try (unfold held in Es; cbn in Es; rewrite Hl in Es; congruence).
    match goal with Hb : _ || _ = false |- _ => apply orb_false_iff in Hb as [_ Hb] end.
    match goal with Hb : negb _ = false |- _ => apply negb_false_iff, andb_true_iff in Hb as [->%String.eqb_eq ->%String.eqb_eq] end.
    by exists [], a, steps.
Qed.

(** Recording an event. *)
Definition records (o : KOp) : Prop := match o with KGet _ _ _ _ | KRecordEvent _ _ _ => True | _ => False end.

(** What follows an attempt on the lock: after a success a complete execution of the release,
    otherwise at most the event that the sync is skipped. *)
Definition gives_back (ns pvc : string) (acquired : exec (res (bool * PVCLockInfo))) (rest : list (event KSig)) : Prop :=
  match acquired with
  | Ret (Ok (true, _)) =>
      ∃ t1 t t2 r, rest = (t1 ++ t ++ t2)%list ∧ runs (ReleasePVCLock POD_NAME ns pvc) t (Ret r)
  | _ => Forall (λ e : event KSig, records (ev_op e)) rest
  end.

Lemma keeping_runs_inv {A B} (f : A → B) c tr out :
  runs (keeping f c) tr out →
  ∃ out', runs c tr out' ∧ out = match out' with Ret (Ok a) => Ret (Ok (f a)) | Ret (Err e) => Ret (Err e) | Panic w => Panic w end.
Proof.
  intros [(r & t1 & t2 & H1 & H2 & ->)|(w & H1 & ->)]%runs_bind_inv; [|by eexists].
  apply runs_ret_inv in H2 as [-> ->]. exists (Ret r). rewrite app_nil_r. split; [done|by destruct r].
Qed.

(** The step of the acquisition is the one of Lock.v. *)
Lemma acquire_runs p srcNS srcPVC t a :
  runs (iinterp p (RAcquirePVCLock srcNS srcPVC)) t a →
  ∃ out, runs (AcquirePVCLock POD_NAME srcNS srcPVC) t out ∧
    a = match out with Ret (Ok x) => Ret (Ok x.1) | Ret (Err e) => Ret (Err e) | Panic w => Panic w end.
Proof. apply keeping_runs_inv. Qed.

(** The step of an event only reads and records. *)
Definition only_events (e : event RSig) : Prop := match (ev_op e : ROp) with REvent _ _ _ => True | _ => False end.

Lemma events_record p steps tr :
  iimplements p steps tr → Forall only_events steps →
  Forall (λ e : event KSig, records (ev_op e)) tr.
Proof.
  revert p tr. induction steps as [|[o r] steps IH]; intros p tr Hi He.
  - by apply implements_nil_inv in Hi as ->.
  - apply implements_cons_inv in Hi as (t & tr' & -> & Ht & Hi). apply Forall_cons in He as [Ho He].
    apply Forall_app. split; [|by eapply IH]. destruct o; try done. cbn [interp] in Ht.
    eapply (safe_sound (Sg := KSig) records _ anyr) in Ht as [Ht _]; [exact Ht|].
    unfold recordEvent. repeat safe_step; done.
Qed.

Section Lock.
Context (remote srcNS srcPVC dstNS dstPVC syncID pushID : string).
Let workflow := RsyncWorkflow remote srcNS srcPVC dstNS dstPVC syncID pushID.

Lemma workflow_steps steps r :
  runs workflow steps (Ret r) →
  ∃ e0 e1 a rest, steps = Ev (Sg := RSig) (REvent srcNS srcPVC "SyncStarted") e0 :: Ev (Sg := RSig) (RSetNamespaces srcNS dstNS) e1 ::
    Ev (Sg := RSig) (RAcquirePVCLock srcNS srcPVC) a :: rest ∧
    match a with
    | Ret (Ok true) => ∃ l1 x l2, rest = (l1 ++ Ev (Sg := RSig) (RReleasePVCLock srcNS srcPVC) (Ret x) :: l2)%list
    | _ => Forall only_events rest
    end.
Proof.
  intros Hr.
  assert (Hp : ∃ st, observe (protocol srcNS srcPVC) idle steps = Some st ∧ ends_settled (Ret r) st).
  { refine (monitored_sound _ _ _ ends_settled _ _ _ Hr). apply workflow_settles; [apply deploy_step_ends|]. intros p w Hp. by apply (sync_step_ends _ _ p w Hp). }
  apply runs_rcall_inv in Hr as ([[]|] & t1 & -> & Hr); [|by destruct Hr].
  apply runs_rcall_inv in Hr as ([[]|] & t2 & -> & Hr); [|by destruct Hr].
  apply runs_bind_inv in Hr as [(x & t3 & t4 & H3 & H4 & ->)|(w & _ & ?)]; [|done].
  apply runs_attempt_inv in H3 as (y & [= <-] & H3). unfold acquire_step, step in H3.
  apply runs_rcall_inv in H3 as (a & t5 & -> & H3). exists (Ret tt), (Ret tt), a, (t5 ++ t4)%list. split; [done|].
  destruct a as [[[]|e]|w].
  - destruct Hp as (st & Ho & Hs). cbn [app] in Ho. destruct (Hs r eq_refl) as [Hl _].
    cbn [observe] in Ho. cbn in Ho. rewrite own_claim in Ho. cbn in Ho.
    by eapply (protocol_releases _ _ (mkPState Held NoPod)).
  - apply runs_rcall_inv in H3 as ([[]|w] & t6 & -> & H3).
    + apply runs_ret_inv in H3 as [-> ->]. apply runs_ret_inv in H4 as [-> _]. by repeat constructor.
    + destruct H3 as [-> ->]. apply runs_ret_inv in H4 as [-> _]. by repeat constructor.
  - apply runs_ret_inv in H3 as [-> ->]. apply runs_ret_inv in H4 as [-> _]. constructor.
  - destruct H3 as [-> ->]. apply runs_ret_inv in H4 as [-> _]. constructor.
Qed.
(** C5: RsyncWorkflow down to the calls of the API, whatever the servers answer and wherever a
    step panics: before anything else is written an execution of AcquirePVCLock on the source
    claim takes place; when it obtains the lock and the workflow returns, a complete execution of
    ReleasePVCLock on the same claim, with the same pod name, follows it; when it does not, the
    workflow records at most an event. *)
Theorem RsyncWorkflow_linked_releases p tr r :
  runs (ilink p workflow) tr (Ret r) →
  ∃ t0 t rest acquired, tr = (t0 ++ t ++ rest)%list ∧ Forall (λ e : event KSig, records (ev_op e)) t0 ∧
    runs (AcquirePVCLock POD_NAME srcNS srcPVC) t acquired ∧ gives_back srcNS srcPVC acquired rest.
Proof.
  intros (steps & Hs & Hi)%link_runs_inv. apply workflow_steps in Hs as (e0 & e1 & a & rest & -> & Ha).
  apply implements_cons_inv in Hi as (t0 & ? & -> & H0 & Hi).
  apply implements_cons_inv in Hi as (? & ? & -> & [-> _]%runs_ret_inv & Hi).
  apply implements_cons_inv in Hi as (t & tr' & -> & (out & Ht & ->)%acquire_runs & Hi).
  exists t0, t, tr', out. split_and!; [done| |done|].
  - rewrite <- (app_nil_r t0). eapply (events_record p [Ev (Sg := RSig) (REvent srcNS srcPVC "SyncStarted") e0]); [|by repeat constructor].
    by constructor; [|constructor].
  - destruct out as [[[[] info]|e]|w]; cbn in Ha |- *; [|by eapply events_record..].
    destruct Ha as (l1 & x & l2 & ->). apply implements_split in Hi as (p' & t1 & s & t2 & -> & Hrel & _). by exists t1, s, t2, x.
Qed.
End Lock.

(** ** What is written *)

(** The clusters are written to in these ways only: claims of the source namespace are updated,
    deployments are created in the destination namespace and deleted in the destination
    cluster, and the NamespaceMapping is updated through the destination client of the syncer.
    Commands may be run in pods, and events recorded. *)
Definition confined (client : Cluster) (srcNS dstNS : string) : Op KSig → Prop := λ o : KOp,
  match o with
  | KUpdate c g ns _ => c = Src ∧ g = persistentvolumeclaims ∧ ns = srcNS
  | KCreate c g ns _ => c = Dst ∧ g = deployments ∧ ns = dstNS
  | KDeleteForeground c g _ _ => c = Dst ∧ g = deployments
  | KUpdateMappingAt c _ => c = client
  | KDelete _ _ _ _ | KEvict _ _ _ | KCommand _ _ | KUpdateMappingStatus _ | KUpdateMapping _ => False
  | KAcquireSlot _ _ | KReleaseSlot _ _ | KFindPVCNode _ _ _ | KHasVolumeAttachments _ _ | KSyncPVC _ => False
  | _ => True
  end.

(** The steps a sync may take to stay within that, and what is known of their answers: a rsync
    deployment is not a pod of the pool. *)
Definition step_ok (srcNS dstNS : string) (o : ROp) : Prop :=
  match o with
  | RSetNamespaces src _ => src = srcNS
  | RAcquirePVCLock ns _ | RReleasePVCLock ns _ | RFindPVCMountPath ns _ _ | RUpdateSourcePVCAnnotations ns _ => ns = srcNS
  | RCreateRsyncDeployment opts => opts.(roNamespace) = dstNS
  | RCleanup w | RPerformRsync w _ _ => w.(wDestinationPath) = None
  | RDeployDaemonSet | RResolveDestinationPath _ _ _ => False
  | _ => True
  end.

Definition answer_ok (o : ROp) : exec (RVal o) → Prop :=
  match o as o return exec (RVal o) → Prop with
  | RCreateRsyncDeployment _ | RWaitForPodReady _ _ => λ r, ∀ w, r = Ret (Ok w) → w.(wDestinationPath) = None
  | _ => λ _, True
  end.

Fixpoint steps_ok {A : Type} (srcNS dstNS : string) (q : RP A) (Q : A → Prop) : Prop :=
  match q with
  | PRet a => Q a
  | PPanic _ => True
  | PCall o k => step_ok srcNS dstNS o ∧ ∀ r, answer_ok o r → steps_ok srcNS dstNS (k r) Q
  end.

Section Confined.
Context {LP : LawfulPoller}.
Variables (client : Cluster) (srcNS dstNS : string).
Local Abbreviation P := (confined client srcNS dstNS).

Lemma run_confined_performRsync p d dsPath ip path :
  p.(psSourceNamespace) = srcNS → safe P (performRsync p d dsPath ip path) anyr.
Proof.
  intros Hp. apply safe_of_runs; [exact KResp_inhabited|]. intros tr out Hr.
  destruct (monitored_sound _ _ _ _ _ _ (performRsync_monitored p d dsPath ip path) Hr) as (st & Ho & _). clear Hr.
  revert Ho. generalize (mkSeen "" false false). induction tr as [|[o r] tr IH]; intros s Ho; [constructor|]. cbn [observe] in Ho.
  destruct (sync_monitor _ _ _ s (Ev o r)) as [s'|] eqn:E; [|done]. constructor; [|by eapply IH].
  destruct o; cbn in E |- *; repeat case_match; try done.
  match goal with Hb : _ && _ = true |- _ => apply andb_true_iff in Hb as [Hb%bool_decide_eq_true _] end. by rewrite <- Hp.
Qed.

Lemma keeping_safe {A B} (f : A → B) c (Q : res B → Prop) :
  safe P c anyr → (∀ a, Q (Ok (f a))) → (∀ e, Q (Err e)) → safe P (keeping f c) Q.
Proof. intros Hc HQ HE. apply (safe_bind _ _ _ anyr); [done|]. intros [a|e] _; [apply HQ|apply HE]. Qed.

Lemma wait_deleted_confined i ns name : safe P (wait_deleted i ns name) anyr.
Proof. apply poll_safe; [done|]. repeat safe_step; done. Qed.

Lemma stream_confined ns pod command : safe P (stream Dst ns pod command) anyr.
Proof. unfold stream. repeat safe_step; done. Qed.

Lemma execute_confined ns pod command config ctx' : safe P (ExecuteCommandInPod host ctx' (Some Dst) ns pod command config) anyr.
Proof.
  unfold ExecuteCommandInPod, rsyncpod_config, match_hosts, assert_config, logged.
  repeat first [ lazymatch goal with |- safe _ (stream _ _ _ _) _ => apply stream_confined end | safe_step ]; done.
Qed.

Lemma first_path_confined agentPod commands : safe P (first_path agentPod commands) anyr.
Proof.
  induction commands as [|cmd rest IH]; cbn [first_path]; [done|]. unfold execCommandOnPod. repeat safe_step; done.
Qed.

Ltac confine :=
  repeat first
  [ lazymatch goal with
    | |- safe _ (wait_deleted _ _ _) _ => apply wait_deleted_confined
    | |- safe _ (ExecuteCommandInPod _ _ _ _ _ _ _) _ => apply execute_confined
    | |- safe _ (first_path _ _) _ => apply first_path_confined
    | |- safe _ (PollUntilContextCancel _ _ _) _ => apply poll_safe; [done|]
    end
  | safe_step ]; try done.

Lemma interp_confined p o :
  p.(psSourceNamespace) = srcNS → p.(psDestinationClient) = client → step_ok srcNS dstNS o →
  safe P (iinterp p o) (λ v, answer_ok o (Ret v)).
Proof.
  intros Hp Hcl Ho.
  assert (Hplain : (∀ r, answer_ok o r) → safe P (iinterp p o) anyr → safe P (iinterp p o) (λ v, answer_ok o (Ret v))).
  { intros Ha Hs. by apply (safe_mono P P _ anyr). }
  destruct o; cbn [step_ok] in Ho; try done; try (apply Hplain; [done|]); cbn [interp answer_ok] in *; clear Hplain.
  all: try (apply keeping_safe; [|by intros ? ? [= <-]|done]).
  all: unfold keeping, recordEvent, AcquirePVCLock, acquire_found, contend, take_lock, store_lock, ReleasePVCLock, CleanupExistingDeployments,
    RsyncPod.waitForDeploymentDeletion, CreateRsyncDeployment, delete_existing, RsyncPod.WaitForPodReady, running_pod, GenerateSSHKeys,
    GetPublicKey, HasVolumeAttachments, Helpers.FindPVCNode, findPVCNodesWithClient, nodes_by_attachment, FindAgentPod, FindPVCMountPath, getMountPathFromCache,
    saveMountPathToCache, PushPublicKeyToAgent, execCommandOnPod, TestSSHConnectivity, UpdateSourcePVCAnnotations, cleanup_worker,
    RsyncPod.Cleanup, delete_deployment, on_pool, FindPodOnNode, ValidatePVCSync, CompleteNamespaceMappingPVCSync,
    ScheduleNextPVCSync, latest_mapping, GetPVCsToSync.
  all: confine.
  unfold perform. rewrite Ho. by apply run_confined_performRsync.
Qed.

Lemma link_confined {A} (q : RP A) p :
  p.(psSourceNamespace) = srcNS → p.(psDestinationClient) = client → steps_ok srcNS dstNS q anyr → safe P (ilink p q) anyr.
Proof.
  revert p. induction q as [a|w|o k IH]; intros p Hp Hcl Hq; cbn [link]; [done|done|]. destruct Hq as [Ho Hk].
  apply (safe_bind _ _ _ (answer_ok o)).
  - assert (Hs := interp_confined p o Hp Hcl Ho). revert Hs. generalize (iinterp p o) as c. induction c as [v|w|o' k' IH']; cbn; [done| |].
    + intros _. by destruct o.
    + intros [Ho' Hk']. split; [done|]. intros r. by apply IH'.
  - intros r Hr. apply IH; [by destruct o|by destruct o|by apply Hk].
Qed.

(** ** The workflows stay within these steps *)

Local Abbreviation sok := (steps_ok srcNS dstNS).

Lemma steps_ok_bind {A B} (q : RP A) (f : A → RP B) (R : A → Prop) (Q : B → Prop) :
  sok q R → (∀ a, R a → sok (f a) Q) → sok (q ≫= f) Q.
Proof.
  intros Hq Hf. induction q as [a|w|o k IH]; cbn in *; [by auto|done|]. destruct Hq as [Ho Hk]. split; [done|]. intros r Hr. by apply IH, Hk.
Qed.

Lemma steps_ok_rcall {A} (o : ROp) (f : RVal o → RP A) Q :
  step_ok srcNS dstNS o → (∀ v, answer_ok o (Ret v) → sok (f v) Q) → sok (rcall o ≫= f) Q.
Proof. intros Ho Hf. split; [done|]. intros [v|w] Hr; cbn; [by apply Hf|done]. Qed.

Lemma steps_ok_attempt {A} (q : RP A) (Q : exec A → Prop) :
  sok q (λ a, Q (Ret a)) → (∀ w, Q (Panic w)) → sok (attempt q) Q.
Proof.
  intros Hq Hw. induction q as [a|w|o k IH]; cbn in *; [done|by apply Hw|]. destruct Hq as [Ho Hk]. split; [done|]. intros r Hr. by apply IH, Hk.
Qed.

(** A part of a body: what it goes on with satisfies [R]. *)
Definition continues {A : Type} (R : A → Prop) (n : next A) : Prop := match n with Return _ => True | Continue a => R a end.

Lemma steps_ok_guarded {A} h (q : RP (next A)) (R : A → Prop) k :
  sok h anyr → sok q (continues R) → (∀ a, R a → sok (k a) anyr) → sok (guarded h q k) anyr.
Proof.
  intros Hh Hq Hk. apply (steps_ok_bind _ _ (λ x, match x with Ret n => continues R n | Panic _ => True end)).
  - apply steps_ok_attempt; [exact Hq|done].
  - intros [[r|a]|w] Hx; [done|by apply Hk|]. by apply (steps_ok_bind _ _ anyr).
Qed.

(** The automation takes a part of a body apart. *)
Ltac ok_step :=
  lazymatch goal with
  | |- steps_ok _ _ (rcall _ ≫= _) _ => apply steps_ok_rcall; [cbn; auto|intros ? ?; cbn iota beta]
  | |- steps_ok _ _ (rcall _) _ => split; [cbn; auto|intros [?|?] ?; cbn; auto]
  | |- steps_ok _ _ (mret _) _ => cbn; auto
  | |- steps_ok _ _ (match ?x with _ => _ end) _ => destruct x eqn:?
  | |- steps_ok _ _ (step ?c _ _) _ => unfold step at 1
  | |- steps_ok _ _ (bindE ?c _ _) _ => unfold bindE at 1
  | |- steps_ok _ _ (_ ≫= _) _ => apply (steps_ok_bind _ _ anyr); [|intros ? _]
  end.

Lemma cleanup_ok w : w.(wDestinationPath) = None → sok (cleanupResources w) anyr.
Proof. intros Hw. unfold cleanupResources. repeat ok_step. Qed.

Lemma release_ok pvc : sok (release srcNS pvc) anyr.
Proof. unfold release. repeat ok_step. Qed.

Lemma fail_clean_ok {A} pvc w prefix e (R : A → Prop) : w.(wDestinationPath) = None → sok (fail_clean srcNS pvc w prefix e) (continues R).
Proof.
  intros Hw. apply (steps_ok_bind _ _ anyr); [by apply cleanup_ok|]. intros _ _.
  apply (steps_ok_bind _ _ anyr); [apply release_ok|]. done.
Qed.

Lemma on_panic_ok pvc b w : (∀ w', w = Some w' → w'.(wDestinationPath) = None) → sok (on_panic srcNS pvc b w) anyr.
Proof.
  intros Hw. unfold on_panic. apply (steps_ok_bind _ _ anyr); [destruct w; [by apply cleanup_ok, Hw|done]|].
  intros _ _. destruct b; [apply release_ok|done].
Qed.

Lemma transfer_ok pvc w push :
  w.(wDestinationPath) = None → (∀ a, sok (push a) anyr) → sok (transfer srcNS pvc w push) (continues (λ _, True)).
Proof.
  intros Hw Hpush. unfold transfer, locate_step, rsync_step, conclude_step, record_event. cbv zeta.
  repeat first
  [ lazymatch goal with
    | |- steps_ok _ _ (fail_clean _ _ _ _ _) _ => by apply fail_clean_ok
    | |- steps_ok _ _ (cleanupResources _) _ => by apply cleanup_ok
    | |- steps_ok _ _ (release _ _) _ => apply release_ok
    | |- steps_ok _ _ (push _) _ => apply Hpush
    end
  | ok_step ].
Qed.

Lemma sync_step_ok pvc pushID w : w.(wDestinationPath) = None → sok (sync_step srcNS pvc dstNS pushID w) (continues (λ _, True)).
Proof.
  intros Hw. unfold sync_step, record_event, generateSSHKeys, getPublicKey.
  repeat first
  [ lazymatch goal with
    | |- steps_ok _ _ (fail_clean _ _ _ _ _) _ => by apply fail_clean_ok
    | |- steps_ok _ _ (transfer _ _ _ _) _ => apply transfer_ok; [done|]; intros
    end
  | ok_step ].
Qed.

Lemma deploy_step_ok remote pvc dpvc syncID :
  sok (deploy_step remote srcNS pvc dstNS dpvc syncID) (continues (λ w, w.(wDestinationPath) = None)).
Proof.
  unfold deploy_step, fail_release, record_event. unfold step at 1.
  apply steps_ok_rcall; [done|]. intros [[]|e] _; [|by apply (steps_ok_bind _ _ anyr); [apply release_ok|]].
  apply steps_ok_rcall; [done|]. intros _ _. apply steps_ok_rcall; [done|]. intros _ _.
  apply (steps_ok_bind _ _ (λ r, ∀ w, r = Ok w → w.(wDestinationPath) = None)).
  - unfold deployRsyncPod. repeat ok_step; intros w [= <-]; eauto.
  - intros [w|e] Hw; [by apply Hw|]. apply steps_ok_rcall; [done|]. intros _ _.
    by apply (steps_ok_bind _ _ anyr); [apply release_ok|].
Qed.

Lemma RsyncWorkflow_ok remote pvc dpvc syncID pushID : sok (RsyncWorkflow remote srcNS pvc dstNS dpvc syncID pushID) anyr.
Proof.
  apply steps_ok_rcall; [done|]. intros _ _. apply steps_ok_rcall; [done|]. intros _ _.
  apply (steps_ok_guarded _ _ (λ _, True)); [by apply on_panic_ok| |].
  { unfold acquire_step, record_event. repeat ok_step. }
  intros _ _. eapply steps_ok_guarded; [by apply on_panic_ok|apply deploy_step_ok|].
  intros w Hw. eapply steps_ok_guarded; [by apply on_panic_ok; intros ? [= <-]|by apply sync_step_ok|]. by intros [].
Qed.

Lemma SyncPVCWithNamespaceMapping_ok remote syncID pushID mapping opts :
  opts.(optSourceNamespace) = srcNS → opts.(optDestinationNamespace) = dstNS →
  sok (SyncPVCWithNamespaceMapping remote syncID pushID mapping opts) anyr.
Proof.
  intros Hs Hd. unfold SyncPVCWithNamespaceMapping, complete_mapping. cbv zeta. rewrite Hs, Hd.
  repeat first [ lazymatch goal with |- steps_ok _ _ (RsyncWorkflow _ _ _ _ _ _ _) _ => apply RsyncWorkflow_ok end | ok_step ].
Qed.

Lemma data_sync_confined p remote syncID pushID mapping opts :
  p.(psDestinationClient) = client → opts.(optSourceNamespace) = srcNS → opts.(optDestinationNamespace) = dstNS →
  safe P (ilink p (SyncPVCWithNamespaceMapping remote syncID pushID mapping opts)) anyr.
Proof.
  intros Hc Hs Hd. destruct (SyncPVCWithNamespaceMapping_ok remote syncID pushID mapping opts Hs Hd) as [_ Hk].
  cbn [link]. apply (safe_bind _ _ _ anyr); [done|]. intros r _. apply link_confined; [by cbn|by cbn|]. by apply Hk.
Qed.

(** The data sync of a claim, from SyncPVCWithNamespaceMapping down to the calls of the
    API, whatever the servers answer: it updates nothing but claims of the source namespace and
    NamespaceMappings, through the destination client of the syncer, creates nothing but deployments in the
    destination namespace, and deletes nothing but deployments of the destination cluster. *)
Theorem SyncPVCWithNamespaceMapping_confined p remote syncID pushID mapping opts tr out :
  p.(psDestinationClient) = client → opts.(optSourceNamespace) = srcNS → opts.(optDestinationNamespace) = dstNS →
  runs (ilink p (SyncPVCWithNamespaceMapping remote syncID pushID mapping opts)) tr out →
  Forall (λ e, confined client srcNS dstNS (ev_op e)) tr.
Proof. intros Hc Hs Hd Hr. by apply (safe_sound _ _ _ _ _ (data_sync_confined p remote syncID pushID mapping opts Hc Hs Hd)) in Hr as [Hr _]. Qed.
End Confined.

(** ** The data *)

(** rsync ran in the pod of [d] and ended well, and the check after it found files. *)
Definition data_arrived (d : RsyncDeployment) (tr : list (event KSig)) : Prop :=
  (∃ cmd out err, RsyncProps.is_rsync cmd = true ∧ Ev (Sg := KSig) (KExec Dst d.(RsyncExec.rdNamespace) d.(rdPodName) cmd) (Executed out err None) ∈ tr) ∧
  (∃ dest out err, Contains out "SUCCESS" = true ∧
     Ev (Sg := KSig) (KExec Dst d.(RsyncExec.rdNamespace) d.(rdPodName) (verify_command dest)) (Executed out err None) ∈ tr).

Lemma seen_transferred ns d dest s s' t :
  observe (sync_monitor ns d dest) s t = Some s' → s.(seenTransferred) = false → s'.(seenTransferred) = true →
  ∃ cmd out err, RsyncProps.is_rsync cmd = true ∧ Ev (Sg := KSig) (KExec Dst d.(RsyncExec.rdNamespace) d.(rdPodName) cmd) (Executed out err None) ∈ t.
Proof.
  revert s. induction t as [|[o r] t IH]; intros s Ho Hs Hs'; [cbn in Ho; congruence|]. cbn [observe] in Ho.
  destruct (sync_monitor ns d dest s (Ev o r)) as [s1|] eqn:E; [|done]. cbn in Ho.
  destruct (s1.(seenTransferred)) eqn:E1.
  - destruct o; cbn in E; repeat case_match; simplify_eq; cbn in E1; try congruence.
    match goal with Hb : negb (bool_decide _) = false |- _ => apply negb_false_iff, bool_decide_eq_true in Hb as (-> & -> & ->) end.
    eexists _, _, _. split; [eassumption|]. left.
  - destruct (IH s1 Ho E1 Hs') as (cmd & out & err & Hc & He). exists cmd, out, err. split; [done|by right].
Qed.

Lemma seen_arrived ns d dest s s' t :
  observe (sync_monitor ns d dest) s t = Some s' → s.(seenArrived) = false → s'.(seenArrived) = true →
  ∃ out err, Contains out "SUCCESS" = true ∧
    Ev (Sg := KSig) (KExec Dst d.(RsyncExec.rdNamespace) d.(rdPodName) (verify_command dest)) (Executed out err None) ∈ t.
Proof.
  revert s. induction t as [|[o r] t IH]; intros s Ho Hs Hs'; [cbn in Ho; congruence|]. cbn [observe] in Ho.
  destruct (sync_monitor ns d dest s (Ev o r)) as [s1|] eqn:E; [|done]. cbn in Ho.
  destruct (s1.(seenArrived)) eqn:E1.
  - destruct o; cbn in E; repeat case_match; simplify_eq; cbn in E1; try congruence.
    match goal with Hb : negb (bool_decide _) = false |- _ => apply negb_false_iff, bool_decide_eq_true in Hb as (-> & -> & ->) end.
    match goal with Hb : bool_decide (_ = _) = true |- _ => apply bool_decide_eq_true in Hb as -> end.
    eexists _, _. split; [eassumption|]. left.
  - destruct (IH s1 Ho E1 Hs') as (out & err & Hc & He). exists out, err. split; [done|by right].
Qed.

Lemma performRsync_arrived p d dsPath ip path tr :
  runs (performRsync p d dsPath ip path) tr (Ret (Ok tt)) → data_arrived d tr.
Proof.
  intros Hr. destruct (monitored_sound _ _ _ _ _ _ (performRsync_monitored p d dsPath ip path) Hr) as (st & Ho & r & [= <-] & Hrep).
  destruct Hrep as ([Ha _] & Ht & _). specialize (Ha eq_refl). specialize (Ht Ha). split.
  - by eapply seen_transferred.
  - eapply seen_arrived in Ho as (out & err & Hc & He); [|done|done]. by exists (dest_info dsPath), out, err.
Qed.

Lemma fact_panicked o r : (fact_of (Ev (Sg := RSig) o r)).(fPanicked) = true → ∃ w, r = Panic w.
Proof. destruct r as [v|w]; [|by eauto]. destruct o; cbn; repeat case_match; done. Qed.

Lemma facts_elem (f : facts → bool) steps acc :
  (∀ a b, f (fact_or a b) = f a || f b) → f (fold_left (λ f e, fact_or f (fact_of e)) steps acc) = true →
  f acc = true ∨ ∃ e, e ∈ steps ∧ f (fact_of e) = true.
Proof.
  intros Hf. revert acc. induction steps as [|e steps IH]; intros acc H; [by left|]. cbn in H. apply IH in H as [H|(x & Hx & H)].
  - rewrite Hf in H. apply orb_true_iff in H as [H|H]; [by left|]. right. exists e. split; [left|done].
  - right. exists x. split; [by right|done].
Qed.

(** A step of the sync panicked; the steps are those of the execution. *)
Definition step_panicked (steps : list (event RSig)) : Prop :=
  ∃ o w, Ev (Sg := RSig) o (Panic w) ∈ steps.

(** The step that takes the lock was refused it, or the claim was found not to be in use. *)
Definition sync_skipped (ns pvc : string) (steps : list (event RSig)) : Prop :=
  Ev (Sg := RSig) (RAcquirePVCLock ns pvc) (Ret (Ok false)) ∈ steps ∨
  Ev (Sg := RSig) (RHasVolumeAttachments ns pvc) (Ret (Ok false)) ∈ steps.

(** The step that runs rsync succeeded, and the calls that carry it out show that the data
    arrived. *)
Definition sync_transferred (steps : list (event RSig)) (tr : list (event KSig)) : Prop :=
  ∃ w ip path t1 t t2, Ev (Sg := RSig) (RPerformRsync w ip path) (Ret (Ok tt)) ∈ steps ∧
    tr = (t1 ++ t ++ t2)%list ∧ data_arrived (exec_pod w) t.

(** Why a sync of a claim, with these steps carried out by these calls, returned nil. *)
Definition explained (ns pvc : string) (steps : list (event RSig)) (tr : list (event KSig)) : Prop :=
  sync_transferred steps tr ∨ sync_skipped ns pvc steps ∨ step_panicked steps.

Lemma explained_within ns pvc l1 l l2 t1 t t2 :
  explained ns pvc l t → explained ns pvc (l1 ++ l ++ l2)%list (t1 ++ t ++ t2)%list.
Proof.
  intros [(w & ip & path & s1 & s & s2 & Hin & -> & Hd)|[[Hk|Hk]|(o & w & Hw)]].
  - left. exists w, ip, path, (t1 ++ s1)%list, s, (s2 ++ t2)%list. rewrite <- !app_assoc, !elem_of_app. auto.
  - right. left. left. rewrite !elem_of_app. auto.
  - right. left. right. rewrite !elem_of_app. auto.
  - right. right. exists o, w. rewrite !elem_of_app. auto.
Qed.

Lemma implements_app_inv p l1 l2 tr :
  iimplements p (l1 ++ l2)%list tr → ∃ p' t1 t2, tr = (t1 ++ t2)%list ∧ iimplements p l1 t1 ∧ iimplements p' l2 t2.
Proof.
  revert p tr. induction l1 as [|[o r] l1 IH]; intros p tr Hi; [exists p, [], tr; by split_and!; [|constructor|]|].
  cbn [app] in Hi. apply implements_cons_inv in Hi as (t & tr' & -> & Ht & Hi). apply IH in Hi as (p' & t1 & t2 & -> & H1 & H2).
  exists p', (t ++ t1)%list, t2. rewrite <- app_assoc. by split_and!; [|constructor|].
Qed.

Section Data.
Context (remote srcNS srcPVC dstNS dstPVC syncID pushID : string).
Let workflow := RsyncWorkflow remote srcNS srcPVC dstNS dstPVC syncID pushID.

(** Lock and attachments are those of the source claim. *)
Definition source_claim (o : Op RSig) : Prop :=
  match (o : ROp) with RAcquirePVCLock ns pvc | RHasVolumeAttachments ns pvc => ns = srcNS ∧ pvc = srcPVC | _ => True end.

Lemma workflow_source_claim : safe source_claim workflow anyr.
Proof.
  repeat (cbn; first
    [ done
    | match goal with
      | |- _ ∧ _ => split
      | |- ∀ _, _ => intro
      | b : bool |- _ => destruct b
      | |- context [match ?x with _ => _ end] => destruct x
      end ]).
Qed.

(** What a nil error of the workflow means, for the calls that implement its steps. *)
Lemma workflow_transfers p steps tr :
  runs workflow steps (Ret (Ok tt)) → iimplements p steps tr → explained srcNS srcPVC steps tr.
Proof.
  intros Hs Hi.
  destruct (monitored_sound _ _ _ _ _ _ (RsyncWorkflow_explained remote srcNS srcPVC dstNS dstPVC syncID pushID) Hs) as (f & Hf & He).
  destruct (safe_sound _ _ _ _ _ workflow_source_claim Hs) as [Hc _]. rewrite Forall_forall in Hc.
  rewrite observe_note in Hf. injection Hf as <-. specialize (He eq_refl). unfold explains in He.
  apply orb_true_iff in He as [[[Hx _]%andb_true_iff|Hx]%orb_true_iff|Hx]; apply facts_elem in Hx as [|([o r] & Hin & Hx)]; try done;
    destruct (implements_elem _ _ _ _ _ Hi Hin) as (p' & t1 & t & t2 & -> & Ht); pose proof (Hc _ Hin) as Hsrc; cbn in Hsrc.
  - left. destruct o; cbn in Hx; repeat case_match; try done. subst. destruct a0. eexists _, _, _, t1, t, t2. split_and!; [exact Hin|done|].
    cbn [interp] in Ht. unfold perform, performRsyncWithDaemonSet in Ht.
    destruct (wDestinationPath w) as [[dest cleanup]|]; by eapply performRsync_arrived.
  - right. left. destruct o; cbn in Hx; repeat case_match; try done; subst; destruct Hsrc as [-> ->]; [by left|by right].
  - right. right. apply fact_panicked in Hx as [w ->]. by exists o, w.
Qed.

(** C6: RsyncWorkflow down to the calls of the API: when it returns nil, its calls carry out, one
    after the other, the steps of an execution of the workflow that returns nil, and among these
    is a run of rsync in a pod of the destination cluster that ended well and whose check found
    files, or a refusal of the lock on the source claim, or the finding that the claim is not in
    use, or a step that panicked. *)
Theorem RsyncWorkflow_linked_transfers p tr :
  runs (ilink p workflow) tr (Ret (Ok tt)) →
  ∃ steps, runs workflow steps (Ret (Ok tt)) ∧ iimplements p steps tr ∧ explained srcNS srcPVC steps tr.
Proof. intros (steps & Hs & Hi)%link_runs_inv. exists steps. split_and!; [done..|]. by eapply workflow_transfers. Qed.
End Data.

(** The same for the data sync of a claim. *)
Lemma data_sync_transfers p remote syncID pushID mapping opts tr :
  runs (ilink p (SyncPVCWithNamespaceMapping remote syncID pushID mapping opts)) tr (Ret (Ok tt)) →
  ∃ steps, runs (SyncPVCWithNamespaceMapping remote syncID pushID mapping opts) steps (Ret (Ok tt)) ∧ iimplements p steps tr ∧
    explained opts.(optSourceNamespace) (GetName opts.(optSourcePVC)) steps tr.
Proof.
  intros (steps & Hs & Hi)%link_runs_inv. exists steps. split_and!; [done..|]. unfold SyncPVCWithNamespaceMapping in Hs. cbv zeta in Hs.
  apply runs_rcall_inv in Hs as (a & l1 & -> & Hs). apply implements_cons_inv in Hi as (t0 & tr' & -> & _ & Hi).
  destruct a as [[]|w]; [|by destruct Hs as [_ ?]].
  unfold bindE at 1 in Hs. apply runs_rcall_inv in Hs as (a & l2 & -> & Hs).
  apply implements_cons_inv in Hi as (t1 & tr1 & -> & Ht & Hi). cbn [interp] in Ht.
  destruct a as [[[]|e]|w]; [|right; left; right; right; left|by apply runs_ret_inv in Hs as [_ ?]|by destruct Hs as [_ ?]].
  cbn [negb] in Hs. unfold bindE at 1 in Hs. apply runs_rcall_inv in Hs as (a & l3 & -> & Hs).
  apply implements_cons_inv in Hi as (t2 & tr2 & -> & _ & Hi).
  destruct a as [[v|e]|w]; [|by apply runs_ret_inv in Hs as [_ ?]|by destruct Hs as [_ ?]].
  apply runs_bind_inv in Hs as [(r & l4 & l5 & Hw & Hs & ->)|(w & _ & ?)]; [|done].
  destruct r as [[]|e]; [|by apply runs_ret_inv in Hs as [_ ?]].
  apply implements_app_inv in Hi as (p' & t3 & t4 & -> & Hi & _).
  replace (t0 ++ t1 ++ t2 ++ t3 ++ t4)%list with ((t0 ++ t1 ++ t2) ++ t3 ++ t4)%list by (by rewrite <- !app_assoc).
  match goal with |- explained _ _ (?x :: ?y :: ?z :: _) _ => apply (explained_within _ _ [x; y; z]) end.
  by eapply workflow_transfers.
Qed.

(** ** The node of the destination claim *)

(** A call that reads the source cluster. *)
Definition reads_source (o : KOp) : Prop :=
  match o with KGet c _ _ _ | KList c _ _ _ => c = Src | _ => False end.

(** The workflow over the pool asks for the node of the destination claim with the client of the
    destination cluster; the lookup goes to the source cluster, because the context of a sync
    names none.  Where the source cluster has a claim of that name in that namespace, the pod
    is chosen by a node of the wrong cluster. *)
Lemma findRsyncDaemonSetPod_asks_source ds dstNS dstPVC p tr out :
  clusterKey = None → runs (ilink p (findRsyncDaemonSetPod (Some ds) dstNS dstPVC)) tr out →
  ∃ t rest r, tr = (t ++ rest)%list ∧ runs (Helpers.FindPVCNode None dstNS dstPVC) t r ∧
    Forall (λ e : event KSig, reads_source (ev_op e)) t.
Proof.
  intros Hk (steps & Hs & Hi)%link_runs_inv. destruct ds as [dsNamespace dsName].
  apply runs_rcall_inv in Hs as (a & steps' & -> & _). apply implements_cons_inv in Hi as (t & rest & -> & Ht & _).
  cbn [interp] in Ht. rewrite Hk in Ht. exists t, rest, a. split_and!; [done..|].
  eapply (safe_sound (Sg := KSig) reads_source _ anyr) in Ht as [Ht _]; [exact Ht|].
  unfold Helpers.FindPVCNode, findPVCNodesWithClient, nodes_by_attachment. repeat safe_step; done.
Qed.
End Refinement.

(** ** A sync of a claim over two clusters *)

#[local] Existing Instance rounds_poller.
#[local] Existing Instance rounds_lawful.
#[local] Existing Instance plain_status.
#[local] Instance no_mount_cache : CacheCodec := { Marshal _ := "cache"; Unmarshal _ := None }.
#[local] Instance one_replica : DeploymentCodec := { EncodeTemplate t := t.(ptImage); AvailableReplicas _ := 1 }.
#[local] Instance image_pods : PodCodec := {|
  EncodePod := spImage; ContainerStatuses := λ _, []; PodIP := id; PodConditions := λ _, []
|}.
#[local] Instance plain_volumes : VolumeCodec := {| PVSource := λ p, CSISource p p; PVNodeTerms := λ _, None |}.
#[local] Instance image_daemonsets : DaemonSetCodec := {| EncodeDaemonSet := λ s, spImage s.(dsPodSpec); NumberReady := λ _, 1 |}.
#[local] Instance no_labels : LabelFormat := λ _, "".

(** Two clusters: the claim as stored in the source, used by a pod on node-1, and whether the
    rsync deployment exists in the destination. *)
Definition clusters : Type := Object * bool.

Definition source_pvc : Object :=
  named "data" "app" (PVCBody (mkPVCSpec ["ReadWriteOnce"] None None "" "pv-1" None None None None) "Bound").

Definition at_sync : handler KSig clusters := λ o s,
  match o as o return KResp o * clusters with
  | KGet Src g ns name =>
      (Ok (if bool_decide (g = nodes) then named name ns (NodeBody [("InternalIP", "10.0.0.7")] "" "")
           else if bool_decide (g = persistentvolumes) then named name ns (PVBody "" "Bound" "")
           else s.1), s)
  | KUpdate Src _ _ x => (Ok x, (x, s.2))
  | KGet Dst g ns name =>
      (if bool_decide (g = deployments) then
         if s.2 then Ok (deployment_object name ns ∅ {["app" := "rsync"]}
                           (rsync_template (rsync_pod_options "app-dr" "data" "id" "")))
         else Err (StatusError NotFound "no such deployment")
       else if bool_decide (g = persistentvolumeclaims) then Ok source_pvc
       else Err (StatusError NotFound "not found"), s)
  | KList Src g ns _ =>
      (Ok (if bool_decide (g = pods) then [named "web-0" "app" (PodBody (mkPodFields [Some "data"] "node-1" "Running" "" ""))] else []), s)
  | KList Dst g ns _ =>
      (Ok (if bool_decide (g = pods) then [named "rsync-0" ns (PodBody (mkPodFields [Some "data"] "node-9" "Running" "" ""))] else []), s)
  | KCreate _ _ _ x => (Ok x, (s.1, true))
  | KDeleteForeground _ _ _ _ => (Ok tt, (s.1, false))
  | KExec Src _ _ _ => (Executed "/mnt/pv-1" "" None, s)
  | KExec _ _ _ _ => (Executed ("SSH_CONNECTION_SUCCESSFUL" +:+ newline_text) "" None, s)
  | o => (refused o, s)
  end.

Definition joined {A : Type} (q : RP A) : KP A :=
  link "controller-0" client_host ∅ None (Some "src") (Some "dst") (Ok tt) "7f" None 1 (mkPVCSyncer Src Dst "" "" false) q.

Definition one_sync : RP (res unit) := RsyncWorkflow "" "app" "data" "app-dr" "data" "id" "key".

(** The claim is transferred, the deployment removed and the lock given back. *)
Example one_sync_ends :
  let '(out, s) := run at_sync (joined one_sync) (source_pvc, false) in
  out = Ret (Ok tt) ∧ s.2 = false ∧ annot s.1 lock_owner = "" ∧ annot s.1 "dr-syncer.io/last-sync-status" = "Completed".
Proof. vm_compute. auto. Qed.

Local Abbreviation sync_trace := (run_trace at_sync (joined one_sync) (source_pvc, false)).

Lemma one_sync_runs : runs (joined one_sync) sync_trace (Ret (Ok tt)).
Proof. eapply eq_ind; [apply run_trace_runs|]. by vm_compute. Defined.

Lemma RsyncWorkflow_linked_releases_witness :
  ∃ t0 t rest acquired, sync_trace = (t0 ++ t ++ rest)%list ∧ Forall (λ e : event KSig, records (ev_op e)) t0 ∧
    runs (AcquirePVCLock "controller-0" "app" "data") t acquired ∧ gives_back "controller-0" "app" "data" acquired rest.
Proof.
  exact (RsyncWorkflow_linked_releases "controller-0" client_host ∅ None (Some "src") (Some "dst") (Ok tt) "7f" None 1
    "" "app" "data" "app-dr" "data" "id" "key" (mkPVCSyncer Src Dst "" "" false) sync_trace (Ok tt) one_sync_runs).
Defined.

Lemma RsyncWorkflow_linked_transfers_witness :
  ∃ steps, runs one_sync steps (Ret (Ok tt)) ∧
    implements "controller-0" client_host ∅ None (Some "src") (Some "dst") (Ok tt) "7f" None 1 (mkPVCSyncer Src Dst "" "" false) steps sync_trace ∧
    explained "app" "data" steps sync_trace.
Proof.
  exact (RsyncWorkflow_linked_transfers "controller-0" client_host ∅ None (Some "src") (Some "dst") (Ok tt) "7f" None 1
    "" "app" "data" "app-dr" "data" "id" "key" (mkPVCSyncer Src Dst "" "" false) sync_trace one_sync_runs).
Defined.

Definition data_opts : PVCSyncOptions := mkPVCSyncOptions source_pvc source_pvc "app" "app-dr" "node-1" "".
Definition data_sync : RP (res unit) := SyncPVCWithNamespaceMapping "" "id" "key" zero_mapping data_opts.

Lemma SyncPVCWithNamespaceMapping_confined_witness :
  let tr := run_trace at_sync (joined data_sync) (source_pvc, false) in
  Forall (λ e, confined Dst "app" "app-dr" (ev_op e)) tr ∧ (run at_sync (joined data_sync) (source_pvc, false)).1 = Ret (Ok tt).
Proof.
  split; [|vm_compute; reflexivity].
  refine (SyncPVCWithNamespaceMapping_confined "controller-0" client_host ∅ None (Some "src") (Some "dst") (Ok tt) "7f" None 1
    Dst "app" "app-dr" (mkPVCSyncer Src Dst "" "" false) "" "id" "key" zero_mapping data_opts _ _ eq_refl eq_refl eq_refl _).
  apply (run_trace_runs at_sync (joined data_sync)).
Defined.
