(* ===== verification/System.v ===== *)
(** * The system: the resource syncer joined with the data sync

    Syncer.v calls the data sync of a claim, and the lookups of the replication package, as
    single calls.  Here they are replaced by the programs of Helpers.v and Link.v, so that a
    namespace sync is a program over the calls of the API servers and of the concurrency
    manager alone: from SyncNamespaceResources (pkg/controllers/syncer/sync.go) through
    syncPersistentVolumeClaimsWithMounting and SyncPVCWithNamespaceMapping to the lock, the
    rsync pod and the transfer. *)

From S2P Require Import Prelude GoString Errors Types Kube KubeLogic Syncer Helpers RsyncExec RsyncPod Workflow TempPod DaemonSet ReplicationController Link.

(** ** Replacing calls by programs *)

Fixpoint translate {Sg Sg' : Sig} {A : Type} (f : ∀ o : Op Sg, prog Sg' (Resp Sg o)) (p : prog Sg A) : prog Sg' A :=
  match p with
  | PRet a => PRet a
  | PPanic w => PPanic w
  | PCall o k => r ← f o; translate f (k r)
  end.

(** [realizes f steps tr]: the calls [tr] are executions of the programs of [steps], one after
    the other, with the same answers. *)
Inductive realizes {Sg Sg' : Sig} (f : ∀ o : Op Sg, prog Sg' (Resp Sg o)) : list (event Sg) → list (event Sg') → Prop :=
| realizes_done : realizes f [] []
| realizes_step o r t steps tr : runs (f o) t (Ret r) → realizes f steps tr → realizes f (Ev o r :: steps) (t ++ tr)%list.

(** ** The calls of the resource syncer *)

(** The NamespaceMapping that pvc_handler.go makes up for a claim: it has nothing but a name. *)
Definition dummyMapping (pvc : string) : NamespaceMapping :=
  mkNamespaceMapping ("pvc-sync-" +:+ pvc) "" ∅ [] None "" zero_mapping.(Spec) zero_mapping.(Status).

(** The value of the cluster key in the context of a lookup. *)
Definition cluster_value (c : Cluster) : string := match c with Dst => "destination" | _ => "source" end.

Section System.
Context `{CacheCodec} `{DeploymentCodec} `{Poller} `{StatusCodec} `{DaemonSetCodec} `{PodCodec} `{VolumeCodec} `{LabelFormat}.
Variables (POD_NAME : string) (host : Cluster → string) (ctx : Ctx) (clusterKey : option string).
Variables (sourceConfig destConfig : option string) (manager : res unit) (syncHash : string).
Variables (daemonset : option RsyncDaemonSet) (ticks : nat).

(** Whether getPVCSyncer obtained an event recorder, the name of the remote cluster, and the
    identifiers that a data sync draws. *)
Variables (recorder : bool) (remote : string) (ids : PVCSyncOptions → string * string).

(** getPVCSyncer: both controller-runtime clients are the one of the controller's own cluster,
    the clientsets are those of the source and of the destination. *)
Definition pvc_syncer : PVCSyncer := mkPVCSyncer Ctl Ctl "" "" recorder.

Definition data_sync (opts : PVCSyncOptions) : KP (res unit) :=
  link POD_NAME host ctx clusterKey sourceConfig destConfig manager syncHash daemonset ticks pvc_syncer
    (SyncPVCWithNamespaceMapping remote (ids opts).1 (ids opts).2 (dummyMapping (GetName opts.(optDestinationPVC))) opts).

(** The other calls are left as they are: the API, the clock and the concurrency manager. *)
Definition system_call (o : KOp) : KP (KResp o) :=
  match o as o return KP (KResp o) with
  | KFindPVCNode c ns name => Helpers.FindPVCNode (Some (cluster_value c)) ns name
  | KHasVolumeAttachments ns name => HasVolumeAttachments pvc_syncer.(psSourceClient) ns name
  | KSyncPVC opts => data_sync opts
  | o => kcall o
  end.

Definition system {A : Type} : KP A → KP A := translate (Sg := KSig) (Sg' := KSig) system_call.
End System.
