(* ===== verification/SystemProps.v ===== *)
(** * Properties of the joined system

    What a namespace sync with its data syncs does to the two clusters, call by call, and that
    its transfers run under slots of the concurrency manager, which Concurrency.v bounds. *)

From S2P Require Import Prelude GoString Errors Types Kube KubeLogic ApiServer Syncer SyncerProps Lock Helpers RsyncExec RsyncProps RsyncPod RsyncPodProps Workflow TempPod DaemonSet ReplicationController Link LinkProps System.

(** ** Replacing calls, in general *)

Section Translate.
Context {Sg Sg' : Sig} (f : ∀ o : Op Sg, prog Sg' (Resp Sg o)).

(** The executions that return are those of the program with every call replaced by an
    execution of its program. *)
Lemma translate_returns {A} (p : prog Sg A) tr a :
  runs (translate f p) tr (Ret a) ↔ ∃ steps, runs p steps (Ret a) ∧ realizes f steps tr.
Proof.
  split.
  - revert tr. induction p as [b|w|o k IH]; intros tr Hr; cbn [translate] in Hr.
    + apply runs_ret_inv in Hr as [-> E]. exists []. split; [|constructor]. injection E as <-. constructor.
    + by apply runs_panic_inv in Hr as [_ ?].
    + apply runs_bind_inv in Hr as [(r & t1 & t2 & H1 & H2 & ->)|(w & _ & ?)]; [|done].
      apply IH in H2 as (steps & Hs & Hi). exists (Ev o r :: steps). split; by constructor.
  - intros (steps & Hs & Hi). revert steps tr Hs Hi. induction p as [b|w|o k IH]; intros steps tr Hs Hi.
    + apply runs_ret_inv in Hs as [-> ->]. inversion Hi. constructor.
    + by apply runs_panic_inv in Hs as [_ ?].
    + apply runs_call_inv in Hs as (r & steps' & -> & Hs). cbn [translate].
      refine (match Hi in realizes _ l t return
                match l with Ev o' r' :: l' => ∀ k', (∀ t2, realizes f l' t2 → runs (k' r') t2 (Ret a)) →
                   runs (r ← f o'; k' r) t (Ret a) | [] => True end with
              | realizes_done _ => I
              | realizes_step _ o' r' t1 l' t2 H1 H2 => λ k' Hk, runs_bind _ _ _ _ _ _ H1 (Hk t2 H2)
              end (λ r, translate f (k r)) _).
      intros t2 H2. by eapply IH.
Qed.

Lemma realizes_split l1 o r l2 tr :
  realizes f (l1 ++ Ev o r :: l2)%list tr →
  ∃ t1 t t2, tr = (t1 ++ t ++ t2)%list ∧ realizes f l1 t1 ∧ runs (f o) t (Ret r) ∧ realizes f l2 t2.
Proof.
  revert tr. induction l1 as [|e l1 IH]; intros tr Hi.
  - refine (match Hi in realizes _ l t return
              match l with Ev o' r' :: l' => ∃ t1 s t2, t = (t1 ++ s ++ t2)%list ∧ realizes f [] t1 ∧ runs (f o') s (Ret r') ∧ realizes f l' t2
              | [] => True end with
            | realizes_done _ => I
            | realizes_step _ _ _ s _ t2 H1 H2 =>
                ex_intro _ [] (ex_intro _ s (ex_intro _ t2 (conj eq_refl (conj (realizes_done f) (conj H1 H2)))))
            end).
  - cbn [app] in Hi. inversion Hi as [|o' r' s l t' Hs Hl]; subst. apply IH in Hl as (t1 & t & t2 & -> & H1 & Ht & H2).
    exists (s ++ t1)%list, t, t2. rewrite <- app_assoc. by split_and!; [|constructor|..].
Qed.

Lemma safe_translate {A} (P : Op Sg → Prop) (P' : Op Sg' → Prop) (p : prog Sg A) Q :
  (∀ o, P o → safe P' (f o) (λ _, True)) → safe P p Q → safe P' (translate f p) Q.
Proof.
  intros Hf. induction p as [a|w|o k IH]; cbn [safe translate]; [done|done|]. intros [Ho Hk].
  apply (safe_bind _ _ _ (λ _, True)); [by apply Hf|]. intros r _. by apply IH.
Qed.

(** A monitor of the calls, known to satisfy [P], becomes one of their programs, when these end
    in its next state. *)
Lemma monitored_translate {St A} (P : Op Sg → Prop) (m : St → event Sg → option St) (m' : St → event Sg' → option St)
    (p : prog Sg A) st Q Q' :
  (∀ o st, P o → (∀ r, m st (Ev o r) ≠ None) →
     monitored m' (f o) st (λ out st', ∀ r, out = Ret r → m st (Ev o r) = Some st')) →
  (∀ w st, Q (Panic w) st) → safe P p Q' → monitored m p st Q → monitored m' (translate f p) st Q.
Proof.
  intros Hf HQ. revert st. induction p as [a|w|o k IH]; intros st Hs Hp; cbn [safe monitored translate] in *; [done|done|].
  destruct Hs as [Ho Hk]. apply monitored_bind. eapply monitored_mono.
  - apply Hf; [done|]. intros r E. specialize (Hp r). by rewrite E in Hp.
  - intros [r|w] st' Hst; [|apply HQ]. specialize (Hp r). rewrite (Hst r eq_refl) in Hp. by apply IH.
Qed.
End Translate.

(** ** Where the system writes *)

(** The calls of a namespace sync with its data: in the source cluster it creates the
    namespace and updates claims of [src] (locks, sync status, annotations); in the
    destination cluster it creates the namespace, creates and updates objects of [dst], and
    deletes deployments; it completes NamespaceMappings of the controller's own cluster, and
    does not write to that otherwise.  It may run commands in pods, record events and wait.  No
    call is left that stands for more than one. *)
Definition written_by_sync (src dst : string) : Op KSig → Prop := λ o : KOp,
  match o with
  | KCreate Src r _ obj => r = namespaces ∧ GetName obj = src
  | KCreate Dst r ns obj => ns = dst ∨ (r = namespaces ∧ GetName obj = dst)
  | KUpdate Src r ns _ => r = persistentvolumeclaims ∧ ns = src
  | KUpdate Dst _ ns _ => ns = dst
  | KDeleteForeground c r _ _ => c = Dst ∧ r = deployments
  | KUpdateMappingAt c _ => c = Ctl
  | KCreate Ctl _ _ _ | KUpdate Ctl _ _ _ | KDelete _ _ _ _ | KEvict _ _ _ | KCommand _ _ => False
  | KUpdateMappingStatus _ | KUpdateMapping _ | KFindPVCNode _ _ _ | KHasVolumeAttachments _ _ | KSyncPVC _ => False
  | _ => True
  end.

(** Lookups only read. *)
Definition reads (o : Op KSig) : Prop := match (o : KOp) with KGet _ _ _ _ | KList _ _ _ _ => True | _ => False end.

Lemma FindPVCNode_reads key ns name : safe reads (Helpers.FindPVCNode key ns name) anyr.
Proof. unfold Helpers.FindPVCNode, findPVCNodesWithClient, nodes_by_attachment. repeat safe_step; done. Qed.

Lemma HasVolumeAttachments_reads c ns name : safe reads (HasVolumeAttachments c ns name) anyr.
Proof. unfold HasVolumeAttachments, nodes_by_attachment. repeat safe_step; done. Qed.

Section System.
Context {CA : CacheCodec} {DC : DeploymentCodec} {PO : Poller} {ST : StatusCodec} {DSC : DaemonSetCodec} {PC : PodCodec}
  {VC : VolumeCodec} {LF : LabelFormat} {LP : LawfulPoller}.
Variables (POD_NAME : string) (host : Cluster → string) (ctx : Ctx) (clusterKey : option string).
Variables (sourceConfig destConfig : option string) (manager : res unit) (syncHash : string).
Variables (daemonset : option RsyncDaemonSet) (ticks : nat) (recorder : bool) (remote : string) (ids : PVCSyncOptions → string * string).

Local Abbreviation isystem := (system POD_NAME host ctx clusterKey sourceConfig destConfig manager syncHash daemonset ticks recorder remote ids).
Local Abbreviation icall := (system_call POD_NAME host ctx clusterKey sourceConfig destConfig manager syncHash daemonset ticks recorder remote ids).

Lemma system_call_written src dst (o : KOp) :
  SyncerProps.confined src dst o → safe (written_by_sync src dst) (icall o) anyr.
Proof.
  intros Ho. destruct o; try (by apply safe_call; [destruct c|]); try (by apply safe_call); cbn [system_call].
  - apply (safe_mono reads (written_by_sync src dst) _ anyr); [apply FindPVCNode_reads| |done]. by intros [].
  - apply (safe_mono reads (written_by_sync src dst) _ anyr); [apply HasVolumeAttachments_reads| |done]. by intros [].
  - destruct Ho as [Hs Hd]. eapply (safe_mono (LinkProps.confined Ctl src dst)); [by apply data_sync_confined| |done].
    intros []; cbn; try done; [destruct c|]; naive_solver.
Qed.

(** C1: A namespace sync without CRD sync, with its data syncs, down to the calls of the
    API, on every execution, when its clients are set: in the source cluster it creates nothing
    but the namespace and updates nothing but claims of the source namespace, in the
    destination cluster it creates the namespace and creates and updates objects of the
    destination namespace, it deletes nothing but deployments of the destination cluster, and
    in the controller's own cluster it updates nothing but NamespaceMappings.  Besides, it may
    record events and run commands in pods. *)
Theorem SyncNamespaceResources_linked_writes gcm r src dst types stz scoped cfg syncCRDs tr out :
  wired r → default false syncCRDs = false →
  runs (isystem (SyncNamespaceResources gcm r src dst types stz scoped cfg syncCRDs)) tr out →
  Forall (λ e, written_by_sync src dst (ev_op e)) tr.
Proof.
  intros Hw Hc Hr. eapply safe_sound in Hr as [Hr _]; [exact Hr|].
  eapply safe_translate; [|by apply SyncNamespaceResources_confined]. intros o Ho. by apply system_call_written.
Qed.

(** ** Slots *)

Definition slot : Type := string * string.

(** At most one slot at a time, given back by the claim that took it; a data sync only in one. *)
Definition slot_protocol (held : option slot) (e : event KSig) : option (option slot) :=
  match e with
  | Ev o r =>
      match o as o return KResp o → option (option slot) with
      | KAcquireSlot ns name => λ r,
          match held, r with
          | None, Ok _ => Some (Some (ns, name))
          | None, Err _ => Some None
          | Some _, _ => None
          end
      | KReleaseSlot ns name => λ _, if bool_decide (held = Some (ns, name)) then Some None else None
      | KSyncPVC _ => λ _, match held with Some s => Some (Some s) | None => None end
      | _ => λ _, Some held
      end r
  end.

(** The calls of a transfer: commands in pods, updates in the source cluster, deletions and
    updates of NamespaceMappings. *)
Definition transfers (o : KOp) : bool :=
  match o with
  | KExec _ _ _ _ | KUpdate Src _ _ _ | KDeleteForeground _ _ _ _ | KUpdateMappingAt _ _ => true
  | _ => false
  end.

(** The same, and a transfer only in a slot. *)
Definition slot_discipline (held : option slot) (e : event KSig) : option (option slot) :=
  if transfers (ev_op e) then match held with Some s => Some (Some s) | None => None end
  else slot_protocol held e.

(** What a part of the syncer does between slots. *)
Definition neutral {A : Type} (c : KP A) : Prop :=
  monitored slot_protocol c None (λ out held, ∀ a, out = Ret a → held = None).

Lemma neutral_ret {A} (a : A) : neutral (mret a).
Proof. by intros ? _. Qed.

Lemma neutral_bind {A B} (c : KP A) (k : A → KP B) : neutral c → (∀ a, neutral (k a)) → neutral (c ≫= k).
Proof.
  intros Hc Hk. apply monitored_bind. eapply monitored_mono; [exact Hc|]. intros [a|w] held Ha; [|done].
  rewrite (Ha a eq_refl). apply Hk.
Qed.

Lemma neutral_bindE {A B} (c : KP (res A)) w (k : A → KP (res B)) : neutral c → (∀ a, neutral (k a)) → neutral (bindE c w k).
Proof. intros Hc Hk. apply neutral_bind; [done|]. intros [a|e]; [apply Hk|apply neutral_ret]. Qed.

Lemma neutral_range_err {A S} (xs : list A) (s : S) body : (∀ x s, neutral (body x s)) → neutral (range_err xs s body).
Proof.
  intros Hb. revert s. induction xs as [|x xs IH]; intros s; [apply neutral_ret|]. cbn [range_err].
  apply neutral_bind; [apply Hb|]. intros [s'|e]; [apply IH|apply neutral_ret].
Qed.

Lemma neutral_range_each {A S} (xs : list A) (s : S) body : (∀ x s, neutral (body x s)) → neutral (range_each xs s body).
Proof.
  intros Hb. revert s. induction xs as [|x xs IH]; intros s; [apply neutral_ret|]. cbn [range_each].
  apply neutral_bind; [apply Hb|]. intros s'. apply IH.
Qed.

(** Calls that are not about slots or data. *)
Definition plain_call (o : Op KSig) : Prop :=
  match (o : KOp) with KAcquireSlot _ _ | KReleaseSlot _ _ | KSyncPVC _ => False | _ => True end.

Lemma slot_protocol_plain held o r : plain_call o → slot_protocol held (Ev o r) = Some held.
Proof. by destruct o. Qed.

Lemma neutral_safe {A} (c : KP A) Q : safe plain_call c Q → neutral c.
Proof.
  unfold neutral. induction c as [a|w|o k IH]; [by intros _ ? _|done|]. intros [Ho Hk] r.
  rewrite slot_protocol_plain by done. by apply IH.
Qed.

Local Ltac plain := repeat safe_step; done.

Ltac neutral_step :=
  lazymatch goal with
  | |- neutral (match ?x with _ => _ end) => destruct x
  | |- neutral (if ?x then _ else _) => destruct x
  | |- neutral (mret _) => apply neutral_ret
  | |- neutral (errorf _) => apply neutral_ret
  | |- neutral (panic _) => done
  | |- neutral (deref ?c _) => destruct c; [cbn [deref]|done]
  | |- neutral (_ ≫= _) => apply neutral_bind; [|intros ?]
  | |- neutral (bindE _ _ _) => apply neutral_bindE; [|intros ?]
  | |- neutral (range_err _ _ _) => apply neutral_range_err; intros
  | |- neutral (range_each _ _ _) => apply neutral_range_each; intros
  | |- neutral (kcall _) => by apply (neutral_safe _ anyr), safe_call
  | |- neutral (let _ := _ in _) => cbv zeta
  end.

Lemma ensure_loop_plain n c dst src e : safe plain_call (ensure_loop n c dst src e) anyr.
Proof. revert e. induction n as [|n IH]; intros e; cbn [ensure_loop]; plain || (repeat first [apply IH | safe_step]; done). Qed.

Lemma dest_namespace_loop_plain n c src dst ls ans e : safe plain_call (dest_namespace_loop n c src dst ls ans e) anyr.
Proof. revert ls e. induction n as [|n IH]; intros ls e; cbn [dest_namespace_loop]; repeat first [apply IH | safe_step]; done. Qed.

Lemma SyncResource_plain r o : safe plain_call (SyncResource r o) anyr.
Proof. unfold SyncResource, SyncResource_pvc, update_requests, update_whole, ValidateStorageClass. plain. Qed.

Lemma list_and_sync_plain r c gvr plural kind skip prepare src dst :
  safe plain_call (list_and_sync r c gvr plural kind skip prepare src dst) anyr.
Proof. unfold list_and_sync. repeat first [apply SyncResource_plain | safe_step]; done. Qed.

(** The data of one claim: its slot is taken, used and given back. *)
Lemma sync_pvc_data_neutral source src dst pvc : neutral (sync_pvc_data true source src dst pvc).
Proof.
  unfold sync_pvc_data. apply neutral_bind; [neutral_step|]. intros [sourcePVC|e]; [|apply neutral_ret].
  apply neutral_bind; [neutral_step|]. intros [sourceNode|e]; [|apply neutral_ret].
  apply neutral_bind; [neutral_step|]. intros dn. cbv zeta. intros [[]|e]; [|by intros ? _].
  intros x. cbn [slot_protocol monitored]. intros y. cbn [slot_protocol monitored].
  rewrite bool_decide_eq_true_2 by done. by intros ? _.
Qed.

Lemma sync_claims_neutral r source target src dst cfg :
  neutral (syncPersistentVolumeClaimsWithMounting true r source target src dst cfg).
Proof.
  unfold syncPersistentVolumeClaimsWithMounting, sync_one_pvc, getPVCSyncer.
  repeat first [apply sync_pvc_data_neutral | neutral_step].
Qed.

Lemma sync_resource_type_neutral r src dst stz cfg rt scales :
  neutral (sync_resource_type true r src dst stz cfg rt scales).
Proof.
  unfold sync_resource_type, syncConfigMaps, syncSecrets, syncServices, syncIngresses.
  repeat first [ apply sync_claims_neutral | by eapply neutral_safe, list_and_sync_plain
               | lazymatch goal with |- neutral (syncDeployments _ _ _ _ _) => apply (neutral_safe _ anyr);
                   unfold syncDeployments, sync_one_deployment; repeat first [apply SyncResource_plain | safe_step]; done end
               | neutral_step ].
Qed.

Lemma SyncNamespaceResources_neutral r src dst types stz scoped cfg syncCRDs :
  neutral (SyncNamespaceResources true r src dst types stz scoped cfg syncCRDs).
Proof.
  unfold SyncNamespaceResources, syncCustomResourceDefinitions, EnsureNamespaceExists, source_namespace_object, verifyClusterAccess,
    check_access, sync_scoped, syncNamespaceScopedResource, sync_scoped_item.
  repeat first [ apply sync_resource_type_neutral | by eapply neutral_safe, SyncResource_plain
               | by eapply neutral_safe, ensure_loop_plain | by eapply neutral_safe, dest_namespace_loop_plain | neutral_step ].
Qed.

(** ** Slots in the joined system *)

(** The programs of the calls keep the discipline. *)
Lemma observe_plain {A} (P : Op KSig → Prop) (c : KP A) s Q :
  (∀ o r, P o → slot_discipline s (Ev o r) = Some s) → safe P c Q →
  monitored slot_discipline c s (λ out st, st = s).
Proof.
  intros HP. induction c as [a|w|o k IH]; [done|done|]. intros [Ho Hk] r. rewrite HP by done. by apply IH.
Qed.

Lemma system_call_slots src dst (o : KOp) held :
  SyncerProps.confined src dst o → (∀ r, slot_protocol held (Ev (Sg := KSig) o r) ≠ None) →
  monitored slot_discipline (icall o) held (λ out st, ∀ r, out = Ret r → slot_protocol held (Ev (Sg := KSig) o r) = Some st).
Proof.
  intros Ho Hr.
  assert (Hd : ∀ o' : KOp, o' = o → transfers o' = false → monitored slot_discipline (kcall o') held
            (λ out st, ∀ r, out = Ret r → slot_protocol held (Ev (Sg := KSig) o' r) = Some st)).
  { intros ? -> Ht r. unfold slot_discipline at 1. cbn [ev_op]. rewrite Ht. specialize (Hr r).
    destruct (slot_protocol held (Ev (Sg := KSig) o r)) as [st|] eqn:E; [|done]. intros ? [= <-]. exact E. }
  assert (Hq : ∀ o' r, reads o' → slot_discipline held (Ev o' r) = Some held) by (by intros []).
  destruct o; try (by apply (Hd _ eq_refl)); try (by destruct c; [|apply (Hd _ eq_refl)|]); cbn [system_call].
  - eapply monitored_mono; [by eapply observe_plain, FindPVCNode_reads|]. by intros ? st -> ? _.
  - eapply monitored_mono; [by eapply observe_plain, HasVolumeAttachments_reads|]. by intros ? st -> ? _.
  - destruct Ho as [Hs Ht]. destruct held as [s|]; [|by destruct (Hr (Ok tt))].
    eapply monitored_mono; [eapply observe_plain; [|by apply (data_sync_confined _ _ _ _ _ _ _ _ _ _ Ctl src dst)]|by intros ? st -> ? _].
    intros o r Ho. destruct o; try done; by destruct c.
Qed.

(** C2: A namespace sync without CRD sync, with a concurrency manager and its clients set, with its
    data syncs, down to the calls of the API, on every execution: it holds at most one slot, a
    slot is given back by the claim that took it, every command in a pod, every update of an
    object of the source cluster, every deletion and every update of a NamespaceMapping happens
    in a slot, and when the sync returns it holds none. *)
Theorem SyncNamespaceResources_slots r src dst types stz scoped cfg syncCRDs tr out :
  wired r → default false syncCRDs = false →
  runs (isystem (SyncNamespaceResources true r src dst types stz scoped cfg syncCRDs)) tr out →
  ∃ held, observe slot_discipline None tr = Some held ∧ ∀ a, out = Ret a → held = None.
Proof.
  intros Hw Hc Hr. refine (monitored_sound _ _ _ (λ out held, ∀ a, out = Ret a → held = None) _ _ _ Hr).
  eapply monitored_translate; [| |by apply SyncNamespaceResources_confined|apply SyncNamespaceResources_neutral]; [|done].
  intros o held Ho. by apply (system_call_slots src dst).
Qed.

(** ** The data *)

(** C3: A namespace sync that returns, with its data syncs, down to the calls of the API: its calls
    carry out the calls of an execution of SyncNamespaceResources one after the other, and the
    calls that carry out a data sync that it took for successful carry out the steps of an
    execution of SyncPVCWithNamespaceMapping that returns nil, among which is a run of rsync in
    a pod of the destination cluster that ended well and whose check found files, or a refusal
    of the lock on the source claim, or the finding that the claim is not in use, or a step that
    panicked. *)
Theorem SyncNamespaceResources_transfers gcm r src dst types stz scoped cfg syncCRDs tr a :
  runs (isystem (SyncNamespaceResources gcm r src dst types stz scoped cfg syncCRDs)) tr (Ret a) →
  ∃ calls, runs (SyncNamespaceResources gcm r src dst types stz scoped cfg syncCRDs) calls (Ret a) ∧
    realizes (Sg := KSig) icall calls tr ∧
    ∀ l1 opts l2, calls = (l1 ++ Ev (Sg := KSig) (KSyncPVC opts) (Ok tt) :: l2)%list →
      ∃ t1 t t2 steps, tr = (t1 ++ t ++ t2)%list ∧ realizes (Sg := KSig) icall l1 t1 ∧ realizes (Sg := KSig) icall l2 t2 ∧
        runs (SyncPVCWithNamespaceMapping remote (ids opts).1 (ids opts).2 (dummyMapping (GetName opts.(optDestinationPVC))) opts)
          steps (Ret (Ok tt)) ∧
        implements POD_NAME host ctx clusterKey sourceConfig destConfig manager syncHash daemonset ticks (pvc_syncer recorder) steps t ∧
        explained opts.(optSourceNamespace) (GetName opts.(optSourcePVC)) steps t.
Proof.
  intros (calls & Hs & Hi)%translate_returns. exists calls. split_and!; [done..|]. intros l1 opts l2 ->.
  apply realizes_split in Hi as (t1 & t & t2 & -> & H1 & Ht & H2).
  apply data_sync_transfers in Ht as (steps & Hst & Him & He). by exists t1, t, t2, steps.
Qed.
End System.

(** ** A namespace with one claim *)

#[local] Existing Instance rounds_poller.
#[local] Existing Instance rounds_lawful.
#[local] Existing Instance plain_status.
#[local] Existing Instance no_mount_cache.
#[local] Existing Instance one_replica.
#[local] Existing Instance image_pods.
#[local] Existing Instance plain_volumes.
#[local] Existing Instance image_daemonsets.
#[local] Existing Instance no_labels.

(** The clusters of LinkProps.v, with their namespaces and API groups; the claim exists in both. *)
Definition at_namespace : handler KSig clusters := λ o s,
  match o as o return KResp o * clusters with
  | KServerGroups _ => (Ok [mkAPIGroup "apps" ["v1"]], s)
  | KList Src g ns sel => if bool_decide (g = persistentvolumeclaims) then (Ok [source_pvc], s) else at_sync (KList Src g ns sel) s
  | KUpdate Dst _ _ x => (Ok x, s)
  | KNewPVCSyncer => (Ok tt, s)
  | KAcquireSlot _ _ => (Ok tt, s)
  | o => at_sync o s
  end.

Definition whole {A : Type} : KP A → KP A :=
  system "controller-0" client_host ∅ None (Some "src") (Some "dst") (Ok tt) "7f" None 1 false "" (λ _, ("id", "key")).

Definition with_data : PVCConfig := mkPVCConfig [] [] false false true None.

Definition one_namespace : KP (res (list SyncerScale)) :=
  SyncNamespaceResources true ex_syncer "app" "app-dr" ["persistentvolumeclaims"] false [] (Some with_data) None.

Example one_namespace_ends :
  let '(out, s) := run at_namespace (whole one_namespace) (source_pvc, false) in
  out = Ret (Ok []) ∧ s.2 = false ∧ annot s.1 lock_owner = "" ∧ annot s.1 "dr-syncer.io/last-sync-status" = "Completed".
Proof. vm_compute. auto. Qed.

Local Abbreviation system_trace := (run_trace at_namespace (whole one_namespace) (source_pvc, false)).

Lemma one_namespace_runs : runs (whole one_namespace) system_trace (Ret (Ok [])).
Proof. eapply eq_ind; [apply run_trace_runs|]. by vm_compute. Defined.

Lemma SyncNamespaceResources_linked_writes_witness :
  wired ex_syncer ∧ Forall (λ e, written_by_sync "app" "app-dr" (ev_op e)) system_trace.
Proof.
  split; [apply ex_wired|].
  exact (SyncNamespaceResources_linked_writes "controller-0" client_host ∅ None (Some "src") (Some "dst") (Ok tt) "7f" None 1
    false "" (λ _, ("id", "key")) true ex_syncer "app" "app-dr" ["persistentvolumeclaims"] false [] (Some with_data) None system_trace _
    ex_wired eq_refl one_namespace_runs).
Defined.

Lemma SyncNamespaceResources_slots_witness :
  existsb (λ e : event KSig, transfers (ev_op e)) system_trace = true ∧
  ∃ held, observe slot_discipline None system_trace = Some held ∧ ∀ a, Ret (A := res (list SyncerScale)) (Ok []) = Ret a → held = None.
Proof.
  split; [vm_compute; reflexivity|].
  exact (SyncNamespaceResources_slots "controller-0" client_host ∅ None (Some "src") (Some "dst") (Ok tt) "7f" None 1
    false "" (λ _, ("id", "key")) ex_syncer "app" "app-dr" ["persistentvolumeclaims"] false [] (Some with_data) None system_trace _
    ex_wired eq_refl one_namespace_runs).
Defined.

Lemma SyncNamespaceResources_transfers_witness :
  ∃ steps, runs one_namespace steps (Ret (Ok [])).
Proof.
  destruct (SyncNamespaceResources_transfers "controller-0" client_host ∅ None (Some "src") (Some "dst") (Ok tt) "7f" None 1
    false "" (λ _, ("id", "key")) true ex_syncer "app" "app-dr" ["persistentvolumeclaims"] false [] (Some with_data) None system_trace _
    one_namespace_runs) as (steps & Hs & _). by exists steps.
Defined.
