(* ===== verification/Main.v ===== *)
(** * The processes: main.go, cmd/agent, pkg/cli/client.go, pkg/version

    The start of the controller as a program over the calls of its manager and of the API, with
    SyncAllAgents inside; the start of the agent over its files and the API, with the daemon of
    pkg/agent/daemon; the clients of the command line.  Every main returns its exit code.  What
    [flag.Parse] makes of the arguments, the loading of client configurations and the files of
    the container are parameters. *)

From S2P Require Import Prelude GoString Errors Types Kube KubeLogic Helpers Cli Agent Deployer RemoteCluster RemoteClusterProps AgentKeys AgentKeysProps Config Queue System.
From Stdlib Require Import Ascii.

(** ** pkg/version *)

Record VersionInfo : Type := mkVersionInfo {
  viVersion : string; viGitCommit : string; viBuildTime : string;
  viGoVersion : string; viGoOS : string; viGoArch : string; viBuildFlags : string
}.

(** The variables that the linker sets, and [runtime]'s description of the toolchain. *)
Record Build : Type := mkBuild {
  bVersion : string; bGitCommit : string; bBuildTime : string; bGoVersion : string; bGOOS : string; bGOARCH : string
}.

Definition GetVersionInfo (b : Build) : VersionInfo :=
  mkVersionInfo b.(bVersion) b.(bGitCommit) b.(bBuildTime) b.(bGoVersion) b.(bGOOS) b.(bGOARCH) "".

Definition GetVersionString (b : Build) : string :=
  "Version: " +:+ b.(bVersion) +:+ ", GitCommit: " +:+ b.(bGitCommit) +:+ ", BuildTime: " +:+ b.(bBuildTime).

(** A character of a string that encoding/json writes (ASCII, with its escapes for HTML). *)
Definition hex_digit (n : nat) : ascii := ascii_of_nat (if (n <? 10)%nat then 48 + n else 87 + n).

Definition json_char (c : ascii) : string :=
  let n := nat_of_ascii c in
  let short x := String "092" (String x "") in
  if Ascii.eqb c "034" || Ascii.eqb c "092" then short c
  else if (n =? 8)%nat then short "b"%char
  else if (n =? 9)%nat then short "t"%char
  else if (n =? 10)%nat then short "n"%char
  else if (n =? 12)%nat then short "f"%char
  else if (n =? 13)%nat then short "r"%char
  else if (n <? 32)%nat || bool_decide (c ∈ ["<"; ">"; "&"]%char) then
    "\u00" +:+ String (hex_digit (n / 16)) (String (hex_digit (n mod 16)) "")
  else String c "".

Fixpoint json_chars (s : string) : string :=
  match s with EmptyString => "" | String c s => json_char c +:+ json_chars s end.

Definition quote : string := String "034" "".

Definition json_string (s : string) : string := quote +:+ json_chars s +:+ quote.

(** [json.MarshalIndent(info, "", "  ")]; an empty BuildFlags is left out. *)
Definition marshal_fields (fields : list (string * string)) : string :=
  "{" +:+ newline_text +:+
  Join ((λ f, "  " +:+ json_string f.1 +:+ ": " +:+ json_string f.2) <$> fields) ("," +:+ newline_text) +:+ newline_text +:+ "}".

Definition GetVersionJSON (b : Build) : string :=
  let i := GetVersionInfo b in
  marshal_fields ([("version", i.(viVersion)); ("git_commit", i.(viGitCommit)); ("build_time", i.(viBuildTime));
                   ("go_version", i.(viGoVersion)); ("go_os", i.(viGoOS)); ("go_arch", i.(viGoArch))] ++
                  (if i.(viBuildFlags) =s? "" then [] else [("build_flags", i.(viBuildFlags))])).

(** ** main.go *)

(** The flags of the controller; those that were not given are [None]. *)
Record CtrlFlags : Type := mkCtrlFlags {
  showVersion : bool; showVersionJSON : bool;
  metricsBindAddress : option string; healthProbeBindAddress : option string; leaderElect : option bool
}.

Record ManagerOptions : Type := mkManagerOptions {
  moMetrics : string; moProbe : string; moLeaderElection : bool; moLeaderElectionID : string
}.

Inductive Kind : Type := RemoteClusters | NamespaceMappings | ClusterMappings.

(** Calls on [ctrl] and on the manager that return an error or nil. *)
Inductive ManagerCall : Type :=
| NewManagerFor (o : ManagerOptions)
| SetupWithManager (k : Kind) (s : Setup)
| AddHealthzCheck
| AddReadyzCheck
| StartManager.

(** The calls of main: [ctrl.GetConfigOrDie], which ends the process when there is no
    configuration, those of the manager, and those of the agents' initial sync. *)
Inductive BOp : Type := BGetConfig | BManager (c : ManagerCall) | BApi (o : MOp).

Definition BResp (o : BOp) : Type :=
  match o with
  | BGetConfig => bool
  | BManager _ => res unit
  | BApi o => MResp o
  end.

Definition BSig : Sig := mkSig BOp BResp.
Definition bcall (o : BOp) : prog BSig (BResp o) := call (Sg := BSig) o.

(** The exit code of a process and what it printed. *)
Record Exit : Type := mkExit { exitCode : Z; printed : list string }.

(** [os.Exit(1)] after an error *)
Definition orExit (c : ManagerCall) (k : prog BSig Exit) : prog BSig Exit :=
  r ← bcall (BManager c); match r with Err _ => mret (mkExit 1 []) | Ok _ => k end.

Section Controller.
Context `{Quantities} `{Backoff}.

Definition manager_options (cfg : AppConfig) (f : CtrlFlags) : ManagerOptions :=
  mkManagerOptions (default cfg.(MetricsAddr) f.(metricsBindAddress)) (default cfg.(ProbeAddr) f.(healthProbeBindAddress))
    (default cfg.(EnableLeaderElection) f.(leaderElect)) cfg.(LeaderElectionID).

(** SyncAllAgents with the client of the manager; its error is logged. *)
Definition initial_sync : prog BSig unit :=
  _ ← translate (Sg := MSig) (Sg' := BSig) (λ o, bcall (BApi o)) SyncAllAgents; mret tt.

(** [parsed] is the result of [flag.Parse]: the flags, or the code it ends the process with. *)
Definition main (env : Env) (b : Build) (parsed : CtrlFlags + Z) : prog BSig Exit :=
  let cfg := LoadConfiguration env in
  match parsed with
  | inr code => mret (mkExit code [])
  | inl f =>
      if f.(showVersion) then mret (mkExit 0 [GetVersionString b])
      else if f.(showVersionJSON) then mret (mkExit 0 [GetVersionJSON b])
      else
        config ← bcall BGetConfig;
        if negb config then mret (mkExit 1 [])
        else
          orExit (NewManagerFor (manager_options cfg f)) (
          orExit (SetupWithManager RemoteClusters SetupRemoteCluster) (
          orExit (SetupWithManager NamespaceMappings SetupNamespaceMapping) (
          orExit (SetupWithManager ClusterMappings SetupClusterMapping) (
          orExit AddHealthzCheck (
          orExit AddReadyzCheck (
          _ ← initial_sync;
          orExit StartManager (mret (mkExit 0 []))))))))
  end.
End Controller.

(** ** cmd/agent/main.go and pkg/agent/daemon *)

Record Daemon {RestConfig : Type} : Type := mkDaemon {
  dServer : SSHServer; dClient : option Server; dConfig : option RestConfig; dNamespace : string
}.
Arguments Daemon : clear implicits.

Section Agent.
Context {RestConfig : Type} `{LeaderElection}.

Definition NewDaemon (s : SSHServer) : Daemon RestConfig := mkDaemon _ s None None "".
Definition SetNamespace (ns : string) (d : Daemon RestConfig) : Daemon RestConfig := mkDaemon _ d.(dServer) d.(dClient) d.(dConfig) ns.

(** InitTempManager only stores the configuration. *)
Definition InitTempManager (config : RestConfig) (d : Daemon RestConfig) : res unit * Daemon RestConfig :=
  (Ok tt, mkDaemon _ d.(dServer) d.(dClient) (Some config) d.(dNamespace)).

Definition CleanupTempPods (d : Daemon RestConfig) : res unit := Ok tt.

(** Server.Stop returns nil: sshd belongs to the container. *)
Definition StopServer (s : SSHServer) : res unit := Ok tt.

Definition StopDaemon (d : Daemon RestConfig) : res unit :=
  match StopServer d.(dServer) with Ok _ => Ok tt | Err e => Err (plainf "failed to stop SSH server: " e) end.

(** The method, with the client it stores when the namespace is set *)
Definition init_keys (client : Server) (ticks : nat) (d : Daemon RestConfig) : MP (res unit * Daemon RestConfig) :=
  r ← InitKeySystem client ticks d.(dNamespace);
  mret (r, if d.(dNamespace) =s? "" then d else mkDaemon _ d.(dServer) (Some client) d.(dConfig) d.(dNamespace)).

Definition GetProxyInfo (d : Daemon RestConfig) : Z * string * string := (d.(dServer).(svPort), "running", "proxy").
Definition GetClient (d : Daemon RestConfig) : option Server := d.(dClient).

(** [clientcmd.BuildConfigFromFlags], [rest.InClusterConfig], the home directory, the files that
    [os.Stat] finds there, [kubernetes.NewForConfig], the environment and the service account. *)
Variables (BuildConfigFromFlags : string → res RestConfig) (InClusterConfig : res RestConfig)
  (HomeDir : string) (home_file : string → bool) (NewForConfig : RestConfig → res Server)
  (env : Env) (account : res string).

(** How the agent ends: its exit code, and the goroutine of the leader election it started. *)
Record AgentExit : Type := mkAgentExit { agentCode : Z; agentLeads : option (Server * string * string) }.

Definition failed_start : MP AgentExit := mret (mkAgentExit 1 None).

(** The files of the container when the server is made and when it is started; [ticks] ticks of
    the key rotation come before its context is done.  After a signal the daemon is stopped. *)
Definition agent_main (fs fs' : Files) (ticks : nat) (sshPort : Z) (kubeconfig : string) : MP AgentExit :=
  match NewServer fs sshPort with
  | Err _ => failed_start
  | Ok sshServer =>
      let d := NewDaemon sshServer in
      match getKubeConfig BuildConfigFromFlags InClusterConfig HomeDir home_file kubeconfig with
      | Err _ => failed_start
      | Ok config =>
          match NewForConfig config with
          | Err _ => failed_start
          | Ok clientset =>
              let namespace := getNamespace env account in
              let d := SetNamespace namespace d in
              match InitTempManager config d with
              | (Err _, _) => failed_start
              | (Ok _, d) =>
                  k ← init_keys clientset ticks d;
                  match k with
                  | (Err _, _) => failed_start
                  | (Ok _, d) =>
                      m ← AgentKeys.NewManager;
                      match m with
                      | Err _ => failed_start
                      | Ok podName =>
                          mret (mkAgentExit
                            match StartDaemon fs' d.(dServer) with
                            | Err _ => 1
                            | Ok _ => match StopDaemon d with Ok _ => 0 | Err _ => 1 end
                            end (Some (clientset, namespace, podName)))
                      end
                  end
              end
          end
      end
  end.
End Agent.

(** ** pkg/cli/client.go *)

Section Clients.
Context {RestConfig : Type}.
Variables (UserHomeDir : res string) (is_not_exist : string → bool) (BuildConfigFromFlags : string → res RestConfig)
  (NewForConfig NewDynamic : RestConfig → res unit) (ServerVersion : RestConfig → res unit).

(** The empty path panics in [kubeconfigPath[:1]]; main of the command line asks for one. *)
Definition loadKubeconfig (path : string) : exec (res RestConfig) :=
  let load path :=
    if is_not_exist path then Err (PlainError ("kubeconfig file not found: " +:+ path)) else BuildConfigFromFlags path in
  match path with
  | EmptyString => Panic "runtime error: slice bounds out of range [:1] with length 0"
  | String c rest =>
      Ret (if Ascii.eqb c "~" then
             match UserHomeDir with
             | Err e => Err (plainf "failed to get home directory: " e)
             | Ok homeDir => load (JoinPath [homeDir; rest])
             end
           else load path)
  end.

(** The two clients of a cluster, made from its configuration. *)
Definition make_clients (what : string) (path : string) : exec (res RestConfig) :=
  match loadKubeconfig path with
  | Panic w => Panic w
  | Ret (Err e) => Ret (Err (plainf ("failed to load " +:+ what +:+ " kubeconfig: ") e))
  | Ret (Ok config) =>
      Ret match NewForConfig config with
          | Err e => Err (plainf ("failed to create " +:+ what +:+ " Kubernetes client: ") e)
          | Ok _ =>
              match NewDynamic config with
              | Err e => Err (plainf ("failed to create " +:+ what +:+ " dynamic client: ") e)
              | Ok _ => Ok config
              end
          end
  end.

(** The configurations of the clients of the source and of the destination *)
Definition setupClients (cfg : Cli.Config) : exec (res (RestConfig * RestConfig)) :=
  match make_clients "source" cfg.(cfgSourceKubeconfig) with
  | Panic w => Panic w
  | Ret (Err e) => Ret (Err e)
  | Ret (Ok source) =>
      match make_clients "destination" cfg.(cfgDestKubeconfig) with
      | Panic w => Panic w
      | Ret (Err e) => Ret (Err e)
      | Ret (Ok dest) =>
          Ret match ServerVersion source with
              | Err e => Err (plainf "failed to connect to source cluster: " e)
              | Ok _ =>
                  match ServerVersion dest with
                  | Err e => Err (plainf "failed to connect to destination cluster: " e)
                  | Ok _ => Ok (source, dest)
                  end
              end
      end
  end.
End Clients.

(** ** The controller starts by a script *)

(** An answer with which main goes on; the error of the initial sync is only logged. *)
Definition succeeded (e : event BSig) : bool :=
  match e with
  | Ev o r =>
      match o as o return BResp o → bool with
      | BGetConfig => λ found, found
      | BManager _ => λ r, match r with Ok _ => true | Err _ => false end
      | BApi _ => λ _, true
      end r
  end.

(** The calls [tr] are those of the script up to the first that fails, which gives code 1. *)
Fixpoint follows (script : list BOp) (tr : list (event BSig)) (code : Z) : Prop :=
  match script, tr with
  | [], [] => code = 0
  | o :: script, e :: tr => ev_op e = o ∧ if succeeded e then follows script tr code else tr = [] ∧ code = 1
  | _, _ => False
  end.

Definition script (o : ManagerOptions) : list BOp :=
  [BGetConfig; BManager (NewManagerFor o); BManager (SetupWithManager RemoteClusters SetupRemoteCluster);
   BManager (SetupWithManager NamespaceMappings SetupNamespaceMapping); BManager (SetupWithManager ClusterMappings SetupClusterMapping);
   BManager AddHealthzCheck; BManager AddReadyzCheck; BApi MListClusters; BManager StartManager].

(** controller-runtime: the manager's client reads from a cache, which fails until the manager
    is started (ErrCacheNotStarted). *)
Definition cold_cache (tr : list (event BSig)) : Prop :=
  ∀ t1 l t2, tr = (t1 ++ Ev (Sg := BSig) (BApi MListClusters) (Ok l) :: t2)%list → BManager StartManager ∈ (ev_op <$> t1).

Lemma cold_cons e tr : cold_cache (e :: tr) → ev_op e ≠ BManager StartManager → cold_cache tr.
Proof.
  intros Hc He t1 l t2 ->. specialize (Hc (e :: t1) l t2 eq_refl). cbn in Hc.
  apply elem_of_cons in Hc as [Hc|Hc]; [by rewrite Hc in He|done].
Qed.

(** What is left of main follows the rest of the script. *)
Definition keeps_to (s : list BOp) (p : prog BSig Exit) : Prop :=
  ∀ tr out, cold_cache tr → runs p tr out → ∃ code, out = Ret (mkExit code []) ∧ follows s tr code.

Lemma keeps_to_orExit c k s :
  keeps_to s k → c ≠ StartManager ∨ (k = mret (mkExit 0 []) ∧ s = []) → keeps_to (BManager c :: s) (orExit c k).
Proof.
  intros Hk Hc tr out Hcold Hr. unfold orExit in Hr.
  apply (runs_call_inv (Sg := BSig) (BManager c)) in Hr as (r & t & -> & Hr). destruct r as [u|e].
  - destruct Hc as [Hc|[-> ->]].
    + destruct (Hk t out) as (code & -> & Hf); [eapply cold_cons; [exact Hcold|cbn; congruence]|done|]. by exists code.
    + apply runs_ret_inv in Hr as [-> ->]. by exists 0.
  - apply runs_ret_inv in Hr as [-> ->]. by exists 1.
Qed.

Section Script.
Context `{Quantities} `{Backoff}.

(** The initial sync reads the clusters, and no more. *)
Lemma initial_sync_cold k s tr out :
  keeps_to s k → cold_cache tr → runs (_ ← initial_sync; k) tr out →
  ∃ code, out = Ret (mkExit code []) ∧ follows (BApi MListClusters :: s) tr code.
Proof.
  intros Hk Hcold Hr. unfold initial_sync, SyncAllAgents in Hr.
  apply (runs_call_inv (Sg := BSig) (BApi MListClusters)) in Hr as (r & t & -> & Hr). destruct r as [l|e].
  - specialize (Hcold [] l t eq_refl). by apply not_elem_of_nil in Hcold.
  - destruct (Hk t out) as (code & -> & Hf); [by eapply cold_cons|exact Hr|]. by exists code.
Qed.

(** C25: main of the controller, on every execution in which the cache of the manager is cold until
    it is started: its calls are the script, up to the first that fails; the exit code is 0
    exactly when the manager ran and returned nil.  So the initial sync of the agents never gets
    past its first read, and no cluster is touched before the manager runs. *)
Theorem main_follows_script env b f tr out :
  f.(showVersion) = false → f.(showVersionJSON) = false → cold_cache tr → runs (main env b (inl f)) tr out →
  ∃ code, out = Ret (mkExit code []) ∧ follows (script (manager_options (LoadConfiguration env) f)) tr code.
Proof.
  intros Hv Hj Hcold Hr. unfold main in Hr. rewrite Hv, Hj in Hr.
  apply (runs_call_inv (Sg := BSig) BGetConfig) in Hr as (r & t & -> & Hr). destruct r; cbn [negb] in Hr.
  - match type of Hr with runs ?p _ _ => match goal with |- context [script ?o] => assert (Hk : keeps_to (tail (script o)) p) end end.
    { cbn [tail script]. repeat (apply keeps_to_orExit; [|by left]). intros t' out'. apply initial_sync_cold.
      apply keeps_to_orExit; [|by right]. intros t'' out'' _ Hr''. apply runs_ret_inv in Hr'' as [-> ->]. by exists 0. }
    destruct (Hk t out) as (code & -> & Hf); [by eapply cold_cons|done|]. by exists code.
  - apply runs_ret_inv in Hr as [-> ->]. by exists 1.
Qed.
End Script.

(** *** A start whose initial sync fails *)

(** A read of the clusters that succeeded. *)
Definition warm_read (e : event BSig) : bool :=
  match e with
  | Ev o r =>
      match o as o return BResp o → bool with
      | BApi o =>
          match o as o return MResp o → bool with
          | MListClusters => λ r, match r with Ok _ => true | Err _ => false end
          | _ => λ _, false
          end
      | _ => λ _, false
      end r
  end.

Lemma cold_of_reads tr : existsb warm_read tr = false → cold_cache tr.
Proof. intros Hw t1 l t2 ->. rewrite existsb_app in Hw. apply orb_false_iff in Hw as [_ Hw]. discriminate Hw. Qed.

(** A manager that runs until it is told to stop; its cache is cold. *)
Definition boot : handler BSig unit := λ o u,
  (match o as o return BResp o with
   | BGetConfig => true
   | BManager _ => Ok tt
   | BApi o =>
       match o as o return MResp o with
       | MListClusters => Err (PlainError "the cache is not started, can not read objects")
       | o => (all_good edge_spec None o tt).1
       end
   end, u).

Definition no_flags : CtrlFlags := mkCtrlFlags false false None (Some ":9090") None.
Definition built : Build := mkBuild "v1.2.3" "abc" "now" "go1.24" "linux" "amd64".

#[local] Existing Instance ten_steps.
#[local] Existing Instance any_quantity.

Lemma main_follows_script_witness :
  let p := main ∅ built (inl no_flags) in
  follows (script (mkManagerOptions ":8080" ":9090" false "dr-syncer.io")) (run_trace boot p tt) 0.
Proof.
  intros p. destruct (main_follows_script ∅ built no_flags (run_trace boot p tt) (run boot p tt).1) as (code & E & Hf);
    [reflexivity..|apply cold_of_reads; vm_compute; reflexivity|apply run_trace_runs|].
  vm_compute in E. injection E as <-. exact Hf.
Defined.

(** ** The agent touches its key secret only *)

(** A call that does not write, or that writes the key secret of the agents in [ns]. *)
Definition own_secret (client : Server) (ns : string) (o : MOp) : Prop :=
  match o with
  | MCreateSecret s x | MUpdateSecret s x => s = client ∧ x.(sNamespace) = ns ∧ x.(sName) = DefaultKeySecretName
  | MNow | MGetenv _ | MGetSecret _ _ _ | MGenerateKey => True
  | _ => False
  end.

Definition agent_reads (o : MOp) : Prop := match o with MGetenv _ | MGetSecret _ _ _ => True | _ => False end.

Definition all_calls (P : MOp → Prop) (tr : list (event MSig)) : Prop := Forall (λ e : event MSig, P (ev_op e)) tr.

(** The Lease of the agents in [ns]. *)
Definition agents_lease (client : Server) (ns podName : string) : LeaseLock :=
  mkLeaseLock client ns "pvc-syncer-agent-leader" podName.

(** The goroutine of the leader election reads the key secret; only if that failed it calls the
    Lease, and only after a call on the Lease succeeded it writes the key secret, and nothing
    else. *)
Definition guards_secret `{LeaderElection} (client : Server) (ns podName : string) : Prop :=
  let lease := on_lease (agents_lease client ns podName) in
  ∀ tr out, runs (lead client ns podName) tr out →
    ∃ r t, tr = Ev (Sg := MSig) (MGetSecret client ns DefaultKeySecretName) r :: t ∧
      match r with
      | Ok _ => t = []
      | Err _ =>
          all_calls lease t ∨
          ∃ before after, t = (before ++ Ev (Sg := MSig) (MLease client ns "pvc-syncer-agent-leader" podName) (Ok tt) :: after)%list ∧
            all_calls lease before ∧ all_calls (λ o, lease o ∨ own_secret client ns o) after
      end.

Section AgentProps.
Context {RestConfig : Type} `{LawfulLeaderElection}.
Variables (BuildConfigFromFlags : string → res RestConfig) (InClusterConfig : res RestConfig)
  (HomeDir : string) (home_file : string → bool) (NewForConfig : RestConfig → res Server)
  (env : Env) (account : res string).

Lemma generateSSHKeys_own client ns : safe (Sg := MSig) (own_secret client ns) (_ ← generateSSHKeys client ns; mret tt) (λ _, True).
Proof.
  cbn. split; [done|]. intros [[priv pub]|e]; cbn; [|done]. split; [done|]. intros now. split; [done|].
  intros [[]|e]; cbn; [done|]. destruct (IsAlreadyExists e); cbn; [|done]. split; [done|]. by intros [].
Qed.

Lemma interleaved_Forall {A} (P : A → Prop) l1 l2 l : interleaved l1 l2 l → Forall P l1 → Forall P l2 → Forall P l.
Proof. intros Hi. induction Hi; intros Ha Hb; decompose_Forall_hyps; constructor; auto. Qed.

Lemma lead_own client ns podName : guards_secret client ns podName.
Proof.
  intros tr out (r & t & -> & Hr)%(runs_call_inv (Sg := MSig) (MGetSecret client ns DefaultKeySecretName)). exists r, t. split; [done|].
  destruct r as [s|e]; [by apply runs_ret_inv in Hr as [-> _]|].
  assert (Hl : ∃ o, runs (RunOrDie (agents_lease client ns podName) (_ ← generateSSHKeys client ns; mret tt)) t o).
  { apply runs_bind_inv in Hr as [(x & t1 & t2 & Hg & Hn & ->)|(w & Hg & _)]; [|by eexists].
    apply runs_ret_inv in Hn as [-> _]. rewrite app_nil_r. by eexists. }
  destruct Hl as [o [Hl|(before & after & own & led & more & out' & -> & Hb & Ho & Hi & Hg)]%election_runs]; [by left|].
  right. exists before, after. split; [done|]. split; [done|].
  apply (safe_sound _ _ _ _ _ (generateSSHKeys_own client ns)) in Hg as [[Hg _]%Forall_app _].
  apply (interleaved_Forall _ _ _ _ Hi); (eapply Forall_impl; [done|]; by auto).
Qed.

(** What main of an agent returns. *)
Definition agent_ended (x : AgentExit) : Prop :=
  ∀ client ns podName, x.(agentLeads) = Some (client, ns, podName) → ns = getNamespace env account ∧ guards_secret client ns podName.

Lemma agent_main_safe fs fs' sshPort kubeconfig :
  safe (Sg := MSig) agent_reads
    (agent_main BuildConfigFromFlags InClusterConfig HomeDir home_file NewForConfig env account fs fs' 0 sshPort kubeconfig) agent_ended.
Proof.
  assert (Hn : agent_ended (mkAgentExit 1 None)) by (by intros client ns podName E).
  unfold agent_main, failed_start. destruct (NewServer fs sshPort) as [server|e]; [|done].
  destruct (getKubeConfig _ _ _ _ _) as [config|e]; [|done]. destruct (NewForConfig config) as [clientset|e]; [|done].
  cbn [InitTempManager]. unfold init_keys, InitKeySystem. cbn [dNamespace SetNamespace].
  destruct (getNamespace env account =s? ""); [done|]. cbn. split; [done|]. intros s. split; [done|]. intros h.
  destruct (h =s? ""); [done|]. cbn. intros client ns podName [= <- <- <-]. split; [done|]. apply lead_own.
Qed.

(** C26: The process of an agent, as main gives its rotation a context of thirty seconds: main itself
    only reads, so the keys are never rotated, and the goroutine of the leader election writes
    nothing but the Lease of the agents and the key secret of the agent's namespace: the Lease
    only after it failed to read the secret, the secret only after a call on the Lease
    succeeded. *)
Theorem agent_main_writes fs fs' ticks sshPort kubeconfig tr out :
  (ticks <= ticks_within DefaultKeyRotationInterval key_context)%nat →
  runs (agent_main BuildConfigFromFlags InClusterConfig HomeDir home_file NewForConfig env account fs fs' ticks sshPort kubeconfig) tr out →
  all_calls agent_reads tr ∧ ∀ x, out = Ret x → agent_ended x.
Proof.
  intros Ht Hr. assert (ticks = O) as -> by (vm_compute in Ht; lia).
  apply (safe_sound _ _ _ _ _ (agent_main_safe fs fs' sshPort kubeconfig) Hr).
Qed.
End AgentProps.

(** *** An agent that starts *)

Lemma interleaved_nil_l {A} (l : list A) : interleaved [] l l.
Proof. induction l; by constructor. Qed.

(** One call on the Lease: with it the candidate leads, or gives up. *)
#[local] Instance leader_here : LeaderElection := λ l started,
  r ← mcall (MLease l.(llServer) l.(llNamespace) l.(llName) l.(llIdentity)); match r with Ok _ => started | Err _ => mret tt end.
#[local] Instance leader_here_lawful : LawfulLeaderElection.
Proof.
  intros l started tr out (r & t & -> & Hr)%(runs_call_inv (Sg := MSig) (MLease _ _ _ _)). destruct r as [[]|e].
  - right. exists [], t, [], t, [], out. rewrite app_nil_r. split_and!; [done|constructor|constructor|apply interleaved_nil_l|done].
  - left. apply runs_ret_inv in Hr as [-> _]. by repeat constructor.
Qed.

Definition agent_files : Files :=
  list_to_map ((λ k, (k, Ok "content")) <$> ("/etc/ssh/keys/authorized_keys" :: "/etc/ssh/sshd_config" :: server_host_keys)).

Definition agent_answers (o : MOp) : MResp o :=
  match o as o return MResp o with MGetenv _ => "agent-x" | o => (all_good edge_spec None o tt).1 end.

Definition agent_handler : handler MSig unit := λ o u, (agent_answers o, u).

Definition an_agent : MP AgentExit :=
  agent_main (RestConfig := unit) (λ _, Err (PlainError "no file")) (Ok tt) "/root" (λ _, false) (λ _, Ok ControllerCluster)
    {["POD_NAMESPACE" := "dr-syncer"]} (Err (PlainError "no file")) agent_files agent_files
    (ticks_within DefaultKeyRotationInterval key_context) 2222 "".

Lemma agent_main_writes_witness :
  (run agent_handler an_agent tt).1 = Ret (mkAgentExit 0 (Some (ControllerCluster, "dr-syncer", "agent-x"))) ∧
  all_calls agent_reads (run_trace agent_handler an_agent tt) ∧ guards_secret ControllerCluster "dr-syncer" "agent-x".
Proof.
  split; [vm_compute; reflexivity|].
  destruct (agent_main_writes (RestConfig := unit) (λ _, Err (PlainError "no file")) (Ok tt) "/root" (λ _, false)
    (λ _, Ok ControllerCluster) {["POD_NAMESPACE" := "dr-syncer"]} (Err (PlainError "no file")) agent_files agent_files
    (ticks_within DefaultKeyRotationInterval key_context) 2222 "" _ _ ltac:(lia) (run_trace_runs agent_handler an_agent tt)) as [Hc He].
  split; [exact Hc|]. apply (He (mkAgentExit 0 (Some (ControllerCluster, "dr-syncer", "agent-x")))); [vm_compute; reflexivity|reflexivity].
Defined.

(** ** Texts and clients *)

Example version_texts :
  GetVersionString built = "Version: v1.2.3, GitCommit: abc, BuildTime: now" ∧
  json_string ("a<" +:+ String "034" (String "009" (String "092" ""))) =
    quote +:+ "a\u003c" +:+ String "092" quote +:+ "\t" +:+ String "092" (String "092" quote).
Proof. split; vm_compute; reflexivity. Qed.

(** A path in the home directory is expanded; the empty path is never passed on by main. *)
Example load_home :
  loadKubeconfig (RestConfig := string) (Ok "/root") (λ p, negb (p =s? "/root/.kube/config")) Ok "~/.kube/config" = Ret (Ok "/root/.kube/config") ∧
  loadKubeconfig (RestConfig := string) (Ok "/root") (λ p, true) Ok "x" = Ret (Err (PlainError "kubeconfig file not found: x")).
Proof. split; vm_compute; reflexivity. Qed.
