(* ===== verification/DeepCopy.v ===== *)
(** * Deep copies: api/v1alpha1

    The structs of the API and their DeepCopyInto methods, in the hand-written files and in
    zz_generated.deepcopy.go.  Values live in a store, so that it can be said what a copy shares
    with the original: a pointer, a slice and a map are references to a cell with its elements
    (one for a pointer; the entries of a map are structs of a key and a value).  Texts, numbers,
    metav1.Time, metav1.Duration and metav1.Condition are values without references; a struct
    of type metav1.ObjectMeta and its DeepCopyInto are parameters ([ObjectMetaCopy]). *)

From S2P Require Import Prelude.

(** ** Values and stores *)

Inductive Val : Type :=
| Base (s : string)
| Nil
| Ref (l : nat)
| Struct (fs : list (string * Val)).

Abbreviation Heap := (gmap nat (list Val)).

Inductive Ty : Type :=
| TBase
| TRef (t : Ty)
| TStruct (fs : list (string * Ty)).

(** An entry of a map *)
Definition TEntry (t : Ty) : Ty := TStruct [("key", TBase); ("value", t)].

(** ** Copying *)

(** What a DeepCopyInto does with a value: [Assign] is [*out = *in]; [New c] is a new cell, when
    the reference is not nil, whose elements are copied by [c]; [Fields] is [*out = *in]
    followed by the copies of the fields that are named. *)
Inductive Copier : Type :=
| Assign
| New (c : Copier)
| Fields (fs : list (string * Copier)).

Fixpoint assoc {A : Type} (k : string) (l : list (string * A)) : option A :=
  match l with
  | [] => None
  | (k', a) :: l => if k =s? k' then Some a else assoc k l
  end.

(** Copy the elements one after the other. *)
Fixpoint thread {A : Type} (f : A → Heap → A * Heap) (xs : list A) (h : Heap) : list A * Heap :=
  match xs with
  | [] => ([], h)
  | x :: xs => let '(x', h1) := f x h in let '(xs', h2) := thread f xs h1 in (x' :: xs', h2)
  end.

(** A field by the copier of its name. *)
Definition copy_field (table : list (string * (Val → Heap → Val * Heap))) (field : string * Val) (h : Heap) : (string * Val) * Heap :=
  match assoc field.1 table with
  | Some f => let '(x, h') := f field.2 h in ((field.1, x), h')
  | None => (field, h)
  end.

Fixpoint copy (c : Copier) (v : Val) (h : Heap) : Val * Heap :=
  match c with
  | Assign => (v, h)
  | New c =>
      match v with
      | Ref l =>
          match h !! l with
          | Some cell =>
              let '(cell', h') := thread (copy c) cell h in
              let l' := fresh (dom h') in
              (Ref l', <[l' := cell']> h')
          | None => (v, h)
          end
      | _ => (v, h)
      end
  | Fields cs =>
      match v with
      | Struct fs => let '(fs', h') := thread (copy_field (map (λ '(n, c), (n, copy c)) cs)) fs h in (Struct fs', h')
      | _ => (v, h)
      end
  end.

(** ** The structs *)

Definition StorageClassMapping_ty : Ty :=
  TStruct [("From", TBase); ("To", TBase)].
Definition AccessModeMapping_ty : Ty :=
  TStruct [("From", TBase); ("To", TBase)].
Definition PVCDataSyncConfig_ty : Ty :=
  TStruct [("ConcurrentSyncs", TRef TBase); ("ExcludePaths", TRef TBase); ("RsyncOptions", TRef TBase);
    ("BandwidthLimit", TRef TBase); ("Timeout", TRef TBase); ("VerificationMode", TBase); ("SamplePercent", TRef TBase)].
Definition PVCConfig_ty : Ty :=
  TStruct [("SyncPersistentVolumes", TBase); ("StorageClassMappings", TRef StorageClassMapping_ty);
    ("AccessModeMappings", TRef AccessModeMapping_ty); ("PreserveVolumeAttributes", TBase); ("SyncData", TBase);
    ("DataSyncConfig", TRef PVCDataSyncConfig_ty)].
Definition ImmutableResourceConfig_ty : Ty :=
  TStruct [("DefaultHandling", TBase); ("ResourceOverrides", TRef (TEntry TBase)); ("DrainTimeout", TRef TBase);
    ("ForceDeleteTimeout", TRef TBase)].
Definition ContinuousConfig_ty : Ty :=
  TStruct [("WatchResources", TRef TBase); ("BackgroundSyncInterval", TBase)].
Definition RetryConfig_ty : Ty :=
  TStruct [("MaxRetries", TRef TBase); ("InitialBackoff", TBase); ("MaxBackoff", TBase); ("BackoffMultiplier", TRef TBase)].
Definition FailureHandlingConfig_ty : Ty :=
  TStruct [("DefaultMode", TBase); ("StorageClassNotFound", TBase); ("ResourceNotFound", TBase); ("ValidationFailure", TBase);
    ("NetworkError", TBase)].
Definition IngressConfig_ty : Ty :=
  TStruct [("PreserveAnnotations", TRef TBase); ("PreserveTLS", TRef TBase); ("PreserveBackends", TRef TBase)].
Definition NamespaceConfig_ty : Ty :=
  TStruct [("CreateNamespace", TBase); ("PreserveLabels", TBase); ("PreserveAnnotations", TBase)].
Definition SecretReference_ty : Ty :=
  TStruct [("Name", TBase); ("Namespace", TBase)].
Definition ClusterMappingReference_ty : Ty :=
  TStruct [("Name", TBase); ("Namespace", TBase)].
Definition SyncProgress_ty : Ty :=
  TStruct [("PercentComplete", TBase); ("EstimatedTimeRemaining", TBase); ("CurrentOperation", TBase);
    ("ResourcesRemaining", TBase)].
Definition ResourceGroupStatus_ty : Ty :=
  TStruct [("GroupKind", TBase); ("TotalCount", TBase); ("SyncedCount", TBase); ("FailedCount", TBase); ("PendingCount", TBase)].
Definition ResourceDependency_ty : Ty :=
  TStruct [("Kind", TBase); ("Name", TBase); ("Status", TBase)].
Definition SyncAttempt_ty : Ty :=
  TStruct [("Time", TBase); ("Result", TBase)].
Definition DetailedResourceStatus_ty : Ty :=
  TStruct [("Name", TBase); ("Version", TBase); ("SyncState", TBase); ("Dependencies", TRef ResourceDependency_ty);
    ("LastAttempt", TRef SyncAttempt_ty)].
Definition ErrorCategory_ty : Ty :=
  TStruct [("Category", TBase); ("Count", TBase); ("LastOccurred", TBase)].
Definition RetryStatus_ty : Ty :=
  TStruct [("NextRetryTime", TRef TBase); ("RetriesRemaining", TBase); ("BackoffDuration", TBase)].
Definition SyncStats_ty : Ty :=
  TStruct [("TotalResources", TBase); ("SuccessfulSyncs", TBase); ("FailedSyncs", TBase); ("LastSyncDuration", TBase)].
Definition ResourceStatus_ty : Ty :=
  TStruct [("Kind", TBase); ("Name", TBase); ("Namespace", TBase); ("Status", TBase); ("LastSyncTime", TRef TBase);
    ("Error", TBase)].
Definition SyncError_ty : Ty :=
  TStruct [("Message", TBase); ("Time", TBase); ("Resource", TBase)].
Definition DeploymentScale_ty : Ty :=
  TStruct [("Name", TBase); ("OriginalReplicas", TBase); ("LastSyncedAt", TRef TBase)].
Definition NamespaceMappingSpec_ty : Ty :=
  TStruct [("Paused", TRef TBase); ("ReplicationMode", TBase); ("NamespaceConfig", TRef NamespaceConfig_ty);
    ("Continuous", TRef ContinuousConfig_ty); ("RetryConfig", TRef RetryConfig_ty);
    ("TempPodKeySecretRef", TRef SecretReference_ty); ("SourceCluster", TBase); ("DestinationCluster", TBase);
    ("SourceNamespace", TBase); ("DestinationNamespace", TBase); ("Schedule", TBase); ("ResourceTypes", TRef TBase);
    ("ScaleToZero", TRef TBase); ("NamespaceScopedResources", TRef TBase); ("PVCConfig", TRef PVCConfig_ty);
    ("ImmutableResourceConfig", TRef ImmutableResourceConfig_ty); ("SyncCRDs", TRef TBase);
    ("FailureHandling", TRef FailureHandlingConfig_ty); ("IngressConfig", TRef IngressConfig_ty);
    ("ClusterMappingRef", TRef ClusterMappingReference_ty)].
Definition NamespaceMappingStatus_ty : Ty :=
  TStruct [("Phase", TBase); ("LastSyncTime", TRef TBase); ("NextSyncTime", TRef TBase); ("LastWatchEvent", TRef TBase);
    ("SyncProgress", TRef SyncProgress_ty); ("SyncStats", TRef SyncStats_ty); ("ResourceGroups", TRef ResourceGroupStatus_ty);
    ("DetailedStatus", TRef DetailedResourceStatus_ty); ("ErrorCategories", TRef ErrorCategory_ty);
    ("RetryStatus", TRef RetryStatus_ty); ("ResourceStatus", TRef ResourceStatus_ty); ("LastError", TRef SyncError_ty);
    ("Conditions", TRef TBase); ("DeploymentScales", TRef DeploymentScale_ty)].
Definition ClusterMappingSSHKeySecretRef_ty : Ty :=
  TStruct [("Name", TBase); ("Namespace", TBase); ("PublicKeyKey", TBase); ("PrivateKeyKey", TBase)].
Definition ClusterMappingSpec_ty : Ty :=
  TStruct [("Paused", TRef TBase); ("SourceCluster", TBase); ("TargetCluster", TBase);
    ("SSHKeySecretRef", TRef ClusterMappingSSHKeySecretRef_ty); ("VerifyConnectivity", TRef TBase);
    ("ConnectivityTimeoutSeconds", TRef TBase)].
Definition AgentConnectionDetail_ty : Ty :=
  TStruct [("SourceNode", TBase); ("TargetNode", TBase); ("Connected", TBase); ("Error", TBase)].
Definition ConnectionStatus_ty : Ty :=
  TStruct [("TotalSourceAgents", TBase); ("TotalTargetAgents", TBase); ("ConnectedAgents", TBase);
    ("ConnectionDetails", TRef AgentConnectionDetail_ty)].
Definition ClusterMappingStatus_ty : Ty :=
  TStruct [("Phase", TBase); ("Message", TBase); ("LastVerified", TRef TBase); ("ConnectionStatus", TRef ConnectionStatus_ty);
    ("Conditions", TRef TBase); ("LastAttemptTime", TRef TBase); ("ConsecutiveFailures", TBase)].
Definition KubeconfigSecretRef_ty : Ty :=
  TStruct [("Name", TBase); ("Namespace", TBase); ("Key", TBase)].
Definition PVCSyncImage_ty : Ty :=
  TStruct [("Repository", TBase); ("Tag", TBase); ("PullPolicy", TBase)].
Definition SSHKeySecretRef_ty : Ty :=
  TStruct [("Name", TBase); ("Namespace", TBase)].
Definition PVCSyncSSH_ty : Ty :=
  TStruct [("Port", TBase); ("KeySecretRef", TRef SSHKeySecretRef_ty)].
Definition PVCSyncRetryConfig_ty : Ty :=
  TStruct [("MaxRetries", TBase); ("InitialDelay", TBase); ("MaxDelay", TBase)].
Definition ResourceRequirements_ty : Ty :=
  TStruct [("Limits", TRef (TEntry TBase)); ("Requests", TRef (TEntry TBase))].
Definition ObjectFieldSelector_ty : Ty :=
  TStruct [("FieldPath", TBase)].
Definition EnvVarSource_ty : Ty :=
  TStruct [("FieldRef", TRef ObjectFieldSelector_ty)].
Definition EnvVar_ty : Ty :=
  TStruct [("Name", TBase); ("Value", TBase); ("ValueFrom", TRef EnvVarSource_ty)].
Definition PVCSyncDeployment_ty : Ty :=
  TStruct [("HostNetwork", TRef TBase); ("NodeSelector", TRef (TEntry TBase)); ("Tolerations", TRef (TRef (TEntry TBase)));
    ("Resources", TRef ResourceRequirements_ty); ("Annotations", TRef (TEntry TBase)); ("Labels", TRef (TEntry TBase));
    ("PriorityClassName", TBase); ("Privileged", TRef TBase); ("ExtraEnv", TRef EnvVar_ty)].
Definition HealthCheckConfig_ty : Ty :=
  TStruct [("Interval", TBase); ("SSHTimeout", TBase); ("RetryAttempts", TBase); ("RetryInterval", TBase)].
Definition RsyncDaemonSetConfig_ty : Ty :=
  TStruct [("Enabled", TRef TBase); ("Image", TBase); ("Namespace", TBase); ("SSHSecretName", TBase)].
Definition PVCSyncSpec_ty : Ty :=
  TStruct [("Enabled", TBase); ("Image", TRef PVCSyncImage_ty); ("SSH", TRef PVCSyncSSH_ty); ("Concurrency", TRef TBase);
    ("GlobalConcurrencyLimit", TRef TBase); ("RetryConfig", TRef PVCSyncRetryConfig_ty);
    ("Deployment", TRef PVCSyncDeployment_ty); ("HealthCheck", TRef HealthCheckConfig_ty); ("DefaultVerificationMode", TBase);
    ("DefaultSamplePercent", TRef TBase); ("RsyncDaemonSet", TRef RsyncDaemonSetConfig_ty)].
Definition RemoteClusterSpec_ty : Ty :=
  TStruct [("KubeconfigSecretRef", KubeconfigSecretRef_ty); ("DefaultSchedule", TBase); ("DefaultResourceTypes", TRef TBase);
    ("PVCSync", TRef PVCSyncSpec_ty)].
Definition SSHConnectionStatus_ty : Ty :=
  TStruct [("LastCheckTime", TRef TBase); ("Connected", TBase); ("Error", TBase)].
Definition PodStatus_ty : Ty :=
  TStruct [("Phase", TBase); ("Ready", TBase); ("RestartCount", TBase); ("LastTransitionTime", TRef TBase)].
Definition PVCSyncNodeStatus_ty : Ty :=
  TStruct [("Ready", TBase); ("LastHeartbeat", TRef TBase); ("SSHStatus", TRef SSHConnectionStatus_ty);
    ("PodStatus", TRef PodStatus_ty); ("Message", TBase)].
Definition PVCSyncAgentStatus_ty : Ty :=
  TStruct [("ReadyNodes", TBase); ("TotalNodes", TBase); ("NodeStatuses", TRef (TEntry PVCSyncNodeStatus_ty))].
Definition PVCSyncStatus_ty : Ty :=
  TStruct [("Phase", TBase); ("AgentStatus", TRef PVCSyncAgentStatus_ty); ("LastSuccessfulSync", TRef TBase);
    ("LastDeploymentTime", TRef TBase); ("FailedSyncs", TBase); ("Message", TBase)].
Definition RemoteClusterStatus_ty : Ty :=
  TStruct [("Health", TBase); ("LastSyncTime", TRef TBase); ("Conditions", TRef TBase); ("PVCSync", TRef PVCSyncStatus_ty)].

(** ** DeepCopyInto *)

Definition StorageClassMapping_DeepCopyInto : Copier := Assign.
Definition AccessModeMapping_DeepCopyInto : Copier := Assign.
Definition PVCDataSyncConfig_DeepCopyInto : Copier :=
  Fields [("ConcurrentSyncs", New Assign); ("ExcludePaths", New Assign); ("RsyncOptions", New Assign);
    ("BandwidthLimit", New Assign); ("Timeout", New Assign); ("SamplePercent", New Assign)].
Definition PVCConfig_DeepCopyInto : Copier :=
  Fields [("StorageClassMappings", New Assign); ("AccessModeMappings", New Assign);
    ("DataSyncConfig", New PVCDataSyncConfig_DeepCopyInto)].
Definition ImmutableResourceConfig_DeepCopyInto : Copier :=
  Fields [("ResourceOverrides", New Assign); ("DrainTimeout", New Assign); ("ForceDeleteTimeout", New Assign)].
Definition ContinuousConfig_DeepCopyInto : Copier :=
  Fields [("WatchResources", New Assign)].
Definition RetryConfig_DeepCopyInto : Copier :=
  Fields [("MaxRetries", New Assign); ("BackoffMultiplier", New Assign)].
Definition FailureHandlingConfig_DeepCopyInto : Copier := Assign.
Definition IngressConfig_DeepCopyInto : Copier :=
  Fields [("PreserveAnnotations", New Assign); ("PreserveTLS", New Assign); ("PreserveBackends", New Assign)].
Definition NamespaceConfig_DeepCopyInto : Copier := Assign.
Definition SecretReference_DeepCopyInto : Copier := Assign.
Definition ClusterMappingReference_DeepCopyInto : Copier := Assign.
Definition SyncProgress_DeepCopyInto : Copier := Assign.
Definition ResourceGroupStatus_DeepCopyInto : Copier := Assign.
Definition ResourceDependency_DeepCopyInto : Copier := Assign.
Definition SyncAttempt_DeepCopyInto : Copier := Assign.
Definition DetailedResourceStatus_DeepCopyInto : Copier :=
  Fields [("Dependencies", New Assign); ("LastAttempt", New Assign)].
Definition ErrorCategory_DeepCopyInto : Copier := Assign.
Definition RetryStatus_DeepCopyInto : Copier :=
  Fields [("NextRetryTime", New Assign)].
Definition SyncStats_DeepCopyInto : Copier := Assign.
Definition ResourceStatus_DeepCopyInto : Copier :=
  Fields [("LastSyncTime", New Assign)].
Definition SyncError_DeepCopyInto : Copier := Assign.
Definition DeploymentScale_DeepCopyInto : Copier :=
  Fields [("LastSyncedAt", New Assign)].
Definition NamespaceMappingSpec_DeepCopyInto : Copier :=
  Fields [("NamespaceConfig", New Assign); ("Continuous", New Assign); ("RetryConfig", New RetryConfig_DeepCopyInto);
    ("ResourceTypes", New Assign); ("ScaleToZero", New Assign); ("NamespaceScopedResources", New Assign);
    ("PVCConfig", New PVCConfig_DeepCopyInto); ("ImmutableResourceConfig", New ImmutableResourceConfig_DeepCopyInto);
    ("SyncCRDs", New Assign); ("FailureHandling", New FailureHandlingConfig_DeepCopyInto);
    ("IngressConfig", New IngressConfig_DeepCopyInto); ("ClusterMappingRef", New Assign); ("TempPodKeySecretRef", New Assign)].
Definition NamespaceMappingStatus_DeepCopyInto : Copier :=
  Fields [("LastSyncTime", New Assign); ("NextSyncTime", New Assign); ("LastWatchEvent", New Assign);
    ("SyncProgress", New SyncProgress_DeepCopyInto); ("SyncStats", New Assign);
    ("ResourceGroups", New ResourceGroupStatus_DeepCopyInto); ("DetailedStatus", New DetailedResourceStatus_DeepCopyInto);
    ("ErrorCategories", New Assign); ("RetryStatus", New RetryStatus_DeepCopyInto);
    ("ResourceStatus", New ResourceStatus_DeepCopyInto); ("LastError", New Assign); ("Conditions", New Assign);
    ("DeploymentScales", New DeploymentScale_DeepCopyInto)].
Definition KubeconfigSecretRef_DeepCopyInto : Copier := Assign.
Definition PVCSyncImage_DeepCopyInto : Copier := Assign.
Definition SSHKeySecretRef_DeepCopyInto : Copier := Assign.
Definition PVCSyncSSH_DeepCopyInto : Copier :=
  Fields [("KeySecretRef", New Assign)].
Definition PVCSyncRetryConfig_DeepCopyInto : Copier := Assign.
Definition ResourceRequirements_DeepCopyInto : Copier :=
  Fields [("Limits", New Assign); ("Requests", New Assign)].
Definition ObjectFieldSelector_DeepCopyInto : Copier := Assign.
Definition EnvVarSource_DeepCopyInto : Copier :=
  Fields [("FieldRef", New Assign)].
Definition EnvVar_DeepCopyInto : Copier :=
  Fields [("ValueFrom", New EnvVarSource_DeepCopyInto)].
Definition PVCSyncDeployment_DeepCopyInto : Copier :=
  Fields [("HostNetwork", New Assign); ("NodeSelector", New Assign); ("Tolerations", New (New Assign));
    ("Resources", New ResourceRequirements_DeepCopyInto); ("Annotations", New Assign); ("Labels", New Assign);
    ("Privileged", New Assign); ("ExtraEnv", New EnvVar_DeepCopyInto)].
Definition HealthCheckConfig_DeepCopyInto : Copier := Assign.
Definition PVCSyncSpec_DeepCopyInto : Copier :=
  Fields [("Image", New Assign); ("SSH", New PVCSyncSSH_DeepCopyInto); ("Concurrency", New Assign); ("RetryConfig", New Assign);
    ("Deployment", New PVCSyncDeployment_DeepCopyInto); ("HealthCheck", New Assign)].
Definition RemoteClusterSpec_DeepCopyInto : Copier :=
  Fields [("DefaultResourceTypes", New Assign); ("PVCSync", New PVCSyncSpec_DeepCopyInto)].
Definition SSHConnectionStatus_DeepCopyInto : Copier :=
  Fields [("LastCheckTime", New Assign)].
Definition PodStatus_DeepCopyInto : Copier :=
  Fields [("LastTransitionTime", New Assign)].
Definition PVCSyncNodeStatus_DeepCopyInto : Copier :=
  Fields [("LastHeartbeat", New Assign); ("SSHStatus", New SSHConnectionStatus_DeepCopyInto);
    ("PodStatus", New PodStatus_DeepCopyInto)].
Definition PVCSyncAgentStatus_DeepCopyInto : Copier :=
  Fields [("NodeStatuses", New (Fields [("value", PVCSyncNodeStatus_DeepCopyInto)]))].
Definition PVCSyncStatus_DeepCopyInto : Copier :=
  Fields [("AgentStatus", New PVCSyncAgentStatus_DeepCopyInto); ("LastSuccessfulSync", New Assign);
    ("LastDeploymentTime", New Assign)].
Definition RemoteClusterStatus_DeepCopyInto : Copier :=
  Fields [("LastSyncTime", New Assign); ("Conditions", New Assign); ("PVCSync", New PVCSyncStatus_DeepCopyInto)].

(** ** DeepCopy

    [if in == nil { return nil }; out := new(T); in.DeepCopyInto(out); return out] *)

Definition StorageClassMapping_DeepCopy : Copier := New StorageClassMapping_DeepCopyInto.
Definition AccessModeMapping_DeepCopy : Copier := New AccessModeMapping_DeepCopyInto.
Definition PVCDataSyncConfig_DeepCopy : Copier := New PVCDataSyncConfig_DeepCopyInto.
Definition PVCConfig_DeepCopy : Copier := New PVCConfig_DeepCopyInto.
Definition ImmutableResourceConfig_DeepCopy : Copier := New ImmutableResourceConfig_DeepCopyInto.
Definition ContinuousConfig_DeepCopy : Copier := New ContinuousConfig_DeepCopyInto.
Definition RetryConfig_DeepCopy : Copier := New RetryConfig_DeepCopyInto.
Definition FailureHandlingConfig_DeepCopy : Copier := New FailureHandlingConfig_DeepCopyInto.
Definition IngressConfig_DeepCopy : Copier := New IngressConfig_DeepCopyInto.
Definition NamespaceConfig_DeepCopy : Copier := New NamespaceConfig_DeepCopyInto.
Definition SecretReference_DeepCopy : Copier := New SecretReference_DeepCopyInto.
Definition ClusterMappingReference_DeepCopy : Copier := New ClusterMappingReference_DeepCopyInto.
Definition SyncProgress_DeepCopy : Copier := New SyncProgress_DeepCopyInto.
Definition ResourceGroupStatus_DeepCopy : Copier := New ResourceGroupStatus_DeepCopyInto.
Definition ResourceDependency_DeepCopy : Copier := New ResourceDependency_DeepCopyInto.
Definition SyncAttempt_DeepCopy : Copier := New SyncAttempt_DeepCopyInto.
Definition DetailedResourceStatus_DeepCopy : Copier := New DetailedResourceStatus_DeepCopyInto.
Definition ErrorCategory_DeepCopy : Copier := New ErrorCategory_DeepCopyInto.
Definition RetryStatus_DeepCopy : Copier := New RetryStatus_DeepCopyInto.
Definition SyncStats_DeepCopy : Copier := New SyncStats_DeepCopyInto.
Definition ResourceStatus_DeepCopy : Copier := New ResourceStatus_DeepCopyInto.
Definition SyncError_DeepCopy : Copier := New SyncError_DeepCopyInto.
Definition DeploymentScale_DeepCopy : Copier := New DeploymentScale_DeepCopyInto.
Definition NamespaceMappingSpec_DeepCopy : Copier := New NamespaceMappingSpec_DeepCopyInto.
Definition NamespaceMappingStatus_DeepCopy : Copier := New NamespaceMappingStatus_DeepCopyInto.
Definition KubeconfigSecretRef_DeepCopy : Copier := New KubeconfigSecretRef_DeepCopyInto.
Definition PVCSyncImage_DeepCopy : Copier := New PVCSyncImage_DeepCopyInto.
Definition SSHKeySecretRef_DeepCopy : Copier := New SSHKeySecretRef_DeepCopyInto.
Definition PVCSyncSSH_DeepCopy : Copier := New PVCSyncSSH_DeepCopyInto.
Definition PVCSyncRetryConfig_DeepCopy : Copier := New PVCSyncRetryConfig_DeepCopyInto.
Definition ResourceRequirements_DeepCopy : Copier := New ResourceRequirements_DeepCopyInto.
Definition ObjectFieldSelector_DeepCopy : Copier := New ObjectFieldSelector_DeepCopyInto.
Definition EnvVarSource_DeepCopy : Copier := New EnvVarSource_DeepCopyInto.
Definition EnvVar_DeepCopy : Copier := New EnvVar_DeepCopyInto.
Definition PVCSyncDeployment_DeepCopy : Copier := New PVCSyncDeployment_DeepCopyInto.
Definition HealthCheckConfig_DeepCopy : Copier := New HealthCheckConfig_DeepCopyInto.
Definition PVCSyncSpec_DeepCopy : Copier := New PVCSyncSpec_DeepCopyInto.
Definition RemoteClusterSpec_DeepCopy : Copier := New RemoteClusterSpec_DeepCopyInto.
Definition SSHConnectionStatus_DeepCopy : Copier := New SSHConnectionStatus_DeepCopyInto.
Definition PodStatus_DeepCopy : Copier := New PodStatus_DeepCopyInto.
Definition PVCSyncNodeStatus_DeepCopy : Copier := New PVCSyncNodeStatus_DeepCopyInto.
Definition PVCSyncAgentStatus_DeepCopy : Copier := New PVCSyncAgentStatus_DeepCopyInto.
Definition PVCSyncStatus_DeepCopy : Copier := New PVCSyncStatus_DeepCopyInto.
Definition RemoteClusterStatus_DeepCopy : Copier := New RemoteClusterStatus_DeepCopyInto.

(** metav1.ListMeta *)
Definition ListMeta_ty : Ty := TStruct [("SelfLink", TBase); ("ResourceVersion", TBase); ("Continue", TBase); ("RemainingItemCount", TRef TBase)].
Definition ListMeta_DeepCopyInto : Copier := Fields [("RemainingItemCount", New Assign)].

(** metav1.ObjectMeta and its DeepCopyInto *)
Class ObjectMetaCopy : Type := { meta_ty : Ty; meta_DeepCopyInto : Copier }.

Section Kinds.
Context `{ObjectMetaCopy}.

Definition NamespaceMapping_ty : Ty :=
  TStruct [("TypeMeta", TBase); ("ObjectMeta", meta_ty); ("Spec", NamespaceMappingSpec_ty);
    ("Status", NamespaceMappingStatus_ty)].
Definition NamespaceMappingList_ty : Ty :=
  TStruct [("TypeMeta", TBase); ("ListMeta", ListMeta_ty); ("Items", TRef NamespaceMapping_ty)].
Definition ClusterMapping_ty : Ty :=
  TStruct [("TypeMeta", TBase); ("ObjectMeta", meta_ty); ("Spec", ClusterMappingSpec_ty); ("Status", ClusterMappingStatus_ty)].
Definition ClusterMappingList_ty : Ty :=
  TStruct [("TypeMeta", TBase); ("ListMeta", ListMeta_ty); ("Items", TRef ClusterMapping_ty)].
Definition RemoteCluster_ty : Ty :=
  TStruct [("TypeMeta", TBase); ("ObjectMeta", meta_ty); ("Spec", RemoteClusterSpec_ty); ("Status", RemoteClusterStatus_ty)].
Definition RemoteClusterList_ty : Ty :=
  TStruct [("TypeMeta", TBase); ("ListMeta", ListMeta_ty); ("Items", TRef RemoteCluster_ty)].

Definition NamespaceMapping_DeepCopyInto : Copier :=
  Fields [("ObjectMeta", meta_DeepCopyInto); ("Spec", NamespaceMappingSpec_DeepCopyInto);
    ("Status", NamespaceMappingStatus_DeepCopyInto)].
Definition NamespaceMappingList_DeepCopyInto : Copier :=
  Fields [("Items", New NamespaceMapping_DeepCopyInto)].
Definition ClusterMapping_DeepCopyInto : Copier :=
  Fields [("ObjectMeta", meta_DeepCopyInto); ("Spec", Fields [("SSHKeySecretRef", New Assign);
    ("VerifyConnectivity", New Assign); ("ConnectivityTimeoutSeconds", New Assign)]);
    ("Status", Fields [("LastVerified", New Assign); ("ConnectionStatus", New (Fields [("ConnectionDetails", New Assign)]));
    ("Conditions", New Assign); ("LastAttemptTime", New Assign)])].
Definition ClusterMappingList_DeepCopyInto : Copier :=
  Fields [("Items", New ClusterMapping_DeepCopyInto)].
Definition RemoteCluster_DeepCopyInto : Copier :=
  Fields [("ObjectMeta", meta_DeepCopyInto); ("Spec", RemoteClusterSpec_DeepCopyInto);
    ("Status", RemoteClusterStatus_DeepCopyInto)].
Definition RemoteClusterList_DeepCopyInto : Copier :=
  Fields [("ListMeta", ListMeta_DeepCopyInto); ("Items", New RemoteCluster_DeepCopyInto)].

(** DeepCopy of the kinds and of their lists *)
Definition NamespaceMapping_DeepCopy : Copier := New NamespaceMapping_DeepCopyInto.
Definition ClusterMapping_DeepCopy : Copier := New ClusterMapping_DeepCopyInto.
Definition RemoteCluster_DeepCopy : Copier := New RemoteCluster_DeepCopyInto.
Definition NamespaceMappingList_DeepCopy : Copier := New NamespaceMappingList_DeepCopyInto.
Definition ClusterMappingList_DeepCopy : Copier := New ClusterMappingList_DeepCopyInto.
Definition RemoteClusterList_DeepCopy : Copier := New RemoteClusterList_DeepCopyInto.

(** DeepCopyObject: the copy as a runtime.Object, the nil interface ([None]) for a nil pointer. *)
Definition as_object (c : Copier) (v : Val) (h : Heap) : option Val * Heap :=
  match copy c v h with
  | (Nil, h') => (None, h')
  | (out, h') => (Some out, h')
  end.

Definition NamespaceMapping_DeepCopyObject : Val → Heap → option Val * Heap := as_object NamespaceMapping_DeepCopy.
Definition ClusterMapping_DeepCopyObject : Val → Heap → option Val * Heap := as_object ClusterMapping_DeepCopy.
Definition RemoteCluster_DeepCopyObject : Val → Heap → option Val * Heap := as_object RemoteCluster_DeepCopy.
Definition NamespaceMappingList_DeepCopyObject : Val → Heap → option Val * Heap := as_object NamespaceMappingList_DeepCopy.
Definition ClusterMappingList_DeepCopyObject : Val → Heap → option Val * Heap := as_object ClusterMappingList_DeepCopy.
Definition RemoteClusterList_DeepCopyObject : Val → Heap → option Val * Heap := as_object RemoteClusterList_DeepCopy.
End Kinds.
