(* ===== verification/DeepCopyProps.v ===== *)
(** * Theorems about deep copies

    A copier that misses no reference of a type gives a copy with the same content that shares
    no cell with the original, so that writing through the copy never changes the original.
    This is checked for the structs of the API; the copiers that miss fields are listed with
    what they miss. *)

From S2P Require Import Prelude DeepCopy.

(** ** Specification *)

(** The references of a type the copier leaves shared, as paths of field names. *)
Definition sub_copier (c : Copier) (n : string) : Copier :=
  match c with Fields cs => default Assign (assoc n cs) | _ => Assign end.

Fixpoint missing (t : Ty) (c : Copier) : list (list string) :=
  match t with
  | TBase => []
  | TRef t => match c with New c => missing t c | _ => [[]] end
  | TStruct fs => concat (map (λ '(n, t), map (cons n) (missing t (sub_copier c n))) fs)
  end.

(** A value of a type in a store. *)
Fixpoint typed (h : Heap) (t : Ty) (v : Val) : Prop :=
  match t with
  | TBase => ∃ s, v = Base s
  | TRef t => v = Nil ∨ ∃ l cell, v = Ref l ∧ h !! l = Some cell ∧ Forall (typed h t) cell
  | TStruct fs =>
      match v with
      | Struct vs =>
          (fix fields fs vs := match fs, vs with
                               | [], [] => True
                               | (n, t) :: fs, (m, x) :: vs => n = m ∧ typed h t x ∧ fields fs vs
                               | _, _ => False
                               end) fs vs
      | _ => False
      end
  end.

(** The cells a value reaches. *)
Inductive reaches (h : Heap) : Val → nat → Prop :=
| reaches_here l : reaches h (Ref l) l
| reaches_cell k cell x l : h !! k = Some cell → x ∈ cell → reaches h x l → reaches h (Ref k) l
| reaches_field fs n x l : (n, x) ∈ fs → reaches h x l → reaches h (Struct fs) l.

(** What a value holds, without its addresses. *)
#[warnings="-register-all"]
Inductive Content : Type := Leaf (s : string) | Null | Elements (cs : list Content) | Record_ (fs : list (string * Content)) | Ill.

Fixpoint content (h : Heap) (t : Ty) (v : Val) : Content :=
  match t, v with
  | TBase, Base s => Leaf s
  | TRef _, Nil => Null
  | TRef t, Ref l => Elements (map (content h t) (default [] (h !! l)))
  | TStruct fs, Struct vs =>
      Record_ ((fix fields fs vs := match fs, vs with
                                    | (n, t) :: fs, (m, x) :: vs => (n, content h t x) :: fields fs vs
                                    | _, _ => []
                                    end) fs vs)
  | _, _ => Ill
  end.

(** ** Induction over types *)

Fixpoint Ty_nested (P : Ty → Prop) (Hb : P TBase) (Hr : ∀ t, P t → P (TRef t))
    (Hs : ∀ fs, Forall (λ f, P f.2) fs → P (TStruct fs)) (t : Ty) : P t :=
  match t with
  | TBase => Hb
  | TRef t => Hr t (Ty_nested P Hb Hr Hs t)
  | TStruct fs =>
      Hs fs ((fix all fs : Forall (λ f, P f.2) fs :=
                match fs with
                | [] => List.Forall_nil _
                | f :: fs => List.Forall_cons _ _ _ (Ty_nested P Hb Hr Hs f.2) (all fs)
                end) fs)
  end.

(** ** A larger store *)

Definition fields_typed (h : Heap) (fs : list (string * Ty)) (vs : list (string * Val)) : Prop :=
  Forall2 (λ f v, f.1 = v.1 ∧ typed h f.2 v.2) fs vs.

Lemma typed_struct h fs v : typed h (TStruct fs) v ↔ ∃ vs, v = Struct vs ∧ fields_typed h fs vs.
Proof.
  cbn [typed]. destruct v as [s| |l|vs]; [naive_solver..|]. split.
  - intros Hf. exists vs. split; [done|]. revert vs Hf. induction fs as [|[n t] fs IH]; intros [|[m x] vs] Hf; try done; [constructor|].
    destruct Hf as (-> & Hx & Hf). constructor; [done|by apply IH].
  - intros (vs' & [= <-] & Hf). induction Hf as [|[n t] [m x] fs vs [Hn Hx] Hf IH]; [done|]. done.
Qed.

Definition fields_content (h : Heap) (fs : list (string * Ty)) (vs : list (string * Val)) : list (string * Content) :=
  zip_with (λ f v, (f.1, content h f.2 v.2)) fs vs.

Lemma content_struct h fs vs : content h (TStruct fs) (Struct vs) = Record_ (fields_content h fs vs).
Proof.
  cbn [content]. f_equal. revert vs. induction fs as [|[n t] fs IH]; intros [|[m x] vs]; [done..|]. cbn. f_equal. apply IH.
Qed.

Section Larger.
Context (h h' : Heap) (Hsub : h ⊆ h').

Lemma typed_larger t v : typed h t v → typed h' t v.
Proof.
  revert v. induction t as [|t IH|fs IH] using Ty_nested; intros v; [done| |].
  - intros [->|(l & cell & -> & Hl & Hc)]; [by left|right]. exists l, cell. split; [done|].
    split; [by eapply lookup_weaken|]. eapply Forall_impl; [exact Hc|]. exact IH.
  - rewrite !typed_struct. intros (vs & -> & Hf). exists vs. split; [done|]. revert vs Hf.
    induction IH as [|f fs Ht _ IHf]; intros vs Hf; inversion Hf as [|? v ? vs' [Hn Hv] Hvs]; subst; [constructor|].
    constructor; [split; [done|by apply Ht]|by apply IHf].
Qed.

Lemma content_larger t v : typed h t v → content h' t v = content h t v.
Proof.
  revert v. induction t as [|t IH|fs IH] using Ty_nested; intros v.
  - by intros [s ->].
  - intros [->|(l & cell & -> & Hl & Hc)]; [done|]. cbn [content]. rewrite Hl, (lookup_weaken _ _ _ _ Hl Hsub). cbn [default from_option id].
    f_equal. clear Hl. induction Hc as [|x cell Hx Hc IHc]; [done|]. cbn [map]. f_equal; [by apply IH|done].
  - rewrite typed_struct. intros (vs & -> & Hf). rewrite !content_struct. f_equal. revert vs Hf.
    induction IH as [|f fs Ht _ IHf]; intros vs Hf; inversion Hf as [|? v ? vs' [Hn Hv] Hvs]; subst; [done|].
    cbn. f_equal; [by rewrite Ht|by apply IHf].
Qed.

(** The cells a typed value reaches are those it reached before. *)
Lemma reaches_larger t v l : typed h t v → reaches h' v l → reaches h v l.
Proof.
  revert v l. induction t as [|t IH|fs IH] using Ty_nested; intros v l.
  - intros [s ->] Hr. inversion Hr.
  - intros [->|(k & cell & -> & Hk & Hc)] Hr; [inversion Hr|]. inversion Hr as [|? cell' x ? Hk' Hx Hr'|]; subst; [constructor|].
    rewrite (lookup_weaken _ _ _ _ Hk Hsub) in Hk'. injection Hk' as <-. eapply reaches_cell; [done..|].
    apply IH; [|done]. by apply (proj1 (Forall_forall _ _) Hc).
  - rewrite typed_struct. intros (vs & -> & Hf) Hr. inversion Hr as [| |? n x ? Hx Hr']; subst. apply (reaches_field _ _ n x); [done|].
    apply list_elem_of_lookup in Hx as [i Hi]. destruct (Forall2_lookup_r _ _ _ _ _ Hf Hi) as (f & Hfi & _ & Ht).
    apply (proj1 (Forall_lookup _ _) IH _ _ Hfi); done.
Qed.
End Larger.

(** ** Copies *)

(** [v'] in [h'] is a copy of [v] in [h] that reaches new cells only. *)
Record copied (t : Ty) (h : Heap) (v : Val) (h' : Heap) (v' : Val) : Prop := {
  copied_larger : h ⊆ h';
  copied_typed : typed h' t v';
  copied_content : content h' t v' = content h t v;
  copied_new : ∀ l, reaches h' v' l → h !! l = None
}.

(** A copy is still one after the store has grown. *)
Lemma copied_grow t h v h1 v' h2 : copied t h v h1 v' → h1 ⊆ h2 → copied t h v h2 v'.
Proof.
  intros [Hl Ht Hc Hn] H12. split; [by etrans|by eapply typed_larger|by rewrite (content_larger h1 h2)|].
  intros l Hr. apply Hn. by eapply reaches_larger.
Qed.

Lemma weaken_none (h h1 : Heap) l : h ⊆ h1 → h1 !! l = None → h !! l = None.
Proof. intros Hs Hn. by eapply lookup_weaken_None. Qed.

(** A copy made from a larger store is one from the smaller store. *)
Lemma copied_from t h h1 v h2 v' : h ⊆ h1 → typed h t v → copied t h1 v h2 v' → copied t h v h2 v'.
Proof.
  intros Hs Ht [Hl Ht' Hc Hn]. split; [by etrans|done|by rewrite Hc, (content_larger h h1)|].
  intros l Hr. eapply weaken_none; [exact Hs|]. by apply Hn.
Qed.

(** Elements copied one after the other, each by a step that copies it; [Q] ties an element to
    its type. *)
Lemma thread_copied {A B} (f : A → Heap → A * Heap) (val : A → Val) (ty : B → Ty) (Q : B → A → Prop) bs xs h xs' h' :
  (∀ b x h x' h', b ∈ bs → Q b x → typed h (ty b) (val x) → f x h = (x', h') → Q b x' ∧ copied (ty b) h (val x) h' (val x')) →
  Forall2 (λ b x, Q b x ∧ typed h (ty b) (val x)) bs xs → thread f xs h = (xs', h') →
  h ⊆ h' ∧ Forall3 (λ b x x', Q b x' ∧ copied (ty b) h (val x) h' (val x')) bs xs xs'.
Proof.
  intros Hf Hb. revert h xs' Hb. revert xs. induction bs as [|b bs IH]; intros xs h xs' Hb Ht;
    inversion Hb as [|? x ? xs0 [Hq Hx] Hxs]; subst; cbn [thread] in Ht.
  { injection Ht as <- <-. split; [done|constructor]. }
  destruct (f x h) as [x' h1] eqn:E. destruct (thread f xs0 h1) as [xs1 h2] eqn:E2. injection Ht as <- <-.
  destruct (Hf b x h x' h1) as [Hq' Hc]; [left|done..|]. pose proof (copied_larger _ _ _ _ _ Hc) as H1.
  destruct (IH (λ b x h x' h' Hi, Hf b x h x' h' (list_elem_of_further _ _ _ Hi)) xs0 h1 xs1) as [H2 H3]; [|done|].
  { eapply Forall2_impl; [exact Hxs|]. intros b' y [Hy Hty]. split; [done|]. by eapply typed_larger. }
  split; [by etrans|]. constructor; [split; [done|by eapply copied_grow]|].
  clear - H1 Hxs H3. revert xs1 H3. induction Hxs as [|b' y bs ys [Hy Hty] Hys IH]; intros zs H3; inversion H3 as [|? ? ? ? z ? [Hz Hc]]; subst; [constructor|].
  constructor; [split; [done|by eapply copied_from]|by apply IH].
Qed.

(** ** What a copier does with a struct *)

Lemma assoc_map {A B} (g : A → B) k l : assoc k (map (λ '(n, a), (n, g a)) l) = g <$> assoc k l.
Proof. induction l as [|[n a] l IH]; [done|]. cbn. by destruct (k =s? n). Qed.

Definition field_step (c : Copier) (f : string * Val) (h : Heap) : (string * Val) * Heap :=
  let '(x, h') := copy (sub_copier c f.1) f.2 h in ((f.1, x), h').

Lemma thread_ext {A} (f g : A → Heap → A * Heap) xs h : (∀ x h, f x h = g x h) → thread f xs h = thread g xs h.
Proof.
  intros Hfg. revert h. induction xs as [|x xs IH]; intros h; [done|]. cbn. rewrite Hfg. destruct (g x h) as [x' h1]. by rewrite IH.
Qed.

Lemma thread_id {A} (xs : list A) h : thread (λ x h, (x, h)) xs h = (xs, h).
Proof. revert h. induction xs as [|x xs IH]; intros h; [done|]. cbn. by rewrite IH. Qed.

Lemma copy_struct c vs h : copy c (Struct vs) h = (λ '(vs', h'), (Struct vs', h')) (thread (field_step c) vs h).
Proof.
  destruct c as [|c|cs].
  1, 2: rewrite (thread_ext (field_step _) (λ x h, (x, h)));
    [by rewrite thread_id|by intros [n x] h0].
  cbn [copy]. rewrite (thread_ext _ (field_step (Fields cs))); [by destruct (thread _ _ _)|].
  intros [n x] h0. unfold copy_field, field_step. cbn [fst snd sub_copier]. rewrite assoc_map.
  by destruct (assoc n cs) as [c|].
Qed.

Lemma missing_field fs c n t : missing (TStruct fs) c = [] → (n, t) ∈ fs → missing t (sub_copier c n) = [].
Proof.
  cbn [missing]. induction fs as [|[m u] fs IH]; [by intros _ ?%not_elem_of_nil|]. cbn [map concat]. intros [H1 H2]%app_eq_nil Hi.
  apply elem_of_cons in Hi as [[= -> ->]|Hi]; [|by apply IH]. by destruct (missing u (sub_copier c m)).
Qed.

(** ** Every complete copier copies *)

(** [c] copies values of type [t]. *)
Definition copies (t : Ty) (c : Copier) : Prop := ∀ v h v' h', typed h t v → copy c v h = (v', h') → copied t h v h' v'.

(** A new cell whose elements are copies. *)
Lemma copied_cell t h l cell h1 k cell' :
  h !! l = Some cell → h ⊆ h1 → h1 !! k = None → Forall2 (λ x x', copied t h x h1 x') cell cell' →
  copied (TRef t) h (Ref l) (<[k := cell']> h1) (Ref k).
Proof.
  intros Hl H1 Hk Hold. assert (H2 : h1 ⊆ <[k := cell']> h1) by (by apply insert_subseteq).
  assert (Hall : Forall2 (λ x x', copied t h x (<[k := cell']> h1) x') cell cell').
  { eapply Forall2_impl; [exact Hold|]. intros x x' Hx. exact (copied_grow _ _ _ _ _ _ Hx H2). }
  split; [by etrans| | |].
  - right. exists k, cell'. split; [done|]. split; [by rewrite lookup_insert_eq|].
    apply Forall_lookup. intros i x' Hi. destruct (Forall2_lookup_r _ _ _ _ _ Hall Hi) as (x & _ & Hx). by apply Hx.
  - cbn [content]. rewrite lookup_insert_eq, Hl. cbn [default from_option id]. f_equal. set (h2 := <[k := cell']> h1) in *. clearbody h2. clear - Hall.
    induction Hall as [|x x' xs xs' Hx _ IH]; [done|]. cbn [map]. f_equal; [by apply Hx|done].
  - intros l' Hr. inversion Hr as [|? cell2 x ? Hk2 Hx Hr'|]; subst; [exact (weaken_none _ _ _ H1 Hk)|].
    rewrite lookup_insert_eq in Hk2. injection Hk2 as <-. apply list_elem_of_lookup in Hx as [i Hi].
    destruct (Forall2_lookup_r _ _ _ _ _ Hall Hi) as (y & _ & Hy). by apply (copied_new _ _ _ _ _ Hy).
Qed.

Lemma copies_ref t c : copies t c → copies (TRef t) (New c).
Proof.
  intros Hc v h v' h' Ht E. destruct Ht as [->|(l & cell & -> & Hl & Hcell)]; cbn [copy] in E.
  { injection E as <- <-. split; [done|by left|done|]. intros l Hr. inversion Hr. }
  rewrite Hl in E. destruct (thread (copy c) cell h) as [cell' h1] eqn:Et. injection E as <- <-.
  apply (thread_copied _ id (λ _, t) (λ _ _, True) (replicate (length cell) tt)) in Et as [H1 H3]; cycle 1.
  { intros b x h0 x' h0' _ _ Hx E0. split; [done|]. by apply Hc. }
  { apply Forall2_replicate_l; [done|]. eapply Forall_impl; [exact Hcell|]. done. }
  apply (copied_cell t h l cell); [done|done|apply not_elem_of_dom, is_fresh|].
  remember (replicate (length cell) tt) as bs eqn:Eb. clear - H3.
  induction H3 as [|b x x' bs xs xs' [_ Hx] _ IH]; by constructor.
Qed.

(** A struct whose fields are copies. *)
Lemma copied_struct fs h vs h' vs' :
  h ⊆ h' → Forall3 (λ b x x', b.1 = x'.1 ∧ copied b.2 h x.2 h' x'.2) fs vs vs' → copied (TStruct fs) h (Struct vs) h' (Struct vs').
Proof.
  intros Hs H3. split; [done| | |].
  - apply typed_struct. exists vs'. split; [done|]. clear - H3. induction H3 as [|b x x' bs xs xs' [Hq Hx] _ IH]; constructor; [|done].
    split; [done|by apply Hx].
  - rewrite !content_struct. f_equal. clear - H3. induction H3 as [|b x x' bs xs xs' [Hq Hx] _ IH]; [done|].
    cbn. f_equal; [f_equal; by apply Hx|done].
  - intros l Hr. inversion Hr as [| |? n x ? Hx Hr']; subst. clear - H3 Hx Hr'.
    induction H3 as [|b y y' bs ys ys' [Hq Hy] _ IH]; [by apply not_elem_of_nil in Hx|].
    apply elem_of_cons in Hx as [<-|Hx]; [|by apply IH]. by apply (copied_new _ _ _ _ _ Hy).
Qed.

Lemma copies_struct fs c : (∀ n t, (n, t) ∈ fs → copies t (sub_copier c n)) → copies (TStruct fs) c.
Proof.
  intros Hc v h v' h' (vs & -> & Hf)%typed_struct E. rewrite copy_struct in E.
  destruct (thread (field_step c) vs h) as [vs' h1] eqn:Et. injection E as <- <-.
  apply (thread_copied _ snd snd (λ b x, b.1 = x.1) fs) in Et as [H1 H3]; [by apply copied_struct| |exact Hf].
  intros [n u] [m x] h0 [m' x'] h0' Hi Hn Hx E0. cbn in Hn, Hx. subst m. unfold field_step in E0. cbn [fst snd] in E0.
  destruct (copy (sub_copier c n) x h0) as [x1 h2] eqn:E1. injection E0 as <- <- <-. split; [done|]. by apply (Hc n u).
Qed.

Lemma copy_copied t c : missing t c = [] → copies t c.
Proof.
  revert c. induction t as [|t IH|fs IH] using Ty_nested; intros c Hm.
  - intros v h v' h' [s ->] E. assert (v' = Base s ∧ h' = h) as [-> ->] by (destruct c; by injection E).
    split; [done|by exists s|done|]. intros l Hr. inversion Hr.
  - destruct c as [|c|cs]; [done| |done]. by apply copies_ref, IH.
  - apply copies_struct. intros n t Hi. pose proof (missing_field _ _ _ _ Hm Hi) as Hu.
    apply list_elem_of_lookup in Hi as [i Hi]. by apply (proj1 (Forall_lookup _ _) IH _ _ Hi).
Qed.

(** ** The structs of the API *)

(** The structs whose DeepCopyInto copies every reference. *)
Definition complete_kinds : list (Ty * Copier) :=
  [(StorageClassMapping_ty, StorageClassMapping_DeepCopyInto); (AccessModeMapping_ty, AccessModeMapping_DeepCopyInto);
   (PVCDataSyncConfig_ty, PVCDataSyncConfig_DeepCopyInto); (PVCConfig_ty, PVCConfig_DeepCopyInto);
   (ImmutableResourceConfig_ty, ImmutableResourceConfig_DeepCopyInto); (ContinuousConfig_ty, ContinuousConfig_DeepCopyInto);
   (RetryConfig_ty, RetryConfig_DeepCopyInto); (FailureHandlingConfig_ty, FailureHandlingConfig_DeepCopyInto);
   (IngressConfig_ty, IngressConfig_DeepCopyInto); (NamespaceConfig_ty, NamespaceConfig_DeepCopyInto);
   (SecretReference_ty, SecretReference_DeepCopyInto); (ClusterMappingReference_ty, ClusterMappingReference_DeepCopyInto);
   (SyncProgress_ty, SyncProgress_DeepCopyInto); (ResourceGroupStatus_ty, ResourceGroupStatus_DeepCopyInto);
   (ResourceDependency_ty, ResourceDependency_DeepCopyInto); (SyncAttempt_ty, SyncAttempt_DeepCopyInto);
   (DetailedResourceStatus_ty, DetailedResourceStatus_DeepCopyInto); (ErrorCategory_ty, ErrorCategory_DeepCopyInto);
   (RetryStatus_ty, RetryStatus_DeepCopyInto); (SyncStats_ty, SyncStats_DeepCopyInto);
   (ResourceStatus_ty, ResourceStatus_DeepCopyInto); (SyncError_ty, SyncError_DeepCopyInto);
   (DeploymentScale_ty, DeploymentScale_DeepCopyInto); (NamespaceMappingStatus_ty, NamespaceMappingStatus_DeepCopyInto);
   (KubeconfigSecretRef_ty, KubeconfigSecretRef_DeepCopyInto); (PVCSyncImage_ty, PVCSyncImage_DeepCopyInto);
   (SSHKeySecretRef_ty, SSHKeySecretRef_DeepCopyInto); (PVCSyncSSH_ty, PVCSyncSSH_DeepCopyInto);
   (PVCSyncRetryConfig_ty, PVCSyncRetryConfig_DeepCopyInto); (ResourceRequirements_ty, ResourceRequirements_DeepCopyInto);
   (ObjectFieldSelector_ty, ObjectFieldSelector_DeepCopyInto); (EnvVarSource_ty, EnvVarSource_DeepCopyInto);
   (EnvVar_ty, EnvVar_DeepCopyInto); (PVCSyncDeployment_ty, PVCSyncDeployment_DeepCopyInto);
   (HealthCheckConfig_ty, HealthCheckConfig_DeepCopyInto); (SSHConnectionStatus_ty, SSHConnectionStatus_DeepCopyInto);
   (PodStatus_ty, PodStatus_DeepCopyInto); (PVCSyncNodeStatus_ty, PVCSyncNodeStatus_DeepCopyInto);
   (PVCSyncAgentStatus_ty, PVCSyncAgentStatus_DeepCopyInto); (PVCSyncStatus_ty, PVCSyncStatus_DeepCopyInto);
   (RemoteClusterStatus_ty, RemoteClusterStatus_DeepCopyInto)].

(** Their DeepCopy methods, which copy behind a pointer. *)
Definition complete_pointers : list (Ty * Copier) :=
  [(TRef StorageClassMapping_ty, StorageClassMapping_DeepCopy);
   (TRef AccessModeMapping_ty, AccessModeMapping_DeepCopy);
   (TRef PVCDataSyncConfig_ty, PVCDataSyncConfig_DeepCopy); (TRef PVCConfig_ty, PVCConfig_DeepCopy);
   (TRef ImmutableResourceConfig_ty, ImmutableResourceConfig_DeepCopy);
   (TRef ContinuousConfig_ty, ContinuousConfig_DeepCopy); (TRef RetryConfig_ty, RetryConfig_DeepCopy);
   (TRef FailureHandlingConfig_ty, FailureHandlingConfig_DeepCopy);
   (TRef IngressConfig_ty, IngressConfig_DeepCopy); (TRef NamespaceConfig_ty, NamespaceConfig_DeepCopy);
   (TRef SecretReference_ty, SecretReference_DeepCopy);
   (TRef ClusterMappingReference_ty, ClusterMappingReference_DeepCopy);
   (TRef SyncProgress_ty, SyncProgress_DeepCopy); (TRef ResourceGroupStatus_ty, ResourceGroupStatus_DeepCopy);
   (TRef ResourceDependency_ty, ResourceDependency_DeepCopy); (TRef SyncAttempt_ty, SyncAttempt_DeepCopy);
   (TRef DetailedResourceStatus_ty, DetailedResourceStatus_DeepCopy);
   (TRef ErrorCategory_ty, ErrorCategory_DeepCopy); (TRef RetryStatus_ty, RetryStatus_DeepCopy);
   (TRef SyncStats_ty, SyncStats_DeepCopy); (TRef ResourceStatus_ty, ResourceStatus_DeepCopy);
   (TRef SyncError_ty, SyncError_DeepCopy); (TRef DeploymentScale_ty, DeploymentScale_DeepCopy);
   (TRef NamespaceMappingStatus_ty, NamespaceMappingStatus_DeepCopy);
   (TRef KubeconfigSecretRef_ty, KubeconfigSecretRef_DeepCopy); (TRef PVCSyncImage_ty, PVCSyncImage_DeepCopy);
   (TRef SSHKeySecretRef_ty, SSHKeySecretRef_DeepCopy); (TRef PVCSyncSSH_ty, PVCSyncSSH_DeepCopy);
   (TRef PVCSyncRetryConfig_ty, PVCSyncRetryConfig_DeepCopy);
   (TRef ResourceRequirements_ty, ResourceRequirements_DeepCopy);
   (TRef ObjectFieldSelector_ty, ObjectFieldSelector_DeepCopy); (TRef EnvVarSource_ty, EnvVarSource_DeepCopy);
   (TRef EnvVar_ty, EnvVar_DeepCopy); (TRef PVCSyncDeployment_ty, PVCSyncDeployment_DeepCopy);
   (TRef HealthCheckConfig_ty, HealthCheckConfig_DeepCopy);
   (TRef SSHConnectionStatus_ty, SSHConnectionStatus_DeepCopy); (TRef PodStatus_ty, PodStatus_DeepCopy);
   (TRef PVCSyncNodeStatus_ty, PVCSyncNodeStatus_DeepCopy);
   (TRef PVCSyncAgentStatus_ty, PVCSyncAgentStatus_DeepCopy); (TRef PVCSyncStatus_ty, PVCSyncStatus_DeepCopy);
   (TRef RemoteClusterStatus_ty, RemoteClusterStatus_DeepCopy)].

Lemma complete_copies : Forall (λ k, missing k.1 k.2 = []) (complete_kinds ++ complete_pointers)%list.
Proof. repeat (constructor; [vm_compute; reflexivity|]). constructor. Qed.

(** C13: DeepCopyInto and DeepCopy of each of these structs, for every value in every store: the copy has the
    content of the original, and whatever is written later to a cell that the copy reaches, the
    content of the original stays what it was. *)
Theorem DeepCopyInto_independent t c v h v' h' :
  (t, c) ∈ (complete_kinds ++ complete_pointers)%list → typed h t v → copy c v h = (v', h') →
  content h' t v' = content h t v ∧ ∀ l cell, reaches h' v' l → content (<[l := cell]> h') t v = content h t v.
Proof.
  intros Hk Ht E. apply (proj1 (Forall_forall _ _) complete_copies) in Hk. cbn in Hk.
  destruct (copy_copied t c Hk v h v' h' Ht E) as [Hl _ Hc Hn]. split; [done|]. intros l cell Hr%Hn.
  apply content_larger; [|done]. etrans; [by apply (insert_subseteq h l cell)|]. by apply insert_mono.
Qed.

Section Kinds.
Context {OM : ObjectMetaCopy} (Hmeta : missing meta_ty meta_DeepCopyInto = []).

(** The kinds themselves are not copied completely: a NamespaceMapping shares the pointers
    [Paused] and [WatchResources], a ClusterMapping shares [Paused], and a RemoteCluster, whose
    generated code is older than its type, shares three pointers of its PVCSync settings. *)
Lemma kinds_share :
  missing NamespaceMapping_ty NamespaceMapping_DeepCopyInto = [["Spec"; "Paused"]; ["Spec"; "Continuous"; "WatchResources"]] ∧
  missing ClusterMapping_ty ClusterMapping_DeepCopyInto = [["Spec"; "Paused"]] ∧
  missing RemoteCluster_ty RemoteCluster_DeepCopyInto =
    [["Spec"; "PVCSync"; "GlobalConcurrencyLimit"]; ["Spec"; "PVCSync"; "DefaultSamplePercent"]; ["Spec"; "PVCSync"; "RsyncDaemonSet"]].
Proof.
  unfold NamespaceMapping_ty, NamespaceMapping_DeepCopyInto, ClusterMapping_ty, ClusterMapping_DeepCopyInto, RemoteCluster_ty,
    RemoteCluster_DeepCopyInto.
  split_and!; cbn; rewrite Hmeta; reflexivity.
Qed.
End Kinds.

(** ** Concrete copies *)

(** The zero value of a type, and a field of a struct replaced. *)
Fixpoint zero (t : Ty) : Val :=
  match t with
  | TBase => Base ""
  | TRef _ => Nil
  | TStruct fs => Struct (map (λ '(n, t), (n, zero t)) fs)
  end.

Definition with_field (n : string) (x : Val) (v : Val) : Val :=
  match v with
  | Struct fs => Struct (map (λ '(m, y), (m, if m =s? n then x else y)) fs)
  | v => v
  end.

(** The field of a struct, and what a pointer points to. *)
Definition field (n : string) (v : Val) : Val := match v with Struct fs => default Nil (assoc n fs) | _ => Nil end.
Definition pointee (h : Heap) (v : Val) : option (list Val) := match v with Ref l => h !! l | _ => None end.

Definition retries : Val := with_field "MaxRetries" (Ref 7) (zero RetryConfig_ty).
Definition retries_heap : Heap := {[7%nat := [Base "5"]]}.

Lemma DeepCopyInto_independent_witness :
  let r := copy RetryConfig_DeepCopyInto retries retries_heap in
  content r.2 RetryConfig_ty r.1 = content retries_heap RetryConfig_ty retries ∧
  ∀ l cell, reaches r.2 r.1 l → content (<[l := cell]> r.2) RetryConfig_ty retries = content retries_heap RetryConfig_ty retries.
Proof.
  intros r. apply (DeepCopyInto_independent RetryConfig_ty RetryConfig_DeepCopyInto retries retries_heap r.1 r.2).
  - apply list_elem_of_In. repeat (first [left; reflexivity | right]).
  - split; [reflexivity|]. split; [right; exists 7%nat, [Base "5"]; repeat split; constructor; [by eexists|constructor]|].
    repeat split; try by eexists. by left.
  - reflexivity.
Defined.

(** Writing through the copy of a paused mapping's spec resumes the original. *)
Example NamespaceMappingSpec_shares_Paused :
  let v := with_field "Paused" (Ref 0) (zero NamespaceMappingSpec_ty) in
  let h : Heap := {[0%nat := [Base "true"]]} in
  let '(v', h') := copy NamespaceMappingSpec_DeepCopyInto v h in
  ∃ l, field "Paused" v' = Ref l ∧ pointee h (field "Paused" v) = Some [Base "true"] ∧
       pointee (<[l := [Base "false"]]> h') (field "Paused" v) = Some [Base "false"].
Proof. exists 0%nat. repeat split. Qed.
